(** * eve.fit: the fitting computation core, embedded in Rocq

    A shallow embedding of the pure parts of the ship-fitting simulator:

    - [EFT]:    the EFT text codec of [src/lib/eft-parser.ts];
    - [Cap]:    the capacitor simulator of [src/lib/utils.ts];
    - [Stats]:  the stats calculator of [src/lib/stats.ts];
    - [Skills]: the skill bonus engine of [src/lib/skills.ts];
    - [Plan]:   the skill plan resolver of [src/lib/skill-plan.ts];
    - [Store]:  the mutation surface of [src/store/fitting-store.ts].

    Conventions.  A JavaScript string is a list of 8-bit code units
    ([list ascii]); the white space of [trim] and of the regular
    expression class [\s] is then tab, line feed, vertical tab, form feed,
    carriage return, space and no-break space.  The capacitor simulator is
    written over IEEE binary64 numbers ([PrimFloat]), the arithmetic of a
    JavaScript [number].  The algebraic layers (stats, skills, store) are
    written over exact rationals. *)

From Stdlib Require Import Bool Arith ZArith NArith QArith Qround Lia Lqa.
From Stdlib Require Import Ascii String List Permutation Floats.
From stdpp Require Import base option list gmap.
Import ListNotations.

(** ** Strings as lists of code units *)

Abbreviation str := (list ascii) (only parsing).

Definition lit (s : string) : str := list_ascii_of_string s.
Arguments lit s%_string.

Fixpoint str_eqb (a b : str) : bool :=
  match a, b with
  | [], [] => true
  | x :: a', y :: b' => Ascii.eqb x y && str_eqb a' b'
  | _, _ => false
  end.

Definition code (c : ascii) : nat := nat_of_ascii c.

(** White space of [String.prototype.trim] and of [\s]. *)
Definition is_ws (c : ascii) : bool :=
  ((9 <=? code c) && (code c <=? 13)) || (code c =? 32) || (code c =? 160).

(** Line terminators, which the regular expression [.] does not match. *)
Definition is_lt (c : ascii) : bool := (code c =? 10) || (code c =? 13).

(** The class [\d]. *)
Definition is_digit (c : ascii) : bool := (48 <=? code c) && (code c <=? 57).

Definition nl : ascii := ascii_of_nat 10.
Definition comma : ascii := ascii_of_nat 44.

Fixpoint trimStart (s : str) : str :=
  match s with
  | c :: s' => if is_ws c then trimStart s' else s
  | [] => []
  end.

Fixpoint trimEnd (s : str) : str :=
  match s with
  | [] => []
  | c :: s' =>
      match trimEnd s' with
      | [] => if is_ws c then [] else [c]
      | t => c :: t
      end
  end.

Definition trim (s : str) : str := trimEnd (trimStart s).

(** [s.split("\n")]: never empty, [""] splits into [[""]]. *)
Fixpoint split_nl (s : str) : list str :=
  match s with
  | [] => [[]]
  | c :: s' =>
      if Ascii.eqb c nl then [] :: split_nl s'
      else match split_nl s' with
           | l :: ls => (c :: l) :: ls
           | [] => [[c]]
           end
  end.

(** [lines.join("\n")]. *)
Fixpoint join_nl (ls : list str) : str :=
  match ls with
  | [] => []
  | [l] => l
  | l :: ls' => l ++ nl :: join_nl ls'
  end.

(** [s.indexOf(",")]. *)
Fixpoint indexOf_comma (s : str) : option nat :=
  match s with
  | [] => None
  | c :: s' => if Ascii.eqb c comma then Some 0 else option_map S (indexOf_comma s')
  end.

(** [s.startsWith(p)]. *)
Fixpoint startsWith (p s : str) : bool :=
  match p, s with
  | [], _ => true
  | x :: p', y :: s' => Ascii.eqb x y && startsWith p' s'
  | _ :: _, [] => false
  end.

(** Decimal rendering of a non-negative integer, as a template literal
    prints a [number] below 1e21. *)
Definition digit_char (d : N) : ascii := ascii_of_N (48 + d).

Fixpoint to_digits (fuel : nat) (n : N) (acc : str) : str :=
  match fuel with
  | O => acc
  | S f =>
      let acc' := digit_char (n mod 10) :: acc in
      if (n <? 10)%N then acc' else to_digits f (n / 10) acc'
  end.

Definition Number_toString (n : N) : str :=
  to_digits (S (N.to_nat (N.size n))) n [].

(** [parseInt(s, 10)] on a string of decimal digits. *)
Definition digit_val (c : ascii) : N := N_of_ascii c - 48.

Definition parseInt10 (s : str) : N :=
  fold_left (fun acc c => (10 * acc + digit_val c)%N) s 0%N.

(** ** The EFT text codec ([src/lib/eft-parser.ts]) *)

Module EFT.

Record EFTLine : Type := mkLine {
  name : str;
  charge : option str;
  quantity : option N
}.

Record ParsedEFT : Type := mkParsed {
  shipName : str;
  fitName : str;
  lowSlots : list EFTLine;
  midSlots : list EFTLine;
  highSlots : list EFTLine;
  rigSlots : list EFTLine;
  subsystems : list EFTLine;
  drones : list EFTLine;
  cargo : list EFTLine
}.

(** The two [throw new Error(...)] sites of [parseEFT]. *)
Inductive Error : Type :=
| EmptyText
| InvalidHeader (headerLine : str).

Inductive result (A : Type) : Type :=
| Ok (a : A)
| Throw (e : Error).
Arguments Ok {A} a.
Arguments Throw {A} e.

(** *** Backtracking matchers

    Each combinator takes the matcher of the rest of the pattern as a
    continuation and tries its alternatives in the priority order of a
    backtracking regular expression engine. *)

Definition Matcher (R : Type) : Type := str -> option R.

(** A literal character. *)
Definition chr {R} (c : ascii) (k : Matcher R) : Matcher R :=
  fun s => match s with
           | a :: s' => if Ascii.eqb a c then k s' else None
           | [] => None
           end.

(** [$]: end of input (no [m] flag). *)
Definition eos {R} (r : R) : Matcher R :=
  fun s => match s with [] => Some r | _ :: _ => None end.

(** [(.+?)]: lazy, one character first, then one more on each failure
    of the continuation; [acc] is the text captured so far. *)
Fixpoint dot_plus_lazy_from {R} (acc : str) (k : str -> Matcher R) (s : str) : option R :=
  match s with
  | [] => None
  | a :: s' =>
      if is_lt a then None
      else match k (acc ++ [a]) s' with
           | Some r => Some r
           | None => dot_plus_lazy_from (acc ++ [a]) k s'
           end
  end.

Definition dot_plus_lazy {R} (k : str -> Matcher R) : Matcher R :=
  dot_plus_lazy_from [] k.

(** [\s*]: greedy, the longest run first. *)
Fixpoint ws_star {R} (k : Matcher R) (s : str) : option R :=
  match s with
  | a :: s' =>
      if is_ws a
      then match ws_star k s' with
           | Some r => Some r
           | None => k s
           end
      else k s
  | [] => k s
  end.

(** [\s+]. *)
Definition ws_plus {R} (k : Matcher R) : Matcher R :=
  fun s => match s with
           | a :: s' => if is_ws a then ws_star k s' else None
           | [] => None
           end.

(** [(\d+)]: greedy, capturing. *)
Fixpoint digit_star_from {R} (acc : str) (k : str -> Matcher R) (s : str) : option R :=
  match s with
  | a :: s' =>
      if is_digit a
      then match digit_star_from (acc ++ [a]) k s' with
           | Some r => Some r
           | None => k acc s
           end
      else k acc s
  | [] => k acc s
  end.

Definition digit_plus {R} (k : str -> Matcher R) : Matcher R :=
  fun s => match s with
           | a :: s' => if is_digit a then digit_star_from [a] k s' else None
           | [] => None
           end.

(** [/^\[(.+?),\s*(.+?)\]$/] *)
Definition headerMatch : Matcher (str * str) :=
  chr "["%char
    (dot_plus_lazy (fun g1 =>
       chr ","%char
         (ws_star
            (dot_plus_lazy (fun g2 =>
               chr "]"%char (eos (g1, g2))))))).

(** [/^(.+?)\s+x(\d+)$/] *)
Definition quantityMatch : Matcher (str * str) :=
  dot_plus_lazy (fun g1 =>
    ws_plus
      (chr "x"%char
         (digit_plus (fun g2 => eos (g1, g2))))).

(** *** Parser *)

Definition slice_to (n : nat) (s : str) : str := firstn n s.
Definition slice_from (n : nat) (s : str) : str := skipn n s.

Definition parseEFTLine (line : str) : option EFTLine :=
  if str_eqb line [] || startsWith (lit "[Empty") line then None
  else
    match quantityMatch line with
    | Some (g1, g2) =>
        let namePart := trim g1 in
        let quantity := parseInt10 g2 in
        match indexOf_comma namePart with
        | Some chargeIdx =>
            Some {| name := trim (slice_to chargeIdx namePart);
                    charge := Some (trim (slice_from (chargeIdx + 1) namePart));
                    quantity := Some quantity |}
        | None =>
            Some {| name := namePart; charge := None; quantity := Some quantity |}
        end
    | None =>
        match indexOf_comma line with
        | Some chargeIdx =>
            Some {| name := trim (slice_to chargeIdx line);
                    charge := Some (trim (slice_from (chargeIdx + 1) line));
                    quantity := None |}
        | None => Some {| name := trim line; charge := None; quantity := None |}
        end
    end.

Definition is_marker (line : str) : bool :=
  str_eqb line (lit "[Empty Low slot]")
  || str_eqb line (lit "[Empty Mid slot]")
  || str_eqb line (lit "[Empty High slot]")
  || str_eqb line (lit "[Empty Rig slot]")
  || str_eqb line (lit "[Empty Subsystem slot]").

(** The state of the section loop: the sections closed so far and
    [currentSection]. *)
Definition Sections : Type := (list (list EFTLine) * list EFTLine)%type.

(** One iteration of [for (let i = 1; i < lines.length; i++)]. *)
Definition section_step (st : Sections) (raw : str) : Sections :=
  let line := trim raw in
  let '(sections, currentSection) := st in
  if str_eqb line [] || is_marker line then
    if str_eqb line [] then
      match currentSection with
      | _ :: _ => (sections ++ [currentSection], [])
      | [] => st
      end
    else st
  else
    match parseEFTLine line with
    | Some parsed => (sections, currentSection ++ [parsed])
    | None => st
    end.

(** "Don't forget the last section". *)
Definition close_last (st : Sections) : list (list EFTLine) :=
  match snd st with
  | _ :: _ => fst st ++ [snd st]
  | [] => fst st
  end.

(** [sections[i] || []] *)
Definition section (i : nat) (sections : list (list EFTLine)) : list EFTLine :=
  nth i sections [].

Definition parseEFT (eftText : str) : result ParsedEFT :=
  match split_nl (trim eftText) with
  | [] => Throw EmptyText
  | l0 :: rest =>
      let headerLine := trim l0 in
      match headerMatch headerLine with
      | None => Throw (InvalidHeader headerLine)
      | Some (g1, g2) =>
          let sections := close_last (fold_left section_step rest ([], [])) in
          Ok {| shipName := trim g1;
                fitName := trim g2;
                lowSlots := section 0 sections;
                midSlots := section 1 sections;
                highSlots := section 2 sections;
                rigSlots := section 3 sections;
                subsystems := section 4 sections;
                drones := section 5 sections;
                cargo := section 6 sections |}
      end
  end.

(** *** Serializer *)

Record EFTSerializeOptions : Type := mkOpts {
  o_shipName : str;
  o_fitName : str;
  o_highSlots : list EFTLine;
  o_midSlots : list EFTLine;
  o_lowSlots : list EFTLine;
  o_rigSlots : list EFTLine;
  o_subsystems : option (list EFTLine);
  o_drones : option (list EFTLine);
  o_cargo : option (list EFTLine);
  highSlotCount : option nat;
  midSlotCount : option nat;
  lowSlotCount : option nat;
  rigSlotCount : option nat
}.

Definition formatEFTLine (item : EFTLine) : str :=
  let line := name item in
  let line :=
    match charge item with
    | Some (c :: cs) => line ++ lit ", " ++ (c :: cs)
    | _ => line
    end in
  match quantity item with
  | Some q => if (1 <? q)%N then line ++ lit " x" ++ Number_toString q else line
  | None => line
  end.

Definition empty_marker (slotLabel : str) : str :=
  lit "[Empty " ++ slotLabel ++ lit " slot]".

(** The lines pushed by [appendSlotSection]. *)
Definition appendSlotSection (slots : list EFTLine) (slotCount : option nat)
           (slotLabel : str) : list str :=
  let count := match slotCount with Some c => c | None => length slots end in
  map (fun i => match nth_error slots i with
                | Some item => formatEFTLine item
                | None => empty_marker slotLabel
                end) (seq 0 count).

(** [if (opts.xs && opts.xs.length > 0)] *)
Definition present (xs : option (list EFTLine)) : list EFTLine :=
  match xs with Some l => l | None => [] end.

Definition serialize_lines (opts : EFTSerializeOptions) : list str :=
  [lit "[" ++ o_shipName opts ++ lit ", " ++ o_fitName opts ++ lit "]"]
  ++ appendSlotSection (o_lowSlots opts) (lowSlotCount opts) (lit "Low")
  ++ [[]]
  ++ appendSlotSection (o_midSlots opts) (midSlotCount opts) (lit "Mid")
  ++ [[]]
  ++ appendSlotSection (o_highSlots opts) (highSlotCount opts) (lit "High")
  ++ [[]]
  ++ appendSlotSection (o_rigSlots opts) (rigSlotCount opts) (lit "Rig")
  ++ match present (o_subsystems opts) with
     | [] => []
     | subs => [] :: map formatEFTLine subs
     end
  ++ match present (o_drones opts) with
     | [] => []
     | ds => [] :: [] :: map formatEFTLine ds
     end
  ++ match present (o_cargo opts) with
     | [] => []
     | cs => [] :: map formatEFTLine cs
     end.

Definition serializeEFT (opts : EFTSerializeOptions) : str :=
  join_nl (serialize_lines opts).

End EFT.

(** *** Well-formed serializer input *)

Definition is_nil {A} (l : list A) : bool :=
  match l with [] => true | _ :: _ => false end.

Definition nonblank {A} (c : list A) : bool := negb (is_nil c).

(** Non-empty, and neither the first nor the last character is white
    space. *)
Definition no_outer_ws (s : str) : bool :=
  match s with
  | [] => false
  | c :: _ => negb (is_ws c) && negb (is_ws (List.last s c))
  end.

Definition single_line (s : str) : bool := forallb (fun c => negb (is_lt c)) s.

Definition no_comma (s : str) : bool := forallb (fun c => negb (Ascii.eqb c comma)) s.

Fixpoint drop_digits (s : str) : str :=
  match s with
  | c :: s' => if is_digit c then drop_digits s' else s
  | [] => []
  end.

(** The text ends in white space, [x] and at least one digit: the shape
    that the quantity pattern reads as a suffix. *)
Definition ends_with_quantity (s : str) : bool :=
  match rev s with
  | d :: r =>
      is_digit d &&
      match drop_digits r with
      | x :: w :: _ => Ascii.eqb x "x"%char && is_ws w
      | _ => false
      end
  | [] => false
  end.

(** An item name as the game data has them. *)
Definition plain_name (n : str) : bool :=
  no_outer_ws n && single_line n && no_comma n
  && negb (startsWith (lit "[Empty") n)
  && negb (ends_with_quantity n).

Definition MAX_SAFE_INTEGER : N := 9007199254740991.

(** A module line without charge; a quantity, when present, is one that
    [formatEFTLine] prints. *)
Definition plain_item (it : EFT.EFTLine) : bool :=
  plain_name (EFT.name it)
  && match EFT.charge it with None => true | Some _ => false end
  && match EFT.quantity it with
     | None => true
     | Some q => (1 <? q)%N && (q <=? MAX_SAFE_INTEGER)%N
     end.

(** The declared slot count, when given, covers the fitted modules. *)
Definition count_ok (slotCount : option nat) (slots : list EFT.EFTLine) : bool :=
  match slotCount with
  | Some c => length slots <=? c
  | None => true
  end.

Definition well_formed (o : EFT.EFTSerializeOptions) : bool :=
  no_outer_ws (EFT.o_shipName o) && single_line (EFT.o_shipName o)
  && no_comma (EFT.o_shipName o)
  && no_outer_ws (EFT.o_fitName o) && single_line (EFT.o_fitName o)
  && forallb plain_item (EFT.o_lowSlots o)
  && forallb plain_item (EFT.o_midSlots o)
  && forallb plain_item (EFT.o_highSlots o)
  && forallb plain_item (EFT.o_rigSlots o)
  && forallb plain_item (EFT.present (EFT.o_subsystems o))
  && forallb plain_item (EFT.present (EFT.o_drones o))
  && forallb plain_item (EFT.present (EFT.o_cargo o))
  && count_ok (EFT.lowSlotCount o) (EFT.o_lowSlots o)
  && count_ok (EFT.midSlotCount o) (EFT.o_midSlots o)
  && count_ok (EFT.highSlotCount o) (EFT.o_highSlots o)
  && count_ok (EFT.rigSlotCount o) (EFT.o_rigSlots o).

(** The seven categories in the order of the text. *)
Definition categories (o : EFT.EFTSerializeOptions) : list (list EFT.EFTLine) :=
  [EFT.o_lowSlots o; EFT.o_midSlots o; EFT.o_highSlots o; EFT.o_rigSlots o;
   EFT.present (EFT.o_subsystems o); EFT.present (EFT.o_drones o);
   EFT.present (EFT.o_cargo o)].

(** No empty category is followed by a non-empty one. *)
Fixpoint no_gap {A} (cats : list (list A)) : bool :=
  match cats with
  | [] => true
  | c :: rest => if is_nil c then forallb is_nil rest else no_gap rest
  end.

(** The fitting that a faithful round trip returns. *)
Definition as_parsed (o : EFT.EFTSerializeOptions) : EFT.ParsedEFT :=
  {| EFT.shipName := EFT.o_shipName o;
     EFT.fitName := EFT.o_fitName o;
     EFT.lowSlots := EFT.o_lowSlots o;
     EFT.midSlots := EFT.o_midSlots o;
     EFT.highSlots := EFT.o_highSlots o;
     EFT.rigSlots := EFT.o_rigSlots o;
     EFT.subsystems := EFT.present (EFT.o_subsystems o);
     EFT.drones := EFT.present (EFT.o_drones o);
     EFT.cargo := EFT.present (EFT.o_cargo o) |}.

(** What the positional mapping returns: the non-empty categories, moved
    up to the first positions. *)
Definition packed (o : EFT.EFTSerializeOptions) : EFT.ParsedEFT :=
  let sections := List.filter nonblank (categories o) in
  {| EFT.shipName := EFT.o_shipName o;
     EFT.fitName := EFT.o_fitName o;
     EFT.lowSlots := EFT.section 0 sections;
     EFT.midSlots := EFT.section 1 sections;
     EFT.highSlots := EFT.section 2 sections;
     EFT.rigSlots := EFT.section 3 sections;
     EFT.subsystems := EFT.section 4 sections;
     EFT.drones := EFT.section 5 sections;
     EFT.cargo := EFT.section 6 sections |}.

(** A battlecruiser fit with drones and no subsystems, after the example
    in the header of [eft-parser.ts]. *)
Definition hurricane : EFT.EFTSerializeOptions :=
  {| EFT.o_shipName := lit "Hurricane";
     EFT.o_fitName := lit "My Hurricane Fit";
     EFT.o_highSlots := [EFT.mkLine (lit "720mm Howitzer Artillery II") None None];
     EFT.o_midSlots := [EFT.mkLine (lit "Warp Disruptor II") None None];
     EFT.o_lowSlots := [EFT.mkLine (lit "Gyrostabilizer II") None None;
                        EFT.mkLine (lit "Damage Control II") None None];
     EFT.o_rigSlots := [EFT.mkLine (lit "Medium Core Defense Field Extender I") None None];
     EFT.o_subsystems := None;
     EFT.o_drones := Some [EFT.mkLine (lit "Warrior II") None (Some 5%N)];
     EFT.o_cargo := None;
     EFT.highSlotCount := Some 2;
     EFT.midSlotCount := Some 1;
     EFT.lowSlotCount := Some 3;
     EFT.rigSlotCount := Some 3 |}.

(** A strategic cruiser fit: every category up to the drones is used. *)
Definition tengu : EFT.EFTSerializeOptions :=
  {| EFT.o_shipName := lit "Tengu";
     EFT.o_fitName := lit "Heavy Missiles";
     EFT.o_highSlots := [EFT.mkLine (lit "Heavy Missile Launcher II") None None];
     EFT.o_midSlots := [EFT.mkLine (lit "Large Shield Extender II") None None];
     EFT.o_lowSlots := [EFT.mkLine (lit "Ballistic Control System II") None None];
     EFT.o_rigSlots := [EFT.mkLine (lit "Medium Core Defense Field Extender I") None None];
     EFT.o_subsystems := Some [EFT.mkLine (lit "Tengu Core - Augmented Graviton Reactor") None None];
     EFT.o_drones := Some [EFT.mkLine (lit "Warrior II") None (Some 5%N)];
     EFT.o_cargo := None;
     EFT.highSlotCount := Some 2;
     EFT.midSlotCount := Some 1;
     EFT.lowSlotCount := Some 3;
     EFT.rigSlotCount := Some 3 |}.
(** *** Auxiliary notions for the codec proofs *)

Definition no_nl (s : str) : bool := forallb (fun c => negb (Ascii.eqb c nl)) s.

(** Lines without the trailing blank lines, the last remaining line
    trimmed at its end: what [trimEnd] leaves of a text, line by line. *)
Fixpoint strip_end (ls : list str) : list str :=
  match ls with
  | [] => []
  | l :: r =>
      match strip_end r with
      | [] => match trimEnd l with [] => [] | t => [t] end
      | r' => l :: r'
      end
  end.

(** The rest of the quantity pattern after its first group:
    [\s+x(\d+)$]. *)
Definition quantity_tail (g1 : str) : EFT.Matcher (str * str) :=
  EFT.ws_plus (EFT.chr "x"%char (EFT.digit_plus (fun g2 => EFT.eos (g1, g2)))).

(** A line of a serialized text: without line feed, and blank or free of
    white space at both ends. *)
Definition good_line (l : str) : bool := no_nl l && (is_nil l || no_outer_ws l).

(** The header line that [serializeEFT] prints. *)
Definition header_line (ship fit : str) : str :=
  lit "[" ++ ship ++ lit ", " ++ fit ++ lit "]".

(** The lines that [serializeEFT] prints after the header. *)
Definition serialize_body (opts : EFT.EFTSerializeOptions) : list str :=
  EFT.appendSlotSection (EFT.o_lowSlots opts) (EFT.lowSlotCount opts) (lit "Low")
  ++ [[]]
  ++ EFT.appendSlotSection (EFT.o_midSlots opts) (EFT.midSlotCount opts) (lit "Mid")
  ++ [[]]
  ++ EFT.appendSlotSection (EFT.o_highSlots opts) (EFT.highSlotCount opts) (lit "High")
  ++ [[]]
  ++ EFT.appendSlotSection (EFT.o_rigSlots opts) (EFT.rigSlotCount opts) (lit "Rig")
  ++ match EFT.present (EFT.o_subsystems opts) with
     | [] => []
     | subs => [] :: map EFT.formatEFTLine subs
     end
  ++ match EFT.present (EFT.o_drones opts) with
     | [] => []
     | ds => [] :: [] :: map EFT.formatEFTLine ds
     end
  ++ match EFT.present (EFT.o_cargo opts) with
     | [] => []
     | cs => [] :: map EFT.formatEFTLine cs
     end.

(** The rest of the header pattern after its first group:
    [,\s*(.+?)\]$]. *)
Definition header_tail (g1 : str) : EFT.Matcher (str * str) :=
  EFT.chr ","%char
    (EFT.ws_star
       (EFT.dot_plus_lazy (fun g2 => EFT.chr "]"%char (EFT.eos (g1, g2))))).
(** *** The header contract *)

(** [lines[0].trim()] of [parseEFT]. *)
Definition first_line (eftText : str) : str := trim (hd [] (split_nl (trim eftText))).

(** The header shape in the words of the specification: brackets around
    two comma-separated names, both non-empty after trimming. *)
Definition spec_header_shape (line : str) : bool :=
  match line with
  | open :: rest =>
      Ascii.eqb open "["%char &&
      match rev rest with
      | close :: rinner =>
          Ascii.eqb close "]"%char &&
          let inner := rev rinner in
          existsb (fun i =>
                     Ascii.eqb (nth i inner " "%char) comma
                     && negb (is_nil (trim (firstn i inner)))
                     && negb (is_nil (trim (skipn (S i) inner))))
                  (seq 0 (length inner))
      | [] => false
      end
  | [] => false
  end.

(** The header shape that the pattern [/^\[(.+?),\s*(.+?)\]$/] accepts:
    the names need one character each, of any kind but a line
    terminator. *)
Definition header_pattern (line : str) : Prop :=
  exists g1 w g2,
    line = lit "[" ++ g1 ++ lit "," ++ w ++ g2 ++ lit "]"
    /\ g1 <> [] /\ single_line g1 = true
    /\ forallb is_ws w = true
    /\ g2 <> [] /\ single_line g2 = true.

(** ** The capacitor simulator ([simulateCap] in [src/lib/utils.ts])

    Numbers are IEEE binary64 values and every operation rounds as the
    JavaScript operation does, so that a run of the model is a run of the
    code. *)

Module Cap.

Local Open Scope float_scope.

(** [{ stable, stablePercent?, lastsSeconds? }] *)
Record CapSim : Type := mkSim {
  stable : bool;
  stablePercent : option float;
  lastsSeconds : option float
}.

(** [Math.max] of two numbers: NaN if either is, and [+0] above [-0]. *)
Definition Math_max (a b : float) : float :=
  if is_nan a || is_nan b then nan
  else if a <? b then b
  else if b <? a then a
  else if get_sign a then b else a.

Definition Math_abs (x : float) : float := abs x.

Definition Math_sqrt (x : float) : float := sqrt x.

Definition two52 : float := 4503599627370496.

(** [Math.floor] of a finite number below 2^52 in magnitude, by the
    round trip through 2^52 that rounds to an integer. *)
Definition floor_small (x : float) : float :=
  if get_sign x
  then let r := - ((two52 - x) - two52) in if r <? x then r else if x <? r then r - 1 else r
  else let r := (x + two52) - two52 in if x <? r then r - 1 else r.

(** [Math.round]: the nearest integer, halves going up; the sign of a
    zero result is that of the argument. *)
Definition Math_round (x : float) : float :=
  if is_nan x || is_infinity x || (two52 <=? abs x) || (x =? 0) then x
  else
    let r := floor_small x in
    let res := if (x - r) <? 0.5 then r else r + 1 in
    if (res =? 0) && get_sign x then - 0 else res.

(** [const dt = 0.1] *)
Definition dt : float := 0.1.

(** The instantaneous recharge at charge [cap]. *)
Definition recharge_at (capacity tau cap : float) : float :=
  let fraction := Math_max (cap / capacity) 0 in
  (capacity / tau) * 10 * (Math_sqrt fraction - fraction).

(** The first loop, taken when the drain exceeds the peak recharge by
    more than a tenth: [for (let t = 0; t < maxSimSeconds; t += dt)]. *)
Fixpoint drain_loop (fuel : nat) (capacity tau drainPerSecond maxSimSeconds : float)
         (t cap : float) : option CapSim :=
  match fuel with
  | O => None
  | S fuel' =>
      if t <? maxSimSeconds then
        let recharge := recharge_at capacity tau cap in
        let cap := cap + (recharge - drainPerSecond) * dt in
        if cap <=? 0 then
          Some {| stable := false; stablePercent := None; lastsSeconds := Some t |}
        else drain_loop fuel' capacity tau drainPerSecond maxSimSeconds (t + dt) cap
      else
        Some {| stable := false; stablePercent := None;
                lastsSeconds := Some maxSimSeconds |}
  end.

(** The second loop, which looks for the stable charge. *)
Fixpoint stable_loop (fuel : nat) (capacity tau drainPerSecond maxSimSeconds : float)
         (t cap prevCap : float) : option CapSim :=
  match fuel with
  | O => None
  | S fuel' =>
      if t <? maxSimSeconds then
        let recharge := recharge_at capacity tau cap in
        let cap := cap + (recharge - drainPerSecond) * dt in
        if cap <=? 0 then
          Some {| stable := false; stablePercent := None; lastsSeconds := Some t |}
        else if (10 <? t) && (Math_abs (cap - prevCap) <? 0.01 * dt * 10) then
          Some {| stable := true;
                  stablePercent := Some (Math_round ((cap / capacity) * 100));
                  lastsSeconds := None |}
        else stable_loop fuel' capacity tau drainPerSecond maxSimSeconds (t + dt) cap cap
      else
        Some {| stable := true;
                stablePercent := Some (Math_round ((cap / capacity) * 100));
                lastsSeconds := None |}
  end.

(** [simulateCap]; [None] when [fuel] iterations do not finish the loop. *)
Definition simulateCap (fuel : nat) (capacity rechargeMs drainPerSecond maxSimSeconds : float)
  : option CapSim :=
  if drainPerSecond <=? 0 then
    Some {| stable := true; stablePercent := Some 100; lastsSeconds := None |}
  else
    let tau := rechargeMs / 1000 in
    let cap := capacity in
    let peakRecharge := (2.5 * capacity) / tau in
    if peakRecharge * 1.1 <? drainPerSecond then
      drain_loop fuel capacity tau drainPerSecond maxSimSeconds 0 cap
    else
      stable_loop fuel capacity tau drainPerSecond maxSimSeconds 0 cap cap.

(** The loop counter alone: whether [fuel] iterations bring [t] from its
    start to [maxSimSeconds]. *)
Fixpoint clock_done (fuel : nat) (maxSimSeconds t : float) : bool :=
  match fuel with
  | O => false
  | S fuel' =>
      if t <? maxSimSeconds then clock_done fuel' maxSimSeconds (t + dt) else true
  end.

Definition enough_fuel (maxSimSeconds : float) (fuel : nat) : bool :=
  clock_done fuel maxSimSeconds 0.

(** [maxSimSeconds = 600] *)
Definition default_maxSimSeconds : float := 600.

(** The default window is over after 6000 steps. *)
Definition default_fuel : nat := 6001.

End Cap.

(** ** The data model ([src/types/eve.ts])

    A [number] of the algebraic layers is an exact rational; fields that
    only the presentation reads (icons, volumes, descriptions of types)
    are left out. *)

Module Eve.

Record DogmaAttribute : Type := mkAttr {
  attribute_id : Z;
  value : Q
}.

Record DogmaEffect : Type := mkEffect {
  effect_id : Z;
  is_default : bool
}.

Record EveType : Type := mkType {
  type_id : Z;
  t_name : str;
  group_id : Z;
  category_id : option Z;
  t_mass : option Q;
  dogma_attributes : option (list DogmaAttribute);
  dogma_effects : option (list DogmaEffect)
}.

Inductive SlotType : Type := high | mid | low | rig | subsystem | drone | cargo.

Inductive ModuleState : Type := active | passive | offline.

Record Charge : Type := mkCharge {
  c_type_id : Z;
  c_name : str;
  c_quantity : Q;
  c_attributes : option (gmap Z Q)
}.

Record FittedModule : Type := mkModule {
  m_id : str;
  m_type_id : Z;
  m_name : str;
  slot_type : SlotType;
  slot_index : Z;
  state : ModuleState;
  charge : option Charge;
  m_group_id : option Z;
  m_category_id : option Z;
  attributes : option (gmap Z Q);
  effects : option (list Z)
}.

Record Fitting : Type := mkFitting {
  f_id : str;
  f_name : str;
  ship_type_id : Z;
  ship_name : str;
  ship_group_id : option Z;
  description : option str;
  tags : option (list str);
  high_slots : list (option FittedModule);
  mid_slots : list (option FittedModule);
  low_slots : list (option FittedModule);
  rig_slots : list (option FittedModule);
  subsystem_slots : list (option FittedModule);
  drones : list FittedModule;
  f_cargo : list FittedModule;
  created_at : str;
  updated_at : str
}.

Record ResistanceProfile : Type := mkResist {
  em : Q;
  thermal : Q;
  kinetic : Q;
  explosive : Q
}.

Record LayerStats : Type := mkLayer {
  hp : Q;
  resist : ResistanceProfile;
  ehp : Q;
  avg_resist : Q
}.

Record CapacitorStats : Type := mkCapacitor {
  capacity : Q;
  recharge_rate : Q;
  peak_recharge : Q;
  drain_per_second : Q;
  stable : bool;
  stable_percent : option Q;
  lasts_seconds : option Q
}.

Record OffenseStats : Type := mkOffense {
  turret_dps : Q;
  missile_dps : Q;
  drone_dps : Q;
  total_dps : Q;
  alpha : Q;
  volley : Q;
  turret_optimal : Q;
  turret_falloff : Q;
  missile_range : Q;
  drone_control_range : Q
}.

Record NavigationStats : Type := mkNavigation {
  max_velocity : Q;
  agility : Q;
  warp_speed : Q;
  align_time : Q;
  signature_radius : Q;
  mass : Q;
  inertia_modifier : Q
}.

Inductive SensorType : Type := Gravimetric | Magnetometric | Ladar | Radar.

Record TargetingStats : Type := mkTargeting {
  max_targets : Q;
  max_target_range : Q;
  scan_resolution : Q;
  sensor_strength : Q;
  sensor_type : SensorType
}.

Record EngineeringStats : Type := mkEngineering {
  cpu_total : Q;
  cpu_used : Q;
  cpu_remaining : Q;
  pg_total : Q;
  pg_used : Q;
  pg_remaining : Q;
  calibration_total : Q;
  calibration_used : Q;
  drone_bandwidth_total : Q;
  drone_bandwidth_used : Q;
  drone_capacity : Q;
  drone_capacity_used : Q
}.

Record ShipStats : Type := mkStats {
  engineering : EngineeringStats;
  capacitor : CapacitorStats;
  offense : OffenseStats;
  navigation : NavigationStats;
  targeting : TargetingStats;
  shield : LayerStats;
  armor : LayerStats;
  hull : LayerStats;
  total_ehp : Q;
  s_high_slots : Q;
  s_mid_slots : Q;
  s_low_slots : Q;
  s_rig_slots : Q;
  turret_hardpoints : Q;
  launcher_hardpoints : Q
}.

Inductive SkillMode : Type := none | allV | mySkills.

(** [Record<number, number>]: skill type id to trained level. *)
Abbreviation SkillMap := (gmap Z Q) (only parsing).

Record SkillDeltas : Type := mkDeltas {
  d_cpu_total : Q;
  d_pg_total : Q;
  d_cap_capacity : Q;
  d_cap_recharge : Q;
  d_shield_hp : Q;
  d_armor_hp : Q;
  d_hull_hp : Q;
  d_max_velocity : Q;
  d_inertia_modifier : Q;
  d_align_time : Q;
  d_max_targets : Q;
  d_max_target_range : Q;
  d_scan_resolution : Q
}.

Record SkillRequirement : Type := mkReq {
  skill_type_id : Q;
  skill_name : str;
  required_level : Q
}.

Record SkillPlanStage : Type := mkStage {
  st_name : str;
  skills : list SkillRequirement;
  total : nat
}.

Record SkillPlan : Type := mkPlan {
  stages : SkillPlanStage * SkillPlanStage * SkillPlanStage
}.

End Eve.

(** The constants of [src/lib/constants.ts] that the core reads. *)
Module ATTR.
Definition POWERGRID : Z := 11.
Definition CPU : Z := 48.
Definition MODULE_PG_USAGE : Z := 30.
Definition MODULE_CPU_USAGE : Z := 50.
Definition MODULE_ACTIVATION_COST : Z := 15.
Definition MODULE_CYCLE_TIME : Z := 51.
Definition CAP_CAPACITY : Z := 482.
Definition CAP_RECHARGE_TIME : Z := 55.
Definition STRUCTURE_HP : Z := 9.
Definition ARMOR_HP : Z := 265.
Definition SHIELD_CAPACITY : Z := 263.
Definition SHIELD_EM_RESONANCE : Z := 271.
Definition SHIELD_EXPLOSIVE_RESONANCE : Z := 272.
Definition SHIELD_KINETIC_RESONANCE : Z := 273.
Definition SHIELD_THERMAL_RESONANCE : Z := 274.
Definition ARMOR_EM_RESONANCE : Z := 267.
Definition ARMOR_EXPLOSIVE_RESONANCE : Z := 268.
Definition ARMOR_KINETIC_RESONANCE : Z := 269.
Definition ARMOR_THERMAL_RESONANCE : Z := 270.
Definition HULL_EM_RESONANCE : Z := 113.
Definition HULL_KINETIC_RESONANCE : Z := 109.
Definition HULL_THERMAL_RESONANCE : Z := 110.
Definition HULL_EXPLOSIVE_RESONANCE : Z := 111.
Definition MAX_VELOCITY : Z := 37.
Definition INERTIA_MODIFIER : Z := 70.
Definition WARP_SPEED_MULT : Z := 600.
Definition SIGNATURE_RADIUS : Z := 552.
Definition MAX_TARGETS : Z := 192.
Definition MAX_TARGET_RANGE : Z := 76.
Definition SCAN_RESOLUTION : Z := 564.
Definition SENSOR_RADAR_STRENGTH : Z := 208.
Definition SENSOR_LADAR_STRENGTH : Z := 209.
Definition SENSOR_MAGNETOMETRIC_STRENGTH : Z := 210.
Definition SENSOR_GRAVIMETRIC_STRENGTH : Z := 211.
Definition LAUNCHER_SLOTS_LEFT : Z := 101.
Definition TURRET_SLOTS_LEFT : Z := 102.
Definition DRONE_CAPACITY : Z := 283.
Definition DRONE_BANDWIDTH : Z := 1271.
Definition CALIBRATION_TOTAL : Z := 1132.
Definition CALIBRATION_COST : Z := 1153.
Definition DAMAGE_MULTIPLIER : Z := 64.
Definition TRACKING_SPEED : Z := 160.
Definition OPTIMAL_RANGE : Z := 54.
Definition FALLOFF : Z := 158.
Definition MISSILE_FLIGHT_TIME : Z := 51.
Definition MISSILE_VELOCITY : Z := 37.
Definition EXPLOSION_RADIUS : Z := 103.
Definition MISSILE_DAMAGE_MULT : Z := 212.
Definition EM_DAMAGE : Z := 114.
Definition EXPLOSIVE_DAMAGE : Z := 116.
Definition KINETIC_DAMAGE : Z := 117.
Definition THERMAL_DAMAGE : Z := 118.
End ATTR.

Module CATEGORY_IDS.
Definition SKILL : Z := 16.
End CATEGORY_IDS.

Module SUPPORT_SKILL_IDS.
Definition CPU_MANAGEMENT : Z := 3426.
Definition POWER_GRID_MANAGEMENT : Z := 3413.
Definition CAPACITOR_MANAGEMENT : Z := 3418.
Definition CAPACITOR_SYSTEMS_OPERATION : Z := 3417.
Definition SHIELD_MANAGEMENT : Z := 3419.
Definition HULL_UPGRADES : Z := 3394.
Definition MECHANICS : Z := 3392.
Definition NAVIGATION : Z := 3449.
Definition EVASIVE_MANEUVERING : Z := 3453.
Definition TARGET_MANAGEMENT : Z := 3428.
Definition LONG_RANGE_TARGETING : Z := 3431.
Definition SIGNATURE_ANALYSIS : Z := 3432.

(** [Object.values(SUPPORT_SKILL_IDS)], in the order of the declaration. *)
Definition values : list Z :=
  [CPU_MANAGEMENT; POWER_GRID_MANAGEMENT; CAPACITOR_MANAGEMENT;
   CAPACITOR_SYSTEMS_OPERATION; SHIELD_MANAGEMENT; HULL_UPGRADES; MECHANICS;
   NAVIGATION; EVASIVE_MANEUVERING; TARGET_MANAGEMENT; LONG_RANGE_TARGETING;
   SIGNATURE_ANALYSIS].
End SUPPORT_SKILL_IDS.

(** ** The stats calculator ([src/lib/stats.ts] and its helpers in
    [src/lib/utils.ts])

    The two transcendental helpers, the capacitor simulation (a square
    root in a loop) and [Math.log], have no exact rational value; the
    calculator takes them as parameters.  A division by zero, which
    JavaScript answers with an infinity, is outside the model. *)

Module Stats.

Import Eve.
Local Open Scope Q_scope.

(** The result of [simulateCap], over the rationals. *)
Record CapSim : Type := mkSim {
  sim_stable : bool;
  stablePercent : option Q;
  lastsSeconds : option Q
}.

Record Numerics : Type := mkNumerics {
  simulateCap : Q -> Q -> Q -> CapSim;
  Math_log : Q -> Q
}.

(** Comparisons of numbers. *)
Definition gt (a b : Q) : bool := negb (Qle_bool a b).
Definition ge (a b : Q) : bool := Qle_bool b a.

Definition Math_max (a b : Q) : Q := if Qle_bool a b then b else a.

(** *** Attribute helpers *)

Definition shipAttr (type : EveType) (attrId : Z) (fallback : Q) : Q :=
  match dogma_attributes type with
  | Some attrs =>
      match List.find (fun a => Z.eqb (attribute_id a) attrId) attrs with
      | Some a => value a
      | None => fallback
      end
  | None => fallback
  end.

Definition modAttr (mod_ : FittedModule) (attrId : Z) (fallback : Q) : Q :=
  match attributes mod_ with
  | Some attrs =>
      match attrs !! attrId with
      | Some v => v
      | None => fallback
      end
  | None => fallback
  end.

(** [[...].filter((m) => m !== null)] *)
Definition fitted (slots : list (option FittedModule)) : list FittedModule :=
  omap (fun m => m) slots.

Definition allFittedModules (fitting : Fitting) : list FittedModule :=
  fitted (high_slots fitting ++ mid_slots fitting ++ low_slots fitting
          ++ rig_slots fitting ++ subsystem_slots fitting).

Definition is_active (m : FittedModule) : bool :=
  match state m with active => true | _ => false end.

Definition is_offline (m : FittedModule) : bool :=
  match state m with offline => true | _ => false end.

Definition activeModules (fitting : Fitting) : list FittedModule :=
  List.filter is_active (allFittedModules fitting).

(** *** Helpers of [utils.ts] *)

Definition calculateEHP (hp avgResonance : Q) : Q :=
  if ge avgResonance 1 then hp else hp / avgResonance.

Definition avgResonance (em thermal kinetic explosive : Q) : Q :=
  (em + thermal + kinetic + explosive) / 4.

(** *** Engineering *)

Record EngAcc : Type := mkEngAcc {
  cpuUsed : Q;
  pgUsed : Q;
  calibrationUsed : Q;
  droneBandwidthUsed : Q;
  droneCapacityUsed : Q
}.

Definition engineering_step (acc : EngAcc) (m : FittedModule) : EngAcc :=
  if is_offline m then acc
  else
    let acc :=
      match slot_type m with
      | drone =>
          {| cpuUsed := cpuUsed acc; pgUsed := pgUsed acc;
             calibrationUsed := calibrationUsed acc;
             droneBandwidthUsed := droneBandwidthUsed acc + modAttr m ATTR.DRONE_BANDWIDTH 0;
             droneCapacityUsed := droneCapacityUsed acc + modAttr m ATTR.DRONE_CAPACITY 0 |}
      | rig =>
          {| cpuUsed := cpuUsed acc; pgUsed := pgUsed acc;
             calibrationUsed := calibrationUsed acc + modAttr m ATTR.CALIBRATION_COST 0;
             droneBandwidthUsed := droneBandwidthUsed acc;
             droneCapacityUsed := droneCapacityUsed acc |}
      | _ => acc
      end in
    {| cpuUsed := cpuUsed acc + modAttr m ATTR.MODULE_CPU_USAGE 0;
       pgUsed := pgUsed acc + modAttr m ATTR.MODULE_PG_USAGE 0;
       calibrationUsed := calibrationUsed acc;
       droneBandwidthUsed := droneBandwidthUsed acc;
       droneCapacityUsed := droneCapacityUsed acc |}.

Definition calcEngineering (shipType : EveType) (fitting : Fitting) : EngineeringStats :=
  let cpuTotal := shipAttr shipType ATTR.CPU 0 in
  let pgTotal := shipAttr shipType ATTR.POWERGRID 0 in
  let calibrationTotal := shipAttr shipType ATTR.CALIBRATION_TOTAL 400 in
  let droneBandwidthTotal := shipAttr shipType ATTR.DRONE_BANDWIDTH 0 in
  let droneCapacity := shipAttr shipType ATTR.DRONE_CAPACITY 0 in
  let acc := fold_left engineering_step (allFittedModules fitting)
                       (mkEngAcc 0 0 0 0 0) in
  {| cpu_total := cpuTotal;
     cpu_used := cpuUsed acc;
     cpu_remaining := cpuTotal - cpuUsed acc;
     pg_total := pgTotal;
     pg_used := pgUsed acc;
     pg_remaining := pgTotal - pgUsed acc;
     calibration_total := calibrationTotal;
     calibration_used := calibrationUsed acc;
     drone_bandwidth_total := droneBandwidthTotal;
     drone_bandwidth_used := droneBandwidthUsed acc;
     drone_capacity := droneCapacity;
     drone_capacity_used := droneCapacityUsed acc |}.

(** *** Defense *)

Definition calcResistProfile (shipType : EveType)
           (emAttr thermalAttr kineticAttr explosiveAttr : Z) : ResistanceProfile :=
  {| em := shipAttr shipType emAttr 1;
     thermal := shipAttr shipType thermalAttr 1;
     kinetic := shipAttr shipType kineticAttr 1;
     explosive := shipAttr shipType explosiveAttr 1 |}.

Definition calcLayerStats (hp : Q) (resist : ResistanceProfile) : LayerStats :=
  let avg := avgResonance (em resist) (thermal resist) (kinetic resist) (explosive resist) in
  {| Eve.hp := hp; Eve.resist := resist; ehp := calculateEHP hp avg; avg_resist := avg |}.

Definition calcShield (shipType : EveType) : LayerStats :=
  calcLayerStats (shipAttr shipType ATTR.SHIELD_CAPACITY 0)
    (calcResistProfile shipType ATTR.SHIELD_EM_RESONANCE ATTR.SHIELD_THERMAL_RESONANCE
       ATTR.SHIELD_KINETIC_RESONANCE ATTR.SHIELD_EXPLOSIVE_RESONANCE).

Definition calcArmor (shipType : EveType) : LayerStats :=
  calcLayerStats (shipAttr shipType ATTR.ARMOR_HP 0)
    (calcResistProfile shipType ATTR.ARMOR_EM_RESONANCE ATTR.ARMOR_THERMAL_RESONANCE
       ATTR.ARMOR_KINETIC_RESONANCE ATTR.ARMOR_EXPLOSIVE_RESONANCE).

Definition calcHull (shipType : EveType) : LayerStats :=
  calcLayerStats (shipAttr shipType ATTR.STRUCTURE_HP 0)
    (calcResistProfile shipType ATTR.HULL_EM_RESONANCE ATTR.HULL_THERMAL_RESONANCE
       ATTR.HULL_KINETIC_RESONANCE ATTR.HULL_EXPLOSIVE_RESONANCE).

(** *** Capacitor *)

Definition drain_step (drainPerSecond : Q) (m : FittedModule) : Q :=
  let activationCost := modAttr m ATTR.MODULE_ACTIVATION_COST 0 in
  let cycleTimeMs := modAttr m ATTR.MODULE_CYCLE_TIME 0 in
  if gt activationCost 0 && gt cycleTimeMs 0
  then drainPerSecond + activationCost / (cycleTimeMs / 1000)
  else drainPerSecond.

Definition calcCapacitor (num : Numerics) (shipType : EveType) (fitting : Fitting)
  : CapacitorStats :=
  let capacity := shipAttr shipType ATTR.CAP_CAPACITY 0 in
  let rechargeMs := shipAttr shipType ATTR.CAP_RECHARGE_TIME 0 in
  let tau := rechargeMs / 1000 in
  let peakRecharge := if gt tau 0 then (2.5 * capacity) / tau else 0 in
  let drainPerSecond := fold_left drain_step (activeModules fitting) 0 in
  let sim := simulateCap num capacity rechargeMs drainPerSecond in
  {| Eve.capacity := capacity;
     recharge_rate := tau;
     peak_recharge := peakRecharge;
     drain_per_second := drainPerSecond;
     stable := sim_stable sim;
     stable_percent := stablePercent sim;
     lasts_seconds := lastsSeconds sim |}.

(** *** Offense *)

(** The running totals of the loop over the active modules. *)
Record OffenseAcc : Type := mkOffAcc {
  turretDps : Q;
  missileDps : Q;
  turretAlpha : Q;
  missileAlpha : Q;
  turretOptimal : Q;
  turretFalloff : Q;
  missileRange : Q
}.

Definition baseDmg (m : FittedModule) : Q :=
  modAttr m ATTR.EM_DAMAGE 0 + modAttr m ATTR.THERMAL_DAMAGE 0
  + modAttr m ATTR.KINETIC_DAMAGE 0 + modAttr m ATTR.EXPLOSIVE_DAMAGE 0.

(** The test of the turret branch. *)
Definition is_turret (m : FittedModule) : bool :=
  gt (modAttr m ATTR.TRACKING_SPEED 0) 0 && gt (modAttr m ATTR.MODULE_CYCLE_TIME 0) 0.

(** The test of the missile branch. *)
Definition is_missile (m : FittedModule) : bool :=
  gt (modAttr m ATTR.EXPLOSION_RADIUS 0) 0 && gt (modAttr m ATTR.MODULE_CYCLE_TIME 0) 0.

Definition turret_branch (acc : OffenseAcc) (m : FittedModule) : OffenseAcc :=
  let cycleMs := modAttr m ATTR.MODULE_CYCLE_TIME 0 in
  let dmgMult := modAttr m ATTR.DAMAGE_MULTIPLIER 1 in
  if is_turret m then
    let volley := baseDmg m * dmgMult in
    {| turretDps := turretDps acc + volley / (cycleMs / 1000);
       missileDps := missileDps acc;
       turretAlpha := turretAlpha acc + volley;
       missileAlpha := missileAlpha acc;
       turretOptimal := Math_max (turretOptimal acc) (modAttr m ATTR.OPTIMAL_RANGE 0);
       turretFalloff := Math_max (turretFalloff acc) (modAttr m ATTR.FALLOFF 0);
       missileRange := missileRange acc |}
  else acc.

Definition missile_branch (acc : OffenseAcc) (m : FittedModule) : OffenseAcc :=
  let cycleMs := modAttr m ATTR.MODULE_CYCLE_TIME 0 in
  if is_missile m then
    let missileMult := modAttr m ATTR.MISSILE_DAMAGE_MULT 1 in
    let volley := baseDmg m * missileMult in
    let flightTimeMs := modAttr m ATTR.MISSILE_FLIGHT_TIME 0 in
    let velocity := modAttr m ATTR.MISSILE_VELOCITY 0 in
    {| turretDps := turretDps acc;
       missileDps := missileDps acc + volley / (cycleMs / 1000);
       turretAlpha := turretAlpha acc;
       missileAlpha := missileAlpha acc + volley;
       turretOptimal := turretOptimal acc;
       turretFalloff := turretFalloff acc;
       missileRange :=
         if gt flightTimeMs 0 && gt velocity 0
         then Math_max (missileRange acc) ((flightTimeMs / 1000) * velocity)
         else missileRange acc |}
  else acc.

(** The body of [for (const mod of activeModules(fitting))]: the two
    [if] statements, one after the other. *)
Definition offense_step (acc : OffenseAcc) (m : FittedModule) : OffenseAcc :=
  missile_branch (turret_branch acc m) m.

Definition drone_step (droneDps : Q) (d : FittedModule) : Q :=
  let cycleMs := modAttr d ATTR.MODULE_CYCLE_TIME 0 in
  let dmgMult := modAttr d ATTR.DAMAGE_MULTIPLIER 1 in
  if gt cycleMs 0 && gt (baseDmg d) 0
  then droneDps + (baseDmg d * dmgMult) / (cycleMs / 1000)
  else droneDps.

Definition calcOffense (fitting : Fitting) : OffenseStats :=
  let acc := fold_left offense_step (activeModules fitting) (mkOffAcc 0 0 0 0 0 0 0) in
  let droneDps := fold_left drone_step (drones fitting) 0 in
  let droneRange := 0 in
  let totalDps := turretDps acc + missileDps acc + droneDps in
  let alpha := turretAlpha acc + missileAlpha acc in
  {| turret_dps := turretDps acc;
     missile_dps := missileDps acc;
     drone_dps := droneDps;
     total_dps := totalDps;
     Eve.alpha := alpha;
     volley := alpha;
     turret_optimal := turretOptimal acc;
     turret_falloff := turretFalloff acc;
     missile_range := missileRange acc;
     drone_control_range := droneRange |}.

(** *** Navigation *)

Definition calculateAlignTime (num : Numerics) (mass agility : Q) : Q :=
  (- Math_log num 0.25 * agility * mass) / 1000000.

Definition calcNavigation (num : Numerics) (shipType : EveType) : NavigationStats :=
  let maxVelocity := shipAttr shipType ATTR.MAX_VELOCITY 0 in
  let inertia := shipAttr shipType ATTR.INERTIA_MODIFIER 1 in
  let mass := match t_mass shipType with Some m => m | None => 1000000 end in
  let warpSpeed := shipAttr shipType ATTR.WARP_SPEED_MULT 1 in
  let sigRadius := shipAttr shipType ATTR.SIGNATURE_RADIUS 100 in
  {| max_velocity := maxVelocity;
     agility := inertia;
     warp_speed := warpSpeed;
     align_time := calculateAlignTime num mass inertia;
     signature_radius := sigRadius;
     Eve.mass := mass;
     inertia_modifier := inertia |}.

(** *** Targeting *)

Definition stronger (a b : SensorType * Q) : SensorType * Q :=
  if gt (snd b) (snd a) then b else a.

Definition calcTargeting (shipType : EveType) : TargetingStats :=
  let radar := shipAttr shipType ATTR.SENSOR_RADAR_STRENGTH 0 in
  let ladar := shipAttr shipType ATTR.SENSOR_LADAR_STRENGTH 0 in
  let magneto := shipAttr shipType ATTR.SENSOR_MAGNETOMETRIC_STRENGTH 0 in
  let gravi := shipAttr shipType ATTR.SENSOR_GRAVIMETRIC_STRENGTH 0 in
  let strongest :=
    fold_left stronger [(Ladar, ladar); (Magnetometric, magneto); (Gravimetric, gravi)]
              (Radar, radar) in
  {| max_targets := shipAttr shipType ATTR.MAX_TARGETS 7;
     max_target_range := shipAttr shipType ATTR.MAX_TARGET_RANGE 50000;
     scan_resolution := shipAttr shipType ATTR.SCAN_RESOLUTION 300;
     sensor_strength := snd strongest;
     sensor_type := fst strongest |}.

(** *** The calculator *)

Definition length_Q {A} (l : list A) : Q := inject_Z (Z.of_nat (length l)).

Definition calculateShipStats (num : Numerics) (shipType : EveType) (fitting : Fitting)
  : ShipStats :=
  let engineering := calcEngineering shipType fitting in
  let capacitor := calcCapacitor num shipType fitting in
  let offense := calcOffense fitting in
  let navigation := calcNavigation num shipType in
  let targeting := calcTargeting shipType in
  let shield := calcShield shipType in
  let armor := calcArmor shipType in
  let hull := calcHull shipType in
  {| Eve.engineering := engineering;
     Eve.capacitor := capacitor;
     Eve.offense := offense;
     Eve.navigation := navigation;
     Eve.targeting := targeting;
     Eve.shield := shield;
     Eve.armor := armor;
     Eve.hull := hull;
     total_ehp := ehp shield + ehp armor + ehp hull;
     s_high_slots := length_Q (high_slots fitting);
     s_mid_slots := length_Q (mid_slots fitting);
     s_low_slots := length_Q (low_slots fitting);
     s_rig_slots := length_Q (rig_slots fitting);
     turret_hardpoints := shipAttr shipType ATTR.TURRET_SLOTS_LEFT 0;
     launcher_hardpoints := shipAttr shipType ATTR.LAUNCHER_SLOTS_LEFT 0 |}.

End Stats.

(** *** What a module adds to the offense totals *)

Definition turret_totals (acc : Stats.OffenseAcc) : Q * Q * Q * Q :=
  (Stats.turretDps acc, Stats.turretAlpha acc, Stats.turretOptimal acc,
   Stats.turretFalloff acc).

Definition missile_totals (acc : Stats.OffenseAcc) : Q * Q * Q :=
  (Stats.missileDps acc, Stats.missileAlpha acc, Stats.missileRange acc).

Definition attrs_of (l : list (Z * Q)) : option (gmap Z Q) := Some (list_to_map l).

Definition module_with (name : string) (st : Eve.SlotType) (idx : Z)
           (s : Eve.ModuleState) (attrs : list (Z * Q)) (effs : list Z) : Eve.FittedModule :=
  {| Eve.m_id := lit "m"; Eve.m_type_id := 1; Eve.m_name := lit name;
     Eve.slot_type := st; Eve.slot_index := idx; Eve.state := s;
     Eve.charge := None; Eve.m_group_id := None; Eve.m_category_id := None;
     Eve.attributes := attrs_of attrs; Eve.effects := Some effs |}.

(** An artillery turret: tracking speed, no explosion radius. *)
Definition artillery : Eve.FittedModule :=
  module_with "720mm Howitzer Artillery II" Eve.high 0 Eve.active
    [(ATTR.TRACKING_SPEED, 2 # 100); (ATTR.MODULE_CYCLE_TIME, 10000 # 1);
     (ATTR.EM_DAMAGE, 10 # 1); (ATTR.DAMAGE_MULTIPLIER, 3 # 1)]
    [42%Z].

(** A module that carries a tracking speed and an explosion radius. *)
Definition hybrid_weapon : Eve.FittedModule :=
  module_with "Hybrid" Eve.high 0 Eve.active
    [(ATTR.TRACKING_SPEED, 1 # 1); (ATTR.EXPLOSION_RADIUS, 1 # 1);
     (ATTR.MODULE_CYCLE_TIME, 1000 # 1); (ATTR.EM_DAMAGE, 10 # 1)]
    [].

Definition fitting_with_high (slots : list (option Eve.FittedModule)) : Eve.Fitting :=
  {| Eve.f_id := lit "f"; Eve.f_name := lit "New Fitting";
     Eve.ship_type_id := 24696; Eve.ship_name := lit "Hurricane";
     Eve.ship_group_id := None; Eve.description := Some []; Eve.tags := Some [];
     Eve.high_slots := slots; Eve.mid_slots := []; Eve.low_slots := [];
     Eve.rig_slots := []; Eve.subsystem_slots := [];
     Eve.drones := []; Eve.f_cargo := [];
     Eve.created_at := lit "t0"; Eve.updated_at := lit "t0" |}.

(** ** The skill bonus engine ([src/lib/skills.ts])

    [applySkillBonuses] overwrites the fields of the [stats] object that it
    is given and returns the deltas; the model returns the overwritten
    snapshot next to the deltas. *)

Module Skills.

Import Eve.
Local Open Scope Q_scope.

(** [skills[skillId] ?? 0] *)
Definition lvl (skills : SkillMap) (skillId : Z) : Q :=
  match skills !! skillId with
  | Some l => l
  | None => 0
  end.

(** [allLevelVSkillMap] *)
Definition allLevelVSkillMap : SkillMap :=
  fold_left (fun (m : gmap Z Q) id => <[id := 5]> m) SUPPORT_SKILL_IDS.values ∅.

(** A layer with its hit points replaced and its effective hit points
    recomputed from the unchanged resistance profile. *)
Definition bonus_layer (layer : LayerStats) (mult : Q) : LayerStats :=
  let hp' := hp layer * mult in
  {| hp := hp';
     resist := resist layer;
     ehp := Stats.calculateEHP hp'
              (Stats.avgResonance (em (resist layer)) (thermal (resist layer))
                 (kinetic (resist layer)) (explosive (resist layer)));
     avg_resist := avg_resist layer |}.

Definition applySkillBonuses (num : Stats.Numerics) (stats : ShipStats) (skills : SkillMap)
  : ShipStats * SkillDeltas :=
  (* Snapshot base values *)
  let baseCpuTotal := cpu_total (engineering stats) in
  let basePgTotal := pg_total (engineering stats) in
  let baseCapCapacity := capacity (capacitor stats) in
  let baseCapRecharge := recharge_rate (capacitor stats) in
  let baseShieldHp := hp (shield stats) in
  let baseArmorHp := hp (armor stats) in
  let baseHullHp := hp (hull stats) in
  let baseVelocity := max_velocity (navigation stats) in
  let baseInertia := inertia_modifier (navigation stats) in
  let baseMaxTargets := max_targets (targeting stats) in
  let baseTargetRange := max_target_range (targeting stats) in
  let baseScanRes := scan_resolution (targeting stats) in
  (* Engineering *)
  let cpuMult := 1 + 0.05 * lvl skills SUPPORT_SKILL_IDS.CPU_MANAGEMENT in
  let cpu_total' := baseCpuTotal * cpuMult in
  let pgMult := 1 + 0.05 * lvl skills SUPPORT_SKILL_IDS.POWER_GRID_MANAGEMENT in
  let pg_total' := basePgTotal * pgMult in
  let engineering' :=
    {| cpu_total := cpu_total';
       cpu_used := cpu_used (engineering stats);
       cpu_remaining := cpu_total' - cpu_used (engineering stats);
       pg_total := pg_total';
       pg_used := pg_used (engineering stats);
       pg_remaining := pg_total' - pg_used (engineering stats);
       calibration_total := calibration_total (engineering stats);
       calibration_used := calibration_used (engineering stats);
       drone_bandwidth_total := drone_bandwidth_total (engineering stats);
       drone_bandwidth_used := drone_bandwidth_used (engineering stats);
       drone_capacity := drone_capacity (engineering stats);
       drone_capacity_used := drone_capacity_used (engineering stats) |} in
  (* Capacitor *)
  let capMult := 1 + 0.05 * lvl skills SUPPORT_SKILL_IDS.CAPACITOR_MANAGEMENT in
  let capRechargeMult :=
    1 - 0.05 * lvl skills SUPPORT_SKILL_IDS.CAPACITOR_SYSTEMS_OPERATION in
  let capacity' := baseCapCapacity * capMult in
  let recharge_rate' := baseCapRecharge * capRechargeMult in
  let peak_recharge' :=
    if Stats.gt recharge_rate' 0 then (2.5 * capacity') / recharge_rate' else 0 in
  let sim := Stats.simulateCap num capacity' (recharge_rate' * 1000)
                               (drain_per_second (capacitor stats)) in
  let capacitor' :=
    {| capacity := capacity';
       recharge_rate := recharge_rate';
       peak_recharge := peak_recharge';
       drain_per_second := drain_per_second (capacitor stats);
       stable := Stats.sim_stable sim;
       stable_percent := Stats.stablePercent sim;
       lasts_seconds := Stats.lastsSeconds sim |} in
  (* Defense *)
  let shield' :=
    bonus_layer (shield stats) (1 + 0.05 * lvl skills SUPPORT_SKILL_IDS.SHIELD_MANAGEMENT) in
  let armor' :=
    bonus_layer (armor stats) (1 + 0.05 * lvl skills SUPPORT_SKILL_IDS.HULL_UPGRADES) in
  let hull' :=
    bonus_layer (hull stats) (1 + 0.05 * lvl skills SUPPORT_SKILL_IDS.MECHANICS) in
  let total_ehp' := ehp shield' + ehp armor' + ehp hull' in
  (* Navigation *)
  let velMult := 1 + 0.05 * lvl skills SUPPORT_SKILL_IDS.NAVIGATION in
  let inertiaMult := 1 - 0.05 * lvl skills SUPPORT_SKILL_IDS.EVASIVE_MANEUVERING in
  let inertia' := baseInertia * inertiaMult in
  let navigation' :=
    {| max_velocity := baseVelocity * velMult;
       agility := inertia';
       warp_speed := warp_speed (navigation stats);
       align_time := Stats.calculateAlignTime num (mass (navigation stats)) inertia';
       signature_radius := signature_radius (navigation stats);
       mass := mass (navigation stats);
       inertia_modifier := inertia' |} in
  (* Targeting *)
  let targetMgmtLvl := lvl skills SUPPORT_SKILL_IDS.TARGET_MANAGEMENT in
  let rangeMult := 1 + 0.05 * lvl skills SUPPORT_SKILL_IDS.LONG_RANGE_TARGETING in
  let scanResMult := 1 + 0.05 * lvl skills SUPPORT_SKILL_IDS.SIGNATURE_ANALYSIS in
  let targeting' :=
    {| max_targets := baseMaxTargets + targetMgmtLvl;
       max_target_range := baseTargetRange * rangeMult;
       scan_resolution := baseScanRes * scanResMult;
       sensor_strength := sensor_strength (targeting stats);
       sensor_type := sensor_type (targeting stats) |} in
  let stats' :=
    {| engineering := engineering';
       capacitor := capacitor';
       offense := offense stats;
       navigation := navigation';
       targeting := targeting';
       shield := shield';
       armor := armor';
       hull := hull';
       total_ehp := total_ehp';
       s_high_slots := s_high_slots stats;
       s_mid_slots := s_mid_slots stats;
       s_low_slots := s_low_slots stats;
       s_rig_slots := s_rig_slots stats;
       turret_hardpoints := turret_hardpoints stats;
       launcher_hardpoints := launcher_hardpoints stats |} in
  (* Build deltas *)
  (stats',
   {| d_cpu_total := cpu_total (engineering stats') - baseCpuTotal;
      d_pg_total := pg_total (engineering stats') - basePgTotal;
      d_cap_capacity := capacity (capacitor stats') - baseCapCapacity;
      d_cap_recharge := recharge_rate (capacitor stats') - baseCapRecharge;
      d_shield_hp := hp (shield stats') - baseShieldHp;
      d_armor_hp := hp (armor stats') - baseArmorHp;
      d_hull_hp := hp (hull stats') - baseHullHp;
      d_max_velocity := max_velocity (navigation stats') - baseVelocity;
      d_inertia_modifier := inertia_modifier (navigation stats') - baseInertia;
      d_align_time :=
        align_time (navigation stats')
        - Stats.calculateAlignTime num (mass (navigation stats')) baseInertia;
      d_max_targets := max_targets (targeting stats') - baseMaxTargets;
      d_max_target_range := max_target_range (targeting stats') - baseTargetRange;
      d_scan_resolution := scan_resolution (targeting stats') - baseScanRes |}).

(** The entries of the returned object, in the order of the literal. *)
Definition entries (d : SkillDeltas) : list (string * Q) :=
  [("cpu_total", d_cpu_total d); ("pg_total", d_pg_total d);
   ("cap_capacity", d_cap_capacity d); ("cap_recharge", d_cap_recharge d);
   ("shield_hp", d_shield_hp d); ("armor_hp", d_armor_hp d);
   ("hull_hp", d_hull_hp d); ("max_velocity", d_max_velocity d);
   ("inertia_modifier", d_inertia_modifier d); ("align_time", d_align_time d);
   ("max_targets", d_max_targets d); ("max_target_range", d_max_target_range d);
   ("scan_resolution", d_scan_resolution d)]%string.

End Skills.

(** *** Sample data for the algebraic layers *)

(** [Math.log(0.25)], the only call of the logarithm, to the precision of
    a double; [simulateCap] as it answers a drain of zero, the only drain
    in the samples. *)
Definition sample_numerics : Stats.Numerics :=
  {| Stats.simulateCap := fun _ _ drainPerSecond =>
       if Qle_bool drainPerSecond 0
       then Stats.mkSim true (Some 100%Q) None
       else Stats.mkSim false None None;
     Stats.Math_log := fun _ => (-13862943611198906 # 10000000000000000)%Q |}.

Definition ship_with (name : string) (attrs : list (Z * Q)) : Eve.EveType :=
  {| Eve.type_id := 24696; Eve.t_name := lit name; Eve.group_id := 419;
     Eve.category_id := Some 6%Z; Eve.t_mass := Some (12500000 # 1);
     Eve.dogma_attributes := Some (map (fun p => Eve.mkAttr (fst p) (snd p)) attrs);
     Eve.dogma_effects := None |}.

(** A battlecruiser hull: four turret hardpoints, shield resonances of
    one half. *)
Definition sample_ship : Eve.EveType :=
  ship_with "Hurricane"
    [(ATTR.CPU, 400 # 1); (ATTR.POWERGRID, 1200 # 1);
     (ATTR.CAP_CAPACITY, 1600 # 1); (ATTR.CAP_RECHARGE_TIME, 400000 # 1);
     (ATTR.SHIELD_CAPACITY, 1000 # 1); (ATTR.ARMOR_HP, 800 # 1);
     (ATTR.STRUCTURE_HP, 700 # 1);
     (ATTR.SHIELD_EM_RESONANCE, 1 # 2); (ATTR.SHIELD_THERMAL_RESONANCE, 1 # 2);
     (ATTR.SHIELD_KINETIC_RESONANCE, 1 # 2); (ATTR.SHIELD_EXPLOSIVE_RESONANCE, 1 # 2);
     (ATTR.MAX_VELOCITY, 150 # 1); (ATTR.INERTIA_MODIFIER, 1 # 2);
     (ATTR.MAX_TARGETS, 6 # 1); (ATTR.MAX_TARGET_RANGE, 60000 # 1);
     (ATTR.SCAN_RESOLUTION, 250 # 1);
     (ATTR.TURRET_SLOTS_LEFT, 4 # 1); (ATTR.LAUNCHER_SLOTS_LEFT, 2 # 1)].

(** A type record whose CPU output is negative. *)
Definition overdrawn_ship : Eve.EveType :=
  ship_with "Overdrawn" [(ATTR.CPU, (-100) # 1)].

Definition empty_rack (n : nat) : list (option Eve.FittedModule) := repeat None n.

Definition sample_fitting : Eve.Fitting :=
  {| Eve.f_id := lit "f"; Eve.f_name := lit "New Fitting";
     Eve.ship_type_id := 24696; Eve.ship_name := lit "Hurricane";
     Eve.ship_group_id := None; Eve.description := Some []; Eve.tags := Some [];
     Eve.high_slots := empty_rack 8; Eve.mid_slots := empty_rack 4;
     Eve.low_slots := empty_rack 4; Eve.rig_slots := empty_rack 3;
     Eve.subsystem_slots := [];
     Eve.drones := []; Eve.f_cargo := [];
     Eve.created_at := lit "t0"; Eve.updated_at := lit "t0" |}.

Definition sample_stats : Eve.ShipStats :=
  Stats.calculateShipStats sample_numerics sample_ship sample_fitting.

Definition overdrawn_stats : Eve.ShipStats :=
  Stats.calculateShipStats sample_numerics overdrawn_ship sample_fitting.

(** *** Skill bonuses: what "weakly better" means *)

(** The base values that a bonus multiplies are not negative. *)
Definition nonneg_base (s : Eve.ShipStats) : bool :=
  Qle_bool 0 (Eve.cpu_total (Eve.engineering s))
  && Qle_bool 0 (Eve.pg_total (Eve.engineering s))
  && Qle_bool 0 (Eve.hp (Eve.shield s))
  && Qle_bool 0 (Eve.hp (Eve.armor s))
  && Qle_bool 0 (Eve.hp (Eve.hull s))
  && Qle_bool 0 (Eve.max_velocity (Eve.navigation s))
  && Qle_bool 0 (Eve.max_target_range (Eve.targeting s))
  && Qle_bool 0 (Eve.scan_resolution (Eve.targeting s))
  && Qle_bool 0 (Eve.recharge_rate (Eve.capacitor s))
  && Qle_bool 0 (Eve.inertia_modifier (Eve.navigation s)).

(** [s2] is weakly better than [s1] in every stat of the claim. *)
Definition weakly_better (s1 s2 : Eve.ShipStats) : Prop :=
  (Eve.cpu_total (Eve.engineering s1) <= Eve.cpu_total (Eve.engineering s2)
   /\ Eve.pg_total (Eve.engineering s1) <= Eve.pg_total (Eve.engineering s2)
   /\ Eve.hp (Eve.shield s1) <= Eve.hp (Eve.shield s2)
   /\ Eve.hp (Eve.armor s1) <= Eve.hp (Eve.armor s2)
   /\ Eve.hp (Eve.hull s1) <= Eve.hp (Eve.hull s2)
   /\ Eve.max_velocity (Eve.navigation s1) <= Eve.max_velocity (Eve.navigation s2)
   /\ Eve.max_targets (Eve.targeting s1) <= Eve.max_targets (Eve.targeting s2)
   /\ Eve.max_target_range (Eve.targeting s1) <= Eve.max_target_range (Eve.targeting s2)
   /\ Eve.scan_resolution (Eve.targeting s1) <= Eve.scan_resolution (Eve.targeting s2)
   /\ Eve.recharge_rate (Eve.capacitor s2) <= Eve.recharge_rate (Eve.capacitor s1)
   /\ Eve.inertia_modifier (Eve.navigation s2) <= Eve.inertia_modifier (Eve.navigation s1))%Q.

(** The snapshot after the bonuses of [skills]. *)
Definition skilled (num : Stats.Numerics) (stats : Eve.ShipStats) (skills : gmap Z Q)
  : Eve.ShipStats :=
  fst (Skills.applySkillBonuses num stats skills).

Definition deltas (num : Stats.Numerics) (stats : Eve.ShipStats) (skills : gmap Z Q)
  : Eve.SkillDeltas :=
  snd (Skills.applySkillBonuses num stats skills).

(** The thirteen entries in terms of the snapshot before and after. *)
Definition expected_entries (num : Stats.Numerics) (base after : Eve.ShipStats)
  : list (string * Q) :=
  [("cpu_total",
    Eve.cpu_total (Eve.engineering after) - Eve.cpu_total (Eve.engineering base));
   ("pg_total",
    Eve.pg_total (Eve.engineering after) - Eve.pg_total (Eve.engineering base));
   ("cap_capacity",
    Eve.capacity (Eve.capacitor after) - Eve.capacity (Eve.capacitor base));
   ("cap_recharge",
    Eve.recharge_rate (Eve.capacitor after) - Eve.recharge_rate (Eve.capacitor base));
   ("shield_hp", Eve.hp (Eve.shield after) - Eve.hp (Eve.shield base));
   ("armor_hp", Eve.hp (Eve.armor after) - Eve.hp (Eve.armor base));
   ("hull_hp", Eve.hp (Eve.hull after) - Eve.hp (Eve.hull base));
   ("max_velocity",
    Eve.max_velocity (Eve.navigation after) - Eve.max_velocity (Eve.navigation base));
   ("inertia_modifier",
    Eve.inertia_modifier (Eve.navigation after)
    - Eve.inertia_modifier (Eve.navigation base));
   ("align_time",
    Eve.align_time (Eve.navigation after)
    - Stats.calculateAlignTime num (Eve.mass (Eve.navigation base))
        (Eve.inertia_modifier (Eve.navigation base)));
   ("max_targets",
    Eve.max_targets (Eve.targeting after) - Eve.max_targets (Eve.targeting base));
   ("max_target_range",
    Eve.max_target_range (Eve.targeting after)
    - Eve.max_target_range (Eve.targeting base));
   ("scan_resolution",
    Eve.scan_resolution (Eve.targeting after)
    - Eve.scan_resolution (Eve.targeting base))]%string%Q.

(** ** The mutation surface ([src/store/fitting-store.ts])

    The store is a record; an action is a function on the world, which is
    the store together with what the actions draw from outside it: the
    supply of [generateId] and, as a ghost, the number of stats
    computations made so far.  The time of an action is its argument
    [now].  An early [return] leaves the world as it is. *)

Module Store.

Import Eve.

Record FittingStore : Type := mkStore {
  fitting : option Fitting;
  shipType : option EveType;
  stats : option ShipStats;
  skillMode : SkillMode;
  skillMap : option (gmap Z Q);
  skillDeltas : option SkillDeltas;
  savedFittings : list Fitting;
  activeSlot : option (SlotType * Z);
  moduleSearchOpen : bool;
  eftImportOpen : bool;
  dirty : bool
}.

Record World : Type := mkWorld {
  store : FittingStore;
  next_id : nat;
  recomputes : nat
}.

(** [Omit<FittedModule, "id" | "slot_type" | "slot_index">] *)
Record ModuleData : Type := mkData {
  md_type_id : Z;
  md_name : str;
  md_state : ModuleState;
  md_charge : option Charge;
  md_group_id : option Z;
  md_category_id : option Z;
  md_attributes : option (gmap Z Q);
  md_effects : option (list Z)
}.

Record SlotCounts : Type := mkCounts {
  highSlots : option nat;
  midSlots : option nat;
  lowSlots : option nat;
  rigSlots : option nat;
  subsystemSlots : option nat
}.

(** [keyof Fitting], as far as [getSlotArrayKey] returns it. *)
Inductive SlotArrayKey : Type :=
| high_slots_key | mid_slots_key | low_slots_key | rig_slots_key | subsystem_slots_key.

Definition getSlotArrayKey (slotType : SlotType) : option SlotArrayKey :=
  match slotType with
  | high => Some high_slots_key
  | mid => Some mid_slots_key
  | low => Some low_slots_key
  | rig => Some rig_slots_key
  | subsystem => Some subsystem_slots_key
  | _ => None
  end.

(** [updated[key]] *)
Definition get_slots (key : SlotArrayKey) (f : Fitting) : list (option FittedModule) :=
  match key with
  | high_slots_key => high_slots f
  | mid_slots_key => mid_slots f
  | low_slots_key => low_slots f
  | rig_slots_key => rig_slots f
  | subsystem_slots_key => subsystem_slots f
  end.

(** The fitting after the writes of an action: the slot array [key] and
    [updated_at]. *)
Definition with_slots (key : SlotArrayKey) (slots : list (option FittedModule))
           (now : str) (f : Fitting) : Fitting :=
  {| f_id := f_id f; f_name := f_name f; ship_type_id := ship_type_id f;
     ship_name := ship_name f; ship_group_id := ship_group_id f;
     description := description f; tags := tags f;
     high_slots := match key with high_slots_key => slots | _ => high_slots f end;
     mid_slots := match key with mid_slots_key => slots | _ => mid_slots f end;
     low_slots := match key with low_slots_key => slots | _ => low_slots f end;
     rig_slots := match key with rig_slots_key => slots | _ => rig_slots f end;
     subsystem_slots :=
       match key with subsystem_slots_key => slots | _ => subsystem_slots f end;
     drones := drones f; f_cargo := f_cargo f;
     created_at := created_at f; updated_at := now |}.

Definition with_drones (ds : list FittedModule) (now : str) (f : Fitting) : Fitting :=
  {| f_id := f_id f; f_name := f_name f; ship_type_id := ship_type_id f;
     ship_name := ship_name f; ship_group_id := ship_group_id f;
     description := description f; tags := tags f;
     high_slots := high_slots f; mid_slots := mid_slots f; low_slots := low_slots f;
     rig_slots := rig_slots f; subsystem_slots := subsystem_slots f;
     drones := ds; f_cargo := f_cargo f;
     created_at := created_at f; updated_at := now |}.

(** [JSON.parse(JSON.stringify(f))]: a copy; values have no identity in
    the model. *)
Definition cloneFitting (f : Fitting) : Fitting := f.

(** [generateId()]: a fresh identifier from the supply. *)
Definition generateId (w : World) : str * World :=
  (lit "id-" ++ Number_toString (N.of_nat (next_id w)),
   {| store := store w; next_id := S (next_id w); recomputes := recomputes w |}).

(** [{ ...moduleData, id, slot_type, slot_index }] *)
Definition place (moduleData : ModuleData) (id : str) (slotType : SlotType) (index : Z)
  : FittedModule :=
  {| m_id := id; m_type_id := md_type_id moduleData; m_name := md_name moduleData;
     slot_type := slotType; slot_index := index; state := md_state moduleData;
     charge := md_charge moduleData; m_group_id := md_group_id moduleData;
     m_category_id := md_category_id moduleData;
     attributes := md_attributes moduleData; effects := md_effects moduleData |}.

(** [createEmptyFitting] of [utils.ts]. *)
Definition createEmptySlots (count : nat) : list (option FittedModule) := repeat None count.

Definition createEmptyFitting (id now : str) (shipTypeId : Z) (shipName : str)
           (highSlots midSlots lowSlots rigSlots : nat) : Fitting :=
  {| f_id := id; f_name := lit "New Fitting"; ship_type_id := shipTypeId;
     ship_name := shipName; ship_group_id := None;
     description := Some []; tags := Some [];
     high_slots := createEmptySlots highSlots;
     mid_slots := createEmptySlots midSlots;
     low_slots := createEmptySlots lowSlots;
     rig_slots := createEmptySlots rigSlots;
     subsystem_slots := createEmptySlots 0;
     drones := []; f_cargo := [];
     created_at := now; updated_at := now |}.

Section Actions.

Variable num : Stats.Numerics.

(** [computeStatsWithSkills] *)
Definition computeStatsWithSkills (shipType : EveType) (fitting : Fitting)
           (skillMode : SkillMode) (skillMap : option (gmap Z Q))
  : ShipStats * option SkillDeltas :=
  let stats := Stats.calculateShipStats num shipType fitting in
  match skillMode with
  | none => (stats, None)
  | _ =>
      let skills :=
        match skillMode with
        | allV => Some Skills.allLevelVSkillMap
        | _ => skillMap
        end in
      match skills with
      | None => (stats, None)
      | Some skills =>
          let '(stats', skillDeltas) := Skills.applySkillBonuses num stats skills in
          (stats', Some skillDeltas)
      end
  end.

(** The end of a mutating action: the stats of [updated] are computed and
    [set({ fitting: updated, stats, skillDeltas, dirty: true })] is
    called. *)
Definition commit (shipType : EveType) (updated : Fitting) (w : World) : World :=
  let s := store w in
  let '(stats, skillDeltas) :=
    computeStatsWithSkills shipType updated (skillMode s) (skillMap s) in
  {| store :=
       {| fitting := Some updated; shipType := Store.shipType s; stats := Some stats;
          skillMode := skillMode s; skillMap := skillMap s;
          skillDeltas := skillDeltas; savedFittings := savedFittings s;
          activeSlot := activeSlot s; moduleSearchOpen := moduleSearchOpen s;
          eftImportOpen := eftImportOpen s; dirty := true |};
     next_id := next_id w;
     recomputes := S (recomputes w) |}.

Definition default (d : nat) (o : option nat) : nat :=
  match o with Some n => n | None => d end.

Definition setShip (now : str) (shipType : EveType) (slotCounts : option SlotCounts)
           (w : World) : World :=
  let '(id, w) := generateId w in
  let counts := match slotCounts with
                | Some c => c
                | None => mkCounts None None None None None
                end in
  let fitting :=
    createEmptyFitting id now (type_id shipType) (t_name shipType)
      (default 8 (highSlots counts)) (default 5 (midSlots counts))
      (default 5 (lowSlots counts)) (default 3 (rigSlots counts)) in
  let fitting :=
    match subsystemSlots counts with
    | Some (S n) =>
        {| f_id := f_id fitting; f_name := f_name fitting;
           ship_type_id := ship_type_id fitting; ship_name := ship_name fitting;
           ship_group_id := ship_group_id fitting;
           description := description fitting; tags := tags fitting;
           high_slots := high_slots fitting; mid_slots := mid_slots fitting;
           low_slots := low_slots fitting; rig_slots := rig_slots fitting;
           subsystem_slots := repeat None (S n);
           drones := drones fitting; f_cargo := f_cargo fitting;
           created_at := created_at fitting; updated_at := updated_at fitting |}
    | _ => fitting
    end in
  let s := store w in
  let '(stats, skillDeltas) :=
    computeStatsWithSkills shipType fitting (skillMode s) (skillMap s) in
  {| store :=
       {| fitting := Some fitting; shipType := Some shipType; stats := Some stats;
          skillMode := skillMode s; skillMap := skillMap s;
          skillDeltas := skillDeltas; savedFittings := savedFittings s;
          activeSlot := activeSlot s; moduleSearchOpen := moduleSearchOpen s;
          eftImportOpen := eftImportOpen s; dirty := false |};
     next_id := next_id w;
     recomputes := S (recomputes w) |}.

(** [index < 0 || index >= slots.length] *)
Definition out_of_range {A} (index : Z) (slots : list A) : bool :=
  (index <? 0)%Z || (Z.of_nat (length slots) <=? index)%Z.

Definition addModule (now : str) (slotType : SlotType) (index : Z)
           (moduleData : ModuleData) (w : World) : World :=
  match fitting (store w), shipType (store w) with
  | Some fitting, Some shipType =>
      match getSlotArrayKey slotType with
      | None => w
      | Some key =>
          let updated := cloneFitting fitting in
          let slots := get_slots key updated in
          if out_of_range index slots then w
          else
            let '(id, w) := generateId w in
            let slots :=
              <[Z.to_nat index := Some (place moduleData id slotType index)]> slots in
            commit shipType (with_slots key slots now updated) w
      end
  | _, _ => w
  end.

(** [effects.includes(id)] on [effects ?? []]. *)
Definition has_effect (effects : option (list Z)) (id : Z) : bool :=
  match effects with
  | Some l => existsb (Z.eqb id) l
  | None => false
  end.

(** "Count how many of this hardpoint type are already fitted". *)
Definition hardpoints_used (isTurret isLauncher : bool)
           (slots : list (option FittedModule)) : nat :=
  if isTurret || isLauncher then
    fold_left
      (fun used slot =>
         match slot with
         | None => used
         | Some m =>
             let used :=
               if isTurret && has_effect (effects m) 42 then S used else used in
             if isLauncher && has_effect (effects m) 40 then S used else used
         end)
      slots 0
  else 0.

(** The filling loop from position [i] on: the slots after it, the count
    [filled] and the supply of identifiers. *)
Fixpoint fill_loop (moduleData : ModuleData) (slotType : SlotType) (limited : bool)
         (hardpointsUsed : nat) (hardpointLimit : Q)
         (slots : list (option FittedModule)) (i : nat) (filled : nat) (w : World)
  : list (option FittedModule) * nat * World :=
  match slots with
  | [] => ([], filled, w)
  | Some m :: rest =>
      let '(rest', filled', w') :=
        fill_loop moduleData slotType limited hardpointsUsed hardpointLimit
                  rest (S i) filled w in
      (Some m :: rest', filled', w')
  | None :: rest =>
      if limited
         && Qle_bool hardpointLimit (inject_Z (Z.of_nat (hardpointsUsed + filled)))
      then (None :: rest, filled, w)
      else
        let '(id, w) := generateId w in
        let '(rest', filled', w') :=
          fill_loop moduleData slotType limited hardpointsUsed hardpointLimit
                    rest (S i) (S filled) w in
        (Some (place moduleData id slotType (Z.of_nat i)) :: rest', filled', w')
  end.

Definition fillSlots (now : str) (slotType : SlotType) (moduleData : ModuleData)
           (w : World) : World :=
  match fitting (store w), shipType (store w), stats (store w) with
  | Some fitting, Some shipType, Some stats =>
      match getSlotArrayKey slotType with
      | None => w
      | Some key =>
          let updated := cloneFitting fitting in
          let slots := get_slots key updated in
          let effects := md_effects moduleData in
          let isTurret := has_effect effects 42 in
          let isLauncher := has_effect effects 40 in
          let hardpointLimit :=
            if isTurret then turret_hardpoints stats
            else if isLauncher then launcher_hardpoints stats
            else Stats.length_Q slots in
          let hardpointsUsed := hardpoints_used isTurret isLauncher slots in
          let '(slots', filled, w') :=
            fill_loop moduleData slotType (isTurret || isLauncher)
                      hardpointsUsed hardpointLimit slots 0 0 w in
          match filled with
          | O => w
          | S _ => commit shipType (with_slots key slots' now updated) w'
          end
      end
  | _, _, _ => w
  end.

Definition removeModule (now : str) (slotType : SlotType) (index : Z) (w : World) : World :=
  match fitting (store w), shipType (store w) with
  | Some fitting, Some shipType =>
      match getSlotArrayKey slotType with
      | None => w
      | Some key =>
          let updated := cloneFitting fitting in
          let slots := get_slots key updated in
          if out_of_range index slots then w
          else
            let slots := <[Z.to_nat index := None]> slots in
            commit shipType (with_slots key slots now updated) w
      end
  | _, _ => w
  end.

(** [slots[index]], which is [undefined] outside the array. *)
Definition slot_at (slots : list (option FittedModule)) (index : Z) : option FittedModule :=
  if (index <? 0)%Z then None
  else match slots !! Z.to_nat index with
       | Some (Some m) => Some m
       | _ => None
       end.

(** [cycle[(cycle.indexOf(mod.state) + 1) % cycle.length]] *)
Definition next_state (s : ModuleState) : ModuleState :=
  match s with
  | active => passive
  | passive => offline
  | offline => active
  end.

Definition with_state (s : ModuleState) (m : FittedModule) : FittedModule :=
  {| m_id := m_id m; m_type_id := m_type_id m; m_name := m_name m;
     slot_type := slot_type m; slot_index := slot_index m; state := s;
     charge := charge m; m_group_id := m_group_id m; m_category_id := m_category_id m;
     attributes := attributes m; effects := effects m |}.

Definition with_charge (c : option Charge) (m : FittedModule) : FittedModule :=
  {| m_id := m_id m; m_type_id := m_type_id m; m_name := m_name m;
     slot_type := slot_type m; slot_index := slot_index m; state := state m;
     charge := c; m_group_id := m_group_id m; m_category_id := m_category_id m;
     attributes := attributes m; effects := effects m |}.

Definition with_index (i : Z) (m : FittedModule) : FittedModule :=
  {| m_id := m_id m; m_type_id := m_type_id m; m_name := m_name m;
     slot_type := slot_type m; slot_index := i; state := state m;
     charge := charge m; m_group_id := m_group_id m; m_category_id := m_category_id m;
     attributes := attributes m; effects := effects m |}.

Definition toggleModuleState (now : str) (slotType : SlotType) (index : Z) (w : World)
  : World :=
  match fitting (store w), shipType (store w) with
  | Some fitting, Some shipType =>
      match getSlotArrayKey slotType with
      | None => w
      | Some key =>
          let updated := cloneFitting fitting in
          let slots := get_slots key updated in
          match slot_at slots index with
          | None => w
          | Some m =>
              let slots :=
                <[Z.to_nat index := Some (with_state (next_state (state m)) m)]> slots in
              commit shipType (with_slots key slots now updated) w
          end
      end
  | _, _ => w
  end.

Definition setModuleCharge (now : str) (slotType : SlotType) (index : Z)
           (c : option Charge) (w : World) : World :=
  match fitting (store w), shipType (store w) with
  | Some fitting, Some shipType =>
      match getSlotArrayKey slotType with
      | None => w
      | Some key =>
          let updated := cloneFitting fitting in
          let slots := get_slots key updated in
          match slot_at slots index with
          | None => w
          | Some m =>
              let slots := <[Z.to_nat index := Some (with_charge c m)]> slots in
              commit shipType (with_slots key slots now updated) w
          end
      end
  | _, _ => w
  end.

Definition addDrone (now : str) (droneData : ModuleData) (w : World) : World :=
  match fitting (store w), shipType (store w) with
  | Some fitting, Some shipType =>
      let updated := cloneFitting fitting in
      let '(id, w) := generateId w in
      let ds :=
        drones updated
        ++ [place droneData id drone (Z.of_nat (length (drones updated)))] in
      commit shipType (with_drones ds now updated) w
  | _, _ => w
  end.

(** [drones.splice(index, 1)]: a negative index counts from the end. *)
Definition splice1 {A} (index : Z) (l : list A) : list A :=
  let len := Z.of_nat (length l) in
  let start := if (index <? 0)%Z then Z.max (len + index) 0 else Z.min index len in
  firstn (Z.to_nat start) l ++ skipn (S (Z.to_nat start)) l.

(** [drones.forEach((d, i) => { d.slot_index = i; })] *)
Definition reindex (ds : list FittedModule) : list FittedModule :=
  map (fun p => with_index (Z.of_nat (fst p)) (snd p)) (combine (seq 0 (length ds)) ds).

Definition removeDrone (now : str) (index : Z) (w : World) : World :=
  match fitting (store w), shipType (store w) with
  | Some fitting, Some shipType =>
      let updated := cloneFitting fitting in
      let ds := reindex (splice1 index (drones updated)) in
      commit shipType (with_drones ds now updated) w
  | _, _ => w
  end.

Definition importFitting (fitting : Fitting) (shipType : EveType) (w : World) : World :=
  let s := store w in
  let '(stats, skillDeltas) :=
    computeStatsWithSkills shipType fitting (skillMode s) (skillMap s) in
  {| store :=
       {| Store.fitting := Some fitting; Store.shipType := Some shipType;
          stats := Some stats;
          skillMode := skillMode s; skillMap := skillMap s;
          skillDeltas := skillDeltas; savedFittings := savedFittings s;
          activeSlot := activeSlot s; moduleSearchOpen := moduleSearchOpen s;
          eftImportOpen := eftImportOpen s; dirty := false |};
     next_id := next_id w;
     recomputes := S (recomputes w) |}.

End Actions.

(** The store as [create] builds it, with the skill mode read from the
    local storage. *)
Definition initial (mode : SkillMode) : World :=
  {| store :=
       {| fitting := None; shipType := None; stats := None; skillMode := mode;
          skillMap := None; skillDeltas := None; savedFittings := [];
          activeSlot := None; moduleSearchOpen := false; eftImportOpen := false;
          dirty := false |};
     next_id := 0;
     recomputes := 0 |}.

End Store.

(** *** Properties of the mutation surface *)

(** The slot array of a category in the current fitting. *)
Definition rack_of (key : Store.SlotArrayKey) (w : Store.World)
  : list (option Eve.FittedModule) :=
  match Store.fitting (Store.store w) with
  | Some f => Store.get_slots key f
  | None => []
  end.

Definition count_empty (slots : list (option Eve.FittedModule)) : nat :=
  length (List.filter (fun s => match s with None => true | Some _ => false end) slots).

(** The call is out of bounds: the slot type has no slot array, or the
    index lies outside the array of the current fitting. *)
Definition out_of_bounds (w : Store.World) (slotType : Eve.SlotType) (index : Z) : Prop :=
  match Store.getSlotArrayKey slotType, Store.fitting (Store.store w) with
  | Some key, Some f =>
      (index < 0)%Z \/ (Z.of_nat (length (Store.get_slots key f)) <= index)%Z
  | _, _ => True
  end.

(** Whether the module is held to a hardpoint limit. *)
Definition is_hardpoint (md : Store.ModuleData) : bool :=
  Store.has_effect (Store.md_effects md) 42 || Store.has_effect (Store.md_effects md) 40.

(** The limit that [fillSlots] reads from the stats snapshot. *)
Definition hardpoint_limit (md : Store.ModuleData) (s : Eve.ShipStats) : Q :=
  if Store.has_effect (Store.md_effects md) 42 then Eve.turret_hardpoints s
  else Eve.launcher_hardpoints s.

(** The number of slots that [fillSlots] fills: every empty slot, or for a
    hardpoint module as many as bring the flagged modules up to the
    limit. *)
Definition fill_count (md : Store.ModuleData) (s : Eve.ShipStats)
           (rack : list (option Eve.FittedModule)) : nat :=
  if is_hardpoint md then
    Nat.min (count_empty rack)
            (Z.to_nat (Qceiling (hardpoint_limit md s)
                       - Z.of_nat (Store.hardpoints_used
                                     (Store.has_effect (Store.md_effects md) 42)
                                     (Store.has_effect (Store.md_effects md) 40) rack)))
  else count_empty rack.

(** Rig and subsystem modules are passive. *)
Definition passive_racks (f : Eve.Fitting) : Prop :=
  forall m, In (Some m) (Eve.rig_slots f ++ Eve.subsystem_slots f) ->
            Eve.state m = Eve.passive.

Definition passive_invariant (w : Store.World) : Prop :=
  match Store.fitting (Store.store w) with
  | Some f => passive_racks f
  | None => True
  end.

Definition fixed_key (key : Store.SlotArrayKey) : bool :=
  match key with
  | Store.rig_slots_key | Store.subsystem_slots_key => true
  | _ => false
  end.

Definition fixed_state (slotType : Eve.SlotType) : bool :=
  match slotType with Eve.rig | Eve.subsystem => true | _ => false end.

(** The calls of the mutation surface. *)
Inductive Call : Type :=
| CallAddModule (now : str) (slotType : Eve.SlotType) (index : Z) (md : Store.ModuleData)
| CallFillSlots (now : str) (slotType : Eve.SlotType) (md : Store.ModuleData)
| CallRemoveModule (now : str) (slotType : Eve.SlotType) (index : Z)
| CallToggleModuleState (now : str) (slotType : Eve.SlotType) (index : Z)
| CallSetModuleCharge (now : str) (slotType : Eve.SlotType) (index : Z)
                      (c : option Eve.Charge)
| CallAddDrone (now : str) (md : Store.ModuleData)
| CallRemoveDrone (now : str) (index : Z)
| CallImportFitting (f : Eve.Fitting) (shipType : Eve.EveType).

Definition run (num : Stats.Numerics) (w : Store.World) (c : Call) : Store.World :=
  match c with
  | CallAddModule now st i md => Store.addModule num now st i md w
  | CallFillSlots now st md => Store.fillSlots num now st md w
  | CallRemoveModule now st i => Store.removeModule num now st i w
  | CallToggleModuleState now st i => Store.toggleModuleState num now st i w
  | CallSetModuleCharge now st i c => Store.setModuleCharge num now st i c w
  | CallAddDrone now md => Store.addDrone num now md w
  | CallRemoveDrone now i => Store.removeDrone num now i w
  | CallImportFitting f ship => Store.importFitting num f ship w
  end.

(** The contract that the callers of the store keep: a module goes into
    a rig or subsystem slot in the passive state, the state of such a
    module is not cycled, and an imported fitting has passive rigs and
    subsystems. *)
Definition keeps_contract (c : Call) : Prop :=
  match c with
  | CallAddModule _ st _ md | CallFillSlots _ st md =>
      fixed_state st = true -> Store.md_state md = Eve.passive
  | CallToggleModuleState _ st _ => fixed_state st = false
  | CallImportFitting f _ => passive_racks f
  | _ => True
  end.

(** *** Sample store *)

Definition module_data (name : string) (s : Eve.ModuleState) (effs : list Z)
  : Store.ModuleData :=
  {| Store.md_type_id := 2929; Store.md_name := lit name; Store.md_state := s;
     Store.md_charge := None; Store.md_group_id := None;
     Store.md_category_id := None; Store.md_attributes := None;
     Store.md_effects := Some effs |}.

(** A turret: it carries the effect [turretFitted]. *)
Definition turret_data : Store.ModuleData :=
  module_data "720mm Howitzer Artillery II" Eve.active [12%Z; 42%Z].

(** A rig, placed in the passive state. *)
Definition rig_data : Store.ModuleData :=
  module_data "Medium Core Defense Field Extender I" Eve.passive [2663%Z].

(** The sample hull selected: eight high slots, all empty. *)
Definition world_empty : Store.World :=
  Store.setShip sample_numerics (lit "t0") sample_ship None (Store.initial Eve.none).

(** Two turrets fitted in the first two high slots. *)
Definition world_two_turrets : Store.World :=
  Store.addModule sample_numerics (lit "t2") Eve.high 1 turret_data
    (Store.addModule sample_numerics (lit "t1") Eve.high 0 turret_data world_empty).

(** A rig fitted, then its state cycled. *)
Definition world_rig_toggled : Store.World :=
  Store.toggleModuleState sample_numerics (lit "t2") Eve.rig 0
    (Store.addModule sample_numerics (lit "t1") Eve.rig 0 rig_data world_empty).

(** ** The skill plan resolver ([src/lib/skill-plan.ts])

    The type lookup [getType] is an answer of the network and the table
    [SKILL_REQ_ATTRS] is not among the constants at hand; both are
    parameters, and so is the collation of [localeCompare].  A lookup that
    throws answers [None].  The concurrent lookups are taken one after the
    other; a [Map] is the list of its entries in insertion order, its keys
    compared as numbers. *)

Module Plan.

Import Eve.
Local Open Scope Q_scope.

(** [Map<number, V>] *)
Definition NumMap (V : Type) : Type := list (Q * V).

Definition map_get {V} (k : Q) (m : NumMap V) : option V :=
  option_map snd (List.find (fun p => Qeq_bool (fst p) k) m).

Fixpoint map_set {V} (k : Q) (v : V) (m : NumMap V) : NumMap V :=
  match m with
  | [] => [(k, v)]
  | (k', v') :: rest =>
      if Qeq_bool k' k then (k', v) :: rest else (k', v') :: map_set k v rest
  end.

Definition map_keys {V} (m : NumMap V) : list Q := map fst m.

Definition map_has {V} (k : Q) (m : NumMap V) : bool :=
  match map_get k m with Some _ => true | None => false end.

(** [Set<number>] *)
Definition set_has (k : Q) (s : list Q) : bool := existsb (fun x => Qeq_bool x k) s.

Definition set_add (k : Q) (s : list Q) : list Q := if set_has k s then s else s ++ [k].

Record RawSkillReq : Type := mkRaw {
  raw_skill_type_id : Q;
  level : Q
}.

(** [!existing || level > existing]: the entry is missing, zero, or
    lower. *)
Definition improves (existing : option Q) (lv : Q) : bool :=
  match existing with
  | None => true
  | Some e => Qeq_bool e 0 || Stats.gt lv e
  end.

Definition keep_highest (result : NumMap Q) (req : RawSkillReq) : NumMap Q :=
  if improves (map_get (raw_skill_type_id req) result) (level req)
  then map_set (raw_skill_type_id req) (level req) result
  else result.

(** Insertion sort by a comparator, stable as [Array.prototype.sort]. *)
Fixpoint insert_by {A} (cmp : A -> A -> Z) (x : A) (l : list A) : list A :=
  match l with
  | [] => [x]
  | y :: rest => if (cmp x y <? 0)%Z then x :: l else y :: insert_by cmp x rest
  end.

Definition sort_by {A} (cmp : A -> A -> Z) (l : list A) : list A :=
  fold_left (fun sorted x => insert_by cmp x sorted) l [].

Section Resolver.

Variable getType : Q -> option EveType.
Variable SKILL_REQ_ATTRS : list (Z * Z).
Variable localeCompare : str -> str -> Z.

(** [attrMap.get(id)]: the last attribute with that id. *)
Definition attr_get (attrs : list DogmaAttribute) (id : Z) : option Q :=
  option_map value (List.find (fun a => Z.eqb (attribute_id a) id) (rev attrs)).

Definition extractSkillReqs (type : EveType) : list RawSkillReq :=
  match dogma_attributes type with
  | None => []
  | Some attrs =>
      omap (fun pair : Z * Z =>
              match attr_get attrs (fst pair), attr_get attrs (snd pair) with
              | Some skillTypeId, Some lv =>
                  if Stats.gt skillTypeId 0 && Stats.gt lv 0
                  then Some (mkRaw skillTypeId lv)
                  else None
              | _, _ => None
              end)
           SKILL_REQ_ATTRS
  end.

(** [resolvePrerequisites]; [fuel] bounds the depth of the recursion. *)
Fixpoint resolvePrerequisites (fuel : nat) (skillTypeId : Q)
         (st : list Q * NumMap Q) : list Q * NumMap Q :=
  match fuel with
  | O => st
  | S fuel' =>
      let '(visited, result) := st in
      if set_has skillTypeId visited then st
      else
        let visited := set_add skillTypeId visited in
        match getType skillTypeId with
        | None => (visited, result)
        | Some skillType =>
            let not_a_skill :=
              match category_id skillType with
              | Some c => negb (Z.eqb c CATEGORY_IDS.SKILL)
              | None => false
              end in
            if not_a_skill then (visited, result)
            else
              fold_left
                (fun st prereq =>
                   resolvePrerequisites fuel' (raw_skill_type_id prereq)
                                        (fst st, keep_highest (snd st) prereq))
                (extractSkillReqs skillType) (visited, result)
        end
  end.

(** [getAllModuleTypeIds]: the distinct type ids, in order of first
    occurrence. *)
Definition getAllModuleTypeIds (fitting : Fitting) : list Z :=
  let slotted :=
    omap (fun m => m)
         (high_slots fitting ++ mid_slots fitting ++ low_slots fitting
          ++ rig_slots fitting ++ subsystem_slots fitting) in
  fold_left (fun ids m => if existsb (Z.eqb (m_type_id m)) ids then ids
                          else ids ++ [m_type_id m])
            (slotted ++ drones fitting) [].

(** A stage list: the entries of [levels] whose name is known and not
    empty, sorted by name. *)
Definition stage_skills (levels : NumMap Q) (skillNames : NumMap str)
  : list SkillRequirement :=
  sort_by (fun a b => localeCompare (skill_name a) (skill_name b))
          (omap (fun entry : Q * Q =>
                   match map_get (fst entry) skillNames with
                   | Some (c :: name) => Some (mkReq (fst entry) (c :: name) (snd entry))
                   | _ => None
                   end)
                levels).

Definition support_ids : list Q := map inject_Z SUPPORT_SKILL_IDS.values.

Definition buildSkillPlan (fuel : nat) (shipType : EveType) (fitting : Fitting)
  : SkillPlan :=
  (* 1. direct requirements of the ship and of the modules that resolve *)
  let moduleTypes :=
    omap (fun id => getType (inject_Z id)) (getAllModuleTypeIds fitting) in
  let allTypes := shipType :: moduleTypes in
  let directReqs : NumMap Q :=
    fold_left (fun reqs type => fold_left keep_highest (extractSkillReqs type) reqs)
              allTypes [] in
  (* 2. prerequisite trees *)
  let allReqs : NumMap Q :=
    snd (fold_left (fun st skillId => resolvePrerequisites fuel skillId st)
                   (map_keys directReqs) ([], directReqs)) in
  (* 3. names *)
  let skillNames : NumMap str :=
    fold_left (fun names id =>
                 match getType id with
                 | Some type => map_set id (t_name type) names
                 | None => names
                 end)
              (map_keys allReqs) [] in
  (* 4. stage 1 *)
  let stage1Skills := stage_skills allReqs skillNames in
  (* 5. stage 2 *)
  let stage2Map : NumMap Q :=
    fold_left (fun m entry => map_set (fst entry) (Stats.Math_max (snd entry) 4) m)
              allReqs [] in
  let stage2Map :=
    fold_left (fun m supportId =>
                 match map_get supportId m with
                 | Some existing =>
                     if Qeq_bool existing 0 || Stats.gt 4 existing
                     then map_set supportId 4 m else m
                 | None => map_set supportId 4 m
                 end)
              support_ids stage2Map in
  let skillNames :=
    fold_left (fun names supportId =>
                 if map_has supportId names then names
                 else match getType supportId with
                      | Some type => map_set supportId (t_name type) names
                      | None => names
                      end)
              support_ids skillNames in
  let stage2Skills := stage_skills stage2Map skillNames in
  (* 6. stage 3 *)
  let stage3Skills :=
    map (fun s => mkReq (skill_type_id s) (skill_name s) 5) stage2Skills in
  {| stages :=
       ({| st_name := lit "Minimum"; skills := stage1Skills;
           total := length stage1Skills |},
        {| st_name := lit "Recommended"; skills := stage2Skills;
           total := length stage2Skills |},
        {| st_name := lit "Mastery"; skills := stage3Skills;
           total := length stage3Skills |}) |}.

End Resolver.

End Plan.

(** *** The ordering of the stages *)

Definition stage_ids (s : Eve.SkillPlanStage) : list Q :=
  map Eve.skill_type_id (Eve.skills s).

(** Mastery covers Recommended, which covers Minimum; Mastery is all
    fives; Recommended is at least four and at least the Minimum level of
    the same skill. *)
Definition stage_ordering (p : Eve.SkillPlan) : Prop :=
  let '(minimum, recommended, mastery) := Eve.stages p in
  incl (stage_ids recommended) (stage_ids mastery)
  /\ incl (stage_ids minimum) (stage_ids recommended)
  /\ (forall r, In r (Eve.skills mastery) -> Eve.required_level r = 5%Q)
  /\ (forall r, In r (Eve.skills recommended) ->
        (4 <= Eve.required_level r)%Q
        /\ forall r1, In r1 (Eve.skills minimum) ->
                      (Eve.skill_type_id r1 == Eve.skill_type_id r)%Q ->
                      (Eve.required_level r1 <= Eve.required_level r)%Q).

(** No two entries of a map have the same key. *)
Fixpoint uniq {V} (m : Plan.NumMap V) : Prop :=
  match m with
  | [] => True
  | (k, _) :: rest => Plan.map_get k rest = None /\ uniq rest
  end.

(** [m'] holds every key of [m], at a level that is not lower. *)
Definition raises (m m' : Plan.NumMap Q) : Prop :=
  forall k l, In (k, l) m -> exists l', In (k, l') m' /\ (l <= l')%Q.

(** *** A small universe of types *)

(** One pair of requirement attributes: the skill and its level. *)
Definition sample_req_attrs : list (Z * Z) := [(182, 277)]%Z.

Definition skill_type (id : Z) (name : string) (attrs : list (Z * Q)) : Eve.EveType :=
  {| Eve.type_id := id; Eve.t_name := lit name; Eve.group_id := 257;
     Eve.category_id := Some CATEGORY_IDS.SKILL; Eve.t_mass := None;
     Eve.dogma_attributes := Some (map (fun p => Eve.mkAttr (fst p) (snd p)) attrs);
     Eve.dogma_effects := None |}.

(** A cruiser skill that asks for the destroyer skill at four, and one
    support skill; every other lookup fails. *)
Definition sample_getType (id : Q) : option Eve.EveType :=
  if Qeq_bool id 3332 then
    Some (skill_type 3332 "Gallente Cruiser" [(182, 3328 # 1); (277, 4 # 1)]%Z)
  else if Qeq_bool id 3328 then Some (skill_type 3328 "Gallente Destroyer" [])
  else if Qeq_bool id (inject_Z SUPPORT_SKILL_IDS.CPU_MANAGEMENT) then
    Some (skill_type SUPPORT_SKILL_IDS.CPU_MANAGEMENT "CPU Management" [])
  else None.

(** A hull that asks for the cruiser skill at three. *)
Definition sample_hull : Eve.EveType :=
  {| Eve.type_id := 627; Eve.t_name := lit "Thorax"; Eve.group_id := 26;
     Eve.category_id := Some 6%Z; Eve.t_mass := None;
     Eve.dogma_attributes :=
       Some [Eve.mkAttr 182 (3332 # 1); Eve.mkAttr 277 (3 # 1)];
     Eve.dogma_effects := None |}.

Definition bare_fitting : Eve.Fitting :=
  {| Eve.f_id := lit "f"; Eve.f_name := lit "New Fitting";
     Eve.ship_type_id := 627; Eve.ship_name := lit "Thorax";
     Eve.ship_group_id := None; Eve.description := None; Eve.tags := None;
     Eve.high_slots := []; Eve.mid_slots := []; Eve.low_slots := [];
     Eve.rig_slots := []; Eve.subsystem_slots := [];
     Eve.drones := []; Eve.f_cargo := [];
     Eve.created_at := lit "t0"; Eve.updated_at := lit "t0" |}.

(** The order of the character codes, as a collation. *)
Fixpoint code_order (a b : str) : Z :=
  match a, b with
  | [], [] => 0%Z
  | [], _ :: _ => (-1)%Z
  | _ :: _, [] => 1%Z
  | x :: a', y :: b' =>
      if (code x <? code y)%nat then (-1)%Z
      else if (code y <? code x)%nat then 1%Z
      else code_order a' b'
  end.

(** The ids and levels of the three stages. *)
Definition stage_levels (p : Eve.SkillPlan) : list (list (Q * Q)) :=
  let '(minimum, recommended, mastery) := Eve.stages p in
  map (fun s => map (fun r => (Eve.skill_type_id r, Eve.required_level r)) (Eve.skills s))
      [minimum; recommended; mastery].

(** ** Validation and name extraction ([src/lib/eft-parser.ts]) *)

Module EFTTools.

Import EFT.

(** [.*] inside [.+]: greedy, the longest run first. *)
Fixpoint dot_star_greedy {R} (k : Matcher R) (s : str) : option R :=
  match s with
  | a :: s' =>
      if is_lt a then k s
      else match dot_star_greedy k s' with
           | Some r => Some r
           | None => k s
           end
  | [] => k s
  end.

(** [.+], greedy and without capture. *)
Definition dot_plus_greedy {R} (k : Matcher R) : Matcher R :=
  fun s => match s with
           | a :: s' => if is_lt a then None else dot_star_greedy k s'
           | [] => None
           end.

(** The end of a pattern without [$]: whatever follows is accepted. *)
Definition accept : Matcher unit := fun _ => Some tt.

(** [/^\[.+,\s*.+\]/.test(text.trim())] *)
Definition isEFTFormat (text : str) : bool :=
  match chr "["%char
          (dot_plus_greedy
             (chr ","%char
                (ws_star (dot_plus_greedy (chr "]"%char accept)))))
          (trim text) with
  | Some _ => true
  | None => false
  end.

(** [Set.prototype.add] on a set of strings, in insertion order. *)
Definition names_add (n : str) (names : list str) : list str :=
  if existsb (str_eqb n) names then names else names ++ [n].

(** [[...parsed.lowSlots, ..., ...parsed.cargo]] *)
Definition allSlots (parsed : ParsedEFT) : list EFTLine :=
  lowSlots parsed ++ midSlots parsed ++ highSlots parsed ++ rigSlots parsed
  ++ subsystems parsed ++ drones parsed ++ cargo parsed.

(** One iteration of [for (const item of allSlots)]; an empty charge is
    falsy. *)
Definition names_step (names : list str) (item : EFTLine) : list str :=
  let names := names_add (name item) names in
  match charge item with
  | Some (c :: cs) => names_add (c :: cs) names
  | _ => names
  end.

Definition getUniqueItemNames (parsed : ParsedEFT) : list str :=
  fold_left names_step (allSlots parsed) (names_add (shipName parsed) []).

End EFTTools.

(** *** Lines with charges *)

(** A charge name as [formatEFTLine] prints it: not empty, on one line,
    without white space at its ends. *)
Definition plain_charge (c : str) : bool := no_outer_ws c && single_line c.

(** A module line with or without charge and quantity; the name has no
    comma, and the text before a quantity that is not printed does not
    itself end in a quantity suffix. *)
Definition printable_item (it : EFT.EFTLine) : bool :=
  no_outer_ws (EFT.name it) && single_line (EFT.name it) && no_comma (EFT.name it)
  && negb (startsWith (lit "[Empty") (EFT.name it))
  && match EFT.charge it with None => true | Some c => plain_charge c end
  && match EFT.quantity it with
     | None =>
         negb (ends_with_quantity
                 (EFT.formatEFTLine (EFT.mkLine (EFT.name it) (EFT.charge it) None)))
     | Some q => (1 <? q)%N && (q <=? MAX_SAFE_INTEGER)%N
     end.

(** The seven lists of a parsed fitting, in the order of the text. *)
Definition parsed_categories (p : EFT.ParsedEFT) : list (list EFT.EFTLine) :=
  [EFT.lowSlots p; EFT.midSlots p; EFT.highSlots p; EFT.rigSlots p;
   EFT.subsystems p; EFT.drones p; EFT.cargo p].

(** A module with a charge, and a stack of charges in the cargo. *)
Definition loaded_launcher : EFT.EFTLine :=
  EFT.mkLine (lit "Heavy Missile Launcher II") (Some (lit "Scourge Fury Heavy Missile")) None.

Definition missile_stack : EFT.EFTLine :=
  EFT.mkLine (lit "Scourge Fury Heavy Missile") None (Some 2000%N).

(** *** The shape of a simulation result *)

(** A stable result carries a percentage and no time; an unstable one a
    time and no percentage. *)
Definition well_shaped (maxSimSeconds : float) (r : Cap.CapSim) : Prop :=
  (Cap.stable r = true /\ Cap.lastsSeconds r = None
   /\ exists p, Cap.stablePercent r = Some p)
  \/ (Cap.stable r = false /\ Cap.stablePercent r = None
      /\ exists t, Cap.lastsSeconds r = Some t
                   /\ ((t <? maxSimSeconds)%float = true \/ t = maxSimSeconds)).

(** ** Helpers ([src/lib/utils.ts]) and flags ([src/lib/constants.ts]) *)

Module SLOT_EFFECT_IDS.
Definition HIGH_SLOT : Z := 11.
Definition MED_SLOT : Z := 13.
Definition LOW_SLOT : Z := 12.
Definition RIG_SLOT : Z := 2663.
Definition SUBSYSTEM : Z := 3772.
End SLOT_EFFECT_IDS.

Module Utils.

Import Eve.

(** [effectIds.includes(id)] *)
Definition includes (effectIds : list Z) (id : Z) : bool := existsb (Z.eqb id) effectIds.

Definition getSlotTypeFromEffects (effectIds : list Z) : option SlotType :=
  if includes effectIds SLOT_EFFECT_IDS.HIGH_SLOT then Some high
  else if includes effectIds SLOT_EFFECT_IDS.MED_SLOT then Some mid
  else if includes effectIds SLOT_EFFECT_IDS.LOW_SLOT then Some low
  else if includes effectIds SLOT_EFFECT_IDS.RIG_SLOT then Some rig
  else if includes effectIds SLOT_EFFECT_IDS.SUBSYSTEM then Some subsystem
  else None.

(** [str.slice(0, end)] for an integer [end]: a negative end counts from
    the end of the text. *)
Definition slice0 (end_ : Z) (s : str) : str :=
  let len := Z.of_nat (length s) in
  let e := if (end_ <? 0)%Z then Z.max (len + end_) 0 else Z.min end_ len in
  firstn (Z.to_nat e) s.

(** [truncate], for an integer [maxLen]. *)
Definition truncate (s : str) (maxLen : Z) : str :=
  if (Z.of_nat (length s) <=? maxLen)%Z then s
  else slice0 (maxLen - 3) s ++ lit "...".

(** [countFittedModules] *)
Definition countFittedModules (fitting : Fitting) : nat :=
  length (List.filter (fun s : option FittedModule =>
                         match s with Some _ => true | None => false end)
                      (high_slots fitting ++ mid_slots fitting ++ low_slots fitting
                       ++ rig_slots fitting ++ subsystem_slots fitting)).

End Utils.

(** The [ESI_FLAG_TO_SLOT] table and [slotToEsiFlag] of [constants.ts].
    An object with string keys is the list of its entries; a key is
    written once here, and read with [obj_get]. *)
Module Flags.

Import Eve.

Definition Obj (V : Type) : Type := list (str * V).

(** [obj[key] = v] *)
Fixpoint obj_set {V} (key : str) (v : V) (o : Obj V) : Obj V :=
  match o with
  | [] => [(key, v)]
  | (k, v') :: rest =>
      if str_eqb k key then (k, v) :: rest else (k, v') :: obj_set key v rest
  end.

(** [obj[key]], [undefined] as [None]. *)
Fixpoint obj_get {V} (key : str) (o : Obj V) : option V :=
  match o with
  | [] => None
  | (k, v) :: rest => if str_eqb k key then Some v else obj_get key rest
  end.

Definition FLAG_PREFIXES : list (str * SlotType) :=
  [(lit "HiSlot", high); (lit "MedSlot", mid); (lit "LoSlot", low);
   (lit "RigSlot", rig); (lit "SubSystemSlot", subsystem)].

(** The two loops that build the table: for each prefix, the indices 0 to
    7. *)
Definition ESI_FLAG_TO_SLOT : Obj (SlotType * N) :=
  fold_left
    (fun table entry =>
       fold_left
         (fun table i =>
            obj_set (fst entry ++ Number_toString i) (snd entry, i) table)
         (map N.of_nat (seq 0 8)) table)
    FLAG_PREFIXES [].

(** [slotToEsiFlag], for an index that is a natural number.  The answer
    ['Invalid'] is given for no slot type. *)
Definition slotToEsiFlag (slotType : SlotType) (index : N) : str :=
  match slotType with
  | drone => lit "DroneBay"
  | cargo => lit "Cargo"
  | high => lit "HiSlot" ++ Number_toString index
  | mid => lit "MedSlot" ++ Number_toString index
  | low => lit "LoSlot" ++ Number_toString index
  | rig => lit "RigSlot" ++ Number_toString index
  | subsystem => lit "SubSystemSlot" ++ Number_toString index
  end.

(** The slot types that have a rack. *)
Definition has_rack (slotType : SlotType) : bool :=
  match slotType with
  | high | mid | low | rig | subsystem => true
  | drone | cargo => false
  end.

End Flags.

(** *** More on the stats calculator *)

(** The slot with an offline module emptied. *)
Definition without_offline (slot : option Eve.FittedModule) : option Eve.FittedModule :=
  match slot with
  | Some m => if Stats.is_offline m then None else Some m
  | None => None
  end.

(** The fitting with every offline module taken out of its slot; the
    slots stay. *)
Definition strip_offline (f : Eve.Fitting) : Eve.Fitting :=
  {| Eve.f_id := Eve.f_id f; Eve.f_name := Eve.f_name f;
     Eve.ship_type_id := Eve.ship_type_id f; Eve.ship_name := Eve.ship_name f;
     Eve.ship_group_id := Eve.ship_group_id f;
     Eve.description := Eve.description f; Eve.tags := Eve.tags f;
     Eve.high_slots := map without_offline (Eve.high_slots f);
     Eve.mid_slots := map without_offline (Eve.mid_slots f);
     Eve.low_slots := map without_offline (Eve.low_slots f);
     Eve.rig_slots := map without_offline (Eve.rig_slots f);
     Eve.subsystem_slots := map without_offline (Eve.subsystem_slots f);
     Eve.drones := Eve.drones f; Eve.f_cargo := Eve.f_cargo f;
     Eve.created_at := Eve.created_at f; Eve.updated_at := Eve.updated_at f |}.

(** No module of the slot arrays carries the slot type of the drone
    bay. *)
Definition no_drone_in_racks (f : Eve.Fitting) : Prop :=
  forall m, In m (Stats.allFittedModules f) -> Eve.slot_type m <> Eve.drone.

(** The attribute that holds the strength of a sensor type. *)
Definition sensor_attr (t : Eve.SensorType) : Z :=
  match t with
  | Eve.Radar => ATTR.SENSOR_RADAR_STRENGTH
  | Eve.Ladar => ATTR.SENSOR_LADAR_STRENGTH
  | Eve.Magnetometric => ATTR.SENSOR_MAGNETOMETRIC_STRENGTH
  | Eve.Gravimetric => ATTR.SENSOR_GRAVIMETRIC_STRENGTH
  end.

(** The derived fields of a snapshot agree with the fields they are
    derived from. *)
Definition layer_coherent (l : Eve.LayerStats) : Prop :=
  Eve.ehp l
  = Stats.calculateEHP (Eve.hp l)
      (Stats.avgResonance (Eve.em (Eve.resist l)) (Eve.thermal (Eve.resist l))
         (Eve.kinetic (Eve.resist l)) (Eve.explosive (Eve.resist l))).

Definition coherent (num : Stats.Numerics) (s : Eve.ShipStats) : Prop :=
  Eve.cpu_remaining (Eve.engineering s)
  = (Eve.cpu_total (Eve.engineering s) - Eve.cpu_used (Eve.engineering s))%Q
  /\ Eve.pg_remaining (Eve.engineering s)
     = (Eve.pg_total (Eve.engineering s) - Eve.pg_used (Eve.engineering s))%Q
  /\ Eve.peak_recharge (Eve.capacitor s)
     = (if Stats.gt (Eve.recharge_rate (Eve.capacitor s)) 0
        then (2.5 * Eve.capacity (Eve.capacitor s)) / Eve.recharge_rate (Eve.capacitor s)
        else 0)%Q
  /\ layer_coherent (Eve.shield s) /\ layer_coherent (Eve.armor s)
  /\ layer_coherent (Eve.hull s)
  /\ Eve.total_ehp s
     = (Eve.ehp (Eve.shield s) + Eve.ehp (Eve.armor s) + Eve.ehp (Eve.hull s))%Q
  /\ Eve.agility (Eve.navigation s) = Eve.inertia_modifier (Eve.navigation s)
  /\ Eve.align_time (Eve.navigation s)
     = Stats.calculateAlignTime num (Eve.mass (Eve.navigation s))
         (Eve.inertia_modifier (Eve.navigation s)).

(** A light drone, and a fitting with one turret and five such drones in
    the bay. *)
Definition warrior (idx : Z) : Eve.FittedModule :=
  module_with "Warrior II" Eve.drone idx Eve.active
    [(ATTR.DRONE_BANDWIDTH, 5 # 1); (ATTR.DRONE_CAPACITY, 5 # 1);
     (ATTR.MODULE_CYCLE_TIME, 4000 # 1); (ATTR.KINETIC_DAMAGE, 16 # 1)]
    [].

Definition drone_boat : Eve.Fitting :=
  Store.with_drones (map warrior [0; 1; 2; 3; 4]%Z) (lit "t1")
                    (fitting_with_high [Some artillery; None]).

(** ** The skill map of a character ([src/lib/skills.ts]) *)

Module SkillTools.

Import Eve.

(** An entry of the ESI skill response, as far as it is read. *)
Record EsiSkill : Type := mkEsiSkill {
  skill_id : Z;
  active_skill_level : Q
}.

(** [supportIds.has(id)] *)
Definition is_support (id : Z) : bool := existsb (Z.eqb id) SUPPORT_SKILL_IDS.values.

(** [esiSkillsToMap] *)
Definition esiSkillsToMap (esiSkills : list EsiSkill) : SkillMap :=
  fold_left
    (fun (m : gmap Z Q) s =>
       if is_support (skill_id s) then <[skill_id s := active_skill_level s]> m else m)
    esiSkills ∅.

End SkillTools.

(** *** Untrained and fully trained characters *)

(** No support skill is trained. *)
Definition untrained (skills : gmap Z Q) : Prop :=
  forall id, In id SUPPORT_SKILL_IDS.values -> (Skills.lvl skills id == 0)%Q.

(** The last entry of the response for a skill. *)
Definition last_level (id : Z) (esiSkills : list SkillTools.EsiSkill) : option Q :=
  option_map SkillTools.active_skill_level
             (List.find (fun s => Z.eqb (SkillTools.skill_id s) id) (rev esiSkills)).

(** The bonused fields of a snapshot, the ones that rise first, then the
    ones that fall. *)
Definition rising_fields (s : Eve.ShipStats) : list Q :=
  [Eve.cpu_total (Eve.engineering s); Eve.pg_total (Eve.engineering s);
   Eve.capacity (Eve.capacitor s);
   Eve.hp (Eve.shield s); Eve.hp (Eve.armor s); Eve.hp (Eve.hull s);
   Eve.max_velocity (Eve.navigation s);
   Eve.max_target_range (Eve.targeting s); Eve.scan_resolution (Eve.targeting s)].

Definition falling_fields (s : Eve.ShipStats) : list Q :=
  [Eve.recharge_rate (Eve.capacitor s); Eve.inertia_modifier (Eve.navigation s)].

(** ** The rest of the store ([src/store/fitting-store.ts])

    The actions on the metadata, the selection, the dialogs and the
    skills.  The persistence actions work on the local storage and are
    not part of this model; [saveSkillMode] writes there too and leaves
    the store alone. *)

Module StoreMore.

Import Eve Store.

(** [set({ ...fields })], field by field. *)
Definition with_store (s : FittingStore) (w : World) : World :=
  {| store := s; next_id := next_id w; recomputes := recomputes w |}.

Definition with_meta (name : str) (desc : option str) (now : str) (f : Fitting) : Fitting :=
  {| f_id := f_id f; f_name := name; ship_type_id := ship_type_id f;
     ship_name := ship_name f; ship_group_id := ship_group_id f;
     description := desc; tags := tags f;
     high_slots := high_slots f; mid_slots := mid_slots f; low_slots := low_slots f;
     rig_slots := rig_slots f; subsystem_slots := subsystem_slots f;
     drones := drones f; f_cargo := f_cargo f;
     created_at := created_at f; updated_at := now |}.

(** [set({ fitting: updated, dirty: true })] *)
Definition set_fitting_dirty (updated : Fitting) (w : World) : World :=
  let s := store w in
  with_store
    {| fitting := Some updated; shipType := shipType s; stats := stats s;
       skillMode := skillMode s; skillMap := skillMap s; skillDeltas := skillDeltas s;
       savedFittings := savedFittings s; activeSlot := activeSlot s;
       moduleSearchOpen := moduleSearchOpen s; eftImportOpen := eftImportOpen s;
       dirty := true |} w.

Definition clearShip (w : World) : World :=
  let s := store w in
  with_store
    {| fitting := None; shipType := None; stats := None;
       skillMode := skillMode s; skillMap := skillMap s; skillDeltas := None;
       savedFittings := savedFittings s; activeSlot := None;
       moduleSearchOpen := moduleSearchOpen s; eftImportOpen := eftImportOpen s;
       dirty := false |} w.

Definition setFitName (now : str) (name : str) (w : World) : World :=
  match fitting (store w) with
  | None => w
  | Some f => set_fitting_dirty (with_meta name (description f) now (cloneFitting f)) w
  end.

Definition setDescription (now : str) (desc : str) (w : World) : World :=
  match fitting (store w) with
  | None => w
  | Some f => set_fitting_dirty (with_meta (f_name f) (Some desc) now (cloneFitting f)) w
  end.

(** The selection and the dialogs. *)
Definition set_ui (slot : option (SlotType * Z)) (search eft : bool) (w : World) : World :=
  let s := store w in
  with_store
    {| fitting := fitting s; shipType := shipType s; stats := stats s;
       skillMode := skillMode s; skillMap := skillMap s; skillDeltas := skillDeltas s;
       savedFittings := savedFittings s; activeSlot := slot;
       moduleSearchOpen := search; eftImportOpen := eft; dirty := dirty s |} w.

Definition selectSlot (slotType : SlotType) (index : Z) (w : World) : World :=
  set_ui (Some (slotType, index)) (moduleSearchOpen (store w)) (eftImportOpen (store w)) w.

Definition clearSlotSelection (w : World) : World :=
  set_ui None (moduleSearchOpen (store w)) (eftImportOpen (store w)) w.

Definition openModuleSearch (slotType : option SlotType) (index : option Z) (w : World)
  : World :=
  match slotType, index with
  | Some st, Some i => set_ui (Some (st, i)) true (eftImportOpen (store w)) w
  | _, _ => set_ui (activeSlot (store w)) true (eftImportOpen (store w)) w
  end.

Definition closeModuleSearch (w : World) : World :=
  set_ui None false (eftImportOpen (store w)) w.

Definition openEFTImport (w : World) : World :=
  set_ui (activeSlot (store w)) (moduleSearchOpen (store w)) true w.

Definition closeEFTImport (w : World) : World :=
  set_ui (activeSlot (store w)) (moduleSearchOpen (store w)) false w.

Section SkillActions.

Variable num : Stats.Numerics.

(** [set({ skillMode, skillMap, stats, skillDeltas })] with the stats of
    the current fitting computed anew, or, without a fitting,
    [set({ skillMode, skillMap })] and, where the source says so,
    [skillDeltas: null]. *)
Definition reskill (mode : SkillMode) (map_ : option (gmap Z Q)) (clear_deltas : bool)
           (w : World) : World :=
  let s := store w in
  match fitting s, shipType s with
  | Some f, Some ship =>
      let '(stats', deltas') := computeStatsWithSkills num ship f mode map_ in
      {| store :=
           {| fitting := fitting s; shipType := shipType s; stats := Some stats';
              skillMode := mode; skillMap := map_; skillDeltas := deltas';
              savedFittings := savedFittings s; activeSlot := activeSlot s;
              moduleSearchOpen := moduleSearchOpen s; eftImportOpen := eftImportOpen s;
              dirty := dirty s |};
         next_id := next_id w;
         recomputes := S (recomputes w) |}
  | _, _ =>
      with_store
        {| fitting := fitting s; shipType := shipType s; stats := stats s;
           skillMode := mode; skillMap := map_;
           skillDeltas := if clear_deltas then None else skillDeltas s;
           savedFittings := savedFittings s; activeSlot := activeSlot s;
           moduleSearchOpen := moduleSearchOpen s; eftImportOpen := eftImportOpen s;
           dirty := dirty s |} w
  end.

Definition setSkillMode (mode : SkillMode) (w : World) : World :=
  reskill mode (skillMap (store w)) true w.

Definition setMySkills (skills : gmap Z Q) (w : World) : World :=
  reskill (skillMode (store w)) (Some skills) false w.

Definition recomputeStats (w : World) : World :=
  match fitting (store w), shipType (store w) with
  | Some _, Some _ => reskill (skillMode (store w)) (skillMap (store w)) false w
  | _, _ => w
  end.

End SkillActions.

End StoreMore.

(** *** The actions of the store, and what they keep *)

(** Every action of the store but the four persistence actions. *)
Inductive Action : Type :=
| ASetShip (now : str) (shipType : Eve.EveType) (slotCounts : option Store.SlotCounts)
| AClearShip
| ASetFitName (now : str) (name : str)
| ASetDescription (now : str) (desc : str)
| AModule (c : Call)
| ASelectSlot (slotType : Eve.SlotType) (index : Z)
| AClearSlotSelection
| AOpenModuleSearch (slotType : option Eve.SlotType) (index : option Z)
| ACloseModuleSearch
| AOpenEFTImport
| ACloseEFTImport
| ASetSkillMode (mode : Eve.SkillMode)
| ASetMySkills (skills : gmap Z Q)
| ARecomputeStats.

Definition step (num : Stats.Numerics) (w : Store.World) (a : Action) : Store.World :=
  match a with
  | ASetShip now ship counts => Store.setShip num now ship counts w
  | AClearShip => StoreMore.clearShip w
  | ASetFitName now name => StoreMore.setFitName now name w
  | ASetDescription now desc => StoreMore.setDescription now desc w
  | AModule c => run num w c
  | ASelectSlot st i => StoreMore.selectSlot st i w
  | AClearSlotSelection => StoreMore.clearSlotSelection w
  | AOpenModuleSearch st i => StoreMore.openModuleSearch st i w
  | ACloseModuleSearch => StoreMore.closeModuleSearch w
  | AOpenEFTImport => StoreMore.openEFTImport w
  | ACloseEFTImport => StoreMore.closeEFTImport w
  | ASetSkillMode mode => StoreMore.setSkillMode num mode w
  | ASetMySkills skills => StoreMore.setMySkills num skills w
  | ARecomputeStats => StoreMore.recomputeStats num w
  end.

(** The stats and the deltas of the store are those of its fitting, ship,
    skill mode and skill map; without a fitting there is no ship and
    there are no stats. *)
Definition in_sync (num : Stats.Numerics) (w : Store.World) : Prop :=
  let s := Store.store w in
  match Store.fitting s, Store.shipType s with
  | Some f, Some ship =>
      Store.stats s
      = Some (fst (Store.computeStatsWithSkills num ship f (Store.skillMode s)
                                                (Store.skillMap s)))
      /\ Store.skillDeltas s
         = snd (Store.computeStatsWithSkills num ship f (Store.skillMode s)
                                             (Store.skillMap s))
  | None, None => Store.stats s = None /\ Store.skillDeltas s = None
  | _, _ => False
  end.

(** The slot type that goes with a slot array. *)
Definition key_type (key : Store.SlotArrayKey) : Eve.SlotType :=
  match key with
  | Store.high_slots_key => Eve.high
  | Store.mid_slots_key => Eve.mid
  | Store.low_slots_key => Eve.low
  | Store.rig_slots_key => Eve.rig
  | Store.subsystem_slots_key => Eve.subsystem
  end.

(** Every module of a rack knows its rack and its position. *)
Definition rack_placed (slotType : Eve.SlotType) (rack : list (option Eve.FittedModule))
  : Prop :=
  forall i m, rack !! i = Some (Some m) ->
              Eve.slot_type m = slotType /\ Eve.slot_index m = Z.of_nat i.

(** Every drone knows its position in the bay. *)
Definition bay_placed (ds : list Eve.FittedModule) : Prop :=
  forall i d, ds !! i = Some d ->
              Eve.slot_type d = Eve.drone /\ Eve.slot_index d = Z.of_nat i.

Definition well_placed (f : Eve.Fitting) : Prop :=
  (forall key, rack_placed (key_type key) (Store.get_slots key f))
  /\ bay_placed (Eve.drones f).

Definition placed_invariant (w : Store.World) : Prop :=
  match Store.fitting (Store.store w) with
  | Some f => well_placed f
  | None => True
  end.

(** The contract on imports: the imported fitting is well placed. *)
Definition places_well (a : Action) : Prop :=
  match a with
  | AModule (CallImportFitting f _) => well_placed f
  | _ => True
  end.

(** The lengths of the five slot arrays. *)
Definition rack_lengths (w : Store.World) : list nat :=
  map (fun key => length (rack_of key w))
      [Store.high_slots_key; Store.mid_slots_key; Store.low_slots_key;
       Store.rig_slots_key; Store.subsystem_slots_key].

(** Whether the action selects a ship or a whole fitting. *)
Definition replaces_fitting (a : Action) : bool :=
  match a with
  | ASetShip _ _ _ | AClearShip | AModule (CallImportFitting _ _) => true
  | _ => false
  end.

(** The drones of the current fitting. *)
Definition bay_of (w : Store.World) : list Eve.FittedModule :=
  match Store.fitting (Store.store w) with
  | Some f => Eve.drones f
  | None => []
  end.

(** The five racks of the current fitting. *)
Definition racks_of (w : Store.World) : list (list (option Eve.FittedModule)) :=
  map (fun key => rack_of key w)
      [Store.high_slots_key; Store.mid_slots_key; Store.low_slots_key;
       Store.rig_slots_key; Store.subsystem_slots_key].

(** What an action writes into the slot [i] of a rack: nothing, a module
    placed there, or the module of the slot with another state or
    charge. *)
Inductive slot_write (key : Store.SlotArrayKey) (rack : list (option Eve.FittedModule))
  : nat -> option Eve.FittedModule -> Prop :=
| write_empty i : slot_write key rack i None
| write_place i md id :
    slot_write key rack i (Some (Store.place md id (key_type key) (Z.of_nat i)))
| write_state i m s :
    rack !! i = Some (Some m) -> slot_write key rack i (Some (Store.with_state s m))
| write_charge i m c :
    rack !! i = Some (Some m) -> slot_write key rack i (Some (Store.with_charge c m)).

(** The fittings that the module and drone actions commit. *)
Inductive edit (f : Eve.Fitting) : Eve.Fitting -> Prop :=
| edit_slot key i x now :
    i < length (Store.get_slots key f) ->
    slot_write key (Store.get_slots key f) i x ->
    edit f (Store.with_slots key (<[i := x]> (Store.get_slots key f)) now f)
| edit_fill key md limited used limit filled w now :
    edit f (Store.with_slots key
              (fst (fst (Store.fill_loop md (key_type key) limited used limit
                                         (Store.get_slots key f) 0 filled w)))
              now f)
| edit_add_drone md id now :
    edit f (Store.with_drones
              (Eve.drones f
               ++ [Store.place md id Eve.drone (Z.of_nat (length (Eve.drones f)))])
              now f)
| edit_remove_drone index now :
    edit f (Store.with_drones (Store.reindex (Store.splice1 index (Eve.drones f))) now f).

(** Whether the call imports a fitting. *)
Definition is_import (c : Call) : bool :=
  match c with CallImportFitting _ _ => true | _ => false end.

(** A drone as the search hands it to the store. *)
Definition drone_data : Store.ModuleData :=
  module_data "Warrior II" Eve.active [].

(** A short session: a ship is selected, a turret and two drones are
    added, the first drone is removed, and the skills are switched off. *)
Definition sample_session : list Action :=
  [ASetShip (lit "t0") sample_ship None;
   AModule (CallAddModule (lit "t1") Eve.high 0 turret_data);
   AModule (CallAddDrone (lit "t2") drone_data);
   AModule (CallAddDrone (lit "t3") drone_data);
   AModule (CallRemoveDrone (lit "t4") 0);
   ASetSkillMode Eve.none].

(** The fitting of the store with two turrets. *)
Definition fitting_two_turrets : Eve.Fitting :=
  match Store.fitting (Store.store world_two_turrets) with
  | Some f => f
  | None => sample_fitting
  end.

(** *** What a skill plan holds *)

(** The five slot arrays of a fitting, one after the other. *)
Definition all_racks (f : Eve.Fitting) : list (option Eve.FittedModule) :=
  Eve.high_slots f ++ Eve.mid_slots f ++ Eve.low_slots f
  ++ Eve.rig_slots f ++ Eve.subsystem_slots f.

(** The module sits in a slot or in the drone bay. *)
Definition fitted_in (f : Eve.Fitting) (m : Eve.FittedModule) : Prop :=
  In (Some m) (all_racks f) \/ In m (Eve.drones f).

(** The type lookup answers equal numbers alike. *)
Definition respects_eq (getType : Q -> option Eve.EveType) : Prop :=
  forall a b, (a == b)%Q -> getType a = getType b.

(** The types the plan starts from: the hull, and the type of every module
    and drone whose lookup succeeds. *)
Definition plan_type (getType : Q -> option Eve.EveType) (shipType : Eve.EveType)
           (f : Eve.Fitting) (t : Eve.EveType) : Prop :=
  t = shipType
  \/ exists m, fitted_in f m /\ getType (inject_Z (Eve.m_type_id m)) = Some t.

(** The lookup of the skill succeeds with a name that is not empty. *)
Definition named (getType : Q -> option Eve.EveType) (id : Q) : Prop :=
  exists t c name, getType id = Some t /\ Eve.t_name t = c :: name.

(** The stage lists the skill, at the level or above. *)
Definition covers (s : Eve.SkillPlanStage) (id lv : Q) : Prop :=
  exists r, In r (Eve.skills s)
            /\ (Eve.skill_type_id r == id)%Q /\ (lv <= Eve.required_level r)%Q.

Definition minimum_stage (p : Eve.SkillPlan) : Eve.SkillPlanStage :=
  let '(minimum, _, _) := Eve.stages p in minimum.

Definition recommended_stage (p : Eve.SkillPlan) : Eve.SkillPlanStage :=
  let '(_, recommended, _) := Eve.stages p in recommended.

Definition stage_list (p : Eve.SkillPlan) : list Eve.SkillPlanStage :=
  let '(minimum, recommended, mastery) := Eve.stages p in
  [minimum; recommended; mastery].

(** No two entries of the stage are for the same skill. *)
Definition each_once (s : Eve.SkillPlanStage) : Prop :=
  ForallOrdPairs (fun a b => ~ (Eve.skill_type_id a == Eve.skill_type_id b)%Q)
                 (Eve.skills s).

(** No entry of the stage comes after one whose name collates strictly
    behind it. *)
Definition sorted_by_name (localeCompare : str -> str -> Z) (s : Eve.SkillPlanStage)
  : Prop :=
  ForallOrdPairs (fun a b => (0 <= localeCompare (Eve.skill_name b) (Eve.skill_name a))%Z)
                 (Eve.skills s).

(** A collation: of two names at most one is strictly before the other,
    and "not behind" is transitive. *)
Definition collation (cmp : str -> str -> Z) : Prop :=
  (forall a b, (cmp a b < 0)%Z -> (0 <= cmp b a)%Z)
  /\ (forall a b c, (0 <= cmp b a)%Z -> (0 <= cmp c b)%Z -> (0 <= cmp c a)%Z).

(** The map has the skill at the level or above. *)
Definition holds (m : Plan.NumMap Q) (id lv : Q) : Prop :=
  exists k l, In (k, l) m /\ Qeq_bool k id = true /\ (lv <= l)%Q.

(** Every level of the map is positive. *)
Definition positive (m : Plan.NumMap Q) : Prop :=
  forall k l, In (k, l) m -> (0 < l)%Q.

(** The names of the map are those that the lookup gives. *)
Definition names_of (getType : Q -> option Eve.EveType) (names : Plan.NumMap str)
  : Prop :=
  forall k n, Plan.map_get k names = Some n ->
              exists t, getType k = Some t /\ n = Eve.t_name t.

(** The requirements hold one entry per skill, all positive, with the
    skill [id] at [lv] or above. *)
Definition keeps (id lv : Q) (m : Plan.NumMap Q) : Prop :=
  uniq m /\ positive m /\ holds m id lv.

(** *** The meta level of a module ([src/lib/utils.ts]) *)

Module Meta.

Local Open Scope Q_scope.

(** [metaLevel ?? 0] *)
Definition or_zero (x : option Q) : Q :=
  match x with Some v => v | None => 0 end.

(** [techLevel === n] *)
Definition is_tech (techLevel : option Q) (n : Q) : bool :=
  match techLevel with Some t => Qeq_bool t n | None => false end.

Definition getMetaColor (metaLevel techLevel : option Q) : str :=
  if is_tech techLevel 2 then lit "text-blue-400"
  else if is_tech techLevel 3 then lit "text-yellow-300"
  else if Stats.ge (or_zero metaLevel) 10 then lit "text-purple-400"
  else if Stats.ge (or_zero metaLevel) 5 then lit "text-blue-300"
  else if Stats.ge (or_zero metaLevel) 1 then lit "text-green-400"
  else lit "text-gray-300".

Definition getMetaLabel (metaLevel techLevel : option Q) : str :=
  if is_tech techLevel 2 then lit "T2"
  else if is_tech techLevel 3 then lit "T3"
  else if Stats.ge (or_zero metaLevel) 10 then lit "Officer"
  else if Stats.ge (or_zero metaLevel) 7 then lit "Deadspace"
  else if Stats.ge (or_zero metaLevel) 5 then lit "Faction"
  else if Stats.ge (or_zero metaLevel) 1 then lit "Named"
  else lit "T1".

End Meta.
Example parse_line_plain :
  EFT.parseEFTLine (lit "Gyrostabilizer II")
  = Some (EFT.mkLine (lit "Gyrostabilizer II") None None).
Proof. vm_compute. reflexivity. Qed.

Example parse_line_charge :
  EFT.parseEFTLine (lit "720mm Howitzer Artillery II, Republic Fleet EMP M")
  = Some (EFT.mkLine (lit "720mm Howitzer Artillery II") (Some (lit "Republic Fleet EMP M")) None).
Proof. vm_compute. reflexivity. Qed.

Example parse_line_quantity :
  EFT.parseEFTLine (lit "Warrior II x5")
  = Some (EFT.mkLine (lit "Warrior II") None (Some 5%N)).
Proof. vm_compute. reflexivity. Qed.

(** * Facts about strings *)

Section StringFacts.

Lemma str_eqb_eq (a b : str) : str_eqb a b = true <-> a = b.
Proof.
  revert b. induction a as [|x a IH]; intros [|y b]; simpl; split; intros H;
    try reflexivity; try discriminate.
  - apply andb_true_iff in H as [Hx Hr].
    apply Ascii.eqb_eq in Hx. apply IH in Hr. congruence.
  - injection H as -> ->. rewrite Ascii.eqb_refl. simpl. apply IH. reflexivity.
Qed.

Lemma str_eqb_refl (a : str) : str_eqb a a = true.
Proof. apply str_eqb_eq. reflexivity. Qed.

Lemma str_eqb_neq (a b : str) : a <> b -> str_eqb a b = false.
Proof.
  intros H. destruct (str_eqb a b) eqn:E; [|reflexivity].
  apply str_eqb_eq in E. contradiction.
Qed.

Lemma trimStart_nonws (c : ascii) (s : str) :
  is_ws c = false -> trimStart (c :: s) = c :: s.
Proof. intros H. simpl. rewrite H. reflexivity. Qed.

Lemma trimEnd_last_nonws (s : str) (d : ascii) :
  s <> [] -> is_ws (List.last s d) = false -> trimEnd s = s.
Proof.
  induction s as [|c s IH]; intros Hne Hl; [contradiction|].
  destruct s as [|c' s'].
  - simpl in *. rewrite Hl. reflexivity.
  - change (List.last (c :: c' :: s') d) with (List.last (c' :: s') d) in Hl.
    specialize (IH ltac:(discriminate) Hl).
    change (trimEnd (c :: c' :: s')) with
      (match trimEnd (c' :: s') with
       | [] => if is_ws c then [] else [c]
       | t => c :: t
       end).
    rewrite IH. reflexivity.
Qed.

Lemma no_outer_ws_first (s : str) :
  no_outer_ws s = true -> exists c s', s = c :: s' /\ is_ws c = false.
Proof.
  destruct s as [|c s']; simpl; [discriminate|].
  intros H. apply andb_true_iff in H as [H _].
  exists c, s'. split; [reflexivity|]. now apply negb_true_iff.
Qed.

Lemma last_default_irrelevant (s : str) (c d d' : ascii) :
  List.last (c :: s) d = List.last (c :: s) d'.
Proof.
  revert c. induction s as [|c' s IH]; intros c; [reflexivity|].
  change (List.last (c :: c' :: s) d) with (List.last (c' :: s) d).
  change (List.last (c :: c' :: s) d') with (List.last (c' :: s) d').
  apply IH.
Qed.

Lemma no_outer_ws_last (s : str) (d : ascii) :
  no_outer_ws s = true -> is_ws (List.last s d) = false.
Proof.
  destruct s as [|c s']; [discriminate|].
  unfold no_outer_ws. intros H. apply andb_true_iff in H as [_ H].
  apply negb_true_iff in H.
  now rewrite (last_default_irrelevant s' c d c).
Qed.

Lemma no_outer_ws_nonempty (s : str) : no_outer_ws s = true -> s <> [].
Proof. destruct s; [discriminate|discriminate]. Qed.

Lemma trimEnd_plain (s : str) : no_outer_ws s = true -> trimEnd s = s.
Proof.
  intros H. apply (trimEnd_last_nonws s " "%char).
  - now apply no_outer_ws_nonempty.
  - now apply no_outer_ws_last.
Qed.

Lemma trim_plain (s : str) : no_outer_ws s = true -> trim s = s.
Proof.
  intros H. unfold trim.
  destruct (no_outer_ws_first s H) as (c & s' & -> & Hc).
  rewrite trimStart_nonws by assumption.
  now apply trimEnd_plain.
Qed.

Lemma single_line_no_nl (s : str) : single_line s = true -> no_nl s = true.
Proof.
  unfold single_line, no_nl. intros H.
  apply forallb_forall. intros c Hc.
  rewrite forallb_forall in H. specialize (H c Hc).
  apply negb_true_iff. apply negb_true_iff in H.
  destruct (Ascii.eqb c nl) eqn:E; [|reflexivity].
  apply Ascii.eqb_eq in E. subst c. discriminate H.
Qed.

Lemma no_nl_app (a b : str) : no_nl (a ++ b) = no_nl a && no_nl b.
Proof. apply forallb_app. Qed.

Lemma split_nl_no_nl (l : str) : no_nl l = true -> split_nl l = [l].
Proof.
  induction l as [|c l IH]; simpl; intros H; [reflexivity|].
  apply andb_true_iff in H as [Hc Hl].
  apply negb_true_iff in Hc. rewrite Hc, (IH Hl). reflexivity.
Qed.

Lemma split_nl_app_nl (l r : str) :
  no_nl l = true -> split_nl (l ++ nl :: r) = l :: split_nl r.
Proof.
  induction l as [|c l IH]; simpl; intros H; [reflexivity|].
  apply andb_true_iff in H as [Hc Hl].
  apply negb_true_iff in Hc. rewrite Hc, (IH Hl). reflexivity.
Qed.

Lemma split_join (ls : list str) :
  ls <> [] -> forallb no_nl ls = true -> split_nl (join_nl ls) = ls.
Proof.
  induction ls as [|l ls IH]; intros Hne H; [contradiction|].
  simpl in H. apply andb_true_iff in H as [Hl Hls].
  destruct ls as [|l' ls'].
  - simpl. now apply split_nl_no_nl.
  - change (join_nl (l :: l' :: ls')) with (l ++ nl :: join_nl (l' :: ls')).
    rewrite split_nl_app_nl by assumption.
    rewrite IH; [reflexivity|discriminate|assumption].
Qed.

Lemma split_nl_nonempty (s : str) : split_nl s <> [].
Proof.
  destruct s as [|c s]; simpl; [discriminate|].
  destruct (Ascii.eqb c nl); [discriminate|].
  destruct (split_nl s); discriminate.
Qed.

Lemma split_nl_single_nil (s : str) : split_nl s = [[]] -> s = [].
Proof.
  destruct s as [|c s]; [reflexivity|]. simpl.
  destruct (Ascii.eqb c nl).
  - intros H. injection H as H. now apply split_nl_nonempty in H.
  - destruct (split_nl s); discriminate.
Qed.

Lemma forallb_rev {A} (f : A -> bool) (l : list A) :
  forallb f (rev l) = forallb f l.
Proof.
  induction l as [|a l IH]; [reflexivity|].
  simpl. rewrite forallb_app, IH. simpl.
  rewrite andb_true_r. apply andb_comm.
Qed.

End StringFacts.
(** * Trimming a text, seen line by line *)

Section TrimLines.

Lemma nl_is_ws : is_ws nl = true.
Proof. reflexivity. Qed.

Lemma trimEnd_cons (c : ascii) (s : str) :
  trimEnd (c :: s) =
  match trimEnd s with
  | [] => if is_ws c then [] else [c]
  | t => c :: t
  end.
Proof. reflexivity. Qed.

Lemma split_nl_cons (c : ascii) (s : str) :
  split_nl (c :: s) =
  if Ascii.eqb c nl then [] :: split_nl s
  else match split_nl s with
       | l :: ls => (c :: l) :: ls
       | [] => [[c]]
       end.
Proof. reflexivity. Qed.

Lemma strip_end_cons (l : str) (r : list str) :
  strip_end (l :: r) =
  match strip_end r with
  | [] => match trimEnd l with [] => [] | t => [t] end
  | r' => l :: r'
  end.
Proof. reflexivity. Qed.

Lemma strip_end_nil_iff (s : str) :
  strip_end (split_nl s) = [] <-> trimEnd s = [].
Proof.
  induction s as [|c s IH]; [split; reflexivity|].
  rewrite trimEnd_cons, (split_nl_cons c s).
  destruct (Ascii.eqb c nl) eqn:Ec.
  - apply Ascii.eqb_eq in Ec. subst c. rewrite nl_is_ws, strip_end_cons.
    change (trimEnd []) with (@nil ascii).
    destruct (strip_end (split_nl s)) as [|x r].
    + destruct IH as [IH _]. rewrite (IH eq_refl). split; reflexivity.
    + destruct (trimEnd s) as [|y t].
      * destruct IH as [_ IH]. discriminate (IH eq_refl).
      * split; discriminate.
  - destruct (split_nl s) as [|h tl] eqn:EL.
    { now apply split_nl_nonempty in EL. }
    rewrite strip_end_cons. rewrite strip_end_cons in IH.
    rewrite trimEnd_cons.
    destruct (strip_end tl) as [|x r].
    + destruct (trimEnd h) as [|y t].
      * destruct IH as [IH _]. rewrite (IH eq_refl).
        destruct (is_ws c); split; intros; try reflexivity; try discriminate.
      * destruct (trimEnd s) as [|z u].
        -- destruct IH as [_ IH]. discriminate (IH eq_refl).
        -- split; discriminate.
    + destruct (trimEnd s) as [|z u].
      * destruct IH as [_ IH]. discriminate (IH eq_refl).
      * split; discriminate.
Qed.

(** The lines of a text trimmed at its end. *)
Lemma split_trimEnd (s : str) :
  split_nl (trimEnd s) =
  match strip_end (split_nl s) with
  | [] => [[]]
  | r => r
  end.
Proof.
  induction s as [|c s IH]; [reflexivity|].
  pose proof (strip_end_nil_iff s) as Hnil.
  rewrite trimEnd_cons, (split_nl_cons c s).
  destruct (Ascii.eqb c nl) eqn:Ec.
  - apply Ascii.eqb_eq in Ec. subst c. rewrite nl_is_ws, strip_end_cons.
    change (trimEnd []) with (@nil ascii).
    destruct (strip_end (split_nl s)) as [|x r].
    + destruct Hnil as [Hnil _]. rewrite (Hnil eq_refl). reflexivity.
    + destruct (trimEnd s) as [|y t].
      * destruct Hnil as [_ Hnil]. discriminate (Hnil eq_refl).
      * rewrite split_nl_cons. change (Ascii.eqb nl nl) with true.
        rewrite IH. reflexivity.
  - destruct (split_nl s) as [|h tl] eqn:EL.
    { now apply split_nl_nonempty in EL. }
    rewrite strip_end_cons. rewrite strip_end_cons in IH, Hnil.
    rewrite trimEnd_cons.
    destruct (strip_end tl) as [|x r].
    + destruct (trimEnd h) as [|y t].
      * destruct Hnil as [Hnil _]. rewrite (Hnil eq_refl).
        destruct (is_ws c); [reflexivity|].
        rewrite split_nl_cons, Ec. reflexivity.
      * destruct (trimEnd s) as [|z u].
        -- destruct Hnil as [_ Hnil]. discriminate (Hnil eq_refl).
        -- rewrite split_nl_cons, Ec, IH. reflexivity.
    + destruct (trimEnd s) as [|z u].
      * destruct Hnil as [_ Hnil]. discriminate (Hnil eq_refl).
      * rewrite split_nl_cons, Ec, IH. reflexivity.
Qed.

(** A text whose first line is plain: trimming it removes the blank
    lines at its end and nothing else. *)
Lemma split_trim_join (h : str) (body : list str) :
  no_outer_ws h = true ->
  no_nl h = true ->
  forallb no_nl body = true ->
  split_nl (trim (join_nl (h :: body))) = h :: strip_end body.
Proof.
  intros Hh Hnl Hbody.
  destruct (no_outer_ws_first h Hh) as (c & h' & -> & Hc).
  unfold trim.
  assert (Hstart : trimStart (join_nl ((c :: h') :: body)) = join_nl ((c :: h') :: body)).
  { destruct body; simpl; rewrite Hc; reflexivity. }
  rewrite Hstart, split_trimEnd.
  rewrite split_join; [|discriminate|change (no_nl (c :: h') && forallb no_nl body = true); now rewrite Hnl].
  rewrite strip_end_cons, (trimEnd_plain _ Hh).
  destruct (strip_end body); reflexivity.
Qed.

End TrimLines.
(** * The backtracking matchers *)

Section Matchers.

Import EFT.

Context {R : Type}.

Lemma chr_Some (c : ascii) (k : Matcher R) (s : str) (r : R) :
  chr c k s = Some r <-> exists s', s = c :: s' /\ k s' = Some r.
Proof.
  unfold chr. destruct s as [|a s'].
  - split; [discriminate|]. intros (s' & H & _). discriminate.
  - destruct (Ascii.eqb a c) eqn:E.
    + apply Ascii.eqb_eq in E. subst a. split.
      * intros H. exists s'. auto.
      * intros (s'' & H & Hk). injection H as ->. exact Hk.
    + split; [discriminate|]. intros (s'' & H & _). injection H as -> _.
      rewrite Ascii.eqb_refl in E. discriminate.
Qed.

Lemma eos_Some (r r' : R) (s : str) : eos r s = Some r' <-> s = [] /\ r = r'.
Proof.
  destruct s; simpl; split.
  - intros H. injection H as ->. auto.
  - intros [_ ->]. reflexivity.
  - discriminate.
  - intros [H _]. discriminate.
Qed.

(** A successful [(.+?)] captured a non-empty run without line
    terminators, and the rest of the pattern matched after it. *)
Lemma dot_plus_lazy_from_Some (k : str -> Matcher R) (s acc : str) (r : R) :
  dot_plus_lazy_from acc k s = Some r ->
  exists p rest, s = p ++ rest /\ p <> [] /\ single_line p = true
                 /\ k (acc ++ p) rest = Some r.
Proof.
  revert acc. induction s as [|a s IH]; intros acc; simpl; [discriminate|].
  destruct (is_lt a) eqn:Ea; [discriminate|].
  destruct (k (acc ++ [a]) s) as [r0|] eqn:Ek.
  - intros H. injection H as ->. exists [a], s. simpl. rewrite Ea.
    repeat split; auto; try discriminate.
  - intros H. apply IH in H as (p & rest & -> & Hp & Hsl & Hk).
    exists (a :: p), rest. simpl. rewrite Ea, Hsl.
    rewrite <- app_assoc in Hk. repeat split; auto; try discriminate.
Qed.

(** Conversely [(.+?)] succeeds as soon as one such split exists. *)
Lemma dot_plus_lazy_from_complete (k : str -> Matcher R) (p rest acc : str) :
  p <> [] -> single_line p = true ->
  k (acc ++ p) rest <> None ->
  dot_plus_lazy_from acc k (p ++ rest) <> None.
Proof.
  revert acc. induction p as [|a p IH]; intros acc Hne Hsl Hk; [contradiction|].
  simpl in Hsl. apply andb_true_iff in Hsl as [Ha Hp].
  apply negb_true_iff in Ha. simpl. rewrite Ha.
  destruct (k (acc ++ [a]) (p ++ rest)) eqn:Ek; [discriminate|].
  destruct p as [|b p'].
  - simpl in Ek. congruence.
  - apply IH; [discriminate|assumption|].
    rewrite <- app_assoc. exact Hk.
Qed.

Lemma ws_star_Some (k : Matcher R) (s : str) (r : R) :
  ws_star k s = Some r ->
  exists w rest, s = w ++ rest /\ forallb is_ws w = true /\ k rest = Some r.
Proof.
  induction s as [|a s IH]; simpl.
  - intros H. exists [], []. auto.
  - destruct (is_ws a) eqn:Ea.
    + destruct (ws_star k s) as [r0|] eqn:Es.
      * intros H. injection H as ->.
        destruct (IH eq_refl) as (w & rest & -> & Hw & Hk).
        exists (a :: w), rest. simpl. rewrite Ea. auto.
      * intros H. exists [], (a :: s). auto.
    + intros H. exists [], (a :: s). auto.
Qed.

Lemma ws_star_complete (k : Matcher R) (w rest : str) :
  forallb is_ws w = true -> k rest <> None -> ws_star k (w ++ rest) <> None.
Proof.
  induction w as [|a w IH]; intros Hw Hk.
  - simpl. destruct rest as [|b rest']; [exact Hk|].
    simpl. destruct (is_ws b); [|exact Hk].
    destruct (ws_star k rest'); [discriminate|exact Hk].
  - simpl in Hw. apply andb_true_iff in Hw as [Ha Hw].
    simpl. rewrite Ha.
    specialize (IH Hw Hk).
    destruct (ws_star k (w ++ rest)); [discriminate|contradiction].
Qed.

Lemma ws_plus_Some (k : Matcher R) (s : str) (r : R) :
  ws_plus k s = Some r ->
  exists w rest, s = w ++ rest /\ w <> [] /\ forallb is_ws w = true
                 /\ k rest = Some r.
Proof.
  unfold ws_plus. destruct s as [|a s]; [discriminate|].
  destruct (is_ws a) eqn:Ea; [|discriminate].
  intros H. apply ws_star_Some in H as (w & rest & -> & Hw & Hk).
  exists (a :: w), rest. simpl. rewrite Ea. repeat split; auto; try discriminate.
Qed.

Lemma digit_star_from_Some (k : str -> Matcher R) (s acc : str) (r : R) :
  digit_star_from acc k s = Some r ->
  exists d rest, s = d ++ rest /\ forallb is_digit d = true
                 /\ k (acc ++ d) rest = Some r.
Proof.
  revert acc. induction s as [|a s IH]; intros acc; simpl.
  - intros H. exists [], []. rewrite !app_nil_r. auto.
  - destruct (is_digit a) eqn:Ea.
    + destruct (digit_star_from (acc ++ [a]) k s) as [r0|] eqn:Es.
      * intros H. injection H as ->.
        destruct (IH _ Es) as (d & rest & -> & Hd & Hk).
        exists (a :: d), rest. simpl. rewrite Ea.
        rewrite <- app_assoc in Hk. auto.
      * intros H. exists [], (a :: s). rewrite !app_nil_r. auto.
    + intros H. exists [], (a :: s). rewrite !app_nil_r. auto.
Qed.

Lemma digit_plus_Some (k : str -> Matcher R) (s : str) (r : R) :
  digit_plus k s = Some r ->
  exists d rest, s = d ++ rest /\ d <> [] /\ forallb is_digit d = true
                 /\ k d rest = Some r.
Proof.
  unfold digit_plus. destruct s as [|a s]; [discriminate|].
  destruct (is_digit a) eqn:Ea; [|discriminate].
  intros H. apply digit_star_from_Some in H as (d & rest & -> & Hd & Hk).
  exists (a :: d), rest. simpl. rewrite Ea. repeat split; auto; try discriminate.
Qed.

End Matchers.

Section MatcherRuns.

Import EFT.

(** Greedy digits followed by the end of input take every digit. *)
Lemma digit_star_all (g1 d acc : str) :
  forallb is_digit d = true ->
  digit_star_from acc (fun g2 => eos (g1, g2)) d = Some (g1, acc ++ d).
Proof.
  revert acc. induction d as [|a d IH]; intros acc Hd; simpl.
  - rewrite app_nil_r. reflexivity.
  - simpl in Hd. apply andb_true_iff in Hd as [Ha Hd].
    rewrite Ha, (IH _ Hd), <- app_assoc. reflexivity.
Qed.

(** [(.+?)] in front of a closing bracket at the end of the input takes
    the whole text before the bracket. *)
Lemma lazy_to_bracket (g1 p acc : str) :
  p <> [] -> single_line p = true ->
  dot_plus_lazy_from acc (fun g2 => chr "]"%char (eos (g1, g2))) (p ++ lit "]")
  = Some (g1, acc ++ p).
Proof.
  revert acc. induction p as [|a p IH]; intros acc Hne Hsl; [contradiction|].
  simpl in Hsl. apply andb_true_iff in Hsl as [Ha Hp].
  apply negb_true_iff in Ha.
  change ((a :: p) ++ lit "]") with (a :: p ++ lit "]").
  cbn [dot_plus_lazy_from]. rewrite Ha.
  destruct p as [|b p'].
  - reflexivity.
  - assert (Hfail : chr "]"%char (eos (g1, acc ++ [a])) ((b :: p') ++ lit "]") = None).
    { simpl. destruct (Ascii.eqb b "]"%char); [|reflexivity].
      destruct p'; reflexivity. }
    rewrite Hfail, IH by (discriminate || assumption).
    rewrite <- app_assoc. reflexivity.
Qed.

End MatcherRuns.
(** * Decimal digits *)

Section Digits.

Lemma code_digit_char (m : N) :
  (m < 10)%N -> code (digit_char m) = 48 + N.to_nat m.
Proof.
  intros H. unfold code, digit_char, nat_of_ascii.
  rewrite N_ascii_embedding by lia. lia.
Qed.

Lemma is_digit_digit_char (m : N) : (m < 10)%N -> is_digit (digit_char m) = true.
Proof.
  intros H. unfold is_digit. rewrite (code_digit_char m H).
  apply andb_true_iff. split; apply Nat.leb_le; lia.
Qed.

Lemma digit_val_digit_char (m : N) : (m < 10)%N -> digit_val (digit_char m) = m.
Proof.
  intros H. unfold digit_val, digit_char.
  rewrite N_ascii_embedding by lia. lia.
Qed.

Lemma is_digit_not_ws (c : ascii) : is_digit c = true -> is_ws c = false.
Proof.
  unfold is_digit, is_ws. intros H.
  apply andb_true_iff in H as [H1 H2].
  apply Nat.leb_le in H1. apply Nat.leb_le in H2.
  apply orb_false_iff. split; [apply orb_false_iff; split|].
  - apply andb_false_iff. right. apply Nat.leb_gt. lia.
  - apply Nat.eqb_neq. lia.
  - apply Nat.eqb_neq. lia.
Qed.

Lemma to_digits_shape (fuel : nat) (n : N) (acc : str) :
  exists pre, to_digits fuel n acc = pre ++ acc
              /\ forallb is_digit pre = true
              /\ (fuel <> 0 -> pre <> []).
Proof.
  revert n acc. induction fuel as [|f IH]; intros n acc.
  - exists []. simpl. auto.
  - simpl. assert (Hd : is_digit (digit_char (n mod 10)) = true).
    { apply is_digit_digit_char. apply N.mod_lt. discriminate. }
    destruct (n <? 10)%N.
    + exists [digit_char (n mod 10)]. simpl. rewrite Hd.
      repeat split; auto; discriminate.
    + destruct (IH (n / 10)%N (digit_char (n mod 10) :: acc)) as (pre & -> & Hp & _).
      exists (pre ++ [digit_char (n mod 10)]).
      rewrite <- app_assoc, forallb_app, Hp. simpl. rewrite Hd.
      repeat split; auto. intros _. destruct pre; discriminate.
Qed.

Lemma to_digits_parse (fuel : nat) (n : N) (acc : str) :
  (n < 2 ^ N.of_nat fuel)%N ->
  fold_left (fun a c => (10 * a + digit_val c)%N) (to_digits fuel n acc) 0%N
  = fold_left (fun a c => (10 * a + digit_val c)%N) acc n.
Proof.
  revert n acc. induction fuel as [|f IH]; intros n acc Hn.
  - simpl in *. replace n with 0%N by lia. reflexivity.
  - cbn [to_digits].
    assert (Hm : (n mod 10 < 10)%N) by (apply N.mod_lt; discriminate).
    destruct (n <? 10)%N eqn:E.
    + apply N.ltb_lt in E. cbn [fold_left].
      rewrite digit_val_digit_char by assumption.
      rewrite N.mod_small by assumption. reflexivity.
    + apply N.ltb_ge in E.
      rewrite IH.
      * cbn [fold_left]. rewrite digit_val_digit_char by assumption.
        f_equal. symmetry. apply N.div_mod. discriminate.
      * rewrite Nat2N.inj_succ, N.pow_succ_r' in Hn.
        apply N.Div0.div_lt_upper_bound.
        lia.
Qed.

Lemma Number_toString_parse (n : N) : parseInt10 (Number_toString n) = n.
Proof.
  unfold parseInt10, Number_toString.
  rewrite to_digits_parse; [reflexivity|].
  rewrite Nat2N.inj_succ, N2Nat.id, N.pow_succ_r'.
  pose proof (N.size_gt n). lia.
Qed.

Lemma Number_toString_digits (n : N) :
  forallb is_digit (Number_toString n) = true /\ Number_toString n <> [].
Proof.
  unfold Number_toString.
  destruct (to_digits_shape (S (N.to_nat (N.size n))) n []) as (pre & -> & Hp & Hne).
  rewrite app_nil_r. split; [assumption|]. apply Hne. discriminate.
Qed.

(** Two texts that agree and both consist of digits, a non-digit and a
    rest are split alike. *)
Lemma digits_split_unique (d1 d2 r1 r2 : str) (x1 x2 : ascii) :
  forallb is_digit d1 = true -> forallb is_digit d2 = true ->
  is_digit x1 = false -> is_digit x2 = false ->
  d1 ++ x1 :: r1 = d2 ++ x2 :: r2 ->
  d1 = d2 /\ x1 = x2 /\ r1 = r2.
Proof.
  revert d2. induction d1 as [|a d1 IH]; intros [|b d2] H1 H2 Hx1 Hx2 E; simpl in *.
  - injection E as -> ->. auto.
  - injection E as -> _. apply andb_true_iff in H2 as [H2 _]. congruence.
  - injection E as -> _. apply andb_true_iff in H1 as [H1 _]. congruence.
  - injection E as -> E.
    apply andb_true_iff in H1 as [_ H1]. apply andb_true_iff in H2 as [_ H2].
    destruct (IH d2 H1 H2 Hx1 Hx2 E) as (-> & -> & ->). auto.
Qed.

End Digits.
(** * One line of an EFT text *)

Section QuantityPattern.

Import EFT.

Lemma quantityMatch_unfold (s : str) :
  quantityMatch s = dot_plus_lazy_from [] quantity_tail s.
Proof. reflexivity. Qed.

Lemma quantity_tail_Some (g1 s : str) (r : str * str) :
  quantity_tail g1 s = Some r ->
  exists w d, s = w ++ "x"%char :: d /\ w <> [] /\ forallb is_ws w = true
              /\ d <> [] /\ forallb is_digit d = true /\ r = (g1, d).
Proof.
  unfold quantity_tail. intros H.
  apply ws_plus_Some in H as (w & rest & -> & Hw & Hws & H).
  apply chr_Some in H as (s' & -> & H).
  apply digit_plus_Some in H as (d & rest & -> & Hd & Hds & H).
  apply eos_Some in H as [-> <-].
  exists w, d. rewrite app_nil_r. auto 10.
Qed.

Lemma quantity_tail_here (g1 d : str) :
  d <> [] -> forallb is_digit d = true ->
  quantity_tail g1 (lit " x" ++ d) = Some (g1, d).
Proof.
  intros Hne Hd. destruct d as [|a d]; [contradiction|].
  simpl in Hd. apply andb_true_iff in Hd as [Ha Hd].
  unfold quantity_tail, ws_plus, digit_plus, chr. simpl.
  rewrite Ha. apply (digit_star_all g1 d [a] Hd).
Qed.

(** After a text that does not end in white space the tail of the
    pattern cannot start earlier. *)
Lemma quantity_tail_early (g1 m d : str) (c : ascii) :
  m <> [] -> is_ws (List.last m c) = false ->
  forallb is_digit d = true ->
  quantity_tail g1 (m ++ lit " x" ++ d) = None.
Proof.
  intros Hne Hlast Hd.
  destruct (quantity_tail g1 (m ++ lit " x" ++ d)) as [r|] eqn:E; [|reflexivity].
  exfalso.
  apply quantity_tail_Some in E as (w & d' & E & Hw & Hws & _ & Hd' & _).
  apply (f_equal (@rev ascii)) in E.
  rewrite !rev_app_distr in E. simpl in E.
  rewrite <- !app_assoc in E. simpl in E.
  apply digits_split_unique in E as (_ & _ & E);
    try reflexivity; try (rewrite forallb_rev; assumption).
  rewrite (app_removelast_last c Hne) in E.
  rewrite rev_app_distr in E. simpl in E.
  assert (Hall : forallb is_ws (rev w) = true) by (rewrite forallb_rev; assumption).
  rewrite <- E in Hall. cbn [forallb] in Hall.
  apply andb_true_iff in Hall as [_ Hall].
  apply andb_true_iff in Hall as [Hall _]. congruence.
Qed.

(** A plain name followed by a printed quantity is split at the quantity. *)
Lemma lazy_quantity (n d acc : str) (c : ascii) :
  n <> [] -> single_line n = true -> is_ws (List.last n c) = false ->
  d <> [] -> forallb is_digit d = true ->
  dot_plus_lazy_from acc quantity_tail (n ++ lit " x" ++ d) = Some (acc ++ n, d).
Proof.
  intros Hne Hsl Hlast Hdne Hd. revert acc.
  induction n as [|a n IH]; intros acc; [contradiction|].
  simpl in Hsl. apply andb_true_iff in Hsl as [Ha Hn].
  apply negb_true_iff in Ha.
  change ((a :: n) ++ lit " x" ++ d) with (a :: n ++ lit " x" ++ d).
  cbn [dot_plus_lazy_from]. rewrite Ha.
  destruct n as [|b n'].
  - change ([] ++ lit " x" ++ d) with (lit " x" ++ d).
    rewrite quantity_tail_here by assumption. reflexivity.
  - change (List.last (a :: b :: n') c) with (List.last (b :: n') c) in Hlast.
    rewrite (quantity_tail_early _ (b :: n') d c) by (discriminate || assumption).
    rewrite IH by (discriminate || assumption).
    rewrite <- app_assoc. reflexivity.
Qed.

Lemma quantityMatch_suffix (n d : str) :
  no_outer_ws n = true -> single_line n = true ->
  d <> [] -> forallb is_digit d = true ->
  quantityMatch (n ++ lit " x" ++ d) = Some (n, d).
Proof.
  intros Hn Hsl Hdne Hd. rewrite quantityMatch_unfold.
  apply (lazy_quantity n d [] " "%char); auto.
  - now apply no_outer_ws_nonempty.
  - now apply no_outer_ws_last.
Qed.

Lemma drop_digits_app (d rest : str) (x : ascii) :
  forallb is_digit d = true -> is_digit x = false ->
  drop_digits (d ++ x :: rest) = x :: rest.
Proof.
  intros Hd Hx. induction d as [|a d IH]; simpl.
  - rewrite Hx. reflexivity.
  - simpl in Hd. apply andb_true_iff in Hd as [Ha Hd]. rewrite Ha. auto.
Qed.

(** Whatever the quantity pattern matches ends in white space, [x] and
    digits. *)
Lemma quantityMatch_ends (s : str) (r : str * str) :
  quantityMatch s = Some r -> ends_with_quantity s = true.
Proof.
  rewrite quantityMatch_unfold. intros H.
  apply dot_plus_lazy_from_Some in H as (p & rest & -> & _ & _ & H).
  apply quantity_tail_Some in H as (w & d & -> & Hw & Hws & Hd & Hds & _).
  unfold ends_with_quantity.
  rewrite !rev_app_distr. simpl. rewrite <- !app_assoc. simpl.
  assert (Hrd : forallb is_digit (rev d) = true) by (rewrite forallb_rev; assumption).
  destruct (rev d) as [|d0 rd] eqn:Erd.
  { apply (f_equal (@rev ascii)) in Erd. rewrite rev_involutive in Erd.
    simpl in Erd. contradiction. }
  simpl in Hrd. apply andb_true_iff in Hrd as [Hd0 Hrd].
  simpl. rewrite Hd0. simpl.
  rewrite drop_digits_app by (assumption || reflexivity).
  assert (Hrw : forallb is_ws (rev w) = true) by (rewrite forallb_rev; assumption).
  destruct (rev w) as [|w0 rw] eqn:Erw.
  { apply (f_equal (@rev ascii)) in Erw. rewrite rev_involutive in Erw.
    simpl in Erw. contradiction. }
  simpl in Hrw. apply andb_true_iff in Hrw as [Hw0 _].
  simpl. rewrite Hw0. reflexivity.
Qed.

End QuantityPattern.

Section ParseLine.

Import EFT.

Lemma last_app_nonempty (n r : str) (d : ascii) :
  r <> [] -> List.last (n ++ r) d = List.last r d.
Proof.
  intros Hr. induction n as [|a n IH]; [reflexivity|].
  simpl app. destruct (n ++ r) eqn:E.
  - apply app_eq_nil in E as [_ E]. contradiction.
  - rewrite <- E in *. simpl. rewrite E. rewrite <- E. exact IH.
Qed.

Lemma forallb_last (f : ascii -> bool) (l : str) (d : ascii) :
  l <> [] -> forallb f l = true -> f (List.last l d) = true.
Proof.
  intros Hne H. rewrite (app_removelast_last d Hne) in H.
  rewrite forallb_app in H. apply andb_true_iff in H as [_ H].
  simpl in H. now rewrite andb_true_r in H.
Qed.

Lemma no_outer_ws_app (n r : str) :
  no_outer_ws n = true -> r <> [] -> is_ws (List.last r " "%char) = false ->
  no_outer_ws (n ++ r) = true.
Proof.
  intros Hn Hr Hl.
  destruct (no_outer_ws_first n Hn) as (c & n' & -> & Hc).
  change (negb (is_ws c) && negb (is_ws (List.last ((c :: n') ++ r) c)) = true).
  rewrite Hc, last_app_nonempty by assumption.
  destruct r as [|b r']; [contradiction|].
  rewrite (last_default_irrelevant r' b c " "%char), Hl. reflexivity.
Qed.

Lemma startsWith_app_fresh (p n r : str) (c : ascii) :
  forallb (fun x => negb (Ascii.eqb x c)) p = true ->
  startsWith p (n ++ c :: r) = true -> startsWith p n = true.
Proof.
  revert n. induction p as [|x p IH]; intros n Hp H; [reflexivity|].
  simpl in Hp. apply andb_true_iff in Hp as [Hx Hp].
  destruct n as [|y n]; simpl in *.
  - apply andb_true_iff in H as [H _]. rewrite H in Hx. discriminate.
  - apply andb_true_iff in H as [Hy H]. rewrite Hy. simpl. now apply IH.
Qed.

Lemma is_marker_startsWith (l : str) :
  is_marker l = true -> startsWith (lit "[Empty") l = true.
Proof.
  unfold is_marker. intros H.
  repeat (apply orb_true_iff in H as [H|H]);
    apply str_eqb_eq in H; subst l; reflexivity.
Qed.

Lemma indexOf_comma_None (n : str) : no_comma n = true -> indexOf_comma n = None.
Proof.
  induction n as [|a n IH]; simpl; intros H; [reflexivity|].
  apply andb_true_iff in H as [Ha Hn]. apply negb_true_iff in Ha.
  rewrite Ha, (IH Hn). reflexivity.
Qed.

Lemma plain_name_parts (n : str) :
  plain_name n = true ->
  no_outer_ws n = true /\ single_line n = true /\ no_comma n = true
  /\ startsWith (lit "[Empty") n = false /\ ends_with_quantity n = false.
Proof.
  unfold plain_name. intros H.
  repeat (apply andb_true_iff in H as [H ?]).
  repeat split; auto; now apply negb_true_iff.
Qed.

(** A plain name on its own line. *)
Lemma parse_plain_name (n : str) :
  plain_name n = true -> parseEFTLine n = Some (mkLine n None None).
Proof.
  intros H. destruct (plain_name_parts n H) as (Hws & Hsl & Hc & He & Hq).
  unfold parseEFTLine.
  rewrite (str_eqb_neq n []) by now apply no_outer_ws_nonempty.
  rewrite He. simpl.
  destruct (quantityMatch n) as [r|] eqn:E.
  { apply quantityMatch_ends in E. congruence. }
  rewrite (indexOf_comma_None n Hc), (trim_plain n Hws). reflexivity.
Qed.

(** A plain name with a printed quantity. *)
Lemma parse_plain_quantity (n : str) (q : N) :
  plain_name n = true ->
  parseEFTLine (n ++ lit " x" ++ Number_toString q) = Some (mkLine n None (Some q)).
Proof.
  intros H. destruct (plain_name_parts n H) as (Hws & Hsl & Hc & He & _).
  destruct (Number_toString_digits q) as [Hd Hne].
  unfold parseEFTLine.
  rewrite str_eqb_neq.
  2:{ intros E. apply app_eq_nil in E as [E _].
      now apply (no_outer_ws_nonempty n Hws). }
  assert (Hs : startsWith (lit "[Empty") (n ++ lit " x" ++ Number_toString q) = false).
  { destruct (startsWith (lit "[Empty") (n ++ lit " x" ++ Number_toString q)) eqn:E;
      [|reflexivity].
    apply (startsWith_app_fresh (lit "[Empty") n _ " "%char) in E; [congruence|reflexivity]. }
  rewrite Hs. simpl orb. cbv iota.
  rewrite (quantityMatch_suffix n (Number_toString q)) by assumption.
  rewrite (trim_plain n Hws), (indexOf_comma_None n Hc), Number_toString_parse.
  reflexivity.
Qed.

Lemma plain_item_parts (it : EFTLine) :
  plain_item it = true ->
  plain_name (name it) = true /\ charge it = None
  /\ (quantity it = None \/ exists q, quantity it = Some q /\ (1 <? q)%N = true).
Proof.
  unfold plain_item. destruct it as [n c q]. simpl. intros H.
  apply andb_true_iff in H as [H Hq]. apply andb_true_iff in H as [Hn Hc].
  split; [assumption|]. split; [destruct c; [discriminate|reflexivity]|].
  destruct q as [q|]; [right|left; reflexivity].
  apply andb_true_iff in Hq as [Hq _]. eauto.
Qed.

(** The loop reads back the item that [formatEFTLine] printed. *)
Lemma section_step_item (secs : list (list EFTLine)) (cur : list EFTLine) (it : EFTLine) :
  plain_item it = true ->
  section_step (secs, cur) (formatEFTLine it) = (secs, cur ++ [it]).
Proof.
  intros H. destruct (plain_item_parts it H) as (Hn & Hc & Hq).
  destruct it as [n c q]. simpl in Hn, Hc, Hq. subst c.
  destruct (plain_name_parts n Hn) as (Hws & Hsl & Hcm & He & Hqs).
  destruct Hq as [->|(q' & -> & Hq')].
  - unfold formatEFTLine. simpl. unfold section_step.
    rewrite (trim_plain n Hws).
    rewrite (str_eqb_neq n []) by now apply no_outer_ws_nonempty.
    destruct (is_marker n) eqn:Em.
    { apply is_marker_startsWith in Em. congruence. }
    simpl. rewrite (parse_plain_name n Hn). reflexivity.
  - unfold formatEFTLine. simpl name. simpl charge. simpl quantity. cbv iota.
    rewrite Hq'.
    destruct (Number_toString_digits q') as [Hd Hne].
    assert (Hline : no_outer_ws (n ++ lit " x" ++ Number_toString q') = true).
    { apply no_outer_ws_app; [assumption| |].
      - intros E. discriminate E.
      - change (lit " x" ++ Number_toString q') with ([" "%char; "x"%char] ++ Number_toString q').
        rewrite last_app_nonempty by assumption.
        apply is_digit_not_ws. now apply forallb_last. }
    unfold section_step.
    rewrite (trim_plain _ Hline).
    rewrite str_eqb_neq by now apply no_outer_ws_nonempty.
    destruct (is_marker (n ++ lit " x" ++ Number_toString q')) eqn:Em.
    { apply is_marker_startsWith in Em.
      apply (startsWith_app_fresh (lit "[Empty") n _ " "%char) in Em; [congruence|reflexivity]. }
    simpl orb. cbv iota.
    rewrite (parse_plain_quantity n q' Hn). reflexivity.
Qed.

Lemma section_step_blank (secs : list (list EFTLine)) (cur : list EFTLine) :
  section_step (secs, cur) [] = (close_last (secs, cur), []).
Proof. destruct cur; reflexivity. Qed.

Lemma section_step_marker (st : Sections) (label : str) :
  In label [lit "Low"; lit "Mid"; lit "High"; lit "Rig"] ->
  section_step st (empty_marker label) = st.
Proof.
  intros H. destruct st as [secs cur].
  repeat (destruct H as [<-|H]; [reflexivity|]). destruct H.
Qed.

End ParseLine.
(** * The round trip through the EFT text *)

Section Blocks.

Import EFT.

Lemma map_nth_error_seq {A B} (f : A -> B) (d : B) (l : list A) (k : nat) :
  map (fun i => match nth_error l i with Some x => f x | None => d end)
      (seq 0 (length l + k))
  = map f l ++ repeat d k.
Proof.
  induction l as [|a l IH].
  - simpl. induction k as [|k IHk]; [reflexivity|].
    rewrite seq_S, map_app, IHk. simpl.
    rewrite (repeat_cons k d). f_equal.
    destruct k; reflexivity.
  - simpl length. simpl plus. rewrite <- cons_seq. cbn [map nth_error].
    rewrite <- seq_shift, map_map. cbn [nth_error app map].
    f_equal. exact IH.
Qed.

Lemma appendSlotSection_padded (slots : list EFTLine) (c : option nat) (label : str) :
  count_ok c slots = true ->
  exists k, appendSlotSection slots c label
            = map formatEFTLine slots ++ repeat (empty_marker label) k.
Proof.
  unfold count_ok, appendSlotSection. destruct c as [c|]; intros H.
  - apply Nat.leb_le in H. exists (c - length slots).
    replace c with (length slots + (c - length slots)) at 1 by lia.
    apply map_nth_error_seq.
  - exists 0. rewrite <- (Nat.add_0_r (length slots)).
    apply map_nth_error_seq.
Qed.

Lemma fold_items (items : list EFTLine) (secs : list (list EFTLine)) (cur : list EFTLine) :
  forallb plain_item items = true ->
  fold_left section_step (map formatEFTLine items) (secs, cur) = (secs, cur ++ items).
Proof.
  revert cur. induction items as [|it items IH]; intros cur H; cbn [map fold_left].
  - rewrite app_nil_r. reflexivity.
  - simpl in H. apply andb_true_iff in H as [Hit Hitems].
    rewrite section_step_item by assumption.
    rewrite IH by assumption. rewrite <- app_assoc. reflexivity.
Qed.

Lemma fold_markers (label : str) (k : nat) (st : Sections) :
  In label [lit "Low"; lit "Mid"; lit "High"; lit "Rig"] ->
  fold_left section_step (repeat (empty_marker label) k) st = st.
Proof.
  intros H. induction k as [|k IH]; [reflexivity|].
  cbn [repeat fold_left]. rewrite section_step_marker by assumption. exact IH.
Qed.

Lemma fold_block (items : list EFTLine) (c : option nat) (label : str)
      (secs : list (list EFTLine)) (cur : list EFTLine) :
  In label [lit "Low"; lit "Mid"; lit "High"; lit "Rig"] ->
  forallb plain_item items = true ->
  count_ok c items = true ->
  fold_left section_step (appendSlotSection items c label) (secs, cur)
  = (secs, cur ++ items).
Proof.
  intros Hl Hi Hc.
  destruct (appendSlotSection_padded items c label Hc) as (k & ->).
  rewrite fold_left_app, fold_items, fold_markers by assumption.
  reflexivity.
Qed.

Lemma fold_blank (secs : list (list EFTLine)) (cur : list EFTLine) :
  fold_left section_step [[]] (secs, cur) = (close_last (secs, cur), []).
Proof. cbn [fold_left]. apply section_step_blank. Qed.

Lemma close_last_filter (secs : list (list EFTLine)) (cur : list EFTLine) :
  close_last (secs, cur) = secs ++ List.filter nonblank [cur].
Proof. destruct cur; simpl; [now rewrite app_nil_r|reflexivity]. Qed.

(** *** The lines of a serialized text are good lines *)

Lemma good_line_trimEnd (l : str) : good_line l = true -> trimEnd l = l.
Proof.
  unfold good_line. intros H. apply andb_true_iff in H as [_ H].
  apply orb_true_iff in H as [H|H].
  - destruct l; [reflexivity|discriminate].
  - now apply trimEnd_plain.
Qed.

Lemma good_line_no_nl (l : str) : good_line l = true -> no_nl l = true.
Proof. unfold good_line. intros H. now apply andb_true_iff in H as [H _]. Qed.

Lemma digits_no_nl (d : str) : forallb is_digit d = true -> no_nl d = true.
Proof.
  unfold no_nl. intros H. apply forallb_forall. intros c Hc.
  rewrite forallb_forall in H. specialize (H c Hc).
  destruct (Ascii.eqb c nl) eqn:E; [|reflexivity].
  apply Ascii.eqb_eq in E. subst c. discriminate H.
Qed.

Lemma good_item (it : EFTLine) : plain_item it = true -> good_line (formatEFTLine it) = true.
Proof.
  intros H. destruct (plain_item_parts it H) as (Hn & Hc & Hq).
  destruct it as [n c q]. simpl in Hn, Hc, Hq. subst c.
  destruct (plain_name_parts n Hn) as (Hws & Hsl & _).
  unfold good_line, formatEFTLine. simpl name. simpl charge. simpl quantity. cbv iota.
  destruct Hq as [->|(q' & -> & Hq')].
  - rewrite (single_line_no_nl n Hsl), Hws. now rewrite orb_true_r.
  - rewrite Hq'. destruct (Number_toString_digits q') as [Hd Hne].
    rewrite !no_nl_app, (single_line_no_nl n Hsl), (digits_no_nl _ Hd).
    rewrite no_outer_ws_app; [now rewrite orb_true_r|assumption|discriminate|].
    change (lit " x" ++ Number_toString q') with ([" "%char; "x"%char] ++ Number_toString q').
    rewrite last_app_nonempty by assumption.
    apply is_digit_not_ws. now apply forallb_last.
Qed.

Lemma good_items (items : list EFTLine) :
  forallb plain_item items = true ->
  forallb good_line (map formatEFTLine items) = true.
Proof.
  induction items as [|it items IH]; intros H; [reflexivity|].
  simpl in *. apply andb_true_iff in H as [Hit Hitems].
  now rewrite good_item, IH.
Qed.

Lemma good_block (items : list EFTLine) (c : option nat) (label : str) :
  In label [lit "Low"; lit "Mid"; lit "High"; lit "Rig"] ->
  forallb plain_item items = true ->
  count_ok c items = true ->
  forallb good_line (appendSlotSection items c label) = true.
Proof.
  intros Hl Hi Hc.
  destruct (appendSlotSection_padded items c label Hc) as (k & ->).
  rewrite forallb_app, good_items by assumption. simpl.
  apply forallb_forall. intros l Hin. apply repeat_spec in Hin. subst l.
  repeat (destruct Hl as [<-|Hl]; [reflexivity|]). destruct Hl.
Qed.

(** *** Blank lines at the end of the text do not matter *)

Lemma close_last_blank (st : Sections) :
  close_last (section_step st []) = close_last st.
Proof. destruct st as [secs [|x cur]]; reflexivity. Qed.

Lemma fold_strip_end (body : list str) (st : Sections) :
  forallb good_line body = true ->
  close_last (fold_left section_step (strip_end body) st)
  = close_last (fold_left section_step body st).
Proof.
  revert st. induction body as [|l body IH]; intros st H; [reflexivity|].
  simpl in H. apply andb_true_iff in H as [Hl Hbody].
  rewrite strip_end_cons, (good_line_trimEnd l Hl).
  specialize (IH (section_step st l) Hbody).
  destruct (strip_end body) as [|x r].
  - simpl in IH. destruct l as [|a l'].
    + simpl. rewrite <- IH. symmetry. apply close_last_blank.
    + simpl. exact IH.
  - exact IH.
Qed.

End Blocks.

Section Header.

Import EFT.

Lemma headerMatch_unfold (s : str) :
  headerMatch ("["%char :: s) = dot_plus_lazy_from [] header_tail s.
Proof. reflexivity. Qed.

(** [(.+?)] runs on while the rest of the pattern rejects every next
    character of the run. *)
Lemma lazy_until {R} (k : str -> Matcher R) (p rest acc : str) (r : R) :
  p <> [] -> single_line p = true ->
  (forall acc' b s, In b p -> k acc' (b :: s) = None) ->
  k (acc ++ p) rest = Some r ->
  dot_plus_lazy_from acc k (p ++ rest) = Some r.
Proof.
  revert acc. induction p as [|a p IH]; intros acc Hne Hsl Hrej Hk; [contradiction|].
  simpl in Hsl. apply andb_true_iff in Hsl as [Ha Hp].
  apply negb_true_iff in Ha.
  change ((a :: p) ++ rest) with (a :: p ++ rest).
  cbn [dot_plus_lazy_from]. rewrite Ha.
  destruct p as [|b p'].
  - change ([] ++ rest) with rest. rewrite Hk. reflexivity.
  - change ((b :: p') ++ rest) with (b :: p' ++ rest).
    rewrite Hrej by (right; left; reflexivity).
    change (b :: p' ++ rest) with ((b :: p') ++ rest).
    apply IH; [discriminate|assumption| |].
    + intros acc' c s Hin. apply Hrej. now right.
    + rewrite <- app_assoc. exact Hk.
Qed.

Lemma header_tail_rejects (acc : str) (b : ascii) (s : str) :
  Ascii.eqb b comma = false -> header_tail acc (b :: s) = None.
Proof. intros H. unfold header_tail, chr. change ","%char with comma. now rewrite H. Qed.

Lemma header_tail_here (g1 fit : str) :
  no_outer_ws fit = true -> single_line fit = true ->
  header_tail g1 (lit ", " ++ fit ++ lit "]") = Some (g1, fit).
Proof.
  intros Hws Hsl.
  destruct (no_outer_ws_first fit Hws) as (c & f' & E & Hc).
  unfold header_tail.
  change (lit ", " ++ fit ++ lit "]") with (","%char :: " "%char :: fit ++ lit "]").
  cbn [chr]. rewrite Ascii.eqb_refl.
  cbn [ws_star]. change (is_ws " "%char) with true. cbv iota.
  assert (Hk : dot_plus_lazy (fun g2 => chr "]"%char (eos (g1, g2))) (fit ++ lit "]")
               = Some (g1, fit)).
  { unfold dot_plus_lazy. rewrite lazy_to_bracket; [reflexivity| |assumption].
    now apply no_outer_ws_nonempty. }
  assert (Hstar : ws_star (dot_plus_lazy (fun g2 => chr "]"%char (eos (g1, g2))))
                          (fit ++ lit "]") = Some (g1, fit)).
  { rewrite E in *. change ((c :: f') ++ lit "]") with (c :: f' ++ lit "]") in *.
    cbn [ws_star]. rewrite Hc. exact Hk. }
  rewrite Hstar. reflexivity.
Qed.

Lemma headerMatch_header (ship fit : str) :
  no_outer_ws ship = true -> single_line ship = true -> no_comma ship = true ->
  no_outer_ws fit = true -> single_line fit = true ->
  headerMatch (header_line ship fit) = Some (ship, fit).
Proof.
  intros Hws Hsl Hc Hfws Hfsl.
  unfold header_line.
  change (lit "[" ++ ship ++ lit ", " ++ fit ++ lit "]")
    with ("["%char :: ship ++ lit ", " ++ fit ++ lit "]").
  rewrite headerMatch_unfold.
  apply lazy_until.
  - now apply no_outer_ws_nonempty.
  - assumption.
  - intros acc' b s Hin. apply header_tail_rejects.
    unfold no_comma in Hc. rewrite forallb_forall in Hc.
    apply negb_true_iff. now apply Hc.
  - now apply header_tail_here.
Qed.

Lemma header_line_plain (ship fit : str) : no_outer_ws (header_line ship fit) = true.
Proof.
  unfold header_line.
  change (lit "[" ++ ship ++ lit ", " ++ fit ++ lit "]")
    with ("["%char :: (ship ++ lit ", " ++ fit ++ lit "]")).
  assert (E : "["%char :: ship ++ lit ", " ++ fit ++ lit "]"
              = ("["%char :: ship ++ lit ", " ++ fit) ++ lit "]").
  { simpl. rewrite <- app_assoc. reflexivity. }
  unfold no_outer_ws. rewrite E.
  rewrite last_app_nonempty by discriminate. reflexivity.
Qed.

Lemma header_line_no_nl (ship fit : str) :
  single_line ship = true -> single_line fit = true ->
  no_nl (header_line ship fit) = true.
Proof.
  intros Hs Hf. unfold header_line.
  rewrite !no_nl_app, (single_line_no_nl _ Hs), (single_line_no_nl _ Hf).
  reflexivity.
Qed.

End Header.

Section RoundTrip.

Import EFT.

Lemma serialize_lines_split (o : EFTSerializeOptions) :
  serialize_lines o = header_line (o_shipName o) (o_fitName o) :: serialize_body o.
Proof. reflexivity. Qed.

Lemma filter_cons_app {A} (f : A -> bool) (x : A) (l : list A) :
  List.filter f (x :: l) = List.filter f [x] ++ List.filter f l.
Proof. simpl. destruct (f x); reflexivity. Qed.

Variable o : EFTSerializeOptions.
Hypothesis Hwf : well_formed o = true.

Lemma well_formed_header :
  no_outer_ws (o_shipName o) = true /\ single_line (o_shipName o) = true
  /\ no_comma (o_shipName o) = true
  /\ no_outer_ws (o_fitName o) = true /\ single_line (o_fitName o) = true.
Proof using Hwf.
  pose proof Hwf as H. unfold well_formed in H.
  repeat (apply andb_true_iff in H as [H ?]). auto.
Qed.

Lemma well_formed_items :
  forallb plain_item (o_lowSlots o) = true
  /\ forallb plain_item (o_midSlots o) = true
  /\ forallb plain_item (o_highSlots o) = true
  /\ forallb plain_item (o_rigSlots o) = true
  /\ forallb plain_item (present (o_subsystems o)) = true
  /\ forallb plain_item (present (o_drones o)) = true
  /\ forallb plain_item (present (o_cargo o)) = true.
Proof using Hwf.
  pose proof Hwf as H. unfold well_formed in H.
  repeat (apply andb_true_iff in H as [H ?]). auto 10.
Qed.

Lemma well_formed_counts :
  count_ok (lowSlotCount o) (o_lowSlots o) = true
  /\ count_ok (midSlotCount o) (o_midSlots o) = true
  /\ count_ok (highSlotCount o) (o_highSlots o) = true
  /\ count_ok (rigSlotCount o) (o_rigSlots o) = true.
Proof using Hwf.
  pose proof Hwf as H. unfold well_formed in H.
  repeat (apply andb_true_iff in H as [H ?]). auto.
Qed.

Lemma body_good : forallb good_line (serialize_body o) = true.
Proof using Hwf.
  destruct well_formed_items as (Hl & Hm & Hh & Hr & Hs & Hd & Hc).
  destruct well_formed_counts as (Cl & Cm & Ch & Cr).
  unfold serialize_body. rewrite !forallb_app.
  rewrite !good_block by (assumption || (simpl; tauto)).
  apply good_items in Hs, Hd, Hc.
  destruct (present (o_subsystems o)); destruct (present (o_drones o));
    destruct (present (o_cargo o)); cbn [forallb]; rewrite ?Hs, ?Hd, ?Hc; reflexivity.
Qed.

(** The section loop over the printed body closes exactly the
    non-empty categories, in the order of the text. *)
Lemma body_fold :
  close_last (fold_left section_step (serialize_body o) ([], []))
  = List.filter nonblank (categories o).
Proof using Hwf.
  destruct well_formed_items as (Hl & Hm & Hh & Hr & Hs & Hd & Hc).
  destruct well_formed_counts as (Cl & Cm & Ch & Cr).
  unfold serialize_body, categories.
  rewrite !fold_left_app.
  rewrite (fold_block (o_lowSlots o)) by (assumption || (simpl; tauto)).
  rewrite fold_blank.
  rewrite (fold_block (o_midSlots o)) by (assumption || (simpl; tauto)).
  rewrite fold_blank.
  rewrite (fold_block (o_highSlots o)) by (assumption || (simpl; tauto)).
  rewrite fold_blank.
  rewrite (fold_block (o_rigSlots o)) by (assumption || (simpl; tauto)).
  rewrite (filter_cons_app _ (o_lowSlots o)), (filter_cons_app _ (o_midSlots o)),
    (filter_cons_app _ (o_highSlots o)), (filter_cons_app _ (o_rigSlots o)),
    (filter_cons_app _ (present (o_subsystems o))),
    (filter_cons_app _ (present (o_drones o))).
  destruct (present (o_subsystems o)) as [|s ss];
    destruct (present (o_drones o)) as [|d ds];
    destruct (present (o_cargo o)) as [|c cs];
    cbn [fold_left];
    repeat (rewrite section_step_blank || rewrite fold_items by assumption);
    rewrite !close_last_filter;
    change (List.filter nonblank [@nil EFTLine]) with (@nil (list EFTLine));
    cbn [app]; rewrite <- ?app_assoc; cbn [app]; rewrite ?app_nil_r;
    reflexivity.
Qed.

(** What [parseEFT] returns on every well-formed serialized fitting. *)
Lemma parse_serialize_packed : parseEFT (serializeEFT o) = Ok (packed o).
Proof using Hwf.
  destruct well_formed_header as (Hs1 & Hs2 & Hs3 & Hf1 & Hf2).
  unfold serializeEFT, parseEFT.
  rewrite serialize_lines_split.
  rewrite split_trim_join.
  - rewrite (trim_plain _ (header_line_plain _ _)).
    rewrite headerMatch_header by assumption.
    rewrite fold_strip_end by apply body_good.
    rewrite body_fold.
    rewrite (trim_plain _ Hs1), (trim_plain _ Hf1). reflexivity.
  - apply header_line_plain.
  - now apply header_line_no_nl.
  - pose proof body_good as Hg.
    apply forallb_forall. intros l Hin.
    rewrite forallb_forall in Hg. apply good_line_no_nl. now apply Hg.
Qed.

End RoundTrip.

Section Contiguous.

Import EFT.

Lemma nth_all_nil {A} (cats : list (list A)) (i : nat) :
  forallb is_nil cats = true -> nth i cats [] = [].
Proof.
  revert i. induction cats as [|c cats IH]; intros i H.
  - destruct i; reflexivity.
  - simpl in H. apply andb_true_iff in H as [Hc H].
    destruct i; simpl; [destruct c; [reflexivity|discriminate]|now apply IH].
Qed.

Lemma filter_all_nil {A} (cats : list (list A)) :
  forallb is_nil cats = true -> List.filter nonblank cats = [].
Proof.
  induction cats as [|c cats IH]; intros H; [reflexivity|].
  simpl in H. apply andb_true_iff in H as [Hc H].
  simpl. unfold nonblank at 1. rewrite Hc. simpl. now apply IH.
Qed.

(** Without a gap the positional mapping puts every category back. *)
Lemma no_gap_nth {A} (cats : list (list A)) (i : nat) :
  no_gap cats = true -> nth i (List.filter nonblank cats) [] = nth i cats [].
Proof.
  revert i. induction cats as [|c cats IH]; intros i H; [reflexivity|].
  simpl in H. destruct c as [|x c'].
  - simpl in H. simpl List.filter.
    rewrite (filter_all_nil cats H).
    destruct i; [reflexivity|]. simpl. now rewrite nth_all_nil.
  - simpl in H. simpl List.filter.
    destruct i; [reflexivity|]. simpl. now apply IH.
Qed.

Lemma no_gap_packed (o : EFTSerializeOptions) :
  no_gap (categories o) = true -> packed o = as_parsed o.
Proof.
  intros H. unfold packed, as_parsed, section.
  rewrite !(no_gap_nth _ _ H). reflexivity.
Qed.

End Contiguous.



(** * The header contract of [parseEFT] *)

Section HeaderContract.

Import EFT.

Lemma headerMatch_pattern (s : str) : headerMatch s <> None <-> header_pattern s.
Proof.
  split.
  - destruct (headerMatch s) as [r|] eqn:E; [intros _|contradiction].
    unfold headerMatch in E.
    apply chr_Some in E as (s1 & -> & E).
    apply dot_plus_lazy_from_Some in E as (g1 & rest & -> & Hg1 & Hsl1 & E).
    apply chr_Some in E as (s2 & -> & E).
    apply ws_star_Some in E as (w & s3 & -> & Hw & E).
    apply dot_plus_lazy_from_Some in E as (g2 & s4 & -> & Hg2 & Hsl2 & E).
    apply chr_Some in E as (s5 & -> & E).
    apply eos_Some in E as [-> _].
    exists g1, w, g2. repeat split; assumption.
  - intros (g1 & w & g2 & -> & Hg1 & Hsl1 & Hw & Hg2 & Hsl2).
    change (lit "[" ++ g1 ++ lit "," ++ w ++ g2 ++ lit "]")
      with ("["%char :: g1 ++ ","%char :: w ++ g2 ++ lit "]").
    rewrite headerMatch_unfold.
    apply dot_plus_lazy_from_complete; [assumption|assumption|].
    unfold header_tail. cbn [chr]. rewrite Ascii.eqb_refl.
    apply ws_star_complete; [assumption|].
    apply dot_plus_lazy_from_complete; [assumption|assumption|].
    discriminate.
Qed.

Lemma parseEFT_header (eftText : str) :
  parseEFT eftText =
  match headerMatch (first_line eftText) with
  | None => Throw (InvalidHeader (first_line eftText))
  | Some (g1, g2) =>
      let sections :=
        close_last (fold_left section_step (tl (split_nl (trim eftText))) ([], [])) in
      Ok {| shipName := trim g1;
            fitName := trim g2;
            lowSlots := section 0 sections;
            midSlots := section 1 sections;
            highSlots := section 2 sections;
            rigSlots := section 3 sections;
            subsystems := section 4 sections;
            drones := section 5 sections;
            cargo := section 6 sections |}
  end.
Proof.
  unfold parseEFT, first_line.
  destruct (split_nl (trim eftText)) as [|l0 rest] eqn:E.
  - now apply split_nl_nonempty in E.
  - reflexivity.
Qed.

End HeaderContract.

(** C6 (as amended).  [parseEFT] throws, returning the invalid-header
    error and no fitting, exactly when the trimmed first line of the
    trimmed input does not match the header pattern: an opening bracket, at
    least one character, a comma, optional white space, at least one
    character and a closing bracket, no name holding a line terminator.
    Every input whose first line matches is parsed. *)
Theorem parseEFT_throws_iff (eftText : str) :
  (~ header_pattern (first_line eftText) ->
   EFT.parseEFT eftText = EFT.Throw (EFT.InvalidHeader (first_line eftText)))
  /\ (header_pattern (first_line eftText) -> exists p, EFT.parseEFT eftText = EFT.Ok p)
  /\ ((exists e, EFT.parseEFT eftText = EFT.Throw e) <-> ~ header_pattern (first_line eftText)).
Proof.
  rewrite parseEFT_header.
  pose proof (headerMatch_pattern (first_line eftText)) as Hp.
  destruct (EFT.headerMatch (first_line eftText)) as [[g1 g2]|] eqn:E.
  - assert (Hyes : header_pattern (first_line eftText)) by (apply Hp; discriminate).
    split; [intros Hn; contradiction|]. split.
    + intros _. eexists. reflexivity.
    + split; [intros (e & He); discriminate|intros Hn; contradiction].
  - assert (Hno : ~ header_pattern (first_line eftText)).
    { intros H. apply Hp in H. contradiction. }
    split; [reflexivity|]. split.
    + intros H. contradiction.
    + split; [intros _; exact Hno|intros _; eexists; reflexivity].
Qed.

(** C6 as stated fails: the first line [[Ship, ]] has no fit name after
    trimming, and yet it is parsed, with an empty fit name. *)
Lemma parseEFT_header_counterexample :
  spec_header_shape (first_line (lit "[Ship, ]")) = false
  /\ EFT.parseEFT (lit "[Ship, ]")
     = EFT.Ok (EFT.mkParsed (lit "Ship") [] [] [] [] [] [] [] []).
Proof. split; vm_compute; reflexivity. Qed.
(** * The capacitor simulator *)

Section CapacitorDrain.

Import Cap.

(** Once the clock is known to run out within [fuel] steps, the drain
    loop answers, with a time inside the window or the window itself. *)
Lemma drain_loop_answers (fuel : nat) (capacity tau drain maxSim t cap : float) :
  clock_done fuel maxSim t = true ->
  exists t',
    drain_loop fuel capacity tau drain maxSim t cap
    = Some {| stable := false; stablePercent := None; lastsSeconds := Some t' |}
    /\ ((t' <? maxSim)%float = true \/ t' = maxSim).
Proof.
  revert t cap. induction fuel as [|fuel IH]; intros t cap Hclock; [discriminate|].
  cbn [clock_done] in Hclock. cbn [drain_loop].
  destruct (t <? maxSim)%float eqn:Et.
  - destruct (cap + (recharge_at capacity tau cap - drain) * dt <=? 0)%float.
    + exists t. split; [reflexivity|left; exact Et].
    + apply IH. exact Hclock.
  - exists maxSim. split; [reflexivity|right; reflexivity].
Qed.

Lemma default_fuel_enough : enough_fuel default_maxSimSeconds default_fuel = true.
Proof. vm_compute. reflexivity. Qed.

End CapacitorDrain.




(** The zero-drain case of the specification. *)
Example simulateCap_no_drain :
  Cap.simulateCap Cap.default_fuel 1000 300000 0 600
  = Some (Cap.mkSim true (Some 100%float) None).
Proof. vm_compute. reflexivity. Qed.
(** * The offense pass of the stats calculator *)

Section Offense.

Import Stats.

Lemma turret_branch_idle (acc : OffenseAcc) (m : Eve.FittedModule) :
  is_turret m = false -> turret_branch acc m = acc.
Proof. intros H. unfold turret_branch. now rewrite H. Qed.

Lemma missile_branch_idle (acc : OffenseAcc) (m : Eve.FittedModule) :
  is_missile m = false -> missile_branch acc m = acc.
Proof. intros H. unfold missile_branch. now rewrite H. Qed.

Lemma missile_branch_turret_totals (acc : OffenseAcc) (m : Eve.FittedModule) :
  turret_totals (missile_branch acc m) = turret_totals acc.
Proof. unfold missile_branch. destruct (is_missile m); reflexivity. Qed.

Lemma turret_branch_missile_totals (acc : OffenseAcc) (m : Eve.FittedModule) :
  missile_totals (turret_branch acc m) = missile_totals acc.
Proof. unfold turret_branch. destruct (is_turret m); reflexivity. Qed.

(** A module that passes both tests adds its volley to both classes. *)
Lemma offense_step_both (acc : OffenseAcc) (m : Eve.FittedModule) :
  is_turret m = true -> is_missile m = true ->
  turretAlpha (offense_step acc m)
  = (turretAlpha acc + baseDmg m * modAttr m ATTR.DAMAGE_MULTIPLIER 1)%Q
  /\ missileAlpha (offense_step acc m)
     = (missileAlpha acc + baseDmg m * modAttr m ATTR.MISSILE_DAMAGE_MULT 1)%Q.
Proof.
  intros Ht Hm. unfold offense_step, missile_branch, turret_branch.
  rewrite Ht, Hm. split; reflexivity.
Qed.

End Offense.

(** C2 (as amended).  The turret test (positive tracking speed and cycle
    time) and the missile test (positive explosion radius and cycle time)
    are applied one after the other; a module that does not pass both adds
    to the turret totals or to the missile totals, never to both. *)
Theorem offense_one_class (acc : Stats.OffenseAcc) (m : Eve.FittedModule) :
  Stats.is_turret m && Stats.is_missile m = false ->
  turret_totals (Stats.offense_step acc m) = turret_totals acc
  \/ missile_totals (Stats.offense_step acc m) = missile_totals acc.
Proof.
  intros H. apply andb_false_iff in H as [H|H].
  - left. unfold Stats.offense_step.
    rewrite missile_branch_turret_totals, turret_branch_idle by assumption.
    reflexivity.
  - right. unfold Stats.offense_step.
    rewrite missile_branch_idle by assumption.
    apply turret_branch_missile_totals.
Qed.

Lemma offense_one_class_witness :
  Stats.is_turret artillery && Stats.is_missile artillery = false
  /\ (turret_totals (Stats.offense_step (Stats.mkOffAcc 0 0 0 0 0 0 0) artillery)
      = turret_totals (Stats.mkOffAcc 0 0 0 0 0 0 0)
      \/ missile_totals (Stats.offense_step (Stats.mkOffAcc 0 0 0 0 0 0 0) artillery)
         = missile_totals (Stats.mkOffAcc 0 0 0 0 0 0 0)).
Proof.
  split; [vm_compute; reflexivity|].
  apply (offense_one_class (Stats.mkOffAcc 0 0 0 0 0 0 0) artillery).
  vm_compute. reflexivity.
Defined.

(** C2 as stated fails: nothing keeps a module from carrying both
    attributes, and one active module that does is counted as a turret
    and as a missile launcher. *)
Lemma offense_exclusive_counterexample :
  Stats.is_turret hybrid_weapon = true
  /\ Stats.is_missile hybrid_weapon = true
  /\ (Eve.turret_dps (Stats.calcOffense (fitting_with_high [Some hybrid_weapon])) == 10)%Q
  /\ (Eve.missile_dps (Stats.calcOffense (fitting_with_high [Some hybrid_weapon])) == 10)%Q
  /\ (Eve.alpha (Stats.calcOffense (fitting_with_high [Some hybrid_weapon])) == 20)%Q.
Proof. repeat split; vm_compute; reflexivity. Qed.
(** * The skill bonus engine *)

Section SkillBonuses.

Import Eve Skills.
Local Open Scope Q_scope.

Lemma lvl_insert (skills : gmap Z Q) (k id : Z) (L : Q) :
  lvl (<[k := L]> skills) id = if decide (k = id) then L else lvl skills id.
Proof. unfold lvl. rewrite lookup_insert. now case_decide. Qed.

Lemma lvl_insert_mono (skills : gmap Z Q) (k id : Z) (L1 L2 : Q) :
  L1 <= L2 -> lvl (<[k := L1]> skills) id <= lvl (<[k := L2]> skills) id.
Proof.
  intros H. rewrite !lvl_insert. case_decide; [assumption|apply Qle_refl].
Qed.

(** A bonus of five percent per level grows with the level on a base
    that is not negative. *)
Lemma bonus_up (base a b : Q) :
  0 <= base -> a <= b -> base * (1 + 0.05 * a) <= base * (1 + 0.05 * b).
Proof.
  intros Hb Hab.
  rewrite (Qmult_comm base (1 + 0.05 * a)), (Qmult_comm base (1 + 0.05 * b)).
  apply Qmult_le_compat_r; [|assumption]. lra.
Qed.

(** A reduction of five percent per level shrinks it. *)
Lemma bonus_down (base a b : Q) :
  0 <= base -> a <= b -> base * (1 - 0.05 * b) <= base * (1 - 0.05 * a).
Proof.
  intros Hb Hab.
  rewrite (Qmult_comm base (1 - 0.05 * b)), (Qmult_comm base (1 - 0.05 * a)).
  apply Qmult_le_compat_r; [|assumption]. lra.
Qed.

Lemma nonneg_base_parts (s : ShipStats) :
  nonneg_base s = true ->
  0 <= cpu_total (engineering s) /\ 0 <= pg_total (engineering s)
  /\ 0 <= hp (shield s) /\ 0 <= hp (armor s) /\ 0 <= hp (hull s)
  /\ 0 <= max_velocity (navigation s)
  /\ 0 <= max_target_range (targeting s) /\ 0 <= scan_resolution (targeting s)
  /\ 0 <= recharge_rate (capacitor s) /\ 0 <= inertia_modifier (navigation s).
Proof.
  unfold nonneg_base. intros H.
  repeat (apply andb_true_iff in H as [H ?]).
  repeat split; now apply Qle_bool_iff.
Qed.

End SkillBonuses.

(** C3 (as amended).  For every base snapshot whose bonused values are
    not negative and every two skill maps that differ in the level of one
    skill, [L1 < L2], the bonuses at [L2] give values at least those at
    [L1] for cpu_total, pg_total, shield, armor and hull hp, max_velocity,
    max_targets, max_target_range and scan_resolution, and at most those at
    [L1] for the capacitor recharge_rate and the inertia_modifier. *)
Theorem skill_bonus_monotone (num : Stats.Numerics) (stats : Eve.ShipStats)
        (skills : gmap Z Q) (k : Z) (L1 L2 : Q) :
  nonneg_base stats = true ->
  (L1 < L2)%Q ->
  weakly_better (skilled num stats (<[k := L1]> skills))
                (skilled num stats (<[k := L2]> skills)).
Proof.
  intros Hbase HL.
  destruct (nonneg_base_parts stats Hbase)
    as (Hcpu & Hpg & Hsh & Har & Hhu & Hve & Hra & Hsc & Hre & Hin).
  assert (Hle : (L1 <= L2)%Q) by now apply Qlt_le_weak.
  unfold weakly_better, skilled, Skills.applySkillBonuses, Skills.bonus_layer.
  cbn [fst Eve.cpu_total Eve.pg_total Eve.hp Eve.max_velocity Eve.max_targets
       Eve.max_target_range Eve.scan_resolution Eve.recharge_rate
       Eve.inertia_modifier Eve.engineering Eve.shield Eve.armor Eve.hull
       Eve.navigation Eve.targeting Eve.capacitor].
  repeat split;
    try (apply bonus_up; [assumption|now apply lvl_insert_mono]);
    try (apply bonus_down; [assumption|now apply lvl_insert_mono]).
  apply Qplus_le_r. now apply lvl_insert_mono.
Qed.

Lemma skill_bonus_monotone_witness :
  nonneg_base sample_stats = true
  /\ (2 < 5)%Q
  /\ weakly_better
       (skilled sample_numerics sample_stats
                (<[SUPPORT_SKILL_IDS.SHIELD_MANAGEMENT := 2%Q]> Skills.allLevelVSkillMap))
       (skilled sample_numerics sample_stats
                (<[SUPPORT_SKILL_IDS.SHIELD_MANAGEMENT := 5%Q]> Skills.allLevelVSkillMap)).
Proof.
  split; [vm_compute; reflexivity|]. split; [reflexivity|].
  apply (skill_bonus_monotone sample_numerics sample_stats Skills.allLevelVSkillMap
           SUPPORT_SKILL_IDS.SHIELD_MANAGEMENT 2 5);
    [vm_compute; reflexivity|reflexivity].
Defined.

(** C3 as stated fails on a snapshot with a negative base value: a CPU
    output of -100 becomes -125 at level 5 and stays -100 at level 0. *)
Lemma skill_bonus_monotone_counterexample :
  (0 < 5)%Q
  /\ (Eve.cpu_total (Eve.engineering
        (skilled sample_numerics overdrawn_stats
                 (<[SUPPORT_SKILL_IDS.CPU_MANAGEMENT := 0%Q]> ∅))) == -100)%Q
  /\ (Eve.cpu_total (Eve.engineering
        (skilled sample_numerics overdrawn_stats
                 (<[SUPPORT_SKILL_IDS.CPU_MANAGEMENT := 5%Q]> ∅))) == -125)%Q
  /\ ~ weakly_better
         (skilled sample_numerics overdrawn_stats
                  (<[SUPPORT_SKILL_IDS.CPU_MANAGEMENT := 0%Q]> ∅))
         (skilled sample_numerics overdrawn_stats
                  (<[SUPPORT_SKILL_IDS.CPU_MANAGEMENT := 5%Q]> ∅)).
Proof.
  split; [reflexivity|]. split; [vm_compute; reflexivity|].
  split; [vm_compute; reflexivity|].
  intros (H & _). vm_compute in H. apply H. reflexivity.
Qed.

(** C5 (as amended).  The record that [applySkillBonuses] returns has
    thirteen entries: skilled minus base for each of the twelve fields of
    the bonus table, CPU and PG among them, and for the align time.  The
    base side is the value held by the snapshot before any bonus; for the
    align time it is recomputed from the mass and the inertia held before,
    which on a snapshot of the stats calculator is the align time held
    before.  No entry is derived from the effective hit points. *)
Theorem skill_deltas_from_base (num : Stats.Numerics) (stats : Eve.ShipStats)
        (skills : gmap Z Q) (shipType : Eve.EveType) (fitting : Eve.Fitting) :
  Skills.entries (deltas num stats skills)
  = expected_entries num stats (skilled num stats skills)
  /\ Eve.d_align_time
       (deltas num (Stats.calculateShipStats num shipType fitting) skills)
     = (Eve.align_time (Eve.navigation
          (skilled num (Stats.calculateShipStats num shipType fitting) skills))
        - Eve.align_time (Eve.navigation
            (Stats.calculateShipStats num shipType fitting)))%Q.
Proof. split; reflexivity. Qed.

(** C5 as stated fails: at level V the effective hit points of the sample
    hull grow by 875, those of its shield by 500, and no entry of the
    deltas carries either value or a name of that kind. *)
Lemma skill_deltas_counterexample :
  (Eve.total_ehp (skilled sample_numerics sample_stats Skills.allLevelVSkillMap)
   - Eve.total_ehp sample_stats == 875)%Q
  /\ (Eve.ehp (Eve.shield (skilled sample_numerics sample_stats Skills.allLevelVSkillMap))
      - Eve.ehp (Eve.shield sample_stats) == 500)%Q
  /\ forallb (fun e => negb (Qeq_bool (snd e) 875) && negb (Qeq_bool (snd e) 500))
             (Skills.entries (deltas sample_numerics sample_stats Skills.allLevelVSkillMap))
     = true
  /\ map fst (Skills.entries (deltas sample_numerics sample_stats Skills.allLevelVSkillMap))
     = ["cpu_total"; "pg_total"; "cap_capacity"; "cap_recharge"; "shield_hp";
        "armor_hp"; "hull_hp"; "max_velocity"; "inertia_modifier"; "align_time";
        "max_targets"; "max_target_range"; "scan_resolution"]%string.
Proof. repeat split; vm_compute; reflexivity. Qed.
(** * The mutation surface *)

Section StoreFacts.

Import Eve Store.

Variable num : Stats.Numerics.

Lemma commit_fitting (ship : EveType) (updated : Fitting) (w : World) :
  fitting (store (commit num ship updated w)) = Some updated.
Proof.
  unfold commit.
  destruct (computeStatsWithSkills num ship updated _ _). reflexivity.
Qed.

Lemma generateId_store (w : World) : store (snd (generateId w)) = store w.
Proof. reflexivity. Qed.

Lemma get_with_slots (key : SlotArrayKey) (slots : list (option FittedModule))
      (now : str) (f : Fitting) :
  get_slots key (with_slots key slots now f) = slots.
Proof. destruct key; reflexivity. Qed.

Lemma out_of_range_true {A} (index : Z) (slots : list A) :
  (index < 0)%Z \/ (Z.of_nat (length slots) <= index)%Z ->
  out_of_range index slots = true.
Proof.
  intros H. unfold out_of_range. apply orb_true_iff.
  destruct H as [H|H]; [left; now apply Z.ltb_lt|right; now apply Z.leb_le].
Qed.

Lemma addModule_out_of_bounds (now : str) (slotType : SlotType) (index : Z)
      (md : ModuleData) (w : World) :
  out_of_bounds w slotType index -> addModule num now slotType index md w = w.
Proof.
  unfold out_of_bounds, addModule. intros H.
  destruct (fitting (store w)) as [f|]; [|reflexivity].
  destruct (shipType (store w)) as [ship|];
    destruct (getSlotArrayKey slotType) as [key|]; try reflexivity.
  unfold cloneFitting. now rewrite out_of_range_true.
Qed.

Lemma removeModule_out_of_bounds (now : str) (slotType : SlotType) (index : Z)
      (w : World) :
  out_of_bounds w slotType index -> removeModule num now slotType index w = w.
Proof.
  unfold out_of_bounds, removeModule. intros H.
  destruct (fitting (store w)) as [f|]; [|reflexivity].
  destruct (shipType (store w)) as [ship|];
    destruct (getSlotArrayKey slotType) as [key|]; try reflexivity.
  unfold cloneFitting. now rewrite out_of_range_true.
Qed.

End StoreFacts.

(** C10.  A call of [addModule] or [removeModule] with a slot type that
    has no slot array, or with an index below zero or at or beyond the
    length of the slot array, returns the world it was given: the fitting,
    the stats and the skill deltas of the store, the supply of identifiers
    and the count of stats computations are all unchanged. *)
Theorem out_of_bounds_is_noop (num : Stats.Numerics) (now : str)
        (slotType : Eve.SlotType) (index : Z) (md : Store.ModuleData) (w : Store.World) :
  out_of_bounds w slotType index ->
  Store.addModule num now slotType index md w = w
  /\ Store.removeModule num now slotType index w = w.
Proof.
  intros H. split.
  - now apply addModule_out_of_bounds.
  - now apply removeModule_out_of_bounds.
Qed.

Lemma out_of_bounds_is_noop_witness :
  out_of_bounds world_two_turrets Eve.high 8
  /\ Store.addModule sample_numerics (lit "t3") Eve.high 8 turret_data world_two_turrets
     = world_two_turrets
  /\ Store.removeModule sample_numerics (lit "t3") Eve.high 8 world_two_turrets
     = world_two_turrets.
Proof.
  assert (H : out_of_bounds world_two_turrets Eve.high 8).
  { vm_compute. right. discriminate. }
  split; [exact H|].
  exact (out_of_bounds_is_noop sample_numerics (lit "t3") Eve.high 8 turret_data
           world_two_turrets H).
Defined.

Section PassiveRacks.

Import Eve Store.

Variable num : Stats.Numerics.

Lemma In_insert {A} (l : list A) (i : nat) (x y : A) :
  In x (<[i := y]> l) -> x = y \/ In x l.
Proof.
  revert i. induction l as [|a l IH]; intros i H; [contradiction|].
  destruct i as [|i]; simpl in H.
  - destruct H as [H|H]; [left; now symmetry|right; now right].
  - destruct H as [H|H]; [right; now left|].
    destruct (IH i H) as [E|E]; [now left|right; now right].
Qed.

Lemma slot_at_In (slots : list (option FittedModule)) (index : Z) (m : FittedModule) :
  slot_at slots index = Some m -> In (Some m) slots.
Proof.
  unfold slot_at. destruct (index <? 0)%Z; [discriminate|].
  destruct (slots !! Z.to_nat index) as [[m'|]|] eqn:E; try discriminate.
  intros H. injection H as ->.
  apply list_elem_of_In. now apply list_elem_of_lookup_2 in E.
Qed.

Lemma fixed_key_state (st : SlotType) (key : SlotArrayKey) :
  getSlotArrayKey st = Some key -> fixed_key key = fixed_state st.
Proof. destruct st; simpl; intros H; try discriminate; now injection H as <-. Qed.

Lemma passive_rack_key (f : Fitting) (key : SlotArrayKey) (m : FittedModule) :
  passive_racks f -> fixed_key key = true ->
  In (Some m) (get_slots key f) -> state m = passive.
Proof.
  intros Hp Hk Hin. apply Hp. apply in_or_app.
  destruct key; try discriminate; [left|right]; exact Hin.
Qed.

(** Writing a slot array keeps the invariant when, for a rig or
    subsystem array, the modules written are passive. *)
Lemma passive_with_slots (key : SlotArrayKey) (slots : list (option FittedModule))
      (now : str) (f : Fitting) :
  passive_racks f ->
  (fixed_key key = true -> forall m, In (Some m) slots -> state m = passive) ->
  passive_racks (with_slots key slots now f).
Proof.
  intros Hp Hnew m Hin.
  apply in_app_or in Hin.
  destruct key; simpl in Hin, Hnew;
    try (apply Hp; apply in_or_app; exact Hin).
  - destruct Hin as [Hin|Hin]; [now apply Hnew|].
    apply Hp. apply in_or_app. now right.
  - destruct Hin as [Hin|Hin]; [|now apply Hnew].
    apply Hp. apply in_or_app. now left.
Qed.

Lemma passive_with_drones (ds : list FittedModule) (now : str) (f : Fitting) :
  passive_racks f -> passive_racks (with_drones ds now f).
Proof. intros Hp m Hin. apply Hp. exact Hin. Qed.

Lemma passive_commit (ship : EveType) (updated : Fitting) (w : World) :
  passive_racks updated -> passive_invariant (commit num ship updated w).
Proof. intros H. unfold passive_invariant. now rewrite commit_fitting. Qed.

(** Every module that the filling loop leaves in the rack was there
    before or carries the state of the module data. *)
Lemma fill_loop_modules (md : ModuleData) (st : SlotType) (limited : bool)
      (used : nat) (limit : Q) (slots : list (option FittedModule))
      (i filled : nat) (w : World) (m : FittedModule) :
  In (Some m) (fst (fst (fill_loop md st limited used limit slots i filled w))) ->
  In (Some m) slots \/ state m = md_state md.
Proof.
  revert i filled w. induction slots as [|s slots IH]; intros i filled w Hin.
  - contradiction.
  - destruct s as [m0|]; cbn [fill_loop] in Hin.
    + destruct (fill_loop md st limited used limit slots (S i) filled w)
        as [[rest' filled'] w'] eqn:E.
      cbn [fst] in Hin. destruct Hin as [Hin|Hin]; [left; now left|].
      specialize (IH (S i) filled w). rewrite E in IH.
      destruct (IH Hin) as [H|H]; [left; now right|now right].
    + destruct (limited && Qle_bool limit (inject_Z (Z.of_nat (used + filled)))).
      * left. exact Hin.
      * destruct (generateId w) as [id w1] eqn:Eg.
        destruct (fill_loop md st limited used limit slots (S i) (S filled) w1)
          as [[rest' filled'] w'] eqn:E.
        cbn [fst] in Hin. destruct Hin as [Hin|Hin].
        -- right. injection Hin as <-. reflexivity.
        -- specialize (IH (S i) (S filled) w1). rewrite E in IH.
           destruct (IH Hin) as [H|H]; [left; now right|now right].
Qed.

Lemma passive_addModule (now : str) (st : SlotType) (index : Z) (md : ModuleData)
      (w : World) :
  (fixed_state st = true -> md_state md = passive) ->
  passive_invariant w -> passive_invariant (addModule num now st index md w).
Proof.
  intros Hc Hinv. unfold addModule.
  destruct (fitting (store w)) as [f|] eqn:Ef; [|exact Hinv].
  destruct (shipType (store w)) as [ship|]; [|exact Hinv].
  destruct (getSlotArrayKey st) as [key|] eqn:Ek; [|exact Hinv].
  destruct (out_of_range index (get_slots key (cloneFitting f))); [exact Hinv|].
  destruct (generateId w) as [id w1].
  apply passive_commit. unfold passive_invariant in Hinv. rewrite Ef in Hinv.
  apply passive_with_slots; [exact Hinv|].
  intros Hk m Hin. apply In_insert in Hin as [Hin|Hin].
  - injection Hin as ->. simpl. apply Hc.
    now rewrite <- (fixed_key_state st key Ek).
  - now apply (passive_rack_key f key).
Qed.

Lemma passive_fillSlots (now : str) (st : SlotType) (md : ModuleData) (w : World) :
  (fixed_state st = true -> md_state md = passive) ->
  passive_invariant w -> passive_invariant (fillSlots num now st md w).
Proof.
  intros Hc Hinv. unfold fillSlots.
  destruct (fitting (store w)) as [f|] eqn:Ef; [|exact Hinv].
  destruct (shipType (store w)) as [ship|]; [|exact Hinv].
  destruct (stats (store w)) as [s|]; [|exact Hinv].
  destruct (getSlotArrayKey st) as [key|] eqn:Ek; [|exact Hinv].
  match goal with
  | |- context [fill_loop ?a ?b ?c ?d ?e ?g ?h ?i ?j] =>
      pose proof (fun m => fill_loop_modules a b c d e g h i j m) as Hmods;
      destruct (fill_loop a b c d e g h i j) as [[slots' filled] w'] eqn:E
  end.
  destruct filled as [|n]; [exact Hinv|].
  apply passive_commit. unfold passive_invariant in Hinv. rewrite Ef in Hinv.
  apply passive_with_slots; [exact Hinv|].
  intros Hk m Hin. cbn [fst] in Hmods. destruct (Hmods m Hin) as [H|H].
  - now apply (passive_rack_key f key).
  - rewrite H. apply Hc. now rewrite <- (fixed_key_state st key Ek).
Qed.

Lemma passive_removeModule (now : str) (st : SlotType) (index : Z) (w : World) :
  passive_invariant w -> passive_invariant (removeModule num now st index w).
Proof.
  intros Hinv. unfold removeModule.
  destruct (fitting (store w)) as [f|] eqn:Ef; [|exact Hinv].
  destruct (shipType (store w)) as [ship|]; [|exact Hinv].
  destruct (getSlotArrayKey st) as [key|] eqn:Ek; [|exact Hinv].
  destruct (out_of_range index (get_slots key (cloneFitting f))); [exact Hinv|].
  apply passive_commit. unfold passive_invariant in Hinv. rewrite Ef in Hinv.
  apply passive_with_slots; [exact Hinv|].
  intros Hk m Hin. apply In_insert in Hin as [Hin|Hin]; [discriminate|].
  now apply (passive_rack_key f key).
Qed.

Lemma passive_toggleModuleState (now : str) (st : SlotType) (index : Z) (w : World) :
  fixed_state st = false ->
  passive_invariant w -> passive_invariant (toggleModuleState num now st index w).
Proof.
  intros Hc Hinv. unfold toggleModuleState.
  destruct (fitting (store w)) as [f|] eqn:Ef; [|exact Hinv].
  destruct (shipType (store w)) as [ship|]; [|exact Hinv].
  destruct (getSlotArrayKey st) as [key|] eqn:Ek; [|exact Hinv].
  destruct (slot_at (get_slots key (cloneFitting f)) index) as [m0|]; [|exact Hinv].
  apply passive_commit. unfold passive_invariant in Hinv. rewrite Ef in Hinv.
  apply passive_with_slots; [exact Hinv|].
  intros Hk. rewrite (fixed_key_state st key Ek), Hc in Hk. discriminate.
Qed.

Lemma passive_setModuleCharge (now : str) (st : SlotType) (index : Z)
      (c : option Charge) (w : World) :
  passive_invariant w -> passive_invariant (setModuleCharge num now st index c w).
Proof.
  intros Hinv. unfold setModuleCharge.
  destruct (fitting (store w)) as [f|] eqn:Ef; [|exact Hinv].
  destruct (shipType (store w)) as [ship|]; [|exact Hinv].
  destruct (getSlotArrayKey st) as [key|] eqn:Ek; [|exact Hinv].
  destruct (slot_at (get_slots key (cloneFitting f)) index) as [m0|] eqn:Em;
    [|exact Hinv].
  apply passive_commit. unfold passive_invariant in Hinv. rewrite Ef in Hinv.
  apply passive_with_slots; [exact Hinv|].
  intros Hk m Hin. apply In_insert in Hin as [Hin|Hin].
  - injection Hin as ->. simpl.
    apply (passive_rack_key f key m0 Hinv Hk). now apply slot_at_In in Em.
  - now apply (passive_rack_key f key).
Qed.

Lemma passive_addDrone (now : str) (md : ModuleData) (w : World) :
  passive_invariant w -> passive_invariant (addDrone num now md w).
Proof.
  intros Hinv. unfold addDrone.
  destruct (fitting (store w)) as [f|] eqn:Ef; [|exact Hinv].
  destruct (shipType (store w)) as [ship|]; [|exact Hinv].
  destruct (generateId w) as [id w1].
  apply passive_commit. unfold passive_invariant in Hinv. rewrite Ef in Hinv.
  now apply passive_with_drones.
Qed.

Lemma passive_removeDrone (now : str) (index : Z) (w : World) :
  passive_invariant w -> passive_invariant (removeDrone num now index w).
Proof.
  intros Hinv. unfold removeDrone.
  destruct (fitting (store w)) as [f|] eqn:Ef; [|exact Hinv].
  destruct (shipType (store w)) as [ship|]; [|exact Hinv].
  apply passive_commit. unfold passive_invariant in Hinv. rewrite Ef in Hinv.
  now apply passive_with_drones.
Qed.

Lemma passive_importFitting (f : Fitting) (ship : EveType) (w : World) :
  passive_racks f -> passive_invariant (importFitting num f ship w).
Proof.
  intros H. unfold passive_invariant, importFitting.
  destruct (computeStatsWithSkills num ship f _ _). exact H.
Qed.

(** One call that keeps the contract keeps the invariant. *)
Lemma passive_run (w : World) (c : Call) :
  keeps_contract c -> passive_invariant w -> passive_invariant (run num w c).
Proof.
  destruct c; simpl; intros Hc Hinv.
  - now apply passive_addModule.
  - now apply passive_fillSlots.
  - now apply passive_removeModule.
  - now apply passive_toggleModuleState.
  - now apply passive_setModuleCharge.
  - now apply passive_addDrone.
  - now apply passive_removeDrone.
  - now apply passive_importFitting.
Qed.

Lemma In_repeat_None (n : nat) (m : FittedModule) : ~ In (Some m) (repeat None n).
Proof. intros H. apply repeat_spec in H. discriminate. Qed.

(** A ship selection yields a fitting without modules. *)
Lemma passive_setShip (now : str) (ship : EveType) (counts : option SlotCounts)
      (w : World) :
  passive_invariant (setShip num now ship counts w).
Proof.
  unfold passive_invariant, setShip.
  destruct (generateId w) as [id w1].
  match goal with
  | |- context [computeStatsWithSkills ?a ?b ?c ?d ?e] =>
      destruct (computeStatsWithSkills a b c d e)
  end.
  cbn [store fitting].
  intros m Hin. apply in_app_or in Hin.
  destruct counts as [[h mi l r [[|n]|]]|];
    cbn [rig_slots subsystem_slots createEmptyFitting createEmptySlots
         subsystemSlots rigSlots] in Hin;
    destruct Hin as [Hin|Hin];
    now apply In_repeat_None in Hin.
Qed.

End PassiveRacks.

(** C9 (as amended).  In every fitting reached from a freshly selected
    ship through calls of the mutation surface that keep the callers'
    contract (a module placed or filled into a rig or subsystem slot is
    passive, the state of a rig or subsystem slot is not toggled, an
    imported fitting has passive rigs and subsystems), every module held in
    a rig or subsystem slot is passive. *)
Theorem passive_invariant_reachable (num : Stats.Numerics) (now : str)
        (ship : Eve.EveType) (counts : option Store.SlotCounts) (w0 : Store.World)
        (calls : list Call) :
  Forall keeps_contract calls ->
  passive_invariant (fold_left (run num) calls (Store.setShip num now ship counts w0)).
Proof.
  intros Hcalls.
  assert (Hfold : forall w, passive_invariant w ->
                            passive_invariant (fold_left (run num) calls w)).
  { induction Hcalls as [|c calls Hc Hcalls IH]; intros w Hw; [exact Hw|].
    cbn [fold_left]. apply IH. now apply passive_run. }
  apply Hfold. apply passive_setShip.
Qed.

Lemma passive_invariant_reachable_witness :
  Forall keeps_contract
         [CallAddModule (lit "t1") Eve.rig 0 rig_data;
          CallFillSlots (lit "t2") Eve.high turret_data;
          CallToggleModuleState (lit "t3") Eve.high 0]
  /\ passive_invariant
       (fold_left (run sample_numerics)
                  [CallAddModule (lit "t1") Eve.rig 0 rig_data;
                   CallFillSlots (lit "t2") Eve.high turret_data;
                   CallToggleModuleState (lit "t3") Eve.high 0]
                  (Store.setShip sample_numerics (lit "t0") sample_ship None
                                 (Store.initial Eve.none))).
Proof.
  assert (H : Forall keeps_contract
                     [CallAddModule (lit "t1") Eve.rig 0 rig_data;
                      CallFillSlots (lit "t2") Eve.high turret_data;
                      CallToggleModuleState (lit "t3") Eve.high 0]).
  { repeat constructor; simpl; intros; (reflexivity || discriminate). }
  split; [exact H|].
  exact (passive_invariant_reachable sample_numerics (lit "t0") sample_ship None
           (Store.initial Eve.none) _ H).
Defined.

(** C9 as stated fails: the store toggles whatever slot it is asked to,
    and a rig placed in the passive state is offline after one call of
    [toggleModuleState]. *)
Lemma passive_invariant_counterexample :
  option_map Eve.state
    (Store.slot_at (rack_of Store.rig_slots_key world_rig_toggled) 0)
  = Some Eve.offline
  /\ ~ passive_invariant world_rig_toggled.
Proof.
  split; [vm_compute; reflexivity|].
  intros H.
  assert (E : exists m, Store.slot_at (rack_of Store.rig_slots_key world_rig_toggled) 0
                        = Some m /\ Eve.state m = Eve.offline).
  { vm_compute. eexists. split; reflexivity. }
  destruct E as (m & Em & Es).
  apply slot_at_In in Em.
  unfold passive_invariant in H.
  assert (Ef : exists f, Store.fitting (Store.store world_rig_toggled) = Some f
                         /\ Store.get_slots Store.rig_slots_key f
                            = rack_of Store.rig_slots_key world_rig_toggled).
  { unfold rack_of.
    destruct (Store.fitting (Store.store world_rig_toggled)) as [f|] eqn:E.
    - exists f. split; reflexivity.
    - exfalso. unfold rack_of in Em. rewrite E in Em. contradiction. }
  destruct Ef as (f & Ef & Er). rewrite Ef in H.
  assert (Hp : Eve.state m = Eve.passive).
  { apply H. apply in_or_app. left. simpl in Er. rewrite Er. exact Em. }
  rewrite Es in Hp. discriminate.
Qed.

Section FillSlots.

Import Eve Store.

Variable num : Stats.Numerics.

(** The limit is reached after [filled] fillings exactly when [filled]
    covers the room left below the ceiling of the limit. *)
Lemma limit_reached (limit : Q) (used filled : nat) :
  Qle_bool limit (inject_Z (Z.of_nat (used + filled)))
  = (Z.to_nat (Qceiling limit - Z.of_nat used) <=? filled).
Proof.
  apply eq_true_iff_eq. rewrite Qle_bool_iff, Nat.leb_le. split.
  - intros H.
    assert (Hc : (Qceiling limit <= Z.of_nat (used + filled))%Z).
    { assert (Hlt : (inject_Z (Qceiling limit - 1) < inject_Z (Z.of_nat (used + filled)))%Q).
      { eapply Qlt_le_trans; [apply Qceiling_lt|exact H]. }
      rewrite <- Zlt_Qlt in Hlt. lia. }
    lia.
  - intros H.
    eapply Qle_trans; [apply Qle_ceiling|].
    rewrite <- Zle_Qle. lia.
Qed.

Lemma count_empty_cons_Some (m : FittedModule) (slots : list (option FittedModule)) :
  count_empty (Some m :: slots) = count_empty slots.
Proof. reflexivity. Qed.

Lemma count_empty_cons_None (slots : list (option FittedModule)) :
  count_empty (None :: slots) = S (count_empty slots).
Proof. reflexivity. Qed.

(** What the filling loop does, in numbers: it fills the first empty
    slots, as many as there are or as the room allows. *)
Lemma fill_loop_count (md : ModuleData) (st : SlotType) (limited : bool)
      (used : nat) (limit : Q) (slots : list (option FittedModule))
      (i filled : nat) (w : World) :
  let room := Z.to_nat (Qceiling limit - Z.of_nat used) in
  let r := fill_loop md st limited used limit slots i filled w in
  snd (fst r) = filled + Nat.min (count_empty slots)
                                 (if limited then room - filled else count_empty slots)
  /\ length (fst (fst r)) = length slots
  /\ count_empty (fst (fst r)) = count_empty slots - (snd (fst r) - filled)
  /\ (forall j m, slots !! j = Some (Some m) -> fst (fst r) !! j = Some (Some m)).
Proof.
  intros room. revert i filled w.
  induction slots as [|s slots IH]; intros i filled w.
  - cbn [fill_loop fst snd]. change (count_empty []) with 0.
    split; [destruct limited; lia|]. split; [reflexivity|]. split; [lia|].
    intros j m Hj. exact Hj.
  - destruct s as [m0|]; cbn [fill_loop].
    + specialize (IH (S i) filled w).
      destruct (fill_loop md st limited used limit slots (S i) filled w)
        as [[rest' filled'] w'].
      cbn [fst snd] in *. destruct IH as (H1 & H2 & H3 & H4).
      rewrite !count_empty_cons_Some. repeat split.
      * exact H1.
      * simpl. now rewrite H2.
      * exact H3.
      * intros [|j] m Hj; [exact Hj|]. apply H4. exact Hj.
    + rewrite limit_reached. fold room.
      destruct limited; cbn [andb].
      * destruct (room <=? filled) eqn:Er.
        -- apply Nat.leb_le in Er. cbn [fst snd].
           rewrite count_empty_cons_None. repeat split; try lia.
           intros j m Hj. exact Hj.
        -- apply Nat.leb_gt in Er.
           destruct (generateId w) as [id w1].
           specialize (IH (S i) (S filled) w1).
           destruct (fill_loop md st true used limit slots (S i) (S filled) w1)
             as [[rest' filled'] w'].
           cbn [fst snd] in *. destruct IH as (H1 & H2 & H3 & H4).
           rewrite count_empty_cons_None, count_empty_cons_Some. repeat split.
           ++ lia.
           ++ simpl. now rewrite H2.
           ++ lia.
           ++ intros [|j] m Hj; [discriminate Hj|]. apply H4. exact Hj.
      * destruct (generateId w) as [id w1].
        specialize (IH (S i) (S filled) w1).
        destruct (fill_loop md st false used limit slots (S i) (S filled) w1)
          as [[rest' filled'] w'].
        cbn [fst snd] in *. destruct IH as (H1 & H2 & H3 & H4).
        rewrite count_empty_cons_None, count_empty_cons_Some. repeat split.
        -- lia.
        -- simpl. now rewrite H2.
        -- lia.
        -- intros [|j] m Hj; [discriminate Hj|]. apply H4. exact Hj.
Qed.

Lemma rack_of_commit (key : SlotArrayKey) (ship : EveType)
      (slots : list (option FittedModule)) (now : str) (f : Fitting) (w : World) :
  rack_of key (commit num ship (with_slots key slots now f) w) = slots.
Proof. unfold rack_of. rewrite commit_fitting. apply get_with_slots. Qed.

End FillSlots.



(** * The skill plan resolver *)

Section NumMaps.

Import Plan.
Local Open Scope Q_scope.

Context {V : Type}.

Lemma Qeq_bool_sym (a b : Q) : Qeq_bool a b = Qeq_bool b a.
Proof.
  apply eq_true_iff_eq. rewrite !Qeq_bool_iff. split; intros H; now symmetry.
Qed.

Lemma Qeq_bool_trans (a b c : Q) :
  Qeq_bool a b = true -> Qeq_bool b c = true -> Qeq_bool a c = true.
Proof.
  rewrite !Qeq_bool_iff. intros H1 H2. now rewrite H1.
Qed.

Lemma Qeq_bool_congr (a b c : Q) :
  Qeq_bool a b = true -> Qeq_bool a c = Qeq_bool b c.
Proof.
  intros H. apply eq_true_iff_eq. split; intros H'.
  - apply (Qeq_bool_trans b a c); [now rewrite Qeq_bool_sym|assumption].
  - now apply (Qeq_bool_trans a b c).
Qed.

Lemma map_get_cons (k k' : Q) (v : V) (m : NumMap V) :
  map_get k ((k', v) :: m) = if Qeq_bool k' k then Some v else map_get k m.
Proof. unfold map_get. simpl. now destruct (Qeq_bool k' k). Qed.

(** Keys that are equal as numbers find the same entry. *)
Lemma map_get_congr (k1 k2 : Q) (m : NumMap V) :
  Qeq_bool k1 k2 = true -> map_get k1 m = map_get k2 m.
Proof.
  intros H. induction m as [|[k v] m IH]; [reflexivity|].
  rewrite !map_get_cons, IH.
  rewrite (Qeq_bool_sym k k1), (Qeq_bool_sym k k2), (Qeq_bool_congr k1 k2 k H).
  reflexivity.
Qed.

Lemma map_get_set (k k2 : Q) (v : V) (m : NumMap V) :
  map_get k (map_set k2 v m) = if Qeq_bool k2 k then Some v else map_get k m.
Proof.
  induction m as [|[k' v'] m IH].
  - simpl. rewrite map_get_cons. reflexivity.
  - simpl. destruct (Qeq_bool k' k2) eqn:E.
    + rewrite !map_get_cons, (Qeq_bool_congr k' k2 k E).
      now destruct (Qeq_bool k2 k).
    + rewrite !map_get_cons, IH.
      destruct (Qeq_bool k' k) eqn:E'; [|reflexivity].
      destruct (Qeq_bool k2 k) eqn:E2; [|reflexivity].
      rewrite Qeq_bool_sym in E2.
      rewrite (Qeq_bool_trans k' k k2 E' E2) in E. discriminate.
Qed.

Lemma map_get_In (k : Q) (v : V) (m : NumMap V) :
  map_get k m = Some v -> exists k', In (k', v) m /\ Qeq_bool k' k = true.
Proof.
  induction m as [|[k' v'] m IH]; [discriminate|].
  rewrite map_get_cons. destruct (Qeq_bool k' k) eqn:E.
  - intros H. injection H as ->. exists k'. split; [now left|assumption].
  - intros H. destruct (IH H) as (k'' & Hin & Hk). exists k''. split; [now right|assumption].
Qed.

Lemma Qeq_bool_refl (a : Q) : Qeq_bool a a = true.
Proof. apply Qeq_bool_iff. reflexivity. Qed.

Lemma uniq_In_get (k : Q) (v : V) (m : NumMap V) :
  uniq m -> In (k, v) m -> map_get k m = Some v.
Proof.
  induction m as [|[k' v'] m IH]; [contradiction|].
  intros [Hn Hu] [Hin|Hin]; rewrite map_get_cons.
  - injection Hin as -> ->. now rewrite Qeq_bool_refl.
  - destruct (Qeq_bool k' k) eqn:E; [|now apply IH].
    rewrite (map_get_congr k' k m E), (IH Hu Hin) in Hn. discriminate.
Qed.

Lemma uniq_set (k : Q) (v : V) (m : NumMap V) : uniq m -> uniq (map_set k v m).
Proof.
  induction m as [|[k' v'] m IH]; intros Hu.
  - simpl. auto.
  - destruct Hu as [Hn Hu]. simpl. destruct (Qeq_bool k' k) eqn:E.
    + simpl. auto.
    + simpl. split; [|now apply IH].
      rewrite map_get_set, Qeq_bool_sym, E. exact Hn.
Qed.

(** [map_set] keeps the keys that the map holds. *)
Lemma map_set_keys (k k2 : Q) (v : V) (m : NumMap V) :
  In k (map_keys m) -> In k (map_keys (map_set k2 v m)).
Proof.
  induction m as [|[k' v'] m IH]; [contradiction|].
  intros [H|H]; simpl in *; destruct (Qeq_bool k' k2); simpl; auto.
Qed.

Lemma map_set_In (k k2 : Q) (v v2 : V) (m : NumMap V) :
  In (k, v) (map_set k2 v2 m) -> In (k, v) m \/ v = v2.
Proof.
  induction m as [|[k' v'] m IH]; simpl.
  - intros [H|[]]. injection H as _ <-. now right.
  - destruct (Qeq_bool k' k2).
    + intros [H|H]; [injection H as _ <-; now right|left; now right].
    + intros [H|H]; [left; now left|].
      destruct (IH H) as [H'|H']; [left; now right|now right].
Qed.

(** An entry of the map stays, or its key stays with the new value. *)
Lemma map_set_keeps (k k2 : Q) (v v2 : V) (m : NumMap V) :
  In (k, v) m -> In (k, v) (map_set k2 v2 m) \/ (In (k, v2) (map_set k2 v2 m) /\ Qeq_bool k k2 = true).
Proof.
  induction m as [|[k' v'] m IH]; [contradiction|].
  intros [H|H]; simpl.
  - injection H as -> ->. destruct (Qeq_bool k k2) eqn:E.
    + right. split; [now left|reflexivity].
    + left. now left.
  - destruct (Qeq_bool k' k2).
    + left. now right.
    + destruct (IH H) as [H'|[H' E]]; [left; now right|right; split; [now right|exact E]].
Qed.

End NumMaps.

Section NumMapFacts.

Import Plan.
Local Open Scope Q_scope.

Context {V : Type}.

Lemma In_get_some (k : Q) (v : V) (m : NumMap V) :
  In (k, v) m -> map_get k m <> None.
Proof.
  induction m as [|[k' v'] m IH]; [contradiction|].
  intros [H|H]; rewrite map_get_cons.
  - injection H as -> ->. now rewrite Qeq_bool_refl.
  - destruct (Qeq_bool k' k); [discriminate|now apply IH].
Qed.

Lemma map_get_app (k : Q) (m1 m2 : NumMap V) :
  map_get k (m1 ++ m2)
  = match map_get k m1 with Some v => Some v | None => map_get k m2 end.
Proof.
  induction m1 as [|[k' v'] m1 IH]; [reflexivity|].
  simpl app. rewrite !map_get_cons. now destruct (Qeq_bool k' k).
Qed.

(** A key that the map does not hold goes to its end. *)
Lemma map_set_fresh (k : Q) (v : V) (m : NumMap V) :
  map_get k m = None -> map_set k v m = m ++ [(k, v)].
Proof.
  induction m as [|[k' v'] m IH]; [reflexivity|].
  rewrite map_get_cons. simpl. destruct (Qeq_bool k' k); [discriminate|].
  intros H. now rewrite IH.
Qed.

Lemma uniq_apart (k k' : Q) (v : V) (m : NumMap V) :
  map_get k' m = None -> In (k, v) m -> Qeq_bool k' k = false.
Proof.
  intros Hn Hin. destruct (Qeq_bool k' k) eqn:E; [|reflexivity].
  rewrite (map_get_congr k' k m E) in Hn. now apply In_get_some in Hin.
Qed.

End NumMapFacts.
(** ** Sorting and the stage lists *)

Section Sorting.

Import Plan.

Context {A : Type}.
Variable cmp : A -> A -> Z.

Lemma insert_by_perm (x : A) (l : list A) : Permutation (insert_by cmp x l) (x :: l).
Proof.
  induction l as [|y l IH]; simpl.
  - reflexivity.
  - destruct (cmp x y <? 0)%Z; [reflexivity|].
    rewrite IH. apply perm_swap.
Qed.

Lemma sort_fold_perm (l acc : list A) :
  Permutation (fold_left (fun sorted x => insert_by cmp x sorted) l acc) (l ++ acc).
Proof.
  revert acc. induction l as [|x l IH]; intros acc; simpl.
  - reflexivity.
  - rewrite IH, insert_by_perm. symmetry. apply Permutation_middle.
Qed.

Lemma sort_by_perm (l : list A) : Permutation (sort_by cmp l) l.
Proof. unfold sort_by. rewrite sort_fold_perm. now rewrite app_nil_r. Qed.

Lemma sort_by_In (x : A) (l : list A) : In x (sort_by cmp l) <-> In x l.
Proof.
  split; apply Permutation_in; [|symmetry]; apply sort_by_perm.
Qed.

End Sorting.

Section Stages.

Import Plan Eve.
Local Open Scope Q_scope.

Variable localeCompare : str -> str -> Z.

(** The members of a stage list: the entries with a name that is not
    empty. *)
Lemma stage_skills_In (levels : NumMap Q) (names : NumMap str) (r : SkillRequirement) :
  In r (stage_skills localeCompare levels names)
  <-> exists id lv c name,
        In (id, lv) levels /\ map_get id names = Some (c :: name)
        /\ r = mkReq id (c :: name) lv.
Proof.
  unfold stage_skills. rewrite sort_by_In, <- list_elem_of_In, list_elem_of_omap.
  split.
  - intros ([id lv] & Hin & Hf). cbn [fst snd] in Hf.
    destruct (map_get id names) as [[|c name]|] eqn:E; try discriminate.
    injection Hf as <-. exists id, lv, c, name.
    rewrite <- list_elem_of_In. auto.
  - intros (id & lv & c & name & Hin & Hn & ->).
    exists (id, lv). rewrite list_elem_of_In. split; [exact Hin|].
    cbn [fst snd]. now rewrite Hn.
Qed.

End Stages.
(** ** The requirements keep one entry per skill *)

Section ResolverFacts.

Import Plan Eve.
Local Open Scope Q_scope.

Variable getType : Q -> option EveType.
Variable SKILL_REQ_ATTRS : list (Z * Z).

Lemma keep_highest_uniq (m : NumMap Q) (req : RawSkillReq) :
  uniq m -> uniq (keep_highest m req).
Proof.
  intros Hu. unfold keep_highest.
  destruct (improves _ _); [now apply uniq_set|exact Hu].
Qed.

Lemma fold_keep_highest_uniq (reqs : list RawSkillReq) (m : NumMap Q) :
  uniq m -> uniq (fold_left keep_highest reqs m).
Proof.
  revert m. induction reqs as [|r reqs IH]; intros m Hu; simpl; [exact Hu|].
  apply IH. now apply keep_highest_uniq.
Qed.

Lemma resolvePrerequisites_uniq (fuel : nat) (skillTypeId : Q) (st : list Q * NumMap Q) :
  uniq (snd st) ->
  uniq (snd (resolvePrerequisites getType SKILL_REQ_ATTRS fuel skillTypeId st)).
Proof.
  revert skillTypeId st. induction fuel as [|fuel IH]; intros id [visited result] Hu.
  - exact Hu.
  - cbn [resolvePrerequisites]. destruct (set_has id visited); [exact Hu|].
    destruct (getType id) as [skillType|]; [|exact Hu].
    match goal with |- context [if ?b then _ else _] => destruct b end; [exact Hu|].
    generalize (set_add id visited). intros visited'.
    change result with (snd (visited', result)) in Hu.
    revert Hu. generalize (visited', result).
    induction (extractSkillReqs SKILL_REQ_ATTRS skillType) as [|r reqs IHr];
      intros st Hu; simpl; [exact Hu|].
    apply IHr. apply IH. cbn [snd]. now apply keep_highest_uniq.
Qed.

Lemma resolve_all_uniq (fuel : nat) (ids : list Q) (st : list Q * NumMap Q) :
  uniq (snd st) ->
  uniq (snd (fold_left
               (fun st skillId =>
                  resolvePrerequisites getType SKILL_REQ_ATTRS fuel skillId st)
               ids st)).
Proof.
  revert st. induction ids as [|id ids IH]; intros st Hu; simpl; [exact Hu|].
  apply IH. now apply resolvePrerequisites_uniq.
Qed.

Lemma directReqs_uniq (types : list EveType) (m : NumMap Q) :
  uniq m ->
  uniq (fold_left
          (fun reqs type =>
             fold_left keep_highest (extractSkillReqs SKILL_REQ_ATTRS type) reqs)
          types m).
Proof.
  revert m. induction types as [|t types IH]; intros m Hu; simpl; [exact Hu|].
  apply IH. now apply fold_keep_highest_uniq.
Qed.

End ResolverFacts.
(** ** The Recommended map *)

Section Recommended.

Import Plan Eve.
Local Open Scope Q_scope.

(** The first loop of stage 2 over requirements with one entry per skill:
    every level is raised to four, in place. *)
Lemma bump_fold (l acc : NumMap Q) :
  uniq l ->
  (forall k v, In (k, v) l -> map_get k acc = None) ->
  fold_left (fun m entry => map_set (fst entry) (Stats.Math_max (snd entry) 4) m) l acc
  = acc ++ map (fun entry => (fst entry, Stats.Math_max (snd entry) 4)) l.
Proof.
  revert acc. induction l as [|[k v] l IH]; intros acc Hu Hfresh.
  - simpl. now rewrite app_nil_r.
  - destruct Hu as [Hn Hu]. cbn [fold_left map fst snd].
    rewrite (map_set_fresh k _ acc) by (apply (Hfresh k v); now left).
    rewrite IH; [now rewrite <- app_assoc|exact Hu|].
    intros k' v' Hin. rewrite map_get_app, (Hfresh k' v') by now right.
    rewrite map_get_cons, (uniq_apart k' k v' l Hn Hin). reflexivity.
Qed.

Lemma Math_max_l (a b : Q) : a <= Stats.Math_max a b.
Proof.
  unfold Stats.Math_max. destruct (Qle_bool a b) eqn:E.
  - now apply Qle_bool_iff.
  - apply Qle_refl.
Qed.

Lemma Math_max_r (a b : Q) : b <= Stats.Math_max a b.
Proof.
  unfold Stats.Math_max. destruct (Qle_bool a b) eqn:E.
  - apply Qle_refl.
  - apply Qlt_le_weak, Qnot_le_lt. intros H. apply Qle_bool_iff in H. congruence.
Qed.

Lemma raises_refl (m : NumMap Q) : raises m m.
Proof. intros k l H. exists l. split; [exact H|apply Qle_refl]. Qed.

Lemma raises_trans (m1 m2 m3 : NumMap Q) : raises m1 m2 -> raises m2 m3 -> raises m1 m3.
Proof.
  intros H12 H23 k l H. destruct (H12 k l H) as (l2 & H2 & Hl2).
  destruct (H23 k l2 H2) as (l3 & H3 & Hl3).
  exists l3. split; [exact H3|]. now apply Qle_trans with l2.
Qed.

Lemma bump_raises (l : NumMap Q) :
  raises l (map (fun entry => (fst entry, Stats.Math_max (snd entry) 4)) l).
Proof.
  intros k v H. exists (Stats.Math_max v 4). split; [|apply Math_max_l].
  apply (in_map (fun entry : Q * Q => (fst entry, Stats.Math_max (snd entry) 4))) in H.
  exact H.
Qed.

(** One support skill: [if (!existing || existing < 4) set(supportId, 4)]. *)
Lemma support_step_raises (m : NumMap Q) (supportId : Q) :
  uniq m ->
  raises m (match map_get supportId m with
            | Some existing =>
                if Qeq_bool existing 0 || Stats.gt 4 existing
                then map_set supportId 4 m else m
            | None => map_set supportId 4 m
            end).
Proof.
  intros Hu k v Hin.
  destruct (map_get supportId m) as [existing|] eqn:E.
  - destruct (Qeq_bool existing 0 || Stats.gt 4 existing) eqn:C;
      [|exists v; split; [exact Hin|apply Qle_refl]].
    destruct (map_set_keeps k supportId v 4 m Hin) as [H|[H Hk]].
    + exists v. split; [exact H|apply Qle_refl].
    + exists 4. split; [exact H|].
      rewrite <- (map_get_congr k supportId m Hk), (uniq_In_get k v m Hu Hin) in E.
      injection E as ->. apply orb_true_iff in C. destruct C as [C|C].
      * apply Qeq_bool_iff in C. rewrite C. discriminate.
      * unfold Stats.gt in C. apply negb_true_iff in C.
        apply Qlt_le_weak, Qnot_le_lt. intros H'. apply Qle_bool_iff in H'. congruence.
  - destruct (map_set_keeps k supportId v 4 m Hin) as [H|[H Hk]].
    + exists v. split; [exact H|apply Qle_refl].
    + rewrite <- (map_get_congr k supportId m Hk) in E.
      now apply In_get_some in Hin.
Qed.

Lemma support_step_uniq (m : NumMap Q) (supportId : Q) :
  uniq m ->
  uniq (match map_get supportId m with
        | Some existing =>
            if Qeq_bool existing 0 || Stats.gt 4 existing
            then map_set supportId 4 m else m
        | None => map_set supportId 4 m
        end).
Proof.
  intros Hu. destruct (map_get supportId m) as [existing|];
    [destruct (_ || _)|]; auto using uniq_set.
Qed.

Lemma support_step_floor (m : NumMap Q) (supportId : Q) :
  (forall k v, In (k, v) m -> 4 <= v) ->
  forall k v,
    In (k, v) (match map_get supportId m with
               | Some existing =>
                   if Qeq_bool existing 0 || Stats.gt 4 existing
                   then map_set supportId 4 m else m
               | None => map_set supportId 4 m
               end) -> 4 <= v.
Proof.
  intros Hm k v Hin.
  assert (Hset : In (k, v) (map_set supportId 4 m) -> 4 <= v).
  { intros H. apply map_set_In in H. destruct H as [H| ->]; [now apply (Hm k)|apply Qle_refl]. }
  destruct (map_get supportId m) as [existing|]; [destruct (_ || _)|]; auto.
  now apply (Hm k).
Qed.

(** The second loop of stage 2. *)
Lemma support_fold (ids : list Q) (m : NumMap Q) :
  uniq m ->
  (forall k v, In (k, v) m -> 4 <= v) ->
  let m' :=
    fold_left (fun m supportId =>
                 match map_get supportId m with
                 | Some existing =>
                     if Qeq_bool existing 0 || Stats.gt 4 existing
                     then map_set supportId 4 m else m
                 | None => map_set supportId 4 m
                 end) ids m in
  uniq m' /\ raises m m' /\ (forall k v, In (k, v) m' -> 4 <= v).
Proof.
  revert m. induction ids as [|id ids IH]; intros m Hu Hm.
  - simpl. split; [exact Hu|]. split; [apply raises_refl|exact Hm].
  - cbn [fold_left]. cbv zeta.
    destruct (IH _ (support_step_uniq m id Hu) (support_step_floor m id Hm))
      as (Hu' & Hr' & Hm').
    split; [exact Hu'|]. split; [|exact Hm'].
    eapply raises_trans; [now apply support_step_raises|exact Hr'].
Qed.

(** The names found for the requirements stay when the names of the
    support skills are added. *)
Lemma support_names (getType : Q -> option EveType) (ids : list Q)
      (names : NumMap str) (k : Q) (n : str) :
  map_get k names = Some n ->
  map_get k (fold_left
               (fun names supportId =>
                  if map_has supportId names then names
                  else match getType supportId with
                       | Some type => map_set supportId (t_name type) names
                       | None => names
                       end) ids names) = Some n.
Proof.
  revert names. induction ids as [|id ids IH]; intros names Hn; [exact Hn|].
  cbn [fold_left]. apply IH. unfold map_has.
  destruct (map_get id names) eqn:E; [exact Hn|].
  destruct (getType id); [|exact Hn].
  rewrite map_get_set. destruct (Qeq_bool id k) eqn:Ek; [|exact Hn].
  rewrite (map_get_congr id k names Ek) in E. congruence.
Qed.

End Recommended.
(** ** The three stages *)

Section StageOrdering.

Import Plan Eve.
Local Open Scope Q_scope.

Lemma bump_fold_uniq (l acc : NumMap Q) :
  uniq acc ->
  uniq (fold_left (fun m entry => map_set (fst entry) (Stats.Math_max (snd entry) 4) m)
                  l acc).
Proof.
  revert acc. induction l as [|e l IH]; intros acc Hacc; [exact Hacc|].
  cbn [fold_left]. apply IH. now apply uniq_set.
Qed.

(** The stages built from requirements with one entry per skill. *)
Lemma stages_ordered (getType : Q -> option EveType) (localeCompare : str -> str -> Z)
      (ids : list Q) (allReqs : NumMap Q) (names : NumMap str) :
  uniq allReqs ->
  let stage2Map :=
    fold_left (fun m supportId =>
                 match map_get supportId m with
                 | Some existing =>
                     if Qeq_bool existing 0 || Stats.gt 4 existing
                     then map_set supportId 4 m else m
                 | None => map_set supportId 4 m
                 end) ids
              (fold_left (fun m entry => map_set (fst entry) (Stats.Math_max (snd entry) 4) m)
                         allReqs []) in
  let names' :=
    fold_left (fun names supportId =>
                 if map_has supportId names then names
                 else match getType supportId with
                      | Some type => map_set supportId (t_name type) names
                      | None => names
                      end) ids names in
  let stage1 := stage_skills localeCompare allReqs names in
  let stage2 := stage_skills localeCompare stage2Map names' in
  incl (map skill_type_id stage1) (map skill_type_id stage2)
  /\ forall r, In r stage2 ->
       4 <= required_level r
       /\ forall r1, In r1 stage1 -> skill_type_id r1 == skill_type_id r ->
                     required_level r1 <= required_level r.
Proof.
  intros Hu. rewrite (bump_fold allReqs [] Hu) by reflexivity. rewrite app_nil_l.
  set (bumped := map _ allReqs).
  assert (Hub : uniq bumped).
  { rewrite <- (app_nil_l bumped). unfold bumped.
    rewrite <- (bump_fold allReqs [] Hu) by reflexivity.
    now apply bump_fold_uniq. }
  assert (Hfloor : forall k v, In (k, v) bumped -> 4 <= v).
  { intros k v H. apply in_map_iff in H. destruct H as (e & He & _).
    injection He as _ <-. apply Math_max_r. }
  destruct (support_fold ids bumped Hub Hfloor) as (Hu2 & Hr2 & Hf2).
  cbv zeta.
  match goal with
  | |- context [stage_skills _ (fold_left ?f ids bumped) _] =>
      set (stage2Map := fold_left f ids bumped) in *
  end.
  assert (Hr : raises allReqs stage2Map)
    by (eapply raises_trans; [apply bump_raises|exact Hr2]).
  split.
  - intros id Hid. apply in_map_iff in Hid. destruct Hid as (r1 & <- & Hr1).
    apply stage_skills_In in Hr1. destruct Hr1 as (k & lv & c & name & Hin & Hn & ->).
    destruct (Hr k lv Hin) as (lv' & Hin' & _).
    apply in_map_iff. exists (mkReq k (c :: name) lv'). split; [reflexivity|].
    apply stage_skills_In. exists k, lv', c, name.
    split; [exact Hin'|]. split; [|reflexivity]. now apply support_names.
  - intros r Hin2. apply stage_skills_In in Hin2.
    destruct Hin2 as (k & lv & c & name & Hin & Hn & ->). cbn [required_level skill_type_id].
    split; [now apply (Hf2 k)|].
    intros r1 Hin1 Heq. apply stage_skills_In in Hin1.
    destruct Hin1 as (k1 & lv1 & c1 & name1 & Hin1 & Hn1 & ->).
    cbn [required_level skill_type_id] in *.
    destruct (Hr k1 lv1 Hin1) as (lv' & Hin' & Hle).
    apply Qeq_bool_iff in Heq.
    pose proof (uniq_In_get k1 lv' stage2Map Hu2 Hin') as G1.
    rewrite (map_get_congr k1 k stage2Map Heq), (uniq_In_get k lv stage2Map Hu2 Hin) in G1.
    injection G1 as ->. exact Hle.
Qed.

End StageOrdering.

(** C8.  Every plan that [buildSkillPlan] returns is ordered: the skill
    ids of Mastery include those of Recommended, which include those of
    Minimum; every level of Mastery is 5; every level of Recommended is at
    least 4 and at least the level of the same skill in Minimum.  This
    holds for every answer of the type lookup, every table of requirement
    attributes, every collation and every depth of the recursion. *)
Theorem skill_plan_stage_ordering
        (getType : Q -> option Eve.EveType) (SKILL_REQ_ATTRS : list (Z * Z))
        (localeCompare : str -> str -> Z)
        (fuel : nat) (shipType : Eve.EveType) (fitting : Eve.Fitting) :
  stage_ordering
    (Plan.buildSkillPlan getType SKILL_REQ_ATTRS localeCompare fuel shipType fitting).
Proof.
  unfold stage_ordering, Plan.buildSkillPlan, stage_ids. cbn [Eve.stages Eve.skills].
  match goal with
  | |- context [Plan.stage_skills _ ?all ?names] =>
      match all with
      | snd _ =>
          pose proof (stages_ordered getType localeCompare Plan.support_ids all names)
            as H
      end
  end.
  cbv zeta in H. destruct H as [Hincl Hlev].
  { apply resolve_all_uniq. cbn [snd]. now apply directReqs_uniq. }
  split; [|split; [exact Hincl|split; [|exact Hlev]]].
  - rewrite map_map. cbn [Eve.skill_type_id]. apply incl_refl.
  - intros r Hin. apply in_map_iff in Hin. destruct Hin as (s & <- & _). reflexivity.
Qed.


(** The plan of a bare cruiser: the hull asks for the cruiser skill at
    three, that skill for the destroyer skill at four; Recommended adds the
    one support skill whose name resolves. *)
Example skill_plan_of_bare_hull :
  stage_levels (Plan.buildSkillPlan sample_getType sample_req_attrs code_order
                                    8 sample_hull bare_fitting)
  = [ [(3332 # 1, 3 # 1); (3328 # 1, 4 # 1)];
      [(3426 # 1, 4 # 1); (3332 # 1, 4 # 1); (3328 # 1, 4 # 1)];
      [(3426 # 1, 5 # 1); (3332 # 1, 5 # 1); (3328 # 1, 5 # 1)] ]%Q.
Proof. vm_compute. reflexivity. Qed.
(** * More on trimming and lines *)

Section TrimFacts.

Lemma trimStart_ws (w s : str) :
  forallb is_ws w = true -> trimStart (w ++ s) = trimStart s.
Proof.
  induction w as [|c w IH]; intros Hw; [reflexivity|].
  simpl in Hw. apply andb_true_iff in Hw as [Hc Hw].
  simpl. rewrite Hc. now apply IH.
Qed.

Lemma trimEnd_all_ws (w : str) : forallb is_ws w = true -> trimEnd w = [].
Proof.
  induction w as [|c w IH]; intros Hw; [reflexivity|].
  simpl in Hw. apply andb_true_iff in Hw as [Hc Hw].
  simpl. rewrite (IH Hw), Hc. reflexivity.
Qed.

Lemma trimEnd_ws (s w : str) :
  forallb is_ws w = true -> trimEnd (s ++ w) = trimEnd s.
Proof.
  intros Hw. induction s as [|c s IH].
  - simpl. now apply trimEnd_all_ws.
  - simpl. rewrite IH. reflexivity.
Qed.

Lemma trimStart_head (s : str) :
  trimStart s = [] \/ exists c r, trimStart s = c :: r /\ is_ws c = false.
Proof.
  induction s as [|c s IH]; [now left|].
  simpl. destruct (is_ws c) eqn:E; [exact IH|].
  right. exists c, s. auto.
Qed.

Lemma trimStart_app_ws (s w : str) :
  forallb is_ws w = true ->
  trimStart (s ++ w) = match trimStart s with [] => [] | t => t ++ w end.
Proof.
  intros Hw. induction s as [|c s IH].
  - simpl. rewrite <- (app_nil_r w), trimStart_ws by assumption. reflexivity.
  - simpl. destruct (is_ws c); [exact IH|reflexivity].
Qed.

(** White space around a text does not change what [trim] returns. *)
Lemma trim_pad (w1 s w2 : str) :
  forallb is_ws w1 = true -> forallb is_ws w2 = true ->
  trim (w1 ++ s ++ w2) = trim s.
Proof.
  intros H1 H2. unfold trim.
  rewrite trimStart_ws, trimStart_app_ws by assumption.
  destruct (trimStart s) as [|c t] eqn:E; [reflexivity|].
  now apply trimEnd_ws.
Qed.

Lemma trimEnd_prefix (s : str) :
  exists w, s = trimEnd s ++ w /\ forallb is_ws w = true.
Proof.
  induction s as [|c s (w & Hs & Hw)].
  - exists []. auto.
  - simpl. destruct (trimEnd s) as [|d t] eqn:E.
    + simpl in Hs. subst w.
      destruct (is_ws c) eqn:Ec.
      * exists (c :: s). split; [reflexivity|]. simpl. now rewrite Ec.
      * exists s. split; [reflexivity|assumption].
    + exists w. split; [|assumption]. rewrite Hs at 1. reflexivity.
Qed.

Lemma trimEnd_keeps_head (c : ascii) (r : str) :
  is_ws c = false -> exists r', trimEnd (c :: r) = c :: r'.
Proof.
  intros Hc. simpl. destruct (trimEnd r) as [|d t].
  - rewrite Hc. now exists [].
  - now exists (d :: t).
Qed.

(** A trimmed text is empty or starts with a character that is not white
    space. *)
Lemma trim_head (s : str) :
  trim s = [] \/ exists c r, trim s = c :: r /\ is_ws c = false.
Proof.
  unfold trim. destruct (trimStart_head s) as [E|(c & r & E & Hc)].
  - left. now rewrite E.
  - right. rewrite E. destruct (trimEnd_keeps_head c r Hc) as (r' & E').
    exists c, r'. auto.
Qed.

(** The first line is the start of the text. *)
Lemma split_nl_hd (s : str) : exists tail, s = hd [] (split_nl s) ++ tail.
Proof.
  induction s as [|c s (tail & IH)].
  - now exists [].
  - simpl. destruct (Ascii.eqb c nl).
    + now exists (c :: s).
    + destruct (split_nl s) as [|l ls] eqn:E.
      * now apply split_nl_nonempty in E.
      * simpl in IH. exists tail. simpl. now rewrite IH at 1.
Qed.

(** The first line of [parseEFT], when it is not empty, is the start of
    the trimmed text. *)
Lemma first_line_prefix (eftText : str) :
  first_line eftText <> [] ->
  exists tail, trim eftText = first_line eftText ++ tail.
Proof.
  unfold first_line. intros Hne.
  destruct (split_nl_hd (trim eftText)) as (tail & Ht).
  destruct (trim_head eftText) as [E|(c & r & E & Hc)].
  - rewrite E in Hne. simpl in Hne. now contradiction Hne.
  - set (l0 := hd [] (split_nl (trim eftText))) in *.
    destruct l0 as [|a l0'] eqn:El0.
    + now contradiction Hne.
    + assert (a = c) by (rewrite E in Ht; simpl in Ht; congruence). subst a.
      unfold trim at 2. rewrite (trimStart_nonws c l0' Hc).
      destruct (trimEnd_prefix (c :: l0')) as (w & Hw & _).
      exists (w ++ tail). rewrite app_assoc, <- Hw. exact Ht.
Qed.

End TrimFacts.
(** * Validation and name extraction *)

Section GreedyMatchers.

Import EFT EFTTools.

Context {R : Type}.

Lemma dot_star_greedy_base (k : Matcher R) (s : str) :
  k s <> None -> dot_star_greedy k s <> None.
Proof.
  intros Hk. destruct s as [|a s]; [exact Hk|].
  simpl. destruct (is_lt a); [exact Hk|].
  destruct (dot_star_greedy k s); [discriminate|exact Hk].
Qed.

Lemma dot_star_greedy_complete (k : Matcher R) (p rest : str) :
  single_line p = true -> k rest <> None -> dot_star_greedy k (p ++ rest) <> None.
Proof.
  induction p as [|a p IH]; intros Hp Hk.
  - now apply dot_star_greedy_base.
  - simpl in Hp. apply andb_true_iff in Hp as [Ha Hp]. apply negb_true_iff in Ha.
    simpl. rewrite Ha.
    destruct (dot_star_greedy k (p ++ rest)) eqn:E; [discriminate|].
    now contradiction (IH Hp Hk).
Qed.

Lemma dot_plus_greedy_complete (k : Matcher R) (p rest : str) :
  p <> [] -> single_line p = true -> k rest <> None ->
  dot_plus_greedy k (p ++ rest) <> None.
Proof.
  intros Hne Hp Hk. destruct p as [|a p]; [contradiction|].
  simpl in Hp. apply andb_true_iff in Hp as [Ha Hp]. apply negb_true_iff in Ha.
  simpl. rewrite Ha. now apply dot_star_greedy_complete.
Qed.

End GreedyMatchers.

Section Validation.

Import EFT EFTTools.

(** A text that starts with a header line passes the quick check. *)
Lemma isEFTFormat_header (g1 w g2 tail : str) :
  g1 <> [] -> single_line g1 = true -> forallb is_ws w = true ->
  g2 <> [] -> single_line g2 = true ->
  chr "["%char
      (dot_plus_greedy
         (chr ","%char (ws_star (dot_plus_greedy (chr "]"%char accept)))))
      ((lit "[" ++ g1 ++ lit "," ++ w ++ g2 ++ lit "]") ++ tail) <> None.
Proof.
  intros Hg1 Hs1 Hw Hg2 Hs2.
  change ((lit "[" ++ g1 ++ lit "," ++ w ++ g2 ++ lit "]") ++ tail)
    with ("["%char :: (g1 ++ ","%char :: w ++ g2 ++ lit "]") ++ tail).
  cbn [chr]. rewrite Ascii.eqb_refl.
  rewrite <- app_assoc.
  apply dot_plus_greedy_complete; [assumption|assumption|].
  change ((","%char :: w ++ g2 ++ lit "]") ++ tail)
    with (","%char :: (w ++ g2 ++ lit "]") ++ tail).
  cbn [chr]. rewrite Ascii.eqb_refl.
  rewrite <- app_assoc.
  apply ws_star_complete; [assumption|].
  rewrite <- app_assoc.
  apply dot_plus_greedy_complete; [assumption|assumption|].
  simpl. discriminate.
Qed.

End Validation.

(** X1.  Every text that [parseEFT] parses passes the quick check
    [isEFTFormat]; a text that fails the check makes [parseEFT] throw. *)
Theorem parseEFT_implies_isEFTFormat (eftText : str) :
  (forall p, EFT.parseEFT eftText = EFT.Ok p -> EFTTools.isEFTFormat eftText = true)
  /\ (EFTTools.isEFTFormat eftText = false ->
      EFT.parseEFT eftText = EFT.Throw (EFT.InvalidHeader (first_line eftText))).
Proof.
  assert (H : EFT.headerMatch (first_line eftText) <> None ->
              EFTTools.isEFTFormat eftText = true).
  { intros Hm. apply headerMatch_pattern in Hm.
    destruct Hm as (g1 & w & g2 & E & Hg1 & Hs1 & Hw & Hg2 & Hs2).
    destruct (first_line_prefix eftText) as (tail & Ht).
    { rewrite E. discriminate. }
    unfold EFTTools.isEFTFormat. rewrite Ht, E.
    pose proof (isEFTFormat_header g1 w g2 tail Hg1 Hs1 Hw Hg2 Hs2) as Hok.
    destruct (EFT.chr _ _ _); [reflexivity|contradiction]. }
  rewrite parseEFT_header. split.
  - intros p Hp. apply H.
    destruct (EFT.headerMatch (first_line eftText)); discriminate.
  - intros Hf. destruct (EFT.headerMatch (first_line eftText)) as [[g1 g2]|] eqn:E;
      [|reflexivity].
    rewrite H in Hf by discriminate. discriminate.
Qed.

Section UniqueNames.

Import EFT EFTTools.

Lemma existsb_str_eqb (n : str) (names : list str) :
  existsb (str_eqb n) names = true <-> In n names.
Proof.
  rewrite existsb_exists. split.
  - intros (x & Hin & Hx). apply str_eqb_eq in Hx. now subst.
  - intros Hin. exists n. split; [exact Hin|apply str_eqb_refl].
Qed.

Lemma names_add_In (n x : str) (names : list str) :
  In n (names_add x names) <-> n = x \/ In n names.
Proof.
  unfold names_add. destruct (existsb (str_eqb x) names) eqn:E.
  - apply existsb_str_eqb in E. split; [now right|]. intros [->|H]; assumption.
  - rewrite in_app_iff. simpl. split.
    + intros [H|[H|[]]]; [now right|now left].
    + intros [H|H]; [right; now left|now left].
Qed.

Lemma NoDup_add_last {A} (x : A) (l : list A) : List.NoDup l -> ~ In x l -> List.NoDup (l ++ [x]).
Proof.
  induction l as [|a l IH]; intros Hnd Hx.
  - simpl. constructor; [intros []|constructor].
  - inversion Hnd as [|a' l' Ha Hl]; subst. simpl. constructor.
    + rewrite in_app_iff. intros [H|[H|[]]]; [contradiction|].
      subst. apply Hx. now left.
    + apply IH; [assumption|]. intros H. apply Hx. now right.
Qed.

Lemma names_add_NoDup (x : str) (names : list str) :
  List.NoDup names -> List.NoDup (names_add x names).
Proof.
  intros Hnd. unfold names_add. destruct (existsb (str_eqb x) names) eqn:E; [exact Hnd|].
  apply NoDup_add_last; [exact Hnd|].
  intros Hn. apply existsb_str_eqb in Hn. congruence.
Qed.

Lemma names_add_hd (x h : str) (names : list str) :
  hd_error names = Some h -> hd_error (names_add x names) = Some h.
Proof.
  unfold names_add. destruct (existsb (str_eqb x) names); [auto|].
  destruct names; [discriminate|auto].
Qed.

Lemma names_step_In (n : str) (names : list str) (item : EFTLine) :
  In n (names_step names item)
  <-> In n names \/ n = name item \/ (charge item = Some n /\ n <> []).
Proof.
  unfold names_step. destruct (charge item) as [[|c cs]|].
  - rewrite names_add_In. split.
    + intros [H|H]; auto.
    + intros [H|[H|[H Hne]]]; auto. injection H as <-. contradiction.
  - rewrite !names_add_In. split.
    + intros [H|[H|H]]; auto. right. right. subst. split; [reflexivity|discriminate].
    + intros [H|[H|[H Hne]]]; auto. injection H as <-. auto.
  - rewrite names_add_In. split.
    + intros [H|H]; auto.
    + intros [H|[H|[H Hne]]]; auto. discriminate.
Qed.

Lemma names_step_NoDup (names : list str) (item : EFTLine) :
  List.NoDup names -> List.NoDup (names_step names item).
Proof.
  intros H. unfold names_step.
  destruct (charge item) as [[|c cs]|]; auto using names_add_NoDup.
Qed.

Lemma names_step_hd (h : str) (names : list str) (item : EFTLine) :
  hd_error names = Some h -> hd_error (names_step names item) = Some h.
Proof.
  intros H. unfold names_step.
  destruct (charge item) as [[|c cs]|]; auto using names_add_hd.
Qed.

Lemma names_fold (items : list EFTLine) (names : list str) (h : str) :
  List.NoDup names -> hd_error names = Some h ->
  List.NoDup (fold_left names_step items names)
  /\ hd_error (fold_left names_step items names) = Some h
  /\ forall n, In n (fold_left names_step items names)
               <-> In n names
                   \/ exists item, In item items
                                   /\ (n = name item \/ (charge item = Some n /\ n <> [])).
Proof.
  revert names. induction items as [|it items IH]; intros names Hnd Hhd.
  - simpl. split; [exact Hnd|]. split; [exact Hhd|].
    intros n. split; [now left|]. intros [H|(item & [] & _)]. exact H.
  - cbn [fold_left].
    destruct (IH (names_step names it) (names_step_NoDup names it Hnd)
                 (names_step_hd h names it Hhd)) as (H1 & H2 & H3).
    split; [exact H1|]. split; [exact H2|].
    intros n. rewrite H3, names_step_In. split.
    + intros [[H|H]|(item & Hin & H)].
      * now left.
      * right. exists it. split; [now left|exact H].
      * right. exists item. split; [now right|exact H].
    + intros [H|(item & [<-|Hin] & H)].
      * left. now left.
      * left. now right.
      * right. now exists item.
Qed.

End UniqueNames.

(** X2.  [getUniqueItemNames] lists each name once, the ship name first:
    a text is in the list exactly when it is the ship name, the name of an
    item of one of the seven lists, or a charge of such an item that is not
    the empty text. *)
Theorem getUniqueItemNames_spec (parsed : EFT.ParsedEFT) :
  List.NoDup (EFTTools.getUniqueItemNames parsed)
  /\ hd_error (EFTTools.getUniqueItemNames parsed) = Some (EFT.shipName parsed)
  /\ forall n,
       In n (EFTTools.getUniqueItemNames parsed)
       <-> n = EFT.shipName parsed
           \/ exists item, In item (EFTTools.allSlots parsed)
                           /\ (n = EFT.name item
                               \/ (EFT.charge item = Some n /\ n <> [])).
Proof.
  unfold EFTTools.getUniqueItemNames.
  destruct (names_fold (EFTTools.allSlots parsed)
                       (EFTTools.names_add (EFT.shipName parsed) [])
                       (EFT.shipName parsed)) as (H1 & H2 & H3).
  - repeat constructor. intros [].
  - reflexivity.
  - split; [exact H1|]. split; [exact H2|].
    intros n. rewrite H3. cbn. split.
    + intros [[H|[]]|H]; [left; now symmetry|now right].
    + intros [H|H]; [left; left; now symmetry|now right].
Qed.
(** * Lines with charges *)

Section ChargeLines.

Import EFT.

Lemma indexOf_comma_app (n rest : str) :
  no_comma n = true -> indexOf_comma (n ++ comma :: rest) = Some (length n).
Proof.
  induction n as [|a n IH]; intros H.
  - reflexivity.
  - simpl in H. apply andb_true_iff in H as [Ha Hn]. apply negb_true_iff in Ha.
    simpl. rewrite Ha, (IH Hn). reflexivity.
Qed.

Lemma firstn_length_app {A} (n rest : list A) : firstn (length n) (n ++ rest) = n.
Proof. induction n as [|a n IH]; simpl; [now destruct rest|now rewrite IH]. Qed.

Lemma skipn_past {A} (n rest : list A) (x : A) :
  skipn (length n + 1) (n ++ x :: rest) = rest.
Proof. induction n as [|a n IH]; simpl; [reflexivity|exact IH]. Qed.

Lemma startsWith_Empty_app (n rest : str) (sep : ascii) :
  forallb (fun x => negb (Ascii.eqb x sep)) (lit "[Empty") = true ->
  startsWith (lit "[Empty") n = false ->
  startsWith (lit "[Empty") (n ++ sep :: rest) = false.
Proof.
  intros Hsep Hn.
  destruct (startsWith (lit "[Empty") (n ++ sep :: rest)) eqn:E; [|reflexivity].
  apply (startsWith_app_fresh (lit "[Empty") n rest sep) in E; [congruence|exact Hsep].
Qed.

(** A line without quantity suffix is split at its first comma. *)
Lemma parse_text_line (t : str) :
  no_outer_ws t = true -> startsWith (lit "[Empty") t = false ->
  ends_with_quantity t = false ->
  parseEFTLine t
  = match indexOf_comma t with
    | Some i => Some (mkLine (trim (firstn i t)) (Some (trim (skipn (i + 1) t))) None)
    | None => Some (mkLine (trim t) None None)
    end.
Proof.
  intros Hws He Hq. unfold parseEFTLine.
  rewrite (str_eqb_neq t []) by now apply no_outer_ws_nonempty.
  rewrite He. simpl orb. cbv iota.
  destruct (quantityMatch t) as [r|] eqn:E.
  { apply quantityMatch_ends in E. congruence. }
  reflexivity.
Qed.

(** A line with a printed quantity: the quantity is read off its end and
    the rest is split at its first comma. *)
Lemma parse_quantity_line (t : str) (q : N) :
  no_outer_ws t = true -> single_line t = true ->
  startsWith (lit "[Empty") t = false ->
  parseEFTLine (t ++ lit " x" ++ Number_toString q)
  = match indexOf_comma t with
    | Some i =>
        Some (mkLine (trim (firstn i t)) (Some (trim (skipn (i + 1) t))) (Some q))
    | None => Some (mkLine t None (Some q))
    end.
Proof.
  intros Hws Hsl He.
  destruct (Number_toString_digits q) as [Hd Hne].
  unfold parseEFTLine.
  rewrite str_eqb_neq.
  2:{ intros E. apply app_eq_nil in E as [E _].
      now apply (no_outer_ws_nonempty t Hws). }
  change (t ++ lit " x" ++ Number_toString q)
    with (t ++ " "%char :: lit "x" ++ Number_toString q).
  rewrite (startsWith_Empty_app t _ " "%char) by (reflexivity || assumption).
  simpl orb. cbv iota.
  change (t ++ " "%char :: lit "x" ++ Number_toString q)
    with (t ++ lit " x" ++ Number_toString q).
  rewrite (quantityMatch_suffix t (Number_toString q)) by assumption.
  rewrite (trim_plain t Hws), Number_toString_parse.
  unfold slice_to, slice_from. reflexivity.
Qed.

(** The text of a name and its charge. *)
Lemma charged_text (n c : str) :
  no_outer_ws n = true -> no_comma n = true -> no_outer_ws c = true ->
  let t := n ++ lit ", " ++ c in
  no_outer_ws t = true
  /\ indexOf_comma t = Some (length n)
  /\ trim (firstn (length n) t) = n
  /\ trim (skipn (length n + 1) t) = c.
Proof.
  intros Hn Hc Hch t. subst t.
  change (n ++ lit ", " ++ c) with (n ++ comma :: " "%char :: c).
  split; [|split; [|split]].
  - apply no_outer_ws_app; [assumption|discriminate|].
    destruct (no_outer_ws_first c Hch) as (a & c' & -> & _).
    change (List.last (comma :: " "%char :: a :: c') " "%char)
      with (List.last (a :: c') " "%char).
    now apply no_outer_ws_last.
  - now apply indexOf_comma_app.
  - rewrite firstn_length_app. now apply trim_plain.
  - rewrite skipn_past.
    destruct (no_outer_ws_first c Hch) as (a & c' & E & Ha).
    unfold trim. cbn [trimStart]. change (is_ws " "%char) with true. cbv iota.
    rewrite E, (trimStart_nonws a c' Ha), <- E. now apply trimEnd_plain.
Qed.

End ChargeLines.


(** * What the round trip keeps *)

Section Packed.

Import EFT.

Lemma concat_filter_nonblank {A} (cats : list (list A)) :
  concat (List.filter nonblank cats) = concat cats.
Proof.
  induction cats as [|c cats IH]; [reflexivity|].
  simpl. destruct c as [|a c]; simpl; [exact IH|now rewrite IH].
Qed.

Lemma filter_length_le {A} (f : A -> bool) (l : list A) :
  length (List.filter f l) <= length l.
Proof.
  induction l as [|a l IH]; simpl; [lia|].
  destruct (f a); simpl; lia.
Qed.

(** Seven positional reads of at most seven sections return all of
    them. *)
Lemma sections_concat (secs : list (list EFTLine)) :
  length secs <= 7 ->
  concat [section 0 secs; section 1 secs; section 2 secs; section 3 secs;
          section 4 secs; section 5 secs; section 6 secs]
  = concat secs.
Proof.
  intros H. unfold section.
  do 8 (destruct secs as [|? secs]; [simpl; rewrite ?app_nil_r; reflexivity|]).
  simpl in H. lia.
Qed.

End Packed.



(** White space before and after the text is of no account: the
    padded text is parsed, and judged by [isEFTFormat], as the text
    itself. *)
Theorem parseEFT_ignores_padding (before eftText after : str) :
  forallb is_ws before = true -> forallb is_ws after = true ->
  EFT.parseEFT (before ++ eftText ++ after) = EFT.parseEFT eftText
  /\ EFTTools.isEFTFormat (before ++ eftText ++ after) = EFTTools.isEFTFormat eftText.
Proof.
  intros Hb Ha. unfold EFT.parseEFT, EFTTools.isEFTFormat.
  rewrite (trim_pad before eftText after Hb Ha). split; reflexivity.
Qed.

Lemma parseEFT_ignores_padding_witness :
  forallb is_ws (lit "  ") = true
  /\ forallb is_ws [nl; nl] = true
  /\ EFT.parseEFT (lit "  " ++ EFT.serializeEFT hurricane ++ [nl; nl])
     = EFT.parseEFT (EFT.serializeEFT hurricane)
  /\ EFTTools.isEFTFormat (lit "  " ++ EFT.serializeEFT hurricane ++ [nl; nl])
     = EFTTools.isEFTFormat (EFT.serializeEFT hurricane).
Proof.
  split; [reflexivity|]. split; [reflexivity|].
  apply (parseEFT_ignores_padding (lit "  ") (EFT.serializeEFT hurricane) [nl; nl]);
    reflexivity.
Defined.
(** * The answers of the capacitor simulator *)

Section CapacitorAnswers.

Import Cap.

(** The second loop answers within the steps of the clock: stable, or
    empty at a time strictly inside the window. *)
Lemma stable_loop_answers (fuel : nat) (capacity tau drain maxSim t cap prevCap : float) :
  clock_done fuel maxSim t = true ->
  exists r,
    stable_loop fuel capacity tau drain maxSim t cap prevCap = Some r
    /\ ((stable r = true /\ lastsSeconds r = None /\ exists p, stablePercent r = Some p)
        \/ (stable r = false /\ stablePercent r = None
            /\ exists t', lastsSeconds r = Some t' /\ (t' <? maxSim)%float = true)).
Proof.
  revert t cap prevCap.
  induction fuel as [|fuel IH]; intros t cap prevCap Hclock; [discriminate|].
  cbn [clock_done] in Hclock. cbn [stable_loop].
  destruct (t <? maxSim)%float eqn:Et.
  - destruct (cap + (recharge_at capacity tau cap - drain) * dt <=? 0)%float.
    + eexists. split; [reflexivity|]. right. cbn. eauto.
    + destruct ((10 <? t)%float && _).
      * eexists. split; [reflexivity|]. left. cbn. eauto.
      * apply IH. exact Hclock.
  - eexists. split; [reflexivity|]. left. cbn. eauto.
Qed.

End CapacitorAnswers.

(** X5.  Whenever the loop counter reaches the end of the window within
    the given number of steps, [simulateCap] answers, and its answer is
    either stable with a percentage and no time, or unstable with a time
    and no percentage; the time never exceeds [maxSimSeconds], and it is
    strictly less unless the drain exceeds the peak recharge by more than
    ten percent. *)
Theorem simulateCap_answers
        (fuel : nat) (capacity rechargeMs drainPerSecond maxSimSeconds : float) :
  Cap.enough_fuel maxSimSeconds fuel = true ->
  exists r,
    Cap.simulateCap fuel capacity rechargeMs drainPerSecond maxSimSeconds = Some r
    /\ well_shaped maxSimSeconds r
    /\ (((2.5 * capacity) / (rechargeMs / 1000) * 1.1 <? drainPerSecond)%float = false ->
        forall t, Cap.lastsSeconds r = Some t -> (t <? maxSimSeconds)%float = true).
Proof.
  intros Hfuel. unfold Cap.simulateCap.
  destruct (drainPerSecond <=? 0)%float.
  - eexists. split; [reflexivity|]. split.
    + left. cbn. eauto.
    + intros _ t Ht. discriminate.
  - destruct ((2.5 * capacity) / (rechargeMs / 1000) * 1.1 <? drainPerSecond)%float.
    + destruct (drain_loop_answers fuel capacity (rechargeMs / 1000) drainPerSecond
                                   maxSimSeconds 0 capacity Hfuel) as (t & E & Ht).
      eexists. split; [exact E|]. split.
      * right. cbn. eauto.
      * discriminate.
    + destruct (stable_loop_answers fuel capacity (rechargeMs / 1000) drainPerSecond
                                    maxSimSeconds 0 capacity capacity Hfuel)
        as (r & E & [(Hs & Hl & p & Hp)|(Hs & Hp & t & Hl & Ht)]).
      * exists r. split; [exact E|]. split.
        -- left. eauto.
        -- intros _ t Ht. congruence.
      * exists r. split; [exact E|]. split.
        -- right. eauto 6.
        -- intros _ t' Ht'. congruence.
Qed.

Lemma simulateCap_answers_witness :
  Cap.enough_fuel Cap.default_maxSimSeconds Cap.default_fuel = true
  /\ exists r,
       Cap.simulateCap Cap.default_fuel 1000 300000 5 Cap.default_maxSimSeconds = Some r
       /\ well_shaped Cap.default_maxSimSeconds r
       /\ (((2.5 * 1000) / (300000 / 1000) * 1.1 <? 5)%float = false ->
           forall t, Cap.lastsSeconds r = Some t ->
                     (t <? Cap.default_maxSimSeconds)%float = true).
Proof.
  split; [vm_compute; reflexivity|].
  apply (simulateCap_answers Cap.default_fuel 1000 300000 5 Cap.default_maxSimSeconds).
  vm_compute. reflexivity.
Defined.

(** A drain of 5 GJ/s on 1000 GJ with a recharge time of 300 s settles at
    a stable charge. *)
Example simulateCap_stable_run :
  exists p,
    Cap.simulateCap Cap.default_fuel 1000 300000 5 Cap.default_maxSimSeconds
    = Some (Cap.mkSim true (Some p) None).
Proof. eexists. vm_compute. reflexivity. Qed.
(** * Helpers of [utils.ts] and the flag table *)

Section SlotDetection.

Import Eve Utils.

Lemma includes_In (effectIds : list Z) (id : Z) :
  includes effectIds id = true <-> In id effectIds.
Proof.
  unfold includes. rewrite existsb_exists. split.
  - intros (x & Hin & Hx). apply Z.eqb_eq in Hx. now subst.
  - intros Hin. exists id. split; [exact Hin|apply Z.eqb_refl].
Qed.

Lemma includes_not_In (effectIds : list Z) (id : Z) :
  includes effectIds id = false <-> ~ In id effectIds.
Proof.
  rewrite <- includes_In. destruct (includes effectIds id); split; congruence.
Qed.

End SlotDetection.

(** X6.  [getSlotTypeFromEffects] tries the five slot effects in the
    order high, mid, low, rig, subsystem: it returns the first slot type
    whose effect is in the list, and null exactly when the list holds none
    of the five. *)
Theorem getSlotTypeFromEffects_spec (effectIds : list Z) :
  (Utils.getSlotTypeFromEffects effectIds = None
   <-> forall id, In id [SLOT_EFFECT_IDS.HIGH_SLOT; SLOT_EFFECT_IDS.MED_SLOT;
                          SLOT_EFFECT_IDS.LOW_SLOT; SLOT_EFFECT_IDS.RIG_SLOT;
                          SLOT_EFFECT_IDS.SUBSYSTEM] -> ~ In id effectIds)
  /\ (Utils.getSlotTypeFromEffects effectIds = Some Eve.high
      <-> In SLOT_EFFECT_IDS.HIGH_SLOT effectIds)
  /\ (Utils.getSlotTypeFromEffects effectIds = Some Eve.mid
      <-> In SLOT_EFFECT_IDS.MED_SLOT effectIds
          /\ ~ In SLOT_EFFECT_IDS.HIGH_SLOT effectIds)
  /\ (Utils.getSlotTypeFromEffects effectIds = Some Eve.low
      <-> In SLOT_EFFECT_IDS.LOW_SLOT effectIds
          /\ ~ In SLOT_EFFECT_IDS.HIGH_SLOT effectIds
          /\ ~ In SLOT_EFFECT_IDS.MED_SLOT effectIds)
  /\ (Utils.getSlotTypeFromEffects effectIds = Some Eve.rig
      <-> In SLOT_EFFECT_IDS.RIG_SLOT effectIds
          /\ ~ In SLOT_EFFECT_IDS.HIGH_SLOT effectIds
          /\ ~ In SLOT_EFFECT_IDS.MED_SLOT effectIds
          /\ ~ In SLOT_EFFECT_IDS.LOW_SLOT effectIds)
  /\ (Utils.getSlotTypeFromEffects effectIds = Some Eve.subsystem
      <-> In SLOT_EFFECT_IDS.SUBSYSTEM effectIds
          /\ ~ In SLOT_EFFECT_IDS.HIGH_SLOT effectIds
          /\ ~ In SLOT_EFFECT_IDS.MED_SLOT effectIds
          /\ ~ In SLOT_EFFECT_IDS.LOW_SLOT effectIds
          /\ ~ In SLOT_EFFECT_IDS.RIG_SLOT effectIds).
Proof.
  assert (Hall : (forall id, In id [SLOT_EFFECT_IDS.HIGH_SLOT; SLOT_EFFECT_IDS.MED_SLOT;
                                    SLOT_EFFECT_IDS.LOW_SLOT; SLOT_EFFECT_IDS.RIG_SLOT;
                                    SLOT_EFFECT_IDS.SUBSYSTEM] -> ~ In id effectIds)
                 <-> ~ In SLOT_EFFECT_IDS.HIGH_SLOT effectIds
                     /\ ~ In SLOT_EFFECT_IDS.MED_SLOT effectIds
                     /\ ~ In SLOT_EFFECT_IDS.LOW_SLOT effectIds
                     /\ ~ In SLOT_EFFECT_IDS.RIG_SLOT effectIds
                     /\ ~ In SLOT_EFFECT_IDS.SUBSYSTEM effectIds).
  { split.
    - intros H. repeat split; apply H; simpl; tauto.
    - intros (H1 & H2 & H3 & H4 & H5) id Hin. simpl in Hin.
      destruct Hin as [<-|[<-|[<-|[<-|[<-|[]]]]]]; assumption. }
  rewrite Hall, <- !includes_In. unfold Utils.getSlotTypeFromEffects.
  destruct (Utils.includes effectIds SLOT_EFFECT_IDS.HIGH_SLOT);
    destruct (Utils.includes effectIds SLOT_EFFECT_IDS.MED_SLOT);
    destruct (Utils.includes effectIds SLOT_EFFECT_IDS.LOW_SLOT);
    destruct (Utils.includes effectIds SLOT_EFFECT_IDS.RIG_SLOT);
    destruct (Utils.includes effectIds SLOT_EFFECT_IDS.SUBSYSTEM);
    intuition (discriminate || congruence).
Qed.

(** X7.  [truncate] returns a text that fits as it is; a longer text is
    cut to [maxLen - 3] characters and three dots.  For [maxLen] of three
    or more the result has at most [maxLen] characters; for a smaller
    [maxLen] the result of cutting a longer text is longer than
    [maxLen]. *)
Theorem truncate_spec (s : str) (maxLen : Z) :
  ((Z.of_nat (length s) <= maxLen)%Z -> Utils.truncate s maxLen = s)
  /\ ((3 <= maxLen < Z.of_nat (length s))%Z ->
      Utils.truncate s maxLen = firstn (Z.to_nat (maxLen - 3)) s ++ lit "..."
      /\ Z.of_nat (length (Utils.truncate s maxLen)) = maxLen)
  /\ ((maxLen < 3)%Z -> (maxLen < Z.of_nat (length s))%Z ->
      (maxLen < Z.of_nat (length (Utils.truncate s maxLen)))%Z).
Proof.
  unfold Utils.truncate, Utils.slice0. split; [|split].
  - intros H. apply Z.leb_le in H. now rewrite H.
  - intros [H3 Hlt].
    assert (E : (Z.of_nat (length s) <=? maxLen)%Z = false) by (apply Z.leb_gt; lia).
    rewrite E.
    assert (E3 : (maxLen - 3 <? 0)%Z = false) by (apply Z.ltb_ge; lia).
    rewrite E3, Z.min_l by lia. split; [reflexivity|].
    rewrite length_app, length_firstn. cbn [length lit list_ascii_of_string]. lia.
  - intros H3 Hlt.
    assert (E : (Z.of_nat (length s) <=? maxLen)%Z = false) by (apply Z.leb_gt; lia).
    rewrite E.
    assert (E3 : (maxLen - 3 <? 0)%Z = true) by (apply Z.ltb_lt; lia).
    rewrite E3, length_app. cbn [length lit list_ascii_of_string]. lia.
Qed.

Section FlagTable.

Import Eve Flags.

Lemma obj_get_In {V} (key : str) (o : Obj V) (v : V) :
  obj_get key o = Some v -> In (key, v) o.
Proof.
  induction o as [|[k v'] o IH]; [discriminate|].
  simpl. destruct (str_eqb k key) eqn:E.
  - intros H. injection H as ->. apply str_eqb_eq in E. subst. now left.
  - intros H. right. now apply IH.
Qed.

Lemma small_index (i : N) :
  (i < 8)%N -> i = 0%N \/ i = 1%N \/ i = 2%N \/ i = 3%N \/ i = 4%N \/ i = 5%N
               \/ i = 6%N \/ i = 7%N.
Proof. lia. Qed.

End FlagTable.

(** X8.  The flag table decodes exactly what [slotToEsiFlag] encodes for
    the racks: a flag is a key of [ESI_FLAG_TO_SLOT] with the value slot
    type and index exactly when the slot type is one of high, mid, low, rig
    and subsystem, the index is below eight and the flag is the one that
    [slotToEsiFlag] gives them.  The flags of drones and cargo are no keys
    of the table. *)
Theorem flag_table_roundtrip (flag : str) (slotType : Eve.SlotType) (index : N) :
  (Flags.obj_get flag Flags.ESI_FLAG_TO_SLOT = Some (slotType, index)
   <-> Flags.has_rack slotType = true /\ (index < 8)%N
       /\ flag = Flags.slotToEsiFlag slotType index)
  /\ Flags.obj_get (Flags.slotToEsiFlag Eve.drone index) Flags.ESI_FLAG_TO_SLOT = None
  /\ Flags.obj_get (Flags.slotToEsiFlag Eve.cargo index) Flags.ESI_FLAG_TO_SLOT = None.
Proof.
  split; [|split; vm_compute; reflexivity].
  split.
  - intros H. apply obj_get_In in H. vm_compute in H.
    repeat (destruct H as [H|H];
            [injection H as <- <- <-; split; [reflexivity|split; [reflexivity|]];
             vm_compute; reflexivity|]).
    contradiction.
  - intros (Hr & Hi & ->).
    apply small_index in Hi.
    destruct slotType; try discriminate;
      repeat (destruct Hi as [->|Hi]; [vm_compute; reflexivity|]);
      subst; vm_compute; reflexivity.
Qed.
(** * More on the stats calculator *)

Section OfflineModules.

Import Eve Stats.

Lemma fitted_without_offline (slots : list (option FittedModule)) :
  fitted (map without_offline slots)
  = List.filter (fun m => negb (is_offline m)) (fitted slots).
Proof.
  unfold fitted. induction slots as [|[m|] slots IH]; cbn; [reflexivity| |exact IH].
  destruct (is_offline m); cbn; now rewrite IH.
Qed.

Lemma allFittedModules_strip (f : Fitting) :
  allFittedModules (strip_offline f)
  = List.filter (fun m => negb (is_offline m)) (allFittedModules f).
Proof.
  unfold allFittedModules, strip_offline.
  cbn [high_slots mid_slots low_slots rig_slots subsystem_slots].
  rewrite <- !map_app. apply fitted_without_offline.
Qed.

Lemma engineering_step_offline (acc : EngAcc) (m : FittedModule) :
  is_offline m = true -> engineering_step acc m = acc.
Proof. intros E. unfold engineering_step. now rewrite E. Qed.

Lemma engineering_skips_offline (l : list FittedModule) (acc : EngAcc) :
  fold_left engineering_step (List.filter (fun m => negb (is_offline m)) l) acc
  = fold_left engineering_step l acc.
Proof.
  revert acc. induction l as [|m l IH]; intros acc; [reflexivity|].
  cbn [List.filter fold_left]. destruct (is_offline m) eqn:E; cbn [negb fold_left].
  - rewrite (engineering_step_offline acc m E). apply IH.
  - apply IH.
Qed.

Lemma active_of_not_offline (l : list FittedModule) :
  List.filter is_active (List.filter (fun m => negb (is_offline m)) l)
  = List.filter is_active l.
Proof.
  induction l as [|m l IH]; [reflexivity|].
  cbn [List.filter].
  destruct (is_offline m) eqn:Eo; destruct (is_active m) eqn:Ea;
    cbn [negb List.filter]; rewrite ?Ea, ?IH; try reflexivity.
  unfold is_offline in Eo. unfold is_active in Ea. destruct (state m); discriminate.
Qed.

End OfflineModules.

(** X9.  An offline module counts as an empty slot: taking the offline
    modules out of their slots changes no field of the stats that
    [calculateShipStats] returns. *)
Theorem offline_module_is_empty_slot
        (num : Stats.Numerics) (shipType : Eve.EveType) (fitting : Eve.Fitting) :
  Stats.calculateShipStats num shipType (strip_offline fitting)
  = Stats.calculateShipStats num shipType fitting.
Proof.
  unfold Stats.calculateShipStats, Stats.calcEngineering, Stats.calcCapacitor,
    Stats.calcOffense, Stats.activeModules.
  rewrite allFittedModules_strip, engineering_skips_offline, active_of_not_offline.
  unfold strip_offline, Stats.length_Q.
  cbn [Eve.high_slots Eve.mid_slots Eve.low_slots Eve.rig_slots Eve.drones].
  rewrite !length_map. reflexivity.
Qed.

Section DroneBay.

Import Eve Stats.

Lemma engineering_no_drone (l : list FittedModule) (acc : EngAcc) :
  (forall m, In m l -> slot_type m <> drone) ->
  droneBandwidthUsed (fold_left engineering_step l acc) = droneBandwidthUsed acc
  /\ droneCapacityUsed (fold_left engineering_step l acc) = droneCapacityUsed acc.
Proof.
  revert acc. induction l as [|m l IH]; intros acc Hl; [split; reflexivity|].
  cbn [fold_left].
  destruct (IH (engineering_step acc m)) as [H1 H2].
  { intros m' Hm'. apply Hl. now right. }
  rewrite H1, H2. unfold engineering_step.
  destruct (is_offline m); [split; reflexivity|].
  assert (Hm : slot_type m <> drone) by (apply Hl; now left).
  destruct (slot_type m); try contradiction; split; reflexivity.
Qed.

End DroneBay.

(** X10.  The engineering pass reads the slot arrays only.  For a fitting
    whose slotted modules carry the slot type of a rack, the drone
    bandwidth used and the drone bay volume used are zero, whatever drones
    the fitting holds. *)
Theorem drone_bay_never_counted (shipType : Eve.EveType) (fitting : Eve.Fitting) :
  no_drone_in_racks fitting ->
  Eve.drone_bandwidth_used (Stats.calcEngineering shipType fitting) = 0%Q
  /\ Eve.drone_capacity_used (Stats.calcEngineering shipType fitting) = 0%Q.
Proof.
  intros H. unfold Stats.calcEngineering.
  cbn [Eve.drone_bandwidth_used Eve.drone_capacity_used].
  apply (engineering_no_drone (Stats.allFittedModules fitting)
                              (Stats.mkEngAcc 0 0 0 0 0) H).
Qed.

Lemma drone_bay_never_counted_witness :
  no_drone_in_racks drone_boat
  /\ length (Eve.drones drone_boat) = 5
  /\ Eve.drone_bandwidth_used (Stats.calcEngineering sample_ship drone_boat) = 0%Q
  /\ Eve.drone_capacity_used (Stats.calcEngineering sample_ship drone_boat) = 0%Q.
Proof.
  assert (H : no_drone_in_racks drone_boat).
  { intros m Hm. vm_compute in Hm. destruct Hm as [<-|[]]. discriminate. }
  split; [exact H|]. split; [reflexivity|].
  exact (drone_bay_never_counted sample_ship drone_boat H).
Defined.

Section Sensors.

Import Eve Stats.
Local Open Scope Q_scope.

Lemma gt_false_le (a b : Q) : gt a b = false -> a <= b.
Proof. unfold gt. intros H. apply negb_false_iff in H. now apply Qle_bool_iff. Qed.

Lemma gt_true_lt (a b : Q) : gt a b = true -> b < a.
Proof.
  unfold gt. intros H. apply negb_true_iff in H.
  apply Qnot_le_lt. intros H'. apply Qle_bool_iff in H'. congruence.
Qed.

Lemma strongest_of_four (r l m g : Q) :
  let best :=
    fold_left stronger [(Ladar, l); (Magnetometric, m); (Gravimetric, g)] (Radar, r) in
  snd best = match fst best with
             | Radar => r | Ladar => l | Magnetometric => m | Gravimetric => g
             end
  /\ r <= snd best /\ l <= snd best /\ m <= snd best /\ g <= snd best
  /\ (l <= r -> m <= r -> g <= r -> fst best = Radar)
  /\ (r < l -> m <= l -> g <= l -> fst best = Ladar).
Proof.
  cbn [fold_left]. unfold stronger. cbn [fst snd].
  destruct (gt l r) eqn:H1; cbn [fst snd];
    [apply gt_true_lt in H1|apply gt_false_le in H1];
    (destruct (gt m _) eqn:H2; cbn [fst snd];
     [apply gt_true_lt in H2|apply gt_false_le in H2]);
    (destruct (gt g _) eqn:H3; cbn [fst snd];
     [apply gt_true_lt in H3|apply gt_false_le in H3]);
    repeat split; try reflexivity; try lra; intros; exfalso; lra.
Qed.

End Sensors.


(** X12.  Effective hit points are never below the raw hit points and
    never fall when the average resonance falls: for hit points that are
    not negative and average resonances [0 < r1 <= r2], [calculateEHP] at
    [r2] is at least [hp] and at most [calculateEHP] at [r1]; at an average
    resonance of one or more it is [hp] itself. *)
Theorem calculateEHP_bounds (hp r1 r2 : Q) :
  (0 <= hp)%Q -> (0 < r1)%Q -> (r1 <= r2)%Q ->
  (hp <= Stats.calculateEHP hp r2)%Q
  /\ (Stats.calculateEHP hp r2 <= Stats.calculateEHP hp r1)%Q
  /\ ((1 <= r2)%Q -> Stats.calculateEHP hp r2 = hp).
Proof.
  intros Hhp Hr1 H12.
  assert (Hr2 : (0 < r2)%Q) by lra.
  unfold Stats.calculateEHP, Stats.ge.
  destruct (Qle_bool 1 r2) eqn:E2; destruct (Qle_bool 1 r1) eqn:E1;
    try (apply Qle_bool_iff in E1); try (apply Qle_bool_iff in E2);
    try (assert (Hlt1 : (r1 < 1)%Q)
           by (apply Qnot_le_lt; intros H; apply Qle_bool_iff in H; congruence));
    try (assert (Hlt2 : (r2 < 1)%Q)
           by (apply Qnot_le_lt; intros H; apply Qle_bool_iff in H; congruence)).
  - repeat split; try apply Qle_refl.
  - repeat split; try apply Qle_refl.
    apply Qle_shift_div_l; [exact Hr1|]. nra.
  - lra.
  - split; [|split].
    + apply Qle_shift_div_l; [exact Hr2|]. nra.
    + apply Qle_shift_div_l; [exact Hr1|].
      unfold Qdiv. rewrite <- Qmult_assoc, (Qmult_comm (/ r2)), Qmult_assoc.
      apply Qle_shift_div_r; [exact Hr2|]. nra.
    + intros H. lra.
Qed.

Lemma calculateEHP_bounds_witness :
  (0 <= 1000)%Q /\ (0 < 1 # 4)%Q /\ (1 # 4 <= 1 # 2)%Q
  /\ (1000 <= Stats.calculateEHP 1000 (1 # 2))%Q
  /\ (Stats.calculateEHP 1000 (1 # 2) <= Stats.calculateEHP 1000 (1 # 4))%Q
  /\ ((1 <= 1 # 2)%Q -> Stats.calculateEHP 1000 (1 # 2) = 1000%Q).
Proof.
  split; [discriminate|]. split; [reflexivity|]. split; [discriminate|].
  apply (calculateEHP_bounds 1000 (1 # 4) (1 # 2)); [discriminate|reflexivity|discriminate].
Defined.

(** The derived fields of a snapshot agree with the fields they are
    derived from, both as [calculateShipStats] returns it and after
    [applySkillBonuses], whatever snapshot the bonuses are applied to:
    remaining CPU and power grid are total minus used, the peak recharge
    follows from capacity and recharge time, the effective hit points of
    each layer from its hit points and resistance profile, the total from
    the three layers, and the align time from mass and inertia. *)
Theorem derived_fields_coherent
        (num : Stats.Numerics) (shipType : Eve.EveType) (fitting : Eve.Fitting)
        (stats : Eve.ShipStats) (skills : gmap Z Q) :
  coherent num (Stats.calculateShipStats num shipType fitting)
  /\ coherent num (skilled num stats skills).
Proof. split; repeat split. Qed.
(** * More on the skill bonuses *)

Section Untrained.

Import Eve Skills.
Local Open Scope Q_scope.

Lemma bonus_zero_up (base l : Q) : l == 0 -> base * (1 + 0.05 * l) - base == 0.
Proof. intros H. rewrite H. ring. Qed.

Lemma bonus_zero_down (base l : Q) : l == 0 -> base * (1 - 0.05 * l) - base == 0.
Proof. intros H. rewrite H. ring. Qed.

Lemma align_zero (num : Stats.Numerics) (mass base l : Q) :
  l == 0 ->
  Stats.calculateAlignTime num mass (base * (1 - 0.05 * l))
  - Stats.calculateAlignTime num mass base == 0.
Proof. intros H. unfold Stats.calculateAlignTime. rewrite H. field. Qed.

End Untrained.

(** X13.  Without trained support skills the bonuses change nothing: when
    every support skill is at level zero or missing from the map, all
    thirteen deltas that [applySkillBonuses] returns are zero. *)
Theorem untrained_deltas_zero
        (num : Stats.Numerics) (stats : Eve.ShipStats) (skills : gmap Z Q) :
  untrained skills ->
  Forall (fun entry => (snd entry == 0)%Q) (Skills.entries (deltas num stats skills)).
Proof.
  intros H.
  assert (Hl : forall id, In id SUPPORT_SKILL_IDS.values -> (Skills.lvl skills id == 0)%Q)
    by exact H.
  unfold deltas, Skills.applySkillBonuses, Skills.entries, Skills.bonus_layer.
  cbn [snd fst Eve.d_cpu_total Eve.d_pg_total Eve.d_cap_capacity Eve.d_cap_recharge
       Eve.d_shield_hp Eve.d_armor_hp Eve.d_hull_hp Eve.d_max_velocity
       Eve.d_inertia_modifier Eve.d_align_time Eve.d_max_targets
       Eve.d_max_target_range Eve.d_scan_resolution
       Eve.cpu_total Eve.pg_total Eve.capacity Eve.recharge_rate Eve.hp
       Eve.max_velocity Eve.inertia_modifier Eve.align_time Eve.mass Eve.max_targets
       Eve.max_target_range Eve.scan_resolution Eve.engineering Eve.capacitor
       Eve.shield Eve.armor Eve.hull Eve.navigation Eve.targeting].
  repeat constructor; cbn [snd];
    try (apply bonus_zero_up; apply Hl; vm_compute; tauto);
    try (apply bonus_zero_down; apply Hl; vm_compute; tauto);
    try (apply align_zero; apply Hl; vm_compute; tauto).
  rewrite (Hl SUPPORT_SKILL_IDS.TARGET_MANAGEMENT) by (vm_compute; tauto). ring.
Qed.

Lemma untrained_deltas_zero_witness :
  untrained ∅
  /\ Forall (fun entry => (snd entry == 0)%Q)
            (Skills.entries (deltas sample_numerics sample_stats ∅)).
Proof.
  assert (H : untrained ∅) by (intros id _; reflexivity).
  split; [exact H|].
  exact (untrained_deltas_zero sample_numerics sample_stats ∅ H).
Defined.

Section AllFive.

Import Eve Skills.
Local Open Scope Q_scope.

Lemma allV_level (id : Z) :
  In id SUPPORT_SKILL_IDS.values -> lvl allLevelVSkillMap id = 5.
Proof.
  intros H. vm_compute in H.
  repeat (destruct H as [<-|H]; [vm_compute; reflexivity|]). contradiction.
Qed.

End AllFive.


Section EsiSkills.

Import Eve SkillTools.

Lemma find_app_first {A} (f : A -> bool) (l1 l2 : list A) :
  List.find f (l1 ++ l2)
  = match List.find f l1 with Some x => Some x | None => List.find f l2 end.
Proof.
  induction l1 as [|a l1 IH]; [reflexivity|].
  simpl. destruct (f a); [reflexivity|exact IH].
Qed.

Lemma last_level_cons (id : Z) (s : EsiSkill) (l : list EsiSkill) :
  last_level id (s :: l)
  = match last_level id l with
    | Some v => Some v
    | None => if Z.eqb (skill_id s) id then Some (active_skill_level s) else None
    end.
Proof.
  unfold last_level. cbn [rev]. rewrite find_app_first.
  destruct (List.find _ (rev l)); [reflexivity|].
  cbn [List.find]. now destruct (Z.eqb (skill_id s) id).
Qed.

Lemma esiSkills_fold (l : list EsiSkill) (m : gmap Z Q) (id : Z) :
  fold_left
    (fun (m : gmap Z Q) s =>
       if is_support (skill_id s) then <[skill_id s := active_skill_level s]> m else m)
    l m !! id
  = match (if is_support id then last_level id l else None) with
    | Some v => Some v
    | None => m !! id
    end.
Proof.
  revert m. induction l as [|s l IH]; intros m.
  - cbn [fold_left]. unfold last_level. cbn [rev List.find option_map].
    now destruct (is_support id).
  - cbn [fold_left]. rewrite IH, last_level_cons.
    destruct (is_support id) eqn:Eid.
    + destruct (last_level id l); [reflexivity|].
      destruct (Z.eqb (skill_id s) id) eqn:E.
      * apply Z.eqb_eq in E. rewrite E, Eid. apply lookup_insert_eq.
      * apply Z.eqb_neq in E.
        destruct (is_support (skill_id s)); [|reflexivity].
        now apply lookup_insert_ne.
    + destruct (is_support (skill_id s)) eqn:Es; [|reflexivity].
      apply lookup_insert_ne. intros E. congruence.
Qed.

End EsiSkills.

(** X15.  [esiSkillsToMap] keeps the support skills of the response and
    nothing else: the map holds a level for a skill exactly when the skill
    is one of the twelve support skills and occurs in the response, and
    the level is the one of its last occurrence. *)
Theorem esiSkillsToMap_lookup (esiSkills : list SkillTools.EsiSkill) (id : Z) :
  SkillTools.esiSkillsToMap esiSkills !! id
  = if SkillTools.is_support id then last_level id esiSkills else None.
Proof.
  unfold SkillTools.esiSkillsToMap. rewrite esiSkills_fold.
  destruct (if SkillTools.is_support id then last_level id esiSkills else None);
    [reflexivity|apply lookup_empty].
Qed.
(** * What the module and drone actions commit *)

Section Edits.

Import Eve Store.

Variable num : Stats.Numerics.

Lemma key_type_of (st : SlotType) (key : SlotArrayKey) :
  getSlotArrayKey st = Some key -> key_type key = st.
Proof. destruct st; simpl; intros H; try discriminate; now injection H as <-. Qed.

Lemma slot_at_lookup (slots : list (option FittedModule)) (index : Z) (m : FittedModule) :
  slot_at slots index = Some m ->
  (0 <= index)%Z /\ slots !! Z.to_nat index = Some (Some m).
Proof.
  unfold slot_at. destruct (index <? 0)%Z eqn:E; [discriminate|].
  apply Z.ltb_ge in E.
  destruct (slots !! Z.to_nat index) as [[m'|]|]; try discriminate.
  intros H. injection H as ->. auto.
Qed.

Lemma in_range (index : Z) {A} (slots : list A) :
  out_of_range index slots = false ->
  (0 <= index)%Z /\ Z.to_nat index < length slots.
Proof.
  unfold out_of_range. intros H. apply orb_false_iff in H as [H1 H2].
  apply Z.ltb_ge in H1. apply Z.leb_gt in H2. lia.
Qed.

Lemma fill_loop_store (md : ModuleData) (st : SlotType) (limited : bool)
      (used : nat) (limit : Q) (slots : list (option FittedModule))
      (i filled : nat) (w : World) :
  store (snd (fill_loop md st limited used limit slots i filled w)) = store w.
Proof.
  revert i filled w. induction slots as [|s slots IH]; intros i filled w.
  - reflexivity.
  - destruct s as [m0|]; cbn [fill_loop].
    + specialize (IH (S i) filled w).
      destruct (fill_loop md st limited used limit slots (S i) filled w) as [[? ?] ?].
      exact IH.
    + destruct (limited && _); [reflexivity|].
      destruct (generateId w) as [id w1] eqn:Eg.
      specialize (IH (S i) (S filled) w1).
      destruct (fill_loop md st limited used limit slots (S i) (S filled) w1)
        as [[? ?] ?].
      cbn [snd] in *. rewrite IH.
      change w1 with (snd (id, w1)). rewrite <- Eg. apply generateId_store.
Qed.

(** A call other than an import returns the world it was given, or
    commits an edit of the current fitting. *)
Lemma run_edit (w : World) (c : Call) :
  is_import c = false ->
  run num w c = w
  \/ exists f ship w1 updated,
       fitting (store w) = Some f /\ shipType (store w) = Some ship
       /\ store w1 = store w
       /\ run num w c = commit num ship updated w1
       /\ edit f updated.
Proof.
  destruct c as [now st index md|now st md|now st index|now st index|now st index c
                 |now md|now index|f0 ship0]; cbn [run is_import]; intros Hi;
    try discriminate.
  - (* addModule *)
    unfold addModule.
    destruct (fitting (store w)) as [f|] eqn:Ef; [|now left].
    destruct (shipType (store w)) as [ship|] eqn:Es; [|now left].
    destruct (getSlotArrayKey st) as [key|] eqn:Ek; [|now left].
    unfold cloneFitting.
    destruct (out_of_range index (get_slots key f)) eqn:Er; [now left|].
    destruct (in_range index _ Er) as [H0 Hlt].
    destruct (generateId w) as [id w1] eqn:Eg.
    right. exists f, ship, w1. eexists.
    split; [reflexivity|]. split; [reflexivity|].
    split; [change w1 with (snd (id, w1)); rewrite <- Eg; apply generateId_store|].
    split; [reflexivity|].
    apply edit_slot; [exact Hlt|].
    rewrite <- (key_type_of st key Ek).
    rewrite <- (Z2Nat.id index H0) at 2. apply write_place.
  - (* fillSlots *)
    unfold fillSlots.
    destruct (fitting (store w)) as [f|] eqn:Ef; [|now left].
    destruct (shipType (store w)) as [ship|] eqn:Es; [|now left].
    destruct (stats (store w)) as [s|]; [|now left].
    destruct (getSlotArrayKey st) as [key|] eqn:Ek; [|now left].
    unfold cloneFitting.
    match goal with
    | |- context [fill_loop ?a ?b ?c ?d ?e ?g ?h ?i ?j] =>
        pose proof (fill_loop_store a b c d e g h i j) as Hst;
        pose proof (edit_fill f key a c d e i j now) as He;
        rewrite (key_type_of st key Ek) in He;
        destruct (fill_loop a b c d e g h i j) as [[slots' filled] w'] eqn:E
    end.
    destruct filled as [|n]; [now left|].
    right. exists f, ship, w'. eexists.
    split; [reflexivity|]. split; [reflexivity|]. split; [exact Hst|].
    split; [reflexivity|]. exact He.
  - (* removeModule *)
    unfold removeModule.
    destruct (fitting (store w)) as [f|] eqn:Ef; [|now left].
    destruct (shipType (store w)) as [ship|] eqn:Es; [|now left].
    destruct (getSlotArrayKey st) as [key|] eqn:Ek; [|now left].
    unfold cloneFitting.
    destruct (out_of_range index (get_slots key f)) eqn:Er; [now left|].
    destruct (in_range index _ Er) as [H0 Hlt].
    right. exists f, ship, w. eexists.
    repeat (split; [reflexivity|]).
    apply edit_slot; [exact Hlt|apply write_empty].
  - (* toggleModuleState *)
    unfold toggleModuleState.
    destruct (fitting (store w)) as [f|] eqn:Ef; [|now left].
    destruct (shipType (store w)) as [ship|] eqn:Es; [|now left].
    destruct (getSlotArrayKey st) as [key|] eqn:Ek; [|now left].
    unfold cloneFitting.
    destruct (slot_at (get_slots key f) index) as [m|] eqn:Em; [|now left].
    destruct (slot_at_lookup _ _ _ Em) as [H0 Hl].
    right. exists f, ship, w. eexists.
    repeat (split; [reflexivity|]).
    apply edit_slot; [now apply lookup_lt_Some in Hl|now apply write_state].
  - (* setModuleCharge *)
    unfold setModuleCharge.
    destruct (fitting (store w)) as [f|] eqn:Ef; [|now left].
    destruct (shipType (store w)) as [ship|] eqn:Es; [|now left].
    destruct (getSlotArrayKey st) as [key|] eqn:Ek; [|now left].
    unfold cloneFitting.
    destruct (slot_at (get_slots key f) index) as [m|] eqn:Em; [|now left].
    destruct (slot_at_lookup _ _ _ Em) as [H0 Hl].
    right. exists f, ship, w. eexists.
    repeat (split; [reflexivity|]).
    apply edit_slot; [now apply lookup_lt_Some in Hl|now apply write_charge].
  - (* addDrone *)
    unfold addDrone.
    destruct (fitting (store w)) as [f|] eqn:Ef; [|now left].
    destruct (shipType (store w)) as [ship|] eqn:Es; [|now left].
    unfold cloneFitting.
    destruct (generateId w) as [id w1] eqn:Eg.
    right. exists f, ship, w1. eexists.
    split; [reflexivity|]. split; [reflexivity|].
    split; [change w1 with (snd (id, w1)); rewrite <- Eg; apply generateId_store|].
    split; [reflexivity|]. apply edit_add_drone.
  - (* removeDrone *)
    unfold removeDrone.
    destruct (fitting (store w)) as [f|] eqn:Ef; [|now left].
    destruct (shipType (store w)) as [ship|] eqn:Es; [|now left].
    unfold cloneFitting.
    right. exists f, ship, w. eexists.
    repeat (split; [reflexivity|]). apply edit_remove_drone.
Qed.

End Edits.
(** * The stats of the store follow its fitting *)

Section InSync.

Import Eve Store StoreMore.

Variable num : Stats.Numerics.

Lemma commit_in_sync (ship : EveType) (updated : Fitting) (w : World) :
  shipType (store w) = Some ship -> in_sync num (commit num ship updated w).
Proof.
  intros Hs. unfold in_sync, commit.
  destruct (computeStatsWithSkills num ship updated (skillMode (store w))
                                   (skillMap (store w))) as [stats' deltas'] eqn:E.
  cbn [store fitting shipType stats skillDeltas skillMode skillMap].
  rewrite Hs, E. split; reflexivity.
Qed.

Lemma run_in_sync (w : World) (c : Call) : in_sync num w -> in_sync num (run num w c).
Proof.
  intros Hw. destruct (is_import c) eqn:Ei.
  - destruct c; try discriminate. cbn [run]. unfold in_sync, importFitting.
    destruct (computeStatsWithSkills num shipType0 f (skillMode (store w))
                                     (skillMap (store w))) as [stats' deltas'] eqn:E.
    cbn [store fitting shipType stats skillDeltas skillMode skillMap].
    rewrite E. split; reflexivity.
  - destruct (run_edit num w c Ei) as [->|(f & ship & w1 & updated & Hf & Hs & Hw1 & -> & _)];
      [exact Hw|].
    apply commit_in_sync. now rewrite Hw1.
Qed.

(** The stats do not read the name, the description or the time stamp. *)
Lemma compute_with_meta (ship : EveType) (f : Fitting) (name : str) (desc : option str)
      (now : str) (mode : SkillMode) (map_ : option (gmap Z Q)) :
  computeStatsWithSkills num ship (with_meta name desc now f) mode map_
  = computeStatsWithSkills num ship f mode map_.
Proof. reflexivity. Qed.

Lemma set_fitting_in_sync (w : World) (f : Fitting) (name : str) (desc : option str)
      (now : str) :
  fitting (store w) = Some f -> in_sync num w ->
  in_sync num (set_fitting_dirty (with_meta name desc now f) w).
Proof.
  unfold in_sync, set_fitting_dirty, with_store.
  cbn [store fitting shipType stats skillDeltas skillMode skillMap].
  intros Hf. rewrite Hf.
  destruct (shipType (store w)) as [ship|]; [|tauto].
  now rewrite compute_with_meta.
Qed.

Lemma reskill_in_sync (mode : SkillMode) (map_ : option (gmap Z Q)) (w : World) :
  in_sync num w -> in_sync num (reskill num mode map_ true w)
  /\ (skillDeltas (store w) = None \/ fitting (store w) <> None ->
      in_sync num (reskill num mode map_ false w)).
Proof.
  unfold in_sync, reskill, with_store.
  destruct (fitting (store w)) as [f|] eqn:Ef;
    destruct (shipType (store w)) as [ship|] eqn:Es; try contradiction.
  - intros _.
    destruct (computeStatsWithSkills num ship f mode map_) as [stats' deltas'] eqn:E.
    cbn [store fitting shipType stats skillDeltas skillMode skillMap].
    rewrite ?Ef, ?Es, ?E. repeat split.
  - cbv zeta. cbn [store fitting shipType stats skillDeltas skillMode skillMap].
    rewrite ?Ef, ?Es. intros [H1 H2]. split; [auto|].
    intros [H|H]; [auto|contradiction].
Qed.

Lemma step_in_sync (w : World) (a : Action) : in_sync num w -> in_sync num (step num w a).
Proof.
  intros Hw. destruct a; cbn [step].
  - (* setShip *)
    unfold in_sync, setShip. destruct (generateId w) as [id w1].
    match goal with
    | |- context [computeStatsWithSkills ?n ?s ?f ?m ?k] =>
        destruct (computeStatsWithSkills n s f m k) as [stats' deltas'] eqn:E
    end.
    cbn [store fitting shipType stats skillDeltas skillMode skillMap].
    rewrite E. split; reflexivity.
  - (* clearShip *)
    unfold in_sync, clearShip, with_store. cbn. auto.
  - (* setFitName *)
    unfold setFitName, cloneFitting.
    destruct (fitting (store w)) as [f|] eqn:Ef; [|exact Hw].
    now apply set_fitting_in_sync.
  - (* setDescription *)
    unfold setDescription, cloneFitting.
    destruct (fitting (store w)) as [f|] eqn:Ef; [|exact Hw].
    now apply set_fitting_in_sync.
  - now apply run_in_sync.
  - exact Hw.
  - exact Hw.
  - unfold openModuleSearch. destruct slotType, index; exact Hw.
  - exact Hw.
  - exact Hw.
  - exact Hw.
  - (* setSkillMode *)
    unfold setSkillMode. now apply reskill_in_sync.
  - (* setMySkills *)
    unfold setMySkills. apply reskill_in_sync; [exact Hw|].
    unfold in_sync in Hw.
    destruct (fitting (store w)); [right; discriminate|].
    destruct (shipType (store w)); [contradiction|]. left. apply Hw.
  - (* recomputeStats *)
    unfold recomputeStats.
    destruct (fitting (store w)) as [f|] eqn:Ef; [|exact Hw].
    destruct (shipType (store w)) as [ship|] eqn:Es; [|exact Hw].
    apply reskill_in_sync; [exact Hw|]. right. rewrite Ef. discriminate.
Qed.

End InSync.

(** X16.  The stats and the skill deltas shown are always those of the
    current fitting: after any sequence of actions of the store (the
    persistence actions apart), starting from the initial store, the
    stored stats and deltas are what [computeStatsWithSkills] returns for
    the stored fitting, ship, skill mode and skill map; without a fitting
    there is no ship and there are no stats or deltas. *)
Theorem stats_always_in_sync
        (num : Stats.Numerics) (mode : Eve.SkillMode) (actions : list Action) :
  in_sync num (fold_left (step num) actions (Store.initial mode)).
Proof.
  assert (H : forall w, in_sync num w -> in_sync num (fold_left (step num) actions w)).
  { induction actions as [|a actions IH]; intros w Hw; [exact Hw|].
    cbn [fold_left]. apply IH. now apply step_in_sync. }
  apply H. unfold in_sync, Store.initial. cbn. auto.
Qed.
(** * The racks keep their length, the modules their place *)

Section Shape.

Import Eve Store StoreMore.

Variable num : Stats.Numerics.

Lemma get_with_slots_other (key key' : SlotArrayKey) (slots : list (option FittedModule))
      (now : str) (f : Fitting) :
  key <> key' -> get_slots key (with_slots key' slots now f) = get_slots key f.
Proof. destruct key, key'; intros H; try reflexivity; contradiction. Qed.

Lemma key_eq_dec (key key' : SlotArrayKey) : key = key' \/ key <> key'.
Proof. destruct key, key'; (now left) || (right; discriminate). Qed.

Lemma edit_lengths (f u : Fitting) (key : SlotArrayKey) :
  edit f u -> length (get_slots key u) = length (get_slots key f).
Proof.
  intros [key' i x now Hi Hx|key' md limited used limit filled w now|md id now|index now].
  - destruct (key_eq_dec key key') as [->|Hne].
    + rewrite get_with_slots. apply length_insert.
    + now rewrite get_with_slots_other.
  - destruct (key_eq_dec key key') as [->|Hne].
    + rewrite get_with_slots. apply fill_loop_count.
    + now rewrite get_with_slots_other.
  - destruct key; reflexivity.
  - destruct key; reflexivity.
Qed.

Lemma rack_of_step_edit (w : World) (c : Call) (key : SlotArrayKey) :
  is_import c = false ->
  length (rack_of key (run num w c)) = length (rack_of key w).
Proof.
  intros Hi.
  destruct (run_edit num w c Hi) as [->|(f & ship & w1 & updated & Hf & Hs & Hw1 & -> & He)];
    [reflexivity|].
  unfold rack_of. rewrite commit_fitting, Hf. now apply edit_lengths.
Qed.

Lemma rack_of_meta (w : World) (f : Fitting) (name : str) (desc : option str) (now : str)
      (key : SlotArrayKey) :
  fitting (store w) = Some f ->
  rack_of key (set_fitting_dirty (with_meta name desc now f) w) = rack_of key w.
Proof. intros Hf. unfold rack_of. cbn. rewrite Hf. now destruct key. Qed.

Lemma rack_of_reskill (mode : SkillMode) (map_ : option (gmap Z Q)) (b : bool)
      (w : World) (key : SlotArrayKey) :
  rack_of key (reskill num mode map_ b w) = rack_of key w.
Proof.
  unfold rack_of, reskill.
  destruct (fitting (store w)) as [f|] eqn:Ef;
    destruct (shipType (store w)) as [ship|] eqn:Es;
    try destruct (computeStatsWithSkills num ship f mode map_);
    cbn; rewrite ?Ef; reflexivity.
Qed.

Lemma step_rack_length (w : World) (a : Action) (key : SlotArrayKey) :
  replaces_fitting a = false ->
  length (rack_of key (step num w a)) = length (rack_of key w).
Proof.
  destruct a; cbn [step replaces_fitting]; intros Hr; try discriminate;
    try reflexivity.
  - unfold setFitName, cloneFitting.
    destruct (fitting (store w)) as [f|] eqn:Ef; [|reflexivity].
    now rewrite rack_of_meta.
  - unfold setDescription, cloneFitting.
    destruct (fitting (store w)) as [f|] eqn:Ef; [|reflexivity].
    now rewrite rack_of_meta.
  - apply rack_of_step_edit. now destruct c.
  - unfold openModuleSearch. now destruct slotType, index.
  - unfold setSkillMode. now rewrite rack_of_reskill.
  - unfold setMySkills. now rewrite rack_of_reskill.
  - unfold recomputeStats.
    destruct (fitting (store w)); [|reflexivity].
    destruct (shipType (store w)); [|reflexivity].
    now rewrite rack_of_reskill.
Qed.

End Shape.


(** * Every module knows its place *)

Section Placed.

Import Eve Store StoreMore.

Variable num : Stats.Numerics.

(** The filling loop leaves a module where it was, or places a new one
    at its position. *)
Lemma fill_loop_placed (md : ModuleData) (st : SlotType) (limited : bool)
      (used : nat) (limit : Q) (slots : list (option FittedModule))
      (i filled : nat) (w : World) (j : nat) (m : FittedModule) :
  fst (fst (fill_loop md st limited used limit slots i filled w)) !! j = Some (Some m) ->
  slots !! j = Some (Some m)
  \/ (slot_type m = st /\ slot_index m = Z.of_nat (i + j)).
Proof.
  revert i filled w j. induction slots as [|s slots IH]; intros i filled w j Hj.
  - discriminate.
  - destruct s as [m0|]; cbn [fill_loop] in Hj.
    + specialize (IH (S i) filled w).
      destruct (fill_loop md st limited used limit slots (S i) filled w)
        as [[rest' filled'] w'].
      cbn [fst] in *. destruct j as [|j]; [now left|].
      destruct (IH j Hj) as [H|[H1 H2]]; [now left|].
      right. split; [exact H1|]. rewrite H2. f_equal. lia.
    + destruct (limited && _); [now left|].
      destruct (generateId w) as [id w1].
      specialize (IH (S i) (S filled) w1).
      destruct (fill_loop md st limited used limit slots (S i) (S filled) w1)
        as [[rest' filled'] w'].
      cbn [fst] in *. destruct j as [|j].
      * right. injection Hj as <-. cbn. split; [reflexivity|]. f_equal. lia.
      * destruct (IH j Hj) as [H|[H1 H2]]; [now left|].
        right. split; [exact H1|]. rewrite H2. f_equal. lia.
Qed.

Lemma slot_write_placed (key : SlotArrayKey) (rack : list (option FittedModule))
      (i : nat) (m : FittedModule) :
  rack_placed (key_type key) rack ->
  slot_write key rack i (Some m) ->
  slot_type m = key_type key /\ slot_index m = Z.of_nat i.
Proof.
  intros Hr Hw. inversion Hw as [|i' md id|i' m0 s H0|i' m0 c H0]; subst.
  - split; reflexivity.
  - apply (Hr i m0 H0).
  - apply (Hr i m0 H0).
Qed.

Lemma reindex_lookup (ds : list FittedModule) (j : nat) (d : FittedModule) :
  reindex ds !! j = Some d ->
  exists d0, ds !! j = Some d0 /\ d = with_index (Z.of_nat j) d0.
Proof.
  unfold reindex.
  assert (H : forall k j, map (fun p => with_index (Z.of_nat (fst p)) (snd p))
                              (combine (seq k (length ds)) ds) !! j = Some d ->
                          exists d0, ds !! j = Some d0
                                     /\ d = with_index (Z.of_nat (k + j)) d0).
  { clear j. induction ds as [|a ds IH]; intros k j Hj; [discriminate|].
    destruct j as [|j]; cbn in Hj.
    - injection Hj as <-. exists a. split; [reflexivity|]. f_equal. f_equal. lia.
    - destruct (IH (S k) j Hj) as (d0 & H0 & ->).
      exists d0. split; [exact H0|]. f_equal. f_equal. lia. }
  intros Hj. destruct (H 0 j Hj) as (d0 & H0 & ->). now exists d0.
Qed.

Lemma splice1_In {A} (index : Z) (l : list A) (x : A) : In x (splice1 index l) -> In x l.
Proof.
  unfold splice1. intros H. apply in_app_or in H as [H|H].
  - rewrite <- list_elem_of_In in *. apply elem_of_take in H as (i & Hi & _).
    now apply list_elem_of_lookup_2 in Hi.
  - rewrite <- list_elem_of_In in *. apply list_elem_of_lookup_1 in H as (i & Hi).
    rewrite lookup_drop in Hi. now apply list_elem_of_lookup_2 in Hi.
Qed.

Lemma edit_placed (f u : Fitting) : edit f u -> well_placed f -> well_placed u.
Proof.
  intros He [Hracks Hbay].
  destruct He as [key' i x now Hi Hx|key' md limited used limit filled w now
                  |md id now|index now].
  - split; [|exact Hbay]. intros key.
    destruct (key_eq_dec key key') as [->|Hne].
    + rewrite get_with_slots. intros j m Hj.
      apply list_lookup_insert_Some in Hj as [(<- & -> & _)|(_ & Hj)].
      * now apply (slot_write_placed key' (get_slots key' f)).
      * now apply (Hracks key').
    + rewrite get_with_slots_other by assumption. apply Hracks.
  - split; [|exact Hbay]. intros key.
    destruct (key_eq_dec key key') as [->|Hne].
    + rewrite get_with_slots. intros j m Hj.
      apply fill_loop_placed in Hj as [Hj|Hj]; [now apply (Hracks key')|exact Hj].
    + rewrite get_with_slots_other by assumption. apply Hracks.
  - split; [intros key; destruct key; apply Hracks|].
    cbn [with_drones drones]. intros j d Hj.
    apply lookup_app_Some in Hj as [Hj|[Hge Hj]]; [now apply Hbay|].
    destruct (j - length (drones f)) as [|k] eqn:Ek; [|discriminate].
    injection Hj as <-. cbn. split; [reflexivity|]. f_equal. lia.
  - split; [intros key; destruct key; apply Hracks|].
    cbn [with_drones drones]. intros j d Hj.
    apply reindex_lookup in Hj as (d0 & H0 & ->). cbn. split; [|reflexivity].
    apply list_elem_of_lookup_2, list_elem_of_In, splice1_In in H0.
    apply list_elem_of_In, list_elem_of_lookup_1 in H0 as (k & Hk).
    now apply (Hbay k d0).
Qed.

Lemma placed_commit (ship : EveType) (updated : Fitting) (w : World) :
  well_placed updated -> placed_invariant (commit num ship updated w).
Proof. intros H. unfold placed_invariant. now rewrite commit_fitting. Qed.

Lemma repeat_None_lookup (n j : nat) (m : FittedModule) :
  repeat (@None FittedModule) n !! j = Some (Some m) -> False.
Proof.
  intros H. apply list_elem_of_lookup_2, list_elem_of_In, repeat_spec in H. discriminate.
Qed.

Lemma step_placed (w : World) (a : Action) :
  places_well a -> placed_invariant w -> placed_invariant (step num w a).
Proof.
  intros Ha Hw. destruct a; cbn [step].
  - (* setShip *)
    unfold placed_invariant, setShip. destruct (generateId w) as [id w1].
    match goal with
    | |- context [computeStatsWithSkills ?n ?s ?f ?m ?k] =>
        destruct (computeStatsWithSkills n s f m k)
    end.
    cbn [store fitting].
    destruct slotCounts as [[h mi l r [[|n]|]]|];
      (split; [|intros j d Hj; cbn in Hj; discriminate]);
      intros key j m Hj; exfalso; destruct key;
      cbn [get_slots createEmptyFitting createEmptySlots high_slots mid_slots
           low_slots rig_slots subsystem_slots default highSlots midSlots lowSlots
           rigSlots subsystemSlots] in Hj;
      first [discriminate | now apply repeat_None_lookup in Hj].
  - exact I.
  - unfold setFitName, cloneFitting.
    destruct (fitting (store w)) as [f|] eqn:Ef; [|exact Hw].
    unfold placed_invariant in *. rewrite Ef in Hw. cbn.
    destruct Hw as [Hr Hb]. split; [intros key; destruct key; apply Hr|exact Hb].
  - unfold setDescription, cloneFitting.
    destruct (fitting (store w)) as [f|] eqn:Ef; [|exact Hw].
    unfold placed_invariant in *. rewrite Ef in Hw. cbn.
    destruct Hw as [Hr Hb]. split; [intros key; destruct key; apply Hr|exact Hb].
  - destruct (is_import c) eqn:Ei.
    + destruct c; try discriminate. cbn [run places_well] in *.
      unfold placed_invariant, importFitting.
      destruct (computeStatsWithSkills num shipType0 f _ _). exact Ha.
    + destruct (run_edit num w c Ei)
        as [->|(f & ship & w1 & updated & Hf & Hs & Hw1 & -> & He)]; [exact Hw|].
      apply placed_commit. apply (edit_placed f updated He).
      unfold placed_invariant in Hw. now rewrite Hf in Hw.
  - exact Hw.
  - exact Hw.
  - unfold openModuleSearch. destruct slotType, index; exact Hw.
  - exact Hw.
  - exact Hw.
  - exact Hw.
  - unfold placed_invariant, setSkillMode, reskill in *.
    destruct (fitting (store w)) as [f|] eqn:Ef;
      destruct (shipType (store w)) as [ship|] eqn:Es;
      try destruct (computeStatsWithSkills num ship f _ _);
      cbn; rewrite ?Ef; exact Hw.
  - unfold placed_invariant, setMySkills, reskill in *.
    destruct (fitting (store w)) as [f|] eqn:Ef;
      destruct (shipType (store w)) as [ship|] eqn:Es;
      try destruct (computeStatsWithSkills num ship f _ _);
      cbn; rewrite ?Ef; exact Hw.
  - unfold placed_invariant, recomputeStats, reskill in *.
    destruct (fitting (store w)) as [f|] eqn:Ef;
      destruct (shipType (store w)) as [ship|] eqn:Es;
      try destruct (computeStatsWithSkills num ship f _ _);
      cbn; rewrite ?Ef; exact Hw.
Qed.

Lemma placed_fold (actions : list Action) (w : World) :
  Forall places_well actions -> placed_invariant w ->
  placed_invariant (fold_left (step num) actions w).
Proof.
  intros Hall. revert w.
  induction Hall as [|a actions Ha Hall IH]; intros w Hw; [exact Hw|].
  cbn [fold_left]. apply IH. now apply step_placed.
Qed.

End Placed.


(** * How the actions compose *)

Section Compose.

Import Eve Store.

Variable num : Stats.Numerics.

Lemma commit_shipType (ship : EveType) (updated : Fitting) (w : World) :
  shipType (store (commit num ship updated w)) = shipType (store w).
Proof. unfold commit. destruct (computeStatsWithSkills num ship updated _ _). reflexivity. Qed.

Lemma with_state_same (m : FittedModule) : with_state (state m) m = m.
Proof. now destruct m. Qed.

Lemma with_state_twice (s s' : ModuleState) (m : FittedModule) :
  with_state s (with_state s' m) = with_state s m.
Proof. reflexivity. Qed.

Lemma next_state_cycle (s : ModuleState) : next_state (next_state (next_state s)) = s.
Proof. now destruct s. Qed.

Lemma with_slots_twice (key : SlotArrayKey) (s1 s2 : list (option FittedModule))
      (now1 now2 : str) (f : Fitting) :
  with_slots key s2 now2 (with_slots key s1 now1 f) = with_slots key s2 now2 f.
Proof. now destruct key. Qed.

Lemma slot_at_insert (slots : list (option FittedModule)) (index : Z) (m m' : FittedModule) :
  slot_at slots index = Some m ->
  slot_at (<[Z.to_nat index := Some m']> slots) index = Some m'.
Proof.
  intros H. destruct (slot_at_lookup _ _ _ H) as [H0 Hl].
  unfold slot_at. apply Z.ltb_ge in H0. rewrite H0.
  rewrite list_lookup_insert_eq by now apply lookup_lt_Some in Hl. reflexivity.
Qed.

(** One call of [toggleModuleState] on a slot that holds a module. *)
Lemma toggle_filled (now : str) (st : SlotType) (index : Z) (w : World)
      (f : Fitting) (ship : EveType) (key : SlotArrayKey) (m : FittedModule) :
  fitting (store w) = Some f -> shipType (store w) = Some ship ->
  getSlotArrayKey st = Some key -> slot_at (get_slots key f) index = Some m ->
  toggleModuleState num now st index w
  = commit num ship
      (with_slots key
         (<[Z.to_nat index := Some (with_state (next_state (state m)) m)]>
            (get_slots key f)) now f) w.
Proof.
  intros Hf Hs Hk Hm. unfold toggleModuleState, cloneFitting.
  now rewrite Hf, Hs, Hk, Hm.
Qed.

Lemma toggle_empty (now : str) (st : SlotType) (index : Z) (w : World) :
  (forall f ship key m,
      fitting (store w) = Some f -> shipType (store w) = Some ship ->
      getSlotArrayKey st = Some key -> slot_at (get_slots key f) index = Some m ->
      False) ->
  toggleModuleState num now st index w = w.
Proof.
  intros H. unfold toggleModuleState, cloneFitting.
  destruct (fitting (store w)) as [f|] eqn:E1; [|reflexivity].
  destruct (shipType (store w)) as [ship|] eqn:E2; [|reflexivity].
  destruct (getSlotArrayKey st) as [key|] eqn:E3; [|reflexivity].
  destruct (slot_at (get_slots key f) index) as [m|] eqn:E4; [|reflexivity].
  exfalso. exact (H f ship key m eq_refl eq_refl eq_refl E4).
Qed.

Lemma racks_of_commit_slots (ship : EveType) (key : SlotArrayKey)
      (slots : list (option FittedModule)) (now : str) (f : Fitting) (w w0 : World) :
  fitting (store w0) = Some f -> slots = get_slots key f ->
  racks_of (commit num ship (with_slots key slots now f) w) = racks_of w0
  /\ bay_of (commit num ship (with_slots key slots now f) w) = bay_of w0.
Proof.
  intros Hf ->. unfold racks_of, bay_of. cbn [map]. unfold rack_of.
  rewrite !commit_fitting, Hf. split; [|reflexivity]. now destruct key.
Qed.

End Compose.

(** X19.  The state of a module cycles with period three: three calls of
    [toggleModuleState] for the same slot leave every rack and the drone
    bay as they were, whatever the slot holds. *)
Theorem toggle_three_times
        (num : Stats.Numerics) (now1 now2 now3 : str) (slotType : Eve.SlotType)
        (index : Z) (w : Store.World) :
  let w3 :=
    Store.toggleModuleState num now3 slotType index
      (Store.toggleModuleState num now2 slotType index
         (Store.toggleModuleState num now1 slotType index w)) in
  racks_of w3 = racks_of w /\ bay_of w3 = bay_of w.
Proof.
  intros w3. subst w3.
  destruct (Store.fitting (Store.store w)) as [f|] eqn:Hf;
    [|rewrite !(toggle_empty num _ slotType index w); try (split; reflexivity);
      intros; congruence].
  destruct (Store.shipType (Store.store w)) as [ship|] eqn:Hs;
    [|rewrite !(toggle_empty num _ slotType index w); try (split; reflexivity);
      intros; congruence].
  destruct (Store.getSlotArrayKey slotType) as [key|] eqn:Hk;
    [|rewrite !(toggle_empty num _ slotType index w); try (split; reflexivity);
      intros; congruence].
  destruct (Store.slot_at (Store.get_slots key f) index) as [m|] eqn:Hm;
    [|rewrite !(toggle_empty num _ slotType index w); try (split; reflexivity);
      intros; congruence].
  rewrite (toggle_filled num now1 slotType index w f ship key m Hf Hs Hk Hm).
  set (m1 := Store.with_state (Store.next_state (Eve.state m)) m).
  set (f1 := Store.with_slots key _ now1 f).
  set (w1 := Store.commit num ship f1 w).
  assert (Hm1 : Store.slot_at (Store.get_slots key f1) index = Some m1).
  { unfold f1. rewrite get_with_slots. now apply (slot_at_insert _ _ m). }
  rewrite (toggle_filled num now2 slotType index w1 f1 ship key m1
             (commit_fitting num ship f1 w)
             (eq_trans (commit_shipType num ship f1 w) Hs) Hk Hm1).
  set (m2 := Store.with_state (Store.next_state (Eve.state m1)) m1).
  set (f2 := Store.with_slots key _ now2 f1).
  set (w2 := Store.commit num ship f2 w1).
  assert (Hm2 : Store.slot_at (Store.get_slots key f2) index = Some m2).
  { unfold f2. rewrite get_with_slots. now apply (slot_at_insert _ _ m1). }
  rewrite (toggle_filled num now3 slotType index w2 f2 ship key m2
             (commit_fitting num ship f2 w1)
             (eq_trans (commit_shipType num ship f2 w1)
                       (eq_trans (commit_shipType num ship f1 w) Hs)) Hk Hm2).
  unfold f2, f1. rewrite !get_with_slots, !with_slots_twice.
  apply racks_of_commit_slots; [exact Hf|].
  rewrite !list_insert_insert_eq.
  unfold m2, m1. cbn [Eve.state Store.with_state].
  rewrite next_state_cycle.
  change (Some _) with (Some (Store.with_state (Eve.state m) m)).
  rewrite with_state_same.
  apply list_insert_id.
  now destruct (slot_at_lookup _ _ _ Hm).
Qed.

Section AddRemove.

Import Eve Store.

Variable num : Stats.Numerics.

Lemma out_of_range_insert {A} (index : Z) (i : nat) (x : A) (slots : list A) :
  out_of_range index (<[i := x]> slots) = out_of_range index slots.
Proof. unfold out_of_range. now rewrite length_insert. Qed.

Lemma racks_of_commit (ship : EveType) (key : SlotArrayKey)
      (slots : list (option FittedModule)) (now : str) (f : Fitting) (w : World) :
  racks_of (commit num ship (with_slots key slots now f) w)
  = map (fun k => get_slots k (with_slots key slots now f))
        [high_slots_key; mid_slots_key; low_slots_key; rig_slots_key;
         subsystem_slots_key]
  /\ bay_of (commit num ship (with_slots key slots now f) w) = drones f.
Proof.
  unfold racks_of, bay_of. cbn [map]. unfold rack_of.
  rewrite !commit_fitting. split; [reflexivity|now destruct key].
Qed.

End AddRemove.

(** X20.  Removing a module right after adding it at the same place
    leaves the racks and the drone bay as removing alone does; when the
    slot was empty, or the call was out of bounds, they are as they were
    before the two calls. *)
Theorem add_then_remove
        (num : Stats.Numerics) (now1 now2 : str) (slotType : Eve.SlotType) (index : Z)
        (md : Store.ModuleData) (w : Store.World) :
  let w2 := Store.removeModule num now2 slotType index
              (Store.addModule num now1 slotType index md w) in
  (racks_of w2 = racks_of (Store.removeModule num now2 slotType index w)
   /\ bay_of w2 = bay_of w)
  /\ ((forall key, Store.getSlotArrayKey slotType = Some key ->
                   Store.slot_at (rack_of key w) index = None) ->
      racks_of w2 = racks_of w).
Proof.
  intros w2. subst w2.
  assert (Hsame : Store.addModule num now1 slotType index md w = w ->
                  (racks_of (Store.removeModule num now2 slotType index
                               (Store.addModule num now1 slotType index md w))
                   = racks_of (Store.removeModule num now2 slotType index w)
                   /\ bay_of (Store.removeModule num now2 slotType index
                                (Store.addModule num now1 slotType index md w))
                      = bay_of w)
                  /\ ((forall key, Store.getSlotArrayKey slotType = Some key ->
                                   Store.slot_at (rack_of key w) index = None) ->
                      racks_of (Store.removeModule num now2 slotType index
                                  (Store.addModule num now1 slotType index md w))
                      = racks_of w)).
  { intros ->. unfold Store.removeModule, Store.cloneFitting.
    destruct (Store.fitting (Store.store w)) as [f|] eqn:Hf;
      [|repeat split; reflexivity].
    destruct (Store.shipType (Store.store w)) as [ship|] eqn:Hs;
      [|repeat split; reflexivity].
    destruct (Store.getSlotArrayKey slotType) as [key|] eqn:Hk;
      [|repeat split; reflexivity].
    destruct (Store.out_of_range index (Store.get_slots key f)) eqn:Hr;
      [repeat split; reflexivity|].
    destruct (racks_of_commit num ship key
                (<[Z.to_nat index := None]> (Store.get_slots key f)) now2 f w)
      as [R2 B2].
    rewrite R2, B2. unfold bay_of. rewrite Hf.
    split; [split; reflexivity|].
    intros Hempty. specialize (Hempty key eq_refl).
    unfold rack_of in Hempty. rewrite Hf in Hempty.
    destruct (in_range index _ Hr) as [H0 Hlt].
    assert (Hnone : Store.get_slots key f !! Z.to_nat index = Some None).
    { unfold Store.slot_at in Hempty. apply Z.ltb_ge in H0. rewrite H0 in Hempty.
      destruct (lookup_lt_is_Some_2 _ _ Hlt) as [[m|] Hl]; rewrite Hl in Hempty;
        [discriminate|exact Hl]. }
    rewrite (list_insert_id _ _ _ Hnone).
    unfold racks_of. cbn [map]. unfold rack_of. rewrite Hf. now destruct key. }
  destruct (Store.fitting (Store.store w)) as [f|] eqn:Hf;
    [|apply Hsame; unfold Store.addModule; now rewrite Hf].
  destruct (Store.shipType (Store.store w)) as [ship|] eqn:Hs;
    [|apply Hsame; unfold Store.addModule; now rewrite Hf, Hs].
  destruct (Store.getSlotArrayKey slotType) as [key|] eqn:Hk;
    [|apply Hsame; unfold Store.addModule; now rewrite Hf, Hs, Hk].
  destruct (Store.out_of_range index (Store.get_slots key f)) eqn:Hr;
    [apply Hsame; unfold Store.addModule, Store.cloneFitting; now rewrite Hf, Hs, Hk, Hr|].
  clear Hsame.
  unfold Store.addModule, Store.cloneFitting. rewrite Hf, Hs, Hk, Hr.
  destruct (Store.generateId w) as [id w1] eqn:Hg.
  assert (Hs1 : Store.shipType (Store.store w1) = Some ship).
  { change w1 with (snd (id, w1)). rewrite <- Hg. exact Hs. }
  unfold Store.removeModule, Store.cloneFitting.
  rewrite commit_fitting, commit_shipType, Hs1, Hf, Hs, Hk.
  rewrite get_with_slots, out_of_range_insert, Hr, with_slots_twice.
  rewrite list_insert_insert_eq.
  destruct (racks_of_commit num ship key
              (<[Z.to_nat index := None]> (Store.get_slots key f)) now2 f
              (Store.commit num ship
                 (Store.with_slots key
                    (<[Z.to_nat index := Some (Store.place md id slotType index)]>
                       (Store.get_slots key f)) now1 f) w1))
    as [R1 B1].
  destruct (racks_of_commit num ship key
              (<[Z.to_nat index := None]> (Store.get_slots key f)) now2 f w)
    as [R2 B2].
  rewrite R1, R2, B1. unfold bay_of. rewrite Hf.
  split; [split; reflexivity|].
  intros Hempty. specialize (Hempty key eq_refl).
  unfold rack_of in Hempty. rewrite Hf in Hempty.
  destruct (in_range index _ Hr) as [H0 Hlt].
  assert (Hnone : Store.get_slots key f !! Z.to_nat index = Some None).
  { unfold Store.slot_at in Hempty. apply Z.ltb_ge in H0. rewrite H0 in Hempty.
    destruct (lookup_lt_is_Some_2 _ _ Hlt) as [[m|] Hl]; rewrite Hl in Hempty;
      [discriminate|exact Hl]. }
  rewrite (list_insert_id _ _ _ Hnone).
  unfold racks_of. cbn [map]. unfold rack_of. rewrite Hf. now destruct key.
Qed.

Section Drones.

Import Eve Store.

Variable num : Stats.Numerics.

Lemma with_index_same (d : FittedModule) : with_index (slot_index d) d = d.
Proof. now destruct d. Qed.

(** Re-indexing a bay whose drones know their positions changes
    nothing. *)
Lemma reindex_placed (ds : list FittedModule) : bay_placed ds -> reindex ds = ds.
Proof.
  intros H. unfold reindex.
  assert (G : forall k l, (forall i d, l !! i = Some d -> slot_index d = Z.of_nat (k + i)) ->
                          map (fun p => with_index (Z.of_nat (fst p)) (snd p))
                              (combine (seq k (length l)) l) = l).
  { intros k l. revert k. induction l as [|a l IH]; intros k Hl; [reflexivity|].
    cbn. f_equal.
    - rewrite <- (Nat.add_0_r k), <- (Hl 0 a eq_refl). apply with_index_same.
    - apply IH. intros i d Hd. rewrite (Hl (S i) d Hd). f_equal. lia. }
  apply (G 0). intros i d Hd. now apply (H i d).
Qed.

Lemma splice1_last {A} (l : list A) (x : A) :
  splice1 (Z.of_nat (length l)) (l ++ [x]) = l /\ splice1 (-1) (l ++ [x]) = l.
Proof.
  unfold splice1. rewrite length_app. cbn [length].
  assert (E1 : (Z.of_nat (length l) <? 0)%Z = false) by (apply Z.ltb_ge; lia).
  rewrite E1. change (-1 <? 0)%Z with true. cbv iota.
  rewrite Z.min_l by lia. rewrite Z.max_l by lia.
  replace (Z.to_nat (Z.of_nat (length l + 1) + -1)) with (length l) by lia.
  rewrite Nat2Z.id.
  rewrite firstn_app, Nat.sub_diag, firstn_all. cbn [firstn].
  rewrite skipn_app, skipn_all2 by lia.
  replace (S (length l) - length l) with 1 by lia. cbn [skipn].
  rewrite !app_nil_r. split; reflexivity.
Qed.

Lemma splice1_beyond {A} (index : Z) (l : list A) :
  (Z.of_nat (length l) <= index)%Z -> splice1 index l = l.
Proof.
  intros H. unfold splice1.
  assert (E : (index <? 0)%Z = false) by (apply Z.ltb_ge; lia).
  rewrite E, Z.min_r by lia. rewrite Nat2Z.id, firstn_all, skipn_all2 by lia.
  apply app_nil_r.
Qed.

Lemma removeDrone_bay (now : str) (index : Z) (w : World) (f : Fitting) (ship : EveType) :
  fitting (store w) = Some f -> shipType (store w) = Some ship ->
  removeDrone num now index w
  = commit num ship (with_drones (reindex (splice1 index (drones f))) now f) w.
Proof. intros Hf Hs. unfold removeDrone, cloneFitting. now rewrite Hf, Hs. Qed.

Lemma bay_of_commit_drones (ship : EveType) (ds : list FittedModule) (now : str)
      (f : Fitting) (w : World) :
  bay_of (commit num ship (with_drones ds now f) w) = ds
  /\ racks_of (commit num ship (with_drones ds now f) w)
     = map (fun k => get_slots k f)
           [high_slots_key; mid_slots_key; low_slots_key; rig_slots_key;
            subsystem_slots_key].
Proof.
  unfold racks_of, bay_of. cbn [map]. unfold rack_of.
  rewrite !commit_fitting. split; reflexivity.
Qed.

End Drones.



Section DroneBounds.

Import Eve Store.

Variable num : Stats.Numerics.

Lemma commit_counts (ship : EveType) (updated : Fitting) (w : World) :
  recomputes (commit num ship updated w) = S (recomputes w)
  /\ dirty (store (commit num ship updated w)) = true.
Proof.
  unfold commit. destruct (computeStatsWithSkills num ship updated _ _).
  split; reflexivity.
Qed.

End DroneBounds.

(** X22.  [removeDrone] has no bounds check.  With a ship selected, a
    call with an index at or beyond the length of the bay removes no drone
    (a bay whose drones know their positions is left as it is), and yet
    the call commits: the fitting gets a new time stamp, the stats are
    computed anew and the store is marked dirty. *)
Theorem removeDrone_beyond_the_bay
        (num : Stats.Numerics) (now : str) (index : Z) (w : Store.World)
        (f : Eve.Fitting) (ship : Eve.EveType) :
  Store.fitting (Store.store w) = Some f ->
  Store.shipType (Store.store w) = Some ship ->
  (Z.of_nat (length (Eve.drones f)) <= index)%Z ->
  let w' := Store.removeDrone num now index w in
  (bay_placed (Eve.drones f) -> bay_of w' = Eve.drones f)
  /\ length (bay_of w') = length (Eve.drones f)
  /\ option_map Eve.updated_at (Store.fitting (Store.store w')) = Some now
  /\ Store.recomputes w' = S (Store.recomputes w)
  /\ Store.dirty (Store.store w') = true.
Proof.
  intros Hf Hs Hi w'. subst w'.
  rewrite (removeDrone_bay num now index w f ship Hf Hs).
  rewrite (splice1_beyond index (Eve.drones f) Hi).
  destruct (bay_of_commit_drones num ship (Store.reindex (Eve.drones f)) now f w)
    as [B _].
  destruct (commit_counts num ship
              (Store.with_drones (Store.reindex (Eve.drones f)) now f) w) as [C D].
  rewrite B, C, D, commit_fitting. repeat split.
  - intros Hp. now apply reindex_placed.
  - unfold Store.reindex. rewrite length_map, length_combine, length_seq. lia.
Qed.

Lemma removeDrone_beyond_the_bay_witness :
  Store.fitting (Store.store world_two_turrets) = Some fitting_two_turrets
  /\ Store.shipType (Store.store world_two_turrets) = Some sample_ship
  /\ (Z.of_nat (length (Eve.drones fitting_two_turrets)) <= 3)%Z
  /\ length (bay_of (Store.removeDrone sample_numerics (lit "t9") 3 world_two_turrets))
     = length (Eve.drones fitting_two_turrets)
  /\ Store.recomputes (Store.removeDrone sample_numerics (lit "t9") 3 world_two_turrets)
     = S (Store.recomputes world_two_turrets)
  /\ Store.dirty
       (Store.store (Store.removeDrone sample_numerics (lit "t9") 3 world_two_turrets))
     = true.
Proof.
  assert (Hf : Store.fitting (Store.store world_two_turrets) = Some fitting_two_turrets)
    by (vm_compute; reflexivity).
  assert (Hs : Store.shipType (Store.store world_two_turrets) = Some sample_ship)
    by (vm_compute; reflexivity).
  assert (Hi : (Z.of_nat (length (Eve.drones fitting_two_turrets)) <= 3)%Z)
    by (vm_compute; discriminate).
  split; [exact Hf|]. split; [exact Hs|]. split; [exact Hi|].
  destruct (removeDrone_beyond_the_bay sample_numerics (lit "t9") 3 world_two_turrets
              fitting_two_turrets sample_ship Hf Hs Hi) as (_ & H2 & _ & H4 & H5).
  auto.
Defined.

(** ** The types a plan starts from *)

Section ModuleTypeIds.

Import Plan Eve.

Lemma ids_step_In (id : Z) (ids : list Z) (m : FittedModule) :
  In id (if existsb (Z.eqb (m_type_id m)) ids then ids else ids ++ [m_type_id m])
  <-> In id ids \/ id = m_type_id m.
Proof.
  destruct (existsb (Z.eqb (m_type_id m)) ids) eqn:E.
  - apply existsb_exists in E. destruct E as (x & Hin & Hx).
    apply Z.eqb_eq in Hx. subst x. split; [now left|]. intros [H| ->]; assumption.
  - rewrite in_app_iff. simpl. split.
    + intros [H|[H|[]]]; [now left|right; now symmetry].
    + intros [H|H]; [now left|right; left; now symmetry].
Qed.

Lemma ids_step_NoDup (ids : list Z) (m : FittedModule) :
  List.NoDup ids ->
  List.NoDup (if existsb (Z.eqb (m_type_id m)) ids then ids else ids ++ [m_type_id m]).
Proof.
  intros Hnd. destruct (existsb (Z.eqb (m_type_id m)) ids) eqn:E; [exact Hnd|].
  apply NoDup_add_last; [exact Hnd|]. intros Hin.
  assert (H : existsb (Z.eqb (m_type_id m)) ids = true).
  { apply existsb_exists. exists (m_type_id m). split; [exact Hin|apply Z.eqb_refl]. }
  congruence.
Qed.

Lemma ids_fold (ms : list FittedModule) (ids : list Z) :
  let step := fun ids m => if existsb (Z.eqb (m_type_id m)) ids then ids
                           else ids ++ [m_type_id m] in
  List.NoDup ids ->
  List.NoDup (fold_left step ms ids)
  /\ forall id, In id (fold_left step ms ids)
                <-> In id ids \/ exists m, In m ms /\ m_type_id m = id.
Proof.
  cbv zeta. revert ids. induction ms as [|m ms IH]; intros ids Hnd.
  - simpl. split; [exact Hnd|]. intros id. split; [now left|].
    intros [H|(m & [] & _)]. exact H.
  - cbn [fold_left]. destruct (IH _ (ids_step_NoDup ids m Hnd)) as [H1 H2].
    split; [exact H1|]. intros id. rewrite H2, ids_step_In. split.
    + intros [[H|H]|(m' & Hin & H)].
      * now left.
      * right. exists m. split; [now left|now symmetry].
      * right. exists m'. split; [now right|exact H].
    + intros [H|(m' & [<-|Hin] & H)].
      * left. now left.
      * left. right. now symmetry.
      * right. now exists m'.
Qed.

(** The modules that [getAllModuleTypeIds] walks through. *)
Lemma slotted_or_drone (f : Fitting) (m : FittedModule) :
  In m (omap (fun m => m) (all_racks f) ++ drones f) <-> fitted_in f m.
Proof.
  unfold fitted_in. rewrite in_app_iff, <- !list_elem_of_In, list_elem_of_omap.
  split.
  - intros [(x & Hin & Hx)|H]; [left; now subst x|now right].
  - intros [H|H]; [left; now exists (Some m)|now right].
Qed.

Lemma module_ids (f : Fitting) :
  List.NoDup (getAllModuleTypeIds f)
  /\ forall id, In id (getAllModuleTypeIds f)
                <-> exists m, fitted_in f m /\ m_type_id m = id.
Proof.
  unfold getAllModuleTypeIds.
  destruct (ids_fold (omap (fun m => m) (all_racks f) ++ drones f) [] (List.NoDup_nil Z))
    as [H1 H2].
  split; [exact H1|]. intros id. rewrite (H2 id). split.
  - intros [[]|(m & Hin & H)]. exists m. split; [now apply slotted_or_drone|exact H].
  - intros (m & Hin & H). right. exists m. split; [now apply slotted_or_drone|exact H].
Qed.

End ModuleTypeIds.

(** X23.  [getAllModuleTypeIds] lists each type id once; an id is in the
    list exactly when a module in one of the five slot arrays or a drone
    in the bay has it.  Empty slots and the cargo hold add nothing. *)
Theorem getAllModuleTypeIds_spec (f : Eve.Fitting) :
  List.NoDup (Plan.getAllModuleTypeIds f)
  /\ forall id, In id (Plan.getAllModuleTypeIds f)
                <-> exists m, (In (Some m) (Eve.high_slots f ++ Eve.mid_slots f
                                            ++ Eve.low_slots f ++ Eve.rig_slots f
                                            ++ Eve.subsystem_slots f)
                               \/ In m (Eve.drones f))
                              /\ Eve.m_type_id m = id.
Proof.
  destruct (module_ids f) as [H1 H2]. split; [exact H1|].
  intros id. rewrite (H2 id). unfold fitted_in, all_racks. reflexivity.
Qed.

(** ** The stage lists: one entry per skill, in the order of the names *)

Section OrderedPairs.

Context {A : Type}.

Lemma pairs_perm (R : A -> A -> Prop) (l l' : list A) :
  (forall a b, R a b -> R b a) ->
  Permutation l l' -> ForallOrdPairs R l -> ForallOrdPairs R l'.
Proof.
  intros Hsym Hp. induction Hp as [|x l l' Hp IH|x y l|l l' l'' _ IH1 _ IH2]; intros H.
  - exact H.
  - inversion H as [|a l0 Hx Hl]; subst. constructor.
    + exact (Permutation_Forall Hp Hx).
    + now apply IH.
  - inversion H as [|a l0 Hy Hl]; subst.
    inversion Hl as [|a l0 Hx Hl']; subst.
    inversion Hy as [|a l0 Hyx Hy']; subst.
    constructor; [constructor; [now apply Hsym|exact Hx]|].
    constructor; [exact Hy'|exact Hl'].
  - auto.
Qed.

Lemma pairs_omap {B : Type} (R : A -> A -> Prop) (R' : B -> B -> Prop)
      (f : A -> option B) (l : list A) :
  (forall a b a' b', f a = Some a' -> f b = Some b' -> R a b -> R' a' b') ->
  ForallOrdPairs R l -> ForallOrdPairs R' (omap f l).
Proof.
  intros Hf H. induction H as [|a l Ha Hl IH]; [constructor|].
  change (omap f (a :: l))
    with (match f a with Some y => y :: omap f l | None => omap f l end).
  destruct (f a) as [a'|] eqn:E; [|exact IH].
  constructor; [|exact IH].
  apply Forall_forall. intros b' Hb'.
  rewrite list_elem_of_omap in Hb'. destruct Hb' as (b & Hb & Hfb).
  rewrite Forall_forall in Ha.
  exact (Hf a b a' b' E Hfb (Ha b Hb)).
Qed.

Lemma pairs_map {B : Type} (R : A -> A -> Prop) (R' : B -> B -> Prop)
      (f : A -> B) (l : list A) :
  (forall a b, R a b -> R' (f a) (f b)) ->
  ForallOrdPairs R l -> ForallOrdPairs R' (map f l).
Proof.
  intros Hf H. induction H as [|a l Ha Hl IH]; [constructor|].
  cbn [map]. constructor; [|exact IH].
  apply List.Forall_map. revert Ha. apply List.Forall_impl. intros b. apply Hf.
Qed.

Variable cmp : A -> A -> Z.
Hypothesis asym : forall a b, (cmp a b < 0)%Z -> (0 <= cmp b a)%Z.
Hypothesis trans : forall a b c, (0 <= cmp b a)%Z -> (0 <= cmp c b)%Z -> (0 <= cmp c a)%Z.

Lemma insert_by_sorted (x : A) (l : list A) :
  ForallOrdPairs (fun a b => (0 <= cmp b a)%Z) l ->
  ForallOrdPairs (fun a b => (0 <= cmp b a)%Z) (Plan.insert_by cmp x l).
Proof.
  intros H. induction H as [|y l Hy Hl IH]; cbn [Plan.insert_by].
  - repeat constructor.
  - destruct (cmp x y <? 0)%Z eqn:E.
    + apply Z.ltb_lt in E. pose proof (asym x y E) as Hxy.
      constructor; [|now constructor].
      constructor; [exact Hxy|].
      revert Hy. apply List.Forall_impl. intros q Hq. exact (trans x y q Hxy Hq).
    + apply Z.ltb_ge in E. constructor; [|exact IH].
      apply (Permutation_Forall (Permutation_sym (insert_by_perm cmp x l))).
      now constructor.
Qed.

Lemma sort_by_sorted (l : list A) :
  ForallOrdPairs (fun a b => (0 <= cmp b a)%Z) (Plan.sort_by cmp l).
Proof.
  unfold Plan.sort_by.
  assert (H : forall acc, ForallOrdPairs (fun a b => (0 <= cmp b a)%Z) acc ->
                          ForallOrdPairs (fun a b => (0 <= cmp b a)%Z)
                            (fold_left (fun sorted x => Plan.insert_by cmp x sorted) l acc)).
  { induction l as [|x l IH]; intros acc Hacc; [exact Hacc|].
    cbn [fold_left]. apply IH. now apply insert_by_sorted. }
  apply H. constructor.
Qed.

End OrderedPairs.

Section StageLists.

Import Plan Eve.
Local Open Scope Q_scope.

Variable getType : Q -> option EveType.
Variable SKILL_REQ_ATTRS : list (Z * Z).
Variable localeCompare : str -> str -> Z.

Lemma uniq_pairs {V} (m : NumMap V) :
  uniq m -> ForallOrdPairs (fun a b => ~ fst a == fst b) m.
Proof.
  induction m as [|[k v] m IH]; [constructor|].
  intros [Hn Hu]. constructor; [|now apply IH].
  apply List.Forall_forall. intros [k' v'] Hin. cbn [fst]. intros Heq.
  apply Qeq_bool_iff in Heq.
  rewrite (uniq_apart k' k v' m Hn Hin) in Heq. discriminate.
Qed.

Lemma stage_skills_once (levels : NumMap Q) (names : NumMap str) :
  uniq levels ->
  ForallOrdPairs (fun a b => ~ skill_type_id a == skill_type_id b)
                 (stage_skills localeCompare levels names).
Proof.
  intros Hu. unfold stage_skills.
  eapply pairs_perm; [|symmetry; apply sort_by_perm|].
  - intros a b H H'. apply H. now symmetry.
  - eapply pairs_omap; [|exact (uniq_pairs levels Hu)].
    intros [k v] [k' v'] a' b' Ha Hb H. cbn [fst snd] in *.
    destruct (map_get k names) as [[|c n]|]; try discriminate.
    destruct (map_get k' names) as [[|c' n']|]; try discriminate.
    injection Ha as <-. injection Hb as <-. exact H.
Qed.

Lemma stage_skills_sorted (levels : NumMap Q) (names : NumMap str) :
  collation localeCompare ->
  ForallOrdPairs (fun a b => (0 <= localeCompare (skill_name b) (skill_name a))%Z)
                 (stage_skills localeCompare levels names).
Proof.
  intros [Ha Ht]. unfold stage_skills.
  apply (sort_by_sorted (fun a b => localeCompare (skill_name a) (skill_name b))).
  - intros a b. apply Ha.
  - intros a b c. apply Ht.
Qed.

Lemma support_fold_uniq (ids : list Q) (m : NumMap Q) :
  uniq m ->
  uniq (fold_left (fun m supportId =>
                     match map_get supportId m with
                     | Some existing =>
                         if Qeq_bool existing 0 || Stats.gt 4 existing
                         then map_set supportId 4 m else m
                     | None => map_set supportId 4 m
                     end) ids m).
Proof.
  revert m. induction ids as [|id ids IH]; intros m Hu; [exact Hu|].
  cbn [fold_left]. apply IH. now apply support_step_uniq.
Qed.

End StageLists.

(** The order of the character codes is a collation. *)
Lemma code_order_collation : collation code_order.
Proof.
  split.
  - intros a. induction a as [|x a IH]; intros [|y b]; cbn [code_order]; try lia.
    destruct (code x <? code y)%nat eqn:E1, (code y <? code x)%nat eqn:E2;
      try lia; [|apply IH].
    apply Nat.ltb_lt in E1, E2. lia.
  - intros a. induction a as [|x a IH]; intros [|y b] [|z c]; cbn [code_order]; try lia.
    destruct (code y <? code x)%nat eqn:E1; [lia|].
    destruct (code z <? code y)%nat eqn:E2; [lia|].
    apply Nat.ltb_ge in E1, E2.
    destruct (code x <? code y)%nat eqn:E3.
    + intros _ _. apply Nat.ltb_lt in E3.
      assert (H1 : (code z <? code x)%nat = false) by (apply Nat.ltb_ge; lia).
      assert (H2 : (code x <? code z)%nat = true) by (apply Nat.ltb_lt; lia).
      rewrite H1, H2. lia.
    + apply Nat.ltb_ge in E3. assert (Hxy : code x = code y) by lia.
      rewrite Hxy. destruct (code y <? code z)%nat eqn:E4.
      * intros _ _. assert (H1 : (code z <? code y)%nat = false)
          by (apply Nat.ltb_ge; lia).
        rewrite H1. lia.
      * apply Nat.ltb_ge in E4.
        assert (H1 : (code z <? code y)%nat = false) by (apply Nat.ltb_ge; lia).
        rewrite H1. apply IH.
Qed.

(** X24.  No stage of a plan lists a skill twice: in each of the three
    lists, two entries at different positions have different skill ids.
    This holds for every answer of the type lookup, every table of
    requirement attributes and every collation. *)
Theorem stages_list_each_skill_once
        (getType : Q -> option Eve.EveType) (SKILL_REQ_ATTRS : list (Z * Z))
        (localeCompare : str -> str -> Z)
        (fuel : nat) (shipType : Eve.EveType) (fitting : Eve.Fitting) :
  forall s,
    In s (stage_list (Plan.buildSkillPlan getType SKILL_REQ_ATTRS localeCompare
                                          fuel shipType fitting)) ->
    each_once s.
Proof.
  unfold Plan.buildSkillPlan, stage_list. cbn [Eve.stages].
  match goal with
  | |- context [map _ (Plan.stage_skills _ ?m2 ?n2)] =>
      assert (H2 : ForallOrdPairs
                     (fun a b => ~ (Eve.skill_type_id a == Eve.skill_type_id b)%Q)
                     (Plan.stage_skills localeCompare m2 n2))
  end.
  { apply stage_skills_once, support_fold_uniq, bump_fold_uniq. exact I. }
  intros s [<-|[<-|[<-|[]]]]; unfold each_once; cbn [Eve.skills].
  - apply stage_skills_once, resolve_all_uniq. cbn [snd]. now apply directReqs_uniq.
  - exact H2.
  - revert H2. apply pairs_map. intros a b H. exact H.
Qed.

Lemma stages_list_each_skill_once_witness :
  each_once
    (recommended_stage (Plan.buildSkillPlan sample_getType sample_req_attrs code_order
                                            8 sample_hull bare_fitting)).
Proof.
  apply (stages_list_each_skill_once sample_getType sample_req_attrs code_order 8
                                     sample_hull bare_fitting).
  vm_compute. right. left. reflexivity.
Defined.

(** X25.  Under a collation, each stage of a plan is in the order of the
    names: no entry comes after one whose name collates strictly behind
    it. *)
Theorem stages_sorted_by_name
        (getType : Q -> option Eve.EveType) (SKILL_REQ_ATTRS : list (Z * Z))
        (localeCompare : str -> str -> Z)
        (fuel : nat) (shipType : Eve.EveType) (fitting : Eve.Fitting) :
  collation localeCompare ->
  forall s,
    In s (stage_list (Plan.buildSkillPlan getType SKILL_REQ_ATTRS localeCompare
                                          fuel shipType fitting)) ->
    sorted_by_name localeCompare s.
Proof.
  intros Hc. unfold Plan.buildSkillPlan, stage_list. cbn [Eve.stages].
  intros s [<-|[<-|[<-|[]]]]; unfold sorted_by_name; cbn [Eve.skills].
  - now apply stage_skills_sorted.
  - now apply stage_skills_sorted.
  - eapply pairs_map; [|apply (stage_skills_sorted localeCompare _ _ Hc)].
    intros a b H. exact H.
Qed.

Lemma stages_sorted_by_name_witness :
  sorted_by_name code_order
    (recommended_stage (Plan.buildSkillPlan sample_getType sample_req_attrs code_order
                                            8 sample_hull bare_fitting)).
Proof.
  apply (stages_sorted_by_name sample_getType sample_req_attrs code_order 8
                               sample_hull bare_fitting code_order_collation).
  vm_compute. right. left. reflexivity.
Defined.

(** ** What the requirements hold *)

Section Requirements.

Import Plan Eve.
Local Open Scope Q_scope.

Variable getType : Q -> option EveType.
Variable SKILL_REQ_ATTRS : list (Z * Z).

Lemma extract_positive (t : EveType) (r : RawSkillReq) :
  In r (extractSkillReqs SKILL_REQ_ATTRS t) -> 0 < level r.
Proof.
  unfold extractSkillReqs. destruct (dogma_attributes t) as [attrs|]; [|contradiction].
  rewrite <- list_elem_of_In, list_elem_of_omap. intros ([a b] & _ & H).
  cbn [fst snd] in H.
  destruct (attr_get attrs a) as [id|]; [|discriminate].
  destruct (attr_get attrs b) as [lv|]; [|discriminate].
  destruct (Stats.gt id 0 && Stats.gt lv 0) eqn:E; [|discriminate].
  injection H as <-. cbn [level]. apply andb_true_iff in E. now apply gt_true_lt.
Qed.

Lemma set_holds (m : NumMap Q) (id lv : Q) : holds (map_set id lv m) id lv.
Proof.
  assert (H : map_get id (map_set id lv m) = Some lv)
    by now rewrite map_get_set, Qeq_bool_refl.
  apply map_get_In in H. destruct H as (k & Hin & Hk).
  exists k, lv. split; [exact Hin|]. split; [exact Hk|apply Qle_refl].
Qed.

Lemma keep_highest_new (m : NumMap Q) (r : RawSkillReq) :
  holds (keep_highest m r) (raw_skill_type_id r) (level r).
Proof.
  unfold keep_highest, improves.
  destruct (map_get (raw_skill_type_id r) m) as [e|] eqn:E; [|apply set_holds].
  destruct (Qeq_bool e 0 || Stats.gt (level r) e) eqn:C; [apply set_holds|].
  apply orb_false_iff in C. destruct C as [_ C]. apply gt_false_le in C.
  apply map_get_In in E. destruct E as (k & Hin & Hk). now exists k, e.
Qed.

Lemma keep_highest_positive (m : NumMap Q) (r : RawSkillReq) :
  0 < level r -> positive m -> positive (keep_highest m r).
Proof.
  intros Hr Hm. unfold keep_highest. destruct (improves _ _); [|exact Hm].
  intros k l Hin. apply map_set_In in Hin. destruct Hin as [Hin| ->]; [|exact Hr].
  now apply (Hm k).
Qed.

Lemma keep_highest_holds (m : NumMap Q) (r : RawSkillReq) (id lv : Q) :
  uniq m -> positive m -> holds m id lv -> holds (keep_highest m r) id lv.
Proof.
  intros Hu Hp (k & l & Hin & Hk & Hle). unfold keep_highest.
  destruct (improves _ _) eqn:C; [|now exists k, l].
  destruct (map_set_keeps k (raw_skill_type_id r) l (level r) m Hin) as [H|[H Hkr]].
  - now exists k, l.
  - exists k, (level r). split; [exact H|]. split; [exact Hk|].
    rewrite <- (map_get_congr k (raw_skill_type_id r) m Hkr),
      (uniq_In_get k l m Hu Hin) in C.
    cbn [improves] in C. apply orb_true_iff in C. destruct C as [C|C].
    + apply Qeq_bool_iff in C. pose proof (Hp k l Hin) as Hpos.
      rewrite C in Hpos. now apply Qlt_irrefl in Hpos.
    + apply gt_true_lt in C. apply Qlt_le_weak. now apply Qle_lt_trans with l.
Qed.

Lemma keeps_step (id lv : Q) (m : NumMap Q) (r : RawSkillReq) :
  0 < level r -> keeps id lv m -> keeps id lv (keep_highest m r).
Proof.
  intros Hr (Hu & Hp & Hh). split; [now apply keep_highest_uniq|].
  split; [now apply keep_highest_positive|now apply keep_highest_holds].
Qed.

Section Preserved.

Variable P : NumMap Q -> Prop.
Hypothesis step : forall m r, 0 < level r -> P m -> P (keep_highest m r).

Lemma fold_keep_preserves (reqs : list RawSkillReq) (m : NumMap Q) :
  (forall r, In r reqs -> 0 < level r) -> P m -> P (fold_left keep_highest reqs m).
Proof.
  revert m. induction reqs as [|r reqs IH]; intros m Hpos Hm; [exact Hm|].
  cbn [fold_left]. apply IH; [intros r' Hr'; apply Hpos; now right|].
  apply step; [apply Hpos; now left|exact Hm].
Qed.

Lemma direct_preserves (types : list EveType) (m : NumMap Q) :
  P m ->
  P (fold_left (fun reqs type =>
                  fold_left keep_highest (extractSkillReqs SKILL_REQ_ATTRS type) reqs)
               types m).
Proof.
  revert m. induction types as [|t types IH]; intros m Hm; [exact Hm|].
  cbn [fold_left]. apply IH. apply fold_keep_preserves; [|exact Hm].
  intros r. apply extract_positive.
Qed.

Lemma resolve_preserves (fuel : nat) (skillTypeId : Q) (st : list Q * NumMap Q) :
  P (snd st) -> P (snd (resolvePrerequisites getType SKILL_REQ_ATTRS fuel skillTypeId st)).
Proof.
  revert skillTypeId st. induction fuel as [|fuel IH]; intros id [visited result] Hm.
  - exact Hm.
  - cbn [resolvePrerequisites]. destruct (set_has id visited); [exact Hm|].
    destruct (getType id) as [skillType|]; [|exact Hm].
    match goal with |- context [if ?b then _ else _] => destruct b end; [exact Hm|].
    generalize (set_add id visited). intros visited'.
    change result with (snd (visited', result)) in Hm.
    pose proof (extract_positive skillType) as Hpos.
    revert Hm. generalize (visited', result). revert Hpos.
    induction (extractSkillReqs SKILL_REQ_ATTRS skillType) as [|r reqs IHr];
      intros Hpos st Hm; simpl; [exact Hm|].
    apply IHr; [intros r' Hr'; apply Hpos; now right|].
    apply IH. cbn [snd]. apply step; [apply Hpos; now left|exact Hm].
Qed.

Lemma resolve_all_preserves (fuel : nat) (ids : list Q) (st : list Q * NumMap Q) :
  P (snd st) ->
  P (snd (fold_left
            (fun st skillId =>
               resolvePrerequisites getType SKILL_REQ_ATTRS fuel skillId st)
            ids st)).
Proof.
  revert st. induction ids as [|id ids IH]; intros st Hm; simpl; [exact Hm|].
  apply IH. now apply resolve_preserves.
Qed.

End Preserved.

Lemma base_step (m : NumMap Q) (r : RawSkillReq) :
  0 < level r -> uniq m /\ positive m -> uniq (keep_highest m r) /\ positive (keep_highest m r).
Proof.
  intros Hr [Hu Hp]. split; [now apply keep_highest_uniq|now apply keep_highest_positive].
Qed.

Lemma fold_keep_new (reqs : list RawSkillReq) (m : NumMap Q) (r : RawSkillReq) :
  (forall r, In r reqs -> 0 < level r) -> In r reqs ->
  uniq m /\ positive m ->
  keeps (raw_skill_type_id r) (level r) (fold_left keep_highest reqs m).
Proof.
  revert m. induction reqs as [|r' reqs IH]; intros m Hpos Hin Hm; [contradiction|].
  cbn [fold_left]. assert (Hr' : 0 < level r') by (apply Hpos; now left).
  assert (Hrest : forall r, In r reqs -> 0 < level r) by (intros x Hx; apply Hpos; now right).
  destruct Hin as [->|Hin].
  - apply (fold_keep_preserves (keeps (raw_skill_type_id r) (level r))).
    + intros m0 r0. apply keeps_step.
    + exact Hrest.
    + destruct (base_step m r Hr' Hm) as [Hu Hp].
      split; [exact Hu|]. split; [exact Hp|apply keep_highest_new].
  - apply IH; [exact Hrest|exact Hin|now apply base_step].
Qed.

(** Every requirement of one of the types is held after the first loop. *)
Lemma direct_new (types : list EveType) (m : NumMap Q) (t : EveType) (r : RawSkillReq) :
  In t types -> In r (extractSkillReqs SKILL_REQ_ATTRS t) ->
  uniq m /\ positive m ->
  keeps (raw_skill_type_id r) (level r)
        (fold_left (fun reqs type =>
                      fold_left keep_highest (extractSkillReqs SKILL_REQ_ATTRS type) reqs)
                   types m).
Proof.
  revert m. induction types as [|t' types IH]; intros m Ht Hr Hm; [contradiction|].
  cbn [fold_left]. destruct Ht as [->|Ht].
  - apply (direct_preserves (keeps (raw_skill_type_id r) (level r))).
    + intros m0 r0. apply keeps_step.
    + apply fold_keep_new; [apply extract_positive|exact Hr|exact Hm].
  - apply IH; [exact Ht|exact Hr|].
    apply (fold_keep_preserves (fun m => uniq m /\ positive m)).
    + intros m0 r0. apply base_step.
    + apply extract_positive.
    + exact Hm.
Qed.

End Requirements.

(** ** The names of a plan *)

Section Names.

Import Plan Eve.
Local Open Scope Q_scope.

Variable getType : Q -> option EveType.
Hypothesis respects : respects_eq getType.

Lemma lookup_congr (a b : Q) : Qeq_bool a b = true -> getType a = getType b.
Proof. intros H. apply respects. now apply Qeq_bool_iff. Qed.

(** The first loop over the names: one lookup for each requirement. *)
Lemma names_found (ids : list Q) (names : NumMap str) (k : Q) (t : EveType) :
  getType k = Some t ->
  map_get k names = Some (t_name t)
  \/ (exists id, In id ids /\ Qeq_bool id k = true) ->
  map_get k (fold_left (fun names id =>
                          match getType id with
                          | Some type => map_set id (t_name type) names
                          | None => names
                          end) ids names)
  = Some (t_name t).
Proof.
  intros Hk. revert names. induction ids as [|id ids IH]; intros names H.
  - destruct H as [H|(id & [] & _)]. exact H.
  - cbn [fold_left]. apply IH.
    destruct (Qeq_bool id k) eqn:E.
    + left. rewrite (lookup_congr id k E), Hk, map_get_set, E. reflexivity.
    + destruct H as [H|(id' & [<-|Hin] & Hid)].
      * left. destruct (getType id); [|exact H]. now rewrite map_get_set, E.
      * congruence.
      * right. now exists id'.
Qed.

Lemma names_sound (ids : list Q) (names : NumMap str) :
  names_of getType names ->
  names_of getType
           (fold_left (fun names id =>
                         match getType id with
                         | Some type => map_set id (t_name type) names
                         | None => names
                         end) ids names).
Proof.
  revert names. induction ids as [|id ids IH]; intros names H; [exact H|].
  cbn [fold_left]. apply IH. destruct (getType id) as [ty|] eqn:E; [|exact H].
  intros k n. rewrite map_get_set. destruct (Qeq_bool id k) eqn:Ek; [|apply H].
  intros Hn. injection Hn as <-. exists ty. split; [|reflexivity].
  now rewrite <- (lookup_congr id k Ek).
Qed.

(** The second loop: one lookup for each support skill without a name. *)
Lemma support_names_sound (ids : list Q) (names : NumMap str) :
  names_of getType names ->
  names_of getType
           (fold_left (fun names supportId =>
                         if map_has supportId names then names
                         else match getType supportId with
                              | Some type => map_set supportId (t_name type) names
                              | None => names
                              end) ids names).
Proof.
  revert names. induction ids as [|id ids IH]; intros names H; [exact H|].
  cbn [fold_left]. apply IH. destruct (map_has id names); [exact H|].
  destruct (getType id) as [ty|] eqn:E; [|exact H].
  intros k n. rewrite map_get_set. destruct (Qeq_bool id k) eqn:Ek; [|apply H].
  intros Hn. injection Hn as <-. exists ty. split; [|reflexivity].
  now rewrite <- (lookup_congr id k Ek).
Qed.

Lemma support_names_found (ids : list Q) (names : NumMap str) (id : Q) (t : EveType) :
  names_of getType names -> In id ids -> getType id = Some t ->
  map_get id (fold_left (fun names supportId =>
                           if map_has supportId names then names
                           else match getType supportId with
                                | Some type => map_set supportId (t_name type) names
                                | None => names
                                end) ids names)
  = Some (t_name t).
Proof.
  intros Hn Hin Ht. revert names Hn. induction ids as [|id' ids IH]; intros names Hn;
    [contradiction|].
  cbn [fold_left]. destruct Hin as [->|Hin].
  - apply support_names. unfold map_has.
    destruct (map_get id names) as [n|] eqn:E.
    + destruct (Hn id n E) as (t' & Ht' & ->). congruence.
    + now rewrite Ht, map_get_set, Qeq_bool_refl.
  - apply IH; [exact Hin|]. apply (support_names_sound [id'] names Hn).
Qed.

(** After the loop over the support skills, each of them is held at four
    or above. *)
Lemma support_step_holds (m : NumMap Q) (id : Q) :
  (forall k v, In (k, v) m -> 4 <= v) ->
  holds (match map_get id m with
         | Some existing =>
             if Qeq_bool existing 0 || Stats.gt 4 existing
             then map_set id 4 m else m
         | None => map_set id 4 m
         end) id 4.
Proof.
  intros Hfloor. destruct (map_get id m) as [e|] eqn:E; [|apply set_holds].
  destruct (Qeq_bool e 0 || Stats.gt 4 e); [apply set_holds|].
  apply map_get_In in E. destruct E as (k & Hin & Hk).
  exists k, e. split; [exact Hin|]. split; [exact Hk|now apply (Hfloor k)].
Qed.

Lemma support_fold_holds (ids : list Q) (m : NumMap Q) (id : Q) :
  uniq m -> (forall k v, In (k, v) m -> 4 <= v) -> In id ids ->
  holds (fold_left (fun m supportId =>
                      match map_get supportId m with
                      | Some existing =>
                          if Qeq_bool existing 0 || Stats.gt 4 existing
                          then map_set supportId 4 m else m
                      | None => map_set supportId 4 m
                      end) ids m) id 4.
Proof.
  revert m. induction ids as [|id' ids IH]; intros m Hu Hfloor Hin; [contradiction|].
  cbn [fold_left]. destruct Hin as [->|Hin].
  - destruct (support_step_holds m id Hfloor) as (k & l & Hkl & Hk & Hle).
    destruct (support_fold ids _ (support_step_uniq m id Hu) (support_step_floor m id Hfloor))
      as (_ & Hr & _).
    destruct (Hr k l Hkl) as (l' & Hin' & Hle').
    exists k, l'. split; [exact Hin'|]. split; [exact Hk|].
    now apply Qle_trans with l.
  - apply IH; [now apply support_step_uniq|now apply support_step_floor|exact Hin].
Qed.

End Names.

(** The lookup of the small universe answers equal numbers alike. *)
Lemma sample_getType_respects : respects_eq sample_getType.
Proof.
  intros a b H. apply Qeq_bool_iff in H. unfold sample_getType.
  rewrite !(Qeq_bool_congr a b _ H). reflexivity.
Qed.

Lemma plan_type_In (getType : Q -> option Eve.EveType) (shipType : Eve.EveType)
      (f : Eve.Fitting) (t : Eve.EveType) :
  plan_type getType shipType f t ->
  In t (shipType :: omap (fun id => getType (inject_Z id)) (Plan.getAllModuleTypeIds f)).
Proof.
  intros [->|(m & Hm & Ht)]; [now left|]. right.
  rewrite <- list_elem_of_In, list_elem_of_omap. exists (Eve.m_type_id m).
  split; [|exact Ht]. rewrite list_elem_of_In. apply (module_ids f). now exists m.
Qed.

(** X26.  The Minimum stage forgets no direct requirement: when the type
    lookup answers equal numbers alike, every skill that the hull, a fitted
    module or a drone requires, and whose own lookup gives a name that is
    not empty, is listed in Minimum at the required level or above. *)
Theorem minimum_covers_direct_requirements
        (getType : Q -> option Eve.EveType) (SKILL_REQ_ATTRS : list (Z * Z))
        (localeCompare : str -> str -> Z)
        (fuel : nat) (shipType : Eve.EveType) (fitting : Eve.Fitting)
        (t : Eve.EveType) (r : Plan.RawSkillReq) :
  respects_eq getType ->
  plan_type getType shipType fitting t ->
  In r (Plan.extractSkillReqs SKILL_REQ_ATTRS t) ->
  named getType (Plan.raw_skill_type_id r) ->
  covers (minimum_stage (Plan.buildSkillPlan getType SKILL_REQ_ATTRS localeCompare
                                             fuel shipType fitting))
         (Plan.raw_skill_type_id r) (Plan.level r).
Proof.
  intros Hresp Hpt Hr (t0 & c & name & Hg & Hname).
  apply plan_type_In in Hpt.
  unfold Plan.buildSkillPlan, minimum_stage, covers. cbn [Eve.stages Eve.skills].
  match goal with
  | |- context [Plan.stage_skills _ ?all ?names] =>
      assert (Hk : keeps (Plan.raw_skill_type_id r) (Plan.level r) all);
      [|set (allReqs := all) in *]
  end.
  { apply (resolve_all_preserves getType SKILL_REQ_ATTRS
             (keeps (Plan.raw_skill_type_id r) (Plan.level r))).
    - intros m0 r0. apply keeps_step.
    - cbn [snd]. apply (direct_new SKILL_REQ_ATTRS _ [] t r Hpt Hr).
      split; [exact I|]. intros k l []. }
  destruct Hk as (Hu & Hp & k & l & Hin & Hk & Hle).
  exists (Eve.mkReq k (c :: name) l). cbn [Eve.skill_type_id Eve.required_level].
  split; [|split; [now apply Qeq_bool_iff|exact Hle]].
  apply stage_skills_In. exists k, l, c, name.
  split; [exact Hin|]. split; [|reflexivity].
  rewrite <- Hname. apply (names_found getType Hresp).
  - now rewrite (lookup_congr getType Hresp k _ Hk).
  - right. exists k. split; [|apply Qeq_bool_refl].
    unfold Plan.map_keys. now apply (in_map fst) in Hin.
Qed.

Lemma minimum_covers_direct_requirements_witness :
  covers (minimum_stage (Plan.buildSkillPlan sample_getType sample_req_attrs code_order
                                             8 sample_hull bare_fitting))
         (3332 # 1) (3 # 1).
Proof.
  apply (minimum_covers_direct_requirements
           sample_getType sample_req_attrs code_order 8 sample_hull bare_fitting
           sample_hull (Plan.mkRaw (3332 # 1) (3 # 1))).
  - exact sample_getType_respects.
  - left. reflexivity.
  - vm_compute. left. reflexivity.
  - eexists _, _, _. vm_compute. split; reflexivity.
Defined.

Lemma bump_fold_floor (l acc : Plan.NumMap Q) :
  (forall k v, In (k, v) acc -> (4 <= v)%Q) ->
  forall k v,
    In (k, v) (fold_left (fun m entry =>
                            Plan.map_set (fst entry) (Stats.Math_max (snd entry) 4) m)
                         l acc) ->
    (4 <= v)%Q.
Proof.
  revert acc. induction l as [|e l IH]; intros acc Hacc; [exact Hacc|].
  cbn [fold_left]. apply IH. intros k v Hin.
  apply map_set_In in Hin. destruct Hin as [Hin| ->]; [now apply (Hacc k)|].
  apply Math_max_r.
Qed.

(** X27.  The Recommended stage holds the support skills: when the type
    lookup answers equal numbers alike, every support skill whose lookup
    gives a name that is not empty is listed in Recommended at four or
    above, whatever the hull and the fitting. *)
Theorem recommended_covers_support_skills
        (getType : Q -> option Eve.EveType) (SKILL_REQ_ATTRS : list (Z * Z))
        (localeCompare : str -> str -> Z)
        (fuel : nat) (shipType : Eve.EveType) (fitting : Eve.Fitting) (id : Z) :
  respects_eq getType ->
  In id SUPPORT_SKILL_IDS.values ->
  named getType (inject_Z id) ->
  covers (recommended_stage (Plan.buildSkillPlan getType SKILL_REQ_ATTRS localeCompare
                                                 fuel shipType fitting))
         (inject_Z id) 4.
Proof.
  intros Hresp Hid (t & c & name & Hg & Hname).
  unfold Plan.buildSkillPlan, recommended_stage, covers. cbn [Eve.stages Eve.skills].
  match goal with
  | |- context [Plan.stage_skills _ (fold_left ?f Plan.support_ids ?bumped)
                                  (fold_left ?g Plan.support_ids ?names)] =>
      assert (Hh : holds (fold_left f Plan.support_ids bumped) (inject_Z id) 4);
      [|assert (Hn : Plan.map_get (inject_Z id) (fold_left g Plan.support_ids names)
                     = Some (Eve.t_name t));
        [|set (stage2Map := fold_left f Plan.support_ids bumped) in *;
          set (names' := fold_left g Plan.support_ids names) in *]]
  end.
  { apply support_fold_holds.
    - apply bump_fold_uniq. exact I.
    - apply bump_fold_floor. intros k v [].
    - unfold Plan.support_ids. apply in_map. exact Hid. }
  { apply (support_names_found getType Hresp).
    - apply (names_sound getType Hresp). intros k n H. discriminate.
    - unfold Plan.support_ids. apply in_map. exact Hid.
    - exact Hg. }
  destruct Hh as (k & l & Hin & Hk & Hle).
  exists (Eve.mkReq k (c :: name) l). cbn [Eve.skill_type_id Eve.required_level].
  split; [|split; [apply Qeq_bool_iff; exact Hk|exact Hle]].
  apply stage_skills_In. exists k, l, c, name.
  split; [exact Hin|]. split; [|reflexivity].
  rewrite (map_get_congr k (inject_Z id) names' Hk), Hn, Hname. reflexivity.
Qed.

Lemma recommended_covers_support_skills_witness :
  covers (recommended_stage (Plan.buildSkillPlan sample_getType sample_req_attrs
                                                 code_order 8 sample_hull bare_fitting))
         (inject_Z SUPPORT_SKILL_IDS.CPU_MANAGEMENT) 4.
Proof.
  apply (recommended_covers_support_skills
           sample_getType sample_req_attrs code_order 8 sample_hull bare_fitting
           SUPPORT_SKILL_IDS.CPU_MANAGEMENT).
  - exact sample_getType_respects.
  - left. reflexivity.
  - eexists _, _, _. vm_compute. split; reflexivity.
Defined.

(** ** Filling a rack twice *)

Section FillTwice.

Import Store Eve.

Variable num : Stats.Numerics.

(** The hardpoints of the stats are those of the hull, whatever is
    fitted and whatever the skills. *)
Lemma hardpoints_of_ship (ship : EveType) (f : Fitting) (mode : SkillMode)
      (skills : option (gmap Z Q)) :
  let s := fst (computeStatsWithSkills num ship f mode skills) in
  turret_hardpoints s = Stats.shipAttr ship ATTR.TURRET_SLOTS_LEFT 0
  /\ launcher_hardpoints s = Stats.shipAttr ship ATTR.LAUNCHER_SLOTS_LEFT 0.
Proof.
  unfold computeStatsWithSkills. destruct mode; [split; reflexivity| |].
  - split; reflexivity.
  - destruct skills; split; reflexivity.
Qed.

Lemma commit_stats (ship : EveType) (updated : Fitting) (w : World) :
  stats (store (commit num ship updated w))
  = Some (fst (computeStatsWithSkills num ship updated (skillMode (store w))
                                      (skillMap (store w)))).
Proof. unfold commit. destruct (computeStatsWithSkills num ship updated _ _). reflexivity. Qed.

(** The count of the fitted hardpoints, from any start. *)
Lemma used_fold (isTurret isLauncher : bool) (slots : list (option FittedModule))
      (acc : nat) :
  let step := fun used (slot : option FittedModule) =>
                match slot with
                | None => used
                | Some m =>
                    let used :=
                      if isTurret && has_effect (effects m) 42 then S used else used in
                    if isLauncher && has_effect (effects m) 40 then S used else used
                end in
  fold_left step slots acc = acc + fold_left step slots 0.
Proof.
  cbv zeta. revert acc. induction slots as [|s slots IH]; intros acc; [cbn; lia|].
  cbn [fold_left]. rewrite IH. symmetry. rewrite IH.
  destruct s as [m|]; [|lia].
  destruct (isTurret && has_effect (effects m) 42),
           (isLauncher && has_effect (effects m) 40); lia.
Qed.

Lemma used_cons (isTurret isLauncher : bool) (s : option FittedModule)
      (slots : list (option FittedModule)) :
  isTurret || isLauncher = true ->
  hardpoints_used isTurret isLauncher (s :: slots)
  = hardpoints_used isTurret isLauncher [s] + hardpoints_used isTurret isLauncher slots.
Proof.
  intros H. unfold hardpoints_used. rewrite H. cbn [fold_left].
  apply used_fold.
Qed.

(** Every slot that the loop fills adds to the count of the hardpoints. *)
Lemma fill_loop_used (md : ModuleData) (st : SlotType) (used : nat) (limit : Q)
      (slots : list (option FittedModule)) (i filled : nat) (w : World) :
  let isTurret := has_effect (md_effects md) 42 in
  let isLauncher := has_effect (md_effects md) 40 in
  isTurret || isLauncher = true ->
  let r := fill_loop md st true used limit slots i filled w in
  hardpoints_used isTurret isLauncher slots + (snd (fst r) - filled)
  <= hardpoints_used isTurret isLauncher (fst (fst r))
  /\ filled <= snd (fst r).
Proof.
  cbv zeta. intros Hlim. revert i filled w.
  induction slots as [|s slots IH]; intros i filled w.
  - cbn. lia.
  - destruct s as [m|]; cbn [fill_loop].
    + specialize (IH (S i) filled w).
      destruct (fill_loop md st true used limit slots (S i) filled w) as [[rest' filled'] w'].
      cbn [fst snd] in *. rewrite (used_cons _ _ (Some m) slots Hlim).
      rewrite (used_cons _ _ (Some m) rest' Hlim). lia.
    + destruct (true && _).
      * cbn [fst snd]. lia.
      * destruct (generateId w) as [id w1].
        specialize (IH (S i) (S filled) w1).
        destruct (fill_loop md st true used limit slots (S i) (S filled) w1)
          as [[rest' filled'] w'].
        cbn [fst snd] in *. rewrite (used_cons _ _ None slots Hlim).
        rewrite (used_cons _ _ (Some _) rest' Hlim).
        assert (H1 : hardpoints_used (has_effect (md_effects md) 42)
                                     (has_effect (md_effects md) 40)
                                     [Some (place md id st (Z.of_nat i))] >= 1).
        { unfold hardpoints_used. rewrite Hlim. cbn [fold_left place effects].
          destruct (has_effect (md_effects md) 42), (has_effect (md_effects md) 40);
            cbn; lia. }
        assert (H0 : hardpoints_used (has_effect (md_effects md) 42)
                                     (has_effect (md_effects md) 40) [None] = 0).
        { unfold hardpoints_used. rewrite Hlim. reflexivity. }
        lia.
Qed.

(** A rack that was filled has no room for one more module of the
    kind. *)
Lemma refill_nothing (md : ModuleData) (st : SlotType) (limit : Q)
      (slots : list (option FittedModule)) (w w2 : World) :
  let isTurret := has_effect (md_effects md) 42 in
  let isLauncher := has_effect (md_effects md) 40 in
  let limited := isTurret || isLauncher in
  let r := fill_loop md st limited (hardpoints_used isTurret isLauncher slots)
                     limit slots 0 0 w in
  let slots' := fst (fst r) in
  fill_loop md st limited (hardpoints_used isTurret isLauncher slots') limit slots' 0 0 w2
  = (slots', 0, w2).
Proof.
  cbv zeta.
  set (isTurret := has_effect (md_effects md) 42).
  set (isLauncher := has_effect (md_effects md) 40).
  set (used := hardpoints_used isTurret isLauncher slots).
  pose proof (fill_loop_count md st (isTurret || isLauncher) used limit slots 0 0 w) as H1.
  cbv zeta in H1. destruct H1 as (Hn & _ & Hc & _).
  assert (Hu : isTurret || isLauncher = true ->
               used + snd (fst (fill_loop md st true used limit slots 0 0 w))
               <= hardpoints_used isTurret isLauncher
                    (fst (fst (fill_loop md st true used limit slots 0 0 w)))).
  { intros Hl. pose proof (fill_loop_used md st used limit slots 0 0 w Hl) as H.
    cbv zeta in H. fold isTurret isLauncher used in H. lia. }
  set (slots' := fst (fst (fill_loop md st (isTurret || isLauncher) used limit slots 0 0 w)))
    in *.
  set (used' := hardpoints_used isTurret isLauncher slots').
  assert (Hroom : count_empty slots' = 0
                  \/ (isTurret || isLauncher = true
                      /\ Z.to_nat (Qceiling limit - Z.of_nat used') = 0)).
  { destruct (isTurret || isLauncher) eqn:El.
    - specialize (Hu eq_refl). fold slots' in Hu. fold used' in Hu.
      destruct (Nat.le_gt_cases (count_empty slots)
                                (Z.to_nat (Qceiling limit - Z.of_nat used))) as [Hle|Hgt].
      + left. lia.
      + right. split; [reflexivity|]. lia.
    - left. lia. }
  clear Hn Hc Hu. clearbody slots' used'.
  assert (H : forall i, fill_loop md st (isTurret || isLauncher) used' limit slots' i 0 w2
                        = (slots', 0, w2)).
  { destruct Hroom as [Hce|[Hl Hr]].
    - induction slots' as [|s rest IH]; intros i; [reflexivity|].
      destruct s as [m|]; [|discriminate]. cbn [fill_loop].
      rewrite (IH Hce (S i)). reflexivity.
    - rewrite Hl. induction slots' as [|s rest IH]; intros i; [reflexivity|].
      destruct s as [m|]; cbn [fill_loop].
      + rewrite (IH (S i)). reflexivity.
      + rewrite limit_reached, Hr. reflexivity. }
  apply H.
Qed.

End FillTwice.

(** The length as a number depends on the length only. *)
Lemma length_Q_eq {A} (l l' : list A) :
  length l = length l' -> Stats.length_Q l = Stats.length_Q l'.
Proof. unfold Stats.length_Q. now intros ->. Qed.

(** The store stays in sync along a list of actions. *)
Lemma sync_fold (num : Stats.Numerics) (actions : list Action) (w : Store.World) :
  in_sync num w -> in_sync num (fold_left (step num) actions w).
Proof.
  revert w. induction actions as [|a actions IH]; intros w Hw; [exact Hw|].
  cbn [fold_left]. apply IH. now apply step_in_sync.
Qed.

Lemma world_two_turrets_in_sync : in_sync sample_numerics world_two_turrets.
Proof.
  apply (sync_fold sample_numerics
           [ASetShip (lit "t0") sample_ship None;
            AModule (CallAddModule (lit "t1") Eve.high 0 turret_data);
            AModule (CallAddModule (lit "t2") Eve.high 1 turret_data)]
           (Store.initial Eve.none)).
  unfold in_sync, Store.initial. cbn. auto.
Qed.

(** X28.  Filling is idempotent: on a store whose stats are those of its
    fitting, a second [fillSlots] with the same slot type and module
    changes nothing, whatever the time of the call.  The first call has
    filled every empty slot, or as many as the hardpoints of the hull
    allow. *)
Theorem fillSlots_twice (num : Stats.Numerics) (now now' : str)
        (slotType : Eve.SlotType) (md : Store.ModuleData) (w : Store.World) :
  in_sync num w ->
  Store.fillSlots num now' slotType md (Store.fillSlots num now slotType md w)
  = Store.fillSlots num now slotType md w.
Proof.
  intros Hs. unfold in_sync in Hs. cbv zeta in Hs.
  destruct (Store.fitting (Store.store w)) as [f|] eqn:Ef;
    [|assert (H : forall t, Store.fillSlots num t slotType md w = w)
        by (intros t; unfold Store.fillSlots; now rewrite Ef);
      now rewrite !H].
  destruct (Store.shipType (Store.store w)) as [ship|] eqn:Es; [|contradiction].
  destruct Hs as [Hst _].
  destruct (Store.getSlotArrayKey slotType) as [key|] eqn:Ek;
    [|assert (H : forall t, Store.fillSlots num t slotType md w = w)
        by (intros t; unfold Store.fillSlots; now rewrite Ef, Es, Hst, Ek);
      now rewrite !H].
  set (isTurret := Store.has_effect (Store.md_effects md) 42).
  set (isLauncher := Store.has_effect (Store.md_effects md) 40).
  set (slots := Store.get_slots key f).
  set (used := Store.hardpoints_used isTurret isLauncher slots).
  pose proof (hardpoints_of_ship num ship f (Store.skillMode (Store.store w))
                                 (Store.skillMap (Store.store w))) as [Ht Hl].
  set (limit := if isTurret then Stats.shipAttr ship ATTR.TURRET_SLOTS_LEFT 0
                else if isLauncher then Stats.shipAttr ship ATTR.LAUNCHER_SLOTS_LEFT 0
                     else Stats.length_Q slots).
  set (r := Store.fill_loop md slotType (isTurret || isLauncher) used limit slots 0 0 w).
  assert (H : forall t,
             Store.fillSlots num t slotType md w
             = match snd (fst r) with
               | O => w
               | S _ => Store.commit num ship (Store.with_slots key (fst (fst r)) t f)
                                     (snd r)
               end).
  { intros t. unfold Store.fillSlots. rewrite Ef, Es, Hst, Ek. cbv zeta.
    rewrite Ht, Hl. unfold Store.cloneFitting.
    fold slots isTurret isLauncher. fold used. fold limit. fold r.
    now destruct r as [[slots' filled] w']. }
  destruct (snd (fst r)) as [|filled] eqn:En; [now rewrite !H|].
  rewrite (H now).
  set (w1 := Store.commit num ship (Store.with_slots key (fst (fst r)) now f) (snd r)).
  assert (Hstore : Store.store (snd r) = Store.store w) by apply fill_loop_store.
  unfold Store.fillSlots. unfold w1 at 1 2 3.
  rewrite commit_fitting, commit_shipType, commit_stats, Hstore, Es, Ek. cbv zeta.
  unfold Store.cloneFitting. rewrite get_with_slots.
  pose proof (hardpoints_of_ship num ship (Store.with_slots key (fst (fst r)) now f)
                (Store.skillMode (Store.store w)) (Store.skillMap (Store.store w)))
    as [Ht' Hl'].
  rewrite Ht', Hl'. fold isTurret isLauncher.
  assert (Hlen : Stats.length_Q (fst (fst r)) = Stats.length_Q slots).
  { apply length_Q_eq. apply (fill_loop_count md slotType (isTurret || isLauncher)
                                used limit slots 0 0 w). }
  rewrite Hlen. fold limit.
  pose proof (refill_nothing md slotType limit slots w w1) as Hre. cbv zeta in Hre.
  fold isTurret isLauncher in Hre. fold used in Hre. fold r in Hre.
  rewrite Hre. reflexivity.
Qed.

Lemma fillSlots_twice_witness :
  Store.fillSlots sample_numerics (lit "t4") Eve.high turret_data
    (Store.fillSlots sample_numerics (lit "t3") Eve.high turret_data world_two_turrets)
  = Store.fillSlots sample_numerics (lit "t3") Eve.high turret_data world_two_turrets.
Proof.
  apply (fillSlots_twice sample_numerics (lit "t3") (lit "t4") Eve.high turret_data
                         world_two_turrets).
  exact world_two_turrets_in_sync.
Defined.

(** ** Meta levels and the capacitor drain *)

Lemma ge_weaken (x a b : Q) : (b <= a)%Q -> Stats.ge x a = true -> Stats.ge x b = true.
Proof.
  unfold Stats.ge. intros Hab H. apply Qle_bool_iff in H. apply Qle_bool_iff.
  now apply Qle_trans with a.
Qed.

(** X29.  The colour of a module follows from its label: two modules
    that [getMetaLabel] gives the same label are given the same colour by
    [getMetaColor], whatever their meta and tech levels. *)
Theorem same_label_same_color (metaLevel techLevel metaLevel' techLevel' : option Q) :
  Meta.getMetaLabel metaLevel techLevel = Meta.getMetaLabel metaLevel' techLevel' ->
  Meta.getMetaColor metaLevel techLevel = Meta.getMetaColor metaLevel' techLevel'.
Proof.
  assert (H75 : forall x, Stats.ge x 7 = true -> Stats.ge x 5 = true)
    by (intros x; now apply ge_weaken).
  unfold Meta.getMetaLabel, Meta.getMetaColor.
  destruct (Meta.is_tech techLevel 2), (Meta.is_tech techLevel' 2);
    try reflexivity; try (repeat match goal with
                                 | |- context [if ?b then _ else _] => destruct b
                                 end; discriminate).
  destruct (Meta.is_tech techLevel 3), (Meta.is_tech techLevel' 3);
    try reflexivity; try (repeat match goal with
                                 | |- context [if ?b then _ else _] => destruct b
                                 end; discriminate).
  destruct (Stats.ge (Meta.or_zero metaLevel) 10),
           (Stats.ge (Meta.or_zero metaLevel') 10);
    try reflexivity; try (repeat match goal with
                                 | |- context [if ?b then _ else _] => destruct b
                                 end; discriminate).
  pose proof (H75 (Meta.or_zero metaLevel)) as H1.
  pose proof (H75 (Meta.or_zero metaLevel')) as H2.
  destruct (Stats.ge (Meta.or_zero metaLevel) 7), (Stats.ge (Meta.or_zero metaLevel') 7);
    try rewrite (H1 eq_refl); try rewrite (H2 eq_refl); try reflexivity;
    destruct (Stats.ge (Meta.or_zero metaLevel) 5), (Stats.ge (Meta.or_zero metaLevel') 5);
    try reflexivity; try discriminate;
    destruct (Stats.ge (Meta.or_zero metaLevel) 1), (Stats.ge (Meta.or_zero metaLevel') 1);
    try reflexivity; discriminate.
Qed.

Lemma same_label_same_color_witness :
  Meta.getMetaColor (Some 8%Q) None = Meta.getMetaColor (Some (17 # 2)%Q) (Some 1%Q).
Proof.
  apply (same_label_same_color (Some 8%Q) None (Some (17 # 2)%Q) (Some 1%Q)).
  vm_compute. reflexivity.
Defined.

Lemma drain_step_nonneg (d : Q) (m : Eve.FittedModule) :
  (0 <= d)%Q -> (0 <= Stats.drain_step d m)%Q.
Proof.
  intros Hd. unfold Stats.drain_step. cbv zeta.
  destruct (Stats.gt _ 0 && Stats.gt _ 0) eqn:E; [|exact Hd].
  apply andb_true_iff in E. destruct E as [Hc Ht].
  apply gt_true_lt in Hc, Ht.
  set (c := Stats.modAttr m ATTR.MODULE_ACTIVATION_COST 0) in *.
  set (t := Stats.modAttr m ATTR.MODULE_CYCLE_TIME 0) in *.
  assert (Hpos : (0 < c / (t / 1000))%Q).
  { apply Qlt_shift_div_l.
    - apply Qlt_shift_div_l; [reflexivity|]. now rewrite Qmult_0_l.
    - now rewrite Qmult_0_l. }
  lra.
Qed.

(** X30.  The capacitor drain is never negative: for every hull and
    fitting, whatever the attributes of the fitted modules,
    [calcCapacitor] reports a drain per second of zero or more. *)
Theorem drain_never_negative (num : Stats.Numerics) (shipType : Eve.EveType)
        (fitting : Eve.Fitting) :
  (0 <= Eve.drain_per_second (Stats.calcCapacitor num shipType fitting))%Q.
Proof.
  unfold Stats.calcCapacitor. cbn [Eve.drain_per_second].
  assert (H : forall l d, (0 <= d)%Q -> (0 <= fold_left Stats.drain_step l d)%Q).
  { induction l as [|m l IH]; intros d Hd; [exact Hd|].
    cbn [fold_left]. apply IH. now apply drain_step_nonneg. }
  apply H. apply Qle_refl.
Qed.
